(** * Cyber-parc intranet: the REST handlers of the API server

    A shallow embedding of [backend/server] (the Express application):
    its helpers ([getTableColumns], [resolveColumn], [getForeignKeyTarget]),
    the SQL statements it sends and its request handlers, and of the pages
    of the client that call them.

    Conventions of the embedding.
    - A JavaScript value is a [jsval]; a number is [NaN], an integer that
      JavaScript prints in digits, or any other number (a fraction, an
      infinity), kept by the text JavaScript prints for it.
    - A request body is a finite map from keys to [jsval]; reading an absent
      key gives [JUndefined], as a property access does.
    - The database is a record of tables.  A table carries its column
      catalogue (what [information_schema.columns] answers), its rows as maps
      from column name to SQL value, and the counter of its sequence.  A
      statement that names a column the table does not have raises, as
      PostgreSQL does; the handler's [catch] turns that into status 500.
    - Identifiers and references are INTEGER columns, as in the two tables
      the server creates itself: a parameter outside the range of a 32-bit
      integer is refused.
    - Foreign keys are enforced when rows are deleted, by the rule the
      catalogue records for each key; the referenced column is [id].
    - A sequence is not transactional: a value once drawn stays drawn.
    - A string is the UTF-8 encoding of its text.  Trimming follows the white
      space of ECMAScript.  Case folding is worked out here for ASCII text;
      for text with other characters it is left to the platform. *)

From Stdlib Require Import Ascii.
From stdpp Require Import base numbers strings pretty list gmap sorting.

Open Scope string_scope.
Open Scope list_scope.
Open Scope Z_scope.

(** ** JavaScript values *)

Inductive jsnum :=
| NaN
| Int (z : Z)
| NonInt (text : string).   (* a fraction or an infinity, as JavaScript prints it *)

Inductive jsval :=
| JUndefined
| JNull
| JBool (b : bool)
| JNum (n : jsnum)
| JStr (s : string)
| JObj                      (* a plain object: only its truthiness is used *)
| JDate (t : Z).            (* a Date, as node-pg returns for timestamps *)

#[global] Instance jsnum_eq_dec : EqDecision jsnum.
Proof. solve_decision. Defined.
#[global] Instance jsval_eq_dec : EqDecision jsval.
Proof. solve_decision. Defined.

(** [if (v)], [!v], [a && b] on values. *)
Definition truthy (v : jsval) : bool :=
  match v with
  | JUndefined | JNull => false
  | JBool b => b
  | JNum NaN => false
  | JNum (Int z) => negb (z =? 0)
  | JNum (NonInt _) => true
  | JStr s => negb (bool_decide (s = ""))
  | JObj | JDate _ => true
  end.

(** Bodies are JSON objects; [field b k] is [b.k]. *)
Abbreviation body := (gmap string jsval).

Definition field (b : body) (k : string) : jsval := default JUndefined (b !! k).

(** [Object.prototype.hasOwnProperty.call(req.body || {}, key)] *)
Definition hasOwnProperty (b : body) (k : string) : bool := bool_decide (is_Some (b !! k)).

(** ** Strings: [toLowerCase], [trim] and SQL's [LOWER] *)

Definition lower_ascii (a : ascii) : ascii :=
  let n := nat_of_ascii a in
  if ((65 <=? n) && (n <=? 90))%nat then ascii_of_nat (n + 32) else a.

Fixpoint lower_letters (s : string) : string :=
  match s with
  | EmptyString => EmptyString
  | String a s' => String (lower_ascii a) (lower_letters s')
  end.

(** Text without a character beyond ASCII: every byte is below 128. *)
Fixpoint ascii_only (s : string) : bool :=
  match s with
  | EmptyString => true
  | String a s' => (nat_of_ascii a <? 128)%nat && ascii_only s'
  end.

(** The case tables of Unicode belong to the platform.  [js_lower] is
    [String.prototype.toLowerCase] on a text that has a character beyond
    ASCII; it never gives the empty string, so it hands back the first byte
    and the rest.  [pg_lower] is [LOWER] of the database on such a text. *)
Class Unicode := {
  js_lower : string → ascii * string;
  pg_lower : string → string
}.

Definition toLowerCase `{Unicode} (s : string) : string :=
  if ascii_only s then lower_letters s
  else String (js_lower s).1 (js_lower s).2.

(** WhiteSpace and LineTerminator of ECMAScript: TAB, LF, VT, FF, CR, SP in
    one byte; U+00A0 in two; U+1680, U+2000 to U+200A, U+2028, U+2029,
    U+202F, U+205F, U+3000 and U+FEFF in three. *)
Definition is_space (a : ascii) : bool :=
  let n := nat_of_ascii a in
  ((n =? 32) || ((9 <=? n) && (n <=? 13)))%nat.

Definition is_space2 (a b : ascii) : bool :=
  ((nat_of_ascii a =? 194) && (nat_of_ascii b =? 160))%nat.

Definition is_space3 (a b c : ascii) : bool :=
  let x := nat_of_ascii a in
  let y := nat_of_ascii b in
  let z := nat_of_ascii c in
  (((x =? 225) && (y =? 154) && (z =? 128))
   || ((x =? 226) && (y =? 128)
       && (((128 <=? z) && (z <=? 138)) || (z =? 168) || (z =? 169) || (z =? 175)))
   || ((x =? 226) && (y =? 129) && (z =? 159))
   || ((x =? 227) && (y =? 128) && (z =? 128))
   || ((x =? 239) && (y =? 187) && (z =? 191)))%nat.

Fixpoint trimStart (s : string) : string :=
  match s with
  | EmptyString => EmptyString
  | String a s1 =>
      if is_space a then trimStart s1
      else
        match s1 with
        | EmptyString => s
        | String b s2 =>
            if is_space2 a b then trimStart s2
            else
              match s2 with
              | EmptyString => s
              | String c s3 => if is_space3 a b c then trimStart s3 else s
              end
        end
  end.

(** From the first byte on after which only white space follows, the text
    is dropped. *)
Fixpoint trimEnd (s : string) : string :=
  match s with
  | EmptyString => EmptyString
  | String a s' =>
      if bool_decide (trimStart s = EmptyString) then EmptyString else String a (trimEnd s')
  end.

Definition trim (s : string) : string := trimEnd (trimStart s).

(** ** SQL values, rows, tables *)

Inductive sqlval :=
| SNull
| SInt (z : Z)
| SText (s : string)
| STime (t : Z).

#[global] Instance sqlval_eq_dec : EqDecision sqlval.
Proof. solve_decision. Defined.

(** [a = b] in a WHERE or ON clause: never true on NULL. *)
Definition sql_eq (a b : sqlval) : bool :=
  match a, b with
  | SNull, _ | _, SNull => false
  | _, _ => bool_decide (a = b)
  end.

(** [LOWER(x)] *)
Definition sql_lower `{Unicode} (a : sqlval) : sqlval :=
  match a with
  | SText s => SText (if ascii_only s then lower_letters s else pg_lower s)
  | _ => a
  end.

(** What node-pg hands back for a column. *)
Definition js_of_sql (a : sqlval) : jsval :=
  match a with
  | SNull => JNull
  | SInt z => JNum (Int z)
  | SText s => JStr s
  | STime t => JDate t
  end.

Abbreviation row := (gmap string sqlval).

Definition get (r : row) (c : string) : sqlval := default SNull (r !! c).

(** How a column is filled when an INSERT does not name it. *)
Inductive coldefault :=
| DfNull
| DfSerial        (* SERIAL: the next value of the table's sequence *)
| DfNow.          (* DEFAULT NOW() *)

Record table := {
  cols : list (string * coldefault);
  rows : list row;
  serial : Z
}.

Definition colnames (t : table) : list string := (cols t).*1.

Inductive tablename := TUser | TCompany | TPost | TComment | TMessage.

#[global] Instance tablename_eq_dec : EqDecision tablename.
Proof. solve_decision. Defined.

(** What the database does with the rows that reference a deleted row:
    ON DELETE NO ACTION (the default), CASCADE or SET NULL. *)
Inductive fk_rule := NoAction | Cascade | SetNull.

#[global] Instance fk_rule_eq_dec : EqDecision fk_rule.
Proof. solve_decision. Defined.

(** A foreign key: the referencing table and column, the referenced table
    as [information_schema] spells it, and its delete rule. *)
Record fkey := {
  fk_table : tablename;
  fk_column : string;
  fk_target : string;
  fk_on_delete : fk_rule
}.

(** The names under which the statements address the tables. *)
Definition table_name (t : tablename) : string :=
  match t with
  | TUser => "User"
  | TCompany => "Company"
  | TPost => "Post"
  | TComment => "Comment"
  | TMessage => "Message"
  end.

Record db := {
  User : table;
  Company : table;
  Post : table;
  Comment : table;
  Message : table;
  fkeys : list fkey;
  (* pg_type joined with pg_enum: each enum type with its labels in sort order *)
  enums : list (string * list string)
}.

Definition tbl (d : db) (t : tablename) : table :=
  match t with
  | TUser => User d
  | TCompany => Company d
  | TPost => Post d
  | TComment => Comment d
  | TMessage => Message d
  end.

Definition set_tbl (d : db) (t : tablename) (x : table) : db :=
  match t with
  | TUser => {| User := x; Company := Company d; Post := Post d; Comment := Comment d;
                Message := Message d; fkeys := fkeys d; enums := enums d |}
  | TCompany => {| User := User d; Company := x; Post := Post d; Comment := Comment d;
                   Message := Message d; fkeys := fkeys d; enums := enums d |}
  | TPost => {| User := User d; Company := Company d; Post := x; Comment := Comment d;
                Message := Message d; fkeys := fkeys d; enums := enums d |}
  | TComment => {| User := User d; Company := Company d; Post := Post d; Comment := x;
                   Message := Message d; fkeys := fkeys d; enums := enums d |}
  | TMessage => {| User := User d; Company := Company d; Post := Post d; Comment := Comment d;
                   Message := x; fkeys := fkeys d; enums := enums d |}
  end.

Definition set_rows (t : table) (rs : list row) : table :=
  {| cols := cols t; rows := rs; serial := serial t |}.

(** ** Results of statements and responses of handlers *)

Inductive result (A : Type) :=
| Ok (a : A)
| Throw (msg : string).
Arguments Ok {A} a.
Arguments Throw {A} msg.

#[global] Instance result_ret : MRet result := λ A a, Ok a.
#[global] Instance result_bind : MBind result := λ A B k m,
  match m with
  | Ok a => k a
  | Throw e => Throw e
  end.

(** JSON sent back: a value, an object, or an array. *)
#[warnings="-register-all"]
Inductive json :=
| JV (v : jsval)
| JO (fields : list (string * json))
| JA (items : list json).

Record response := {
  status : nat;
  payload : json
}.

(** [res.json(x)] answers 200; [res.status(n).json({ message })] answers [n]. *)
Definition res_json (j : json) : response := {| status := 200; payload := j |}.
Definition res_message (n : nat) (m : string) : response :=
  {| status := n; payload := JO [("message", JV (JStr m))] |}.

(** A result row as JSON, field by field. *)
Definition json_of_fields (l : list (string * sqlval)) : json :=
  JO (map (λ kv, (kv.1, JV (js_of_sql kv.2))) l).

Definition json_field (j : json) (k : string) : option json :=
  match j with
  | JO fs => snd <$> List.find (λ kv, bool_decide (kv.1 = k)) fs
  | _ => None
  end.

(** ** Helpers of the server *)

(** [getTableColumns]: the column names of the table, in catalogue order
    (a JavaScript [Set] keeps insertion order). *)
Definition getTableColumns (d : db) (t : tablename) : list string := colnames (tbl d t).

(** [columns.has(name)] *)
Definition has (columns : list string) (name : string) : bool := bool_decide (name ∈ columns).

(** The [lowerMap] that [resolveColumn] builds: later columns overwrite
    earlier ones with the same lower-case form. *)
Definition lowerMap `{Unicode} (columns : list string) : gmap string string :=
  fold_left (λ m column, <[toLowerCase column := column]> m) columns ∅.

Fixpoint resolveCandidates `{Unicode} (m : gmap string string) (candidates : list string)
  : option string :=
  match candidates with
  | [] => None
  | candidate :: rest =>
      match m !! toLowerCase candidate with
      | Some match_ => if truthy (JStr match_) then Some match_ else resolveCandidates m rest
      | None => resolveCandidates m rest
      end
  end.

Definition resolveColumn `{Unicode} (columns candidates : list string) : option string :=
  resolveCandidates (lowerMap columns) candidates.

(** [getForeignKeyTarget]: the table referenced by the first foreign key
    declared on the column, or null. *)
Definition getForeignKeyTarget (d : db) (t : tablename) (columnName : string) : option string :=
  fk_target <$>
    List.find (λ k, bool_decide (fk_table k = t) && bool_decide (fk_column k = columnName)) (fkeys d).

(** A statement may name only columns of the table. *)
Definition has_cols (t : table) (cs : list string) : bool :=
  forallb (has (colnames t)) cs.

Definition no_column : string := "column does not exist".

(** ** The relational operators the statements are built from *)

(** ORDER BY ... ASC puts NULL last; DESC is the converse order. *)
Definition sql_le (a b : sqlval) : bool :=
  match a, b with
  | _, SNull => true
  | SNull, _ => false
  | SInt x, SInt y => x <=? y
  | SInt _, _ => true
  | SText _, SInt _ => false
  | SText x, SText y => String.leb x y
  | SText _, STime _ => true
  | STime x, STime y => x <=? y
  | STime _, _ => false
  end.

Definition asc {A} (key : A → sqlval) : relation A := λ x y, sql_le (key x) (key y) = true.
Definition desc {A} (key : A → sqlval) : relation A := λ x y, sql_le (key y) (key x) = true.

#[global] Instance asc_dec {A} (key : A → sqlval) x y : Decision (asc key x y).
Proof. unfold asc. apply _. Defined.
#[global] Instance desc_dec {A} (key : A → sqlval) x y : Decision (desc key x y).
Proof. unfold desc. apply _. Defined.

Definition order_by_asc {A} (key : A → sqlval) (l : list A) : list A := merge_sort (asc key) l.
Definition order_by_desc {A} (key : A → sqlval) (l : list A) : list A := merge_sort (desc key) l.

(** a JOIN b ON on *)
Definition inner_join {A B} (on : A → B → bool) (l : list A) (r : list B) : list (A * B) :=
  flat_map (λ a, map (λ b, (a, b)) (List.filter (on a) r)) l.

(** a LEFT JOIN b ON on *)
Definition left_join {A B} (on : A → B → bool) (l : list A) (r : list B) : list (A * option B) :=
  flat_map (λ a, match List.filter (on a) r with
                 | [] => [(a, None)]
                 | ms => map (λ b, (a, Some b)) ms
                 end) l.

(** GROUP BY: the rows that agree on the key, each group once. *)
Fixpoint insert_group {A K} `{EqDecision K} (k : K) (x : A) (g : list (K * list A))
  : list (K * list A) :=
  match g with
  | [] => [(k, [x])]
  | (k', xs) :: g' =>
      if decide (k = k') then (k', x :: xs) :: g' else (k', xs) :: insert_group k x g'
  end.

Definition group_by {A K} `{EqDecision K} (key : A → K) (l : list A) : list (K * list A) :=
  foldr (λ x g, insert_group (key x) x g) [] l.

(** COUNT(x): the rows where x is not NULL. *)
Definition sql_count {A} (x : A → sqlval) (l : list A) : Z :=
  Z.of_nat (length (List.filter (λ a, negb (bool_decide (x a = SNull))) l)).

(** LIMIT n *)
Definition limit {A} (n : nat) (l : list A) : list A := take n l.

(** A column of the optional side of a LEFT JOIN. *)
Definition get_opt (r : option row) (c : string) : sqlval :=
  match r with
  | Some r => get r c
  | None => SNull
  end.

(** INSERT INTO t (named columns) VALUES (...) RETURNING the new row.
    Unnamed columns take their default; a serial default draws from the
    sequence. *)
Definition default_value (now : Z) (t : table) (df : coldefault) : sqlval :=
  match df with
  | DfNull => SNull
  | DfSerial => SInt (serial t)
  | DfNow => STime now
  end.

Definition new_row (now : Z) (t : table) (named : list (string * sqlval)) : row :=
  list_to_map
    (map (λ cd : string * coldefault,
            (cd.1, match (list_to_map named : gmap string sqlval) !! cd.1 with
                   | Some v => v
                   | None => default_value now t cd.2
                   end))
         (cols t)).

Definition draws_serial (t : table) (named : list (string * sqlval)) : bool :=
  existsb (λ cd : string * coldefault,
             match cd.2 with
             | DfSerial => negb (has named.*1 cd.1)
             | _ => false
             end) (cols t).

Definition sql_insert (now : Z) (t : table) (named : list (string * sqlval))
  : result (row * table) :=
  if has_cols t named.*1 && bool_decide (NoDup named.*1) then
    let r := new_row now t named in
    Ok (r, {| cols := cols t;
              rows := rows t ++ [r];
              serial := if draws_serial t named then serial t + 1 else serial t |})
  else Throw no_column.

(** INSERT ... RETURNING columns *)
Definition sql_insert_returning (now : Z) (t : table) (named : list (string * sqlval))
  (returning : list string) : result (row * table) :=
  if has_cols t returning then sql_insert now t named else Throw no_column.

(** UPDATE t SET sets WHERE cond RETURNING *: the updated rows and the table. *)
Definition sql_update (t : table) (sets : list (string * sqlval)) (cond : row → bool)
  : result (list row * table) :=
  if has_cols t sets.*1 then
    let upd := λ r : row, if cond r then (list_to_map sets : row) ∪ r else r in
    Ok (map upd (List.filter cond (rows t)), set_rows t (map upd (rows t)))
  else Throw no_column.

(** DELETE FROM t WHERE cond RETURNING: the deleted rows and the table. *)
Definition sql_delete (t : table) (cond : row → bool) : list row * table :=
  (List.filter cond (rows t), set_rows t (List.filter (λ r, negb (cond r)) (rows t))).

(** DELETE FROM t WHERE cond, as a change of the stored state. *)
Definition delete_rows (d : db) (t : tablename) (cond : row → bool) : db :=
  set_tbl d t (sql_delete (tbl d t) cond).2.

(** x IN (list) *)
Definition sql_in (x : sqlval) (l : list sqlval) : bool := existsb (sql_eq x) l.

(** The table that [ensureMessagesTable] creates. *)
Definition message_columns : list (string * coldefault) :=
  [("id", DfSerial); ("senderCompanyId", DfNull); ("receiverCompanyId", DfNull);
   ("content", DfNull); ("createdAt", DfNow)].


(** Its two foreign keys, both ON DELETE CASCADE. *)
Definition message_fkeys : list fkey :=
  [{| fk_table := TMessage; fk_column := "senderCompanyId"; fk_target := "Company";
      fk_on_delete := Cascade |};
   {| fk_table := TMessage; fk_column := "receiverCompanyId"; fk_target := "Company";
      fk_on_delete := Cascade |}].

(** The foreign keys in force. *)
Definition constraints (d : db) : list fkey := message_fkeys ++ fkeys d.

(** ** Deleting under foreign keys

    When rows leave a table, every foreign key that targets the table is
    looked at: CASCADE deletes the referencing rows, which sets off the keys
    that target their table in turn; SET NULL clears the referencing column;
    NO ACTION is checked when the statement ends, against every row that has
    left by then. *)

Definition key_of (r : row) : sqlval := get r "id".

(** The row references one of the keys in [gone]. *)
Definition refers (k : fkey) (gone : list sqlval) (r : row) : bool :=
  sql_in (get r (fk_column k)) gone.

Definition set_null (k : fkey) (gone : list sqlval) (r : row) : row :=
  if refers k gone r then <[fk_column k := SNull]> r else r.

Definition null_rows (d : db) (k : fkey) (gone : list sqlval) : db :=
  set_tbl d (fk_table k) (set_rows (tbl d (fk_table k))
                                   (map (set_null k gone) (rows (tbl d (fk_table k))))).

(** The state of a DELETE under way: the tables, and the keys of the rows
    that have left, each with its table. *)
Abbreviation deleting := (db * list (tablename * sqlval))%type.

Definition fk_step (cascade : tablename → list sqlval → deleting → option deleting)
  (t : tablename) (gone : list sqlval) (k : fkey) (s : deleting) : option deleting :=
  if bool_decide (fk_target k = table_name t) then
    match List.filter (refers k gone) (rows (tbl s.1 (fk_table k))) with
    | [] => Some s
    | hit =>
        match fk_on_delete k with
        | NoAction => Some s
        | SetNull => Some (null_rows s.1 k gone, s.2)
        | Cascade =>
            cascade (fk_table k) (map key_of hit)
                    (delete_rows s.1 (fk_table k) (refers k gone),
                     s.2 ++ map (λ r, (fk_table k, key_of r)) hit)
        end
    end
  else Some s.

(** Every level of a cascade deletes a row, so [fuel] above the number of
    rows is never used up. *)
Fixpoint on_delete (fuel : nat) (ks : list fkey) (t : tablename) (gone : list sqlval)
  (s : deleting) : option deleting :=
  match fuel with
  | O => None
  | S fuel =>
      foldl (λ acc k, acc ≫= fk_step (on_delete fuel ks) t gone k) (Some s) ks
  end.

Definition row_count (d : db) : nat :=
  (length (rows (User d)) + length (rows (Company d)) + length (rows (Post d))
   + length (rows (Comment d)) + length (rows (Message d)))%nat.

(** No row is left that references, through the key, a row that has left. *)
Definition no_action_ok (k : fkey) (s : deleting) : bool :=
  forallb (λ r : row,
             negb (existsb (λ g : tablename * sqlval,
                              bool_decide (fk_target k = table_name g.1)
                              && sql_eq (get r (fk_column k)) g.2) s.2))
          (rows (tbl s.1 (fk_table k))).

Definition fk_violation : string := "update or delete violates foreign key constraint".

(** DELETE FROM t WHERE cond RETURNING, under the foreign keys in force. *)
Definition sql_delete_from (d : db) (t : tablename) (cond : row → bool) : result (list row * db) :=
  let deleted := List.filter cond (rows (tbl d t)) in
  let gone := map key_of deleted in
  match on_delete (S (row_count d)) (constraints d) t gone
                  (delete_rows d t cond, map (λ v, (t, v)) gone) with
  | Some s =>
      if forallb (λ k, match fk_on_delete k with
                       | NoAction => no_action_ok k s
                       | _ => true
                       end) (constraints d)
      then Ok (deleted, s.1)
      else Throw fk_violation
  | None => Throw "stack depth limit exceeded"
  end.

(** A row as node-pg returns it for RETURNING *: every column of the table. *)
Definition row_fields (t : table) (r : row) : list (string * sqlval) :=
  map (λ c, (c, get r c)) (colnames t).

(** [a ?? b] *)
Definition nullish_or (a b : jsval) : jsval :=
  match a with
  | JUndefined | JNull => b
  | _ => a
  end.

(** [String(v)] *)
Definition js_String (v : jsval) : string :=
  match v with
  | JUndefined => "undefined"
  | JNull => "null"
  | JBool b => if b then "true" else "false"
  | JNum NaN => "NaN"
  | JNum (Int z) => pretty z
  | JNum (NonInt text) => text
  | JStr s => s
  | JObj => "[object Object]"
  | JDate t => pretty t
  end.

(** [/^[A-Za-z0-9_]+$/.test(s)] *)
Definition is_word_char (a : ascii) : bool :=
  let n := nat_of_ascii a in
  (((48 <=? n) && (n <=? 57)) || ((65 <=? n) && (n <=? 90)) || ((97 <=? n) && (n <=? 122))
   || (n =? 95))%nat.

Fixpoint all_word_chars (s : string) : bool :=
  match s with
  | EmptyString => true
  | String a s' => is_word_char a && all_word_chars s'
  end.

Definition is_word (s : string) : bool := negb (bool_decide (s = "")) && all_word_chars s.

(** [values.indexOf(x) >= 0 ? others[index] : dflt] over two lists of equal length *)
Fixpoint at_index_of (x : string) (values others : list string) (dflt : string) : string :=
  match values, others with
  | v :: vs, o :: os => if bool_decide (v = x) then o else at_index_of x vs os dflt
  | _, _ => dflt
  end.

(** A quoted identifier names exactly the column it spells, so the embedding
    passes the column name itself. *)
Definition quoteIdentifier (value : string) : string := value.

(** [a || b] on values *)
Definition js_or (a b : jsval) : jsval := if truthy a then a else b.

(** The range of INTEGER. *)
Definition int4 (z : Z) : bool := (-2147483648 <=? z) && (z <=? 2147483647).

(** What becomes of a statement that a handler sends inside a transaction:
    it runs, or it fails for a reason of its own (a lost connection, a
    constraint, a type).  An INSERT that fails may have drawn from the
    sequence of its table before it failed. *)
Inductive fate := Runs | Fails (drew : bool).

(** ** A small installation, for the examples *)

Definition sample_compare (p h : string) : bool := bool_decide (h = ("hashed:" ++ p)%string).
Definition sample_hash (p : string) : string := ("hashed:" ++ p)%string.
Definition sample_number (s : string) : jsnum := NaN.
Definition sample_pg_int (s : string) : option Z := None.
Definition no_fault (n : nat) : fate := Runs.

(** A platform that leaves text beyond ASCII as it is. *)
Definition sample_unicode : Unicode :=
  {| js_lower := λ s, match s with
                      | String a rest => (a, rest)
                      | EmptyString => (" "%char, EmptyString)
                      end;
     pg_lower := λ s, s |}.

Definition mkrow (l : list (string * sqlval)) : row := list_to_map l.

Definition sample_users : table :=
  {| cols := [("id", DfSerial); ("email", DfNull); ("password", DfNull); ("role", DfNull);
              ("companyId", DfNull)];
     rows := [mkrow [("id", SInt 1); ("email", SText "Admin@Parc.tn");
                     ("password", SText "hashed:secret"); ("role", SText "ADMIN");
                     ("companyId", SInt 1)];
              mkrow [("id", SInt 2); ("email", SText "contact@acme.tn");
                     ("password", SText "hashed:acme"); ("role", SText "company");
                     ("companyId", SInt 2)]];
     serial := 3 |}.

Definition sample_companies : table :=
  {| cols := [("id", DfSerial); ("name", DfNull); ("industry", DfNull); ("email", DfNull)];
     rows := [mkrow [("id", SInt 1); ("name", SText "Admin"); ("industry", SNull);
                     ("email", SNull)];
              mkrow [("id", SInt 2); ("name", SText "Acme"); ("industry", SText "IT");
                     ("email", SText "contact@acme.tn")]];
     serial := 3 |}.

Definition sample_posts : table :=
  {| cols := [("id", DfSerial); ("title", DfNull); ("content", DfNull); ("authorId", DfNull);
              ("createdAt", DfNow)];
     rows := [mkrow [("id", SInt 1); ("title", SText "Hello"); ("content", SText "First");
                     ("authorId", SInt 2); ("createdAt", STime 10)];
              mkrow [("id", SInt 2); ("title", SText "News"); ("content", SText "Second");
                     ("authorId", SInt 1); ("createdAt", STime 20)]];
     serial := 3 |}.

Definition sample_comments : table :=
  {| cols := [("id", DfSerial); ("content", DfNull); ("authorId", DfNull); ("postId", DfNull);
              ("createdAt", DfNow)];
     rows := [mkrow [("id", SInt 1); ("content", SText "Welcome"); ("authorId", SInt 1);
                     ("postId", SInt 1); ("createdAt", STime 11)];
              mkrow [("id", SInt 2); ("content", SText "Thanks"); ("authorId", SInt 2);
                     ("postId", SInt 1); ("createdAt", STime 12)]];
     serial := 3 |}.

Definition sample_messages : table :=
  {| cols := message_columns;
     rows := [mkrow [("id", SInt 1); ("senderCompanyId", SInt 1); ("receiverCompanyId", SInt 2);
                     ("content", SText "Bonjour"); ("createdAt", STime 5)]];
     serial := 2 |}.

Definition sample_db : db :=
  {| User := sample_users; Company := sample_companies; Post := sample_posts;
     Comment := sample_comments; Message := sample_messages;
     fkeys := [{| fk_table := TComment; fk_column := "authorId"; fk_target := "Company";
                  fk_on_delete := NoAction |}];
     enums := [("Role", ["ADMIN"; "COMPANY"])] |}.

Definition mkbody (l : list (string * jsval)) : body := list_to_map l.

Definition sample_login : body :=
  mkbody [("email", JStr " admin@parc.tn "); ("password", JStr "secret"); ("role", JStr "admin")].

(** The same installation with user-linked comments. *)
Definition sample_user_comments : table :=
  {| cols := [("id", DfSerial); ("content", DfNull); ("userId", DfNull); ("postId", DfNull);
              ("createdAt", DfNow)];
     rows := [mkrow [("id", SInt 1); ("content", SText "Welcome"); ("userId", SInt 1);
                     ("postId", SInt 1); ("createdAt", STime 11)]];
     serial := 2 |}.

Definition sample_db_user_linked : db :=
  {| User := sample_users; Company := sample_companies; Post := sample_posts;
     Comment := sample_user_comments; Message := sample_messages;
     fkeys := [{| fk_table := TComment; fk_column := "userId"; fk_target := "User";
                  fk_on_delete := Cascade |}];
     enums := [("Role", ["ADMIN"; "COMPANY"])] |}.

Definition sample_message : body :=
  mkbody [("senderCompanyId", JNum (Int 2)); ("receiverCompanyId", JNum (Int 1));
          ("content", JStr "Salut")].

Definition sample_post_of_stranger : body :=
  mkbody [("title", JStr "Hello"); ("userId", JNum (Int 99))].

Definition sample_comment_without_user : body :=
  mkbody [("content", JStr "Hi"); ("companyId", JNum (Int 2))].

Definition sample_logo_only : body := mkbody [("logo", JStr "x.png")].

Definition sample_login_no_password : body :=
  mkbody [("email", JStr "admin@parc.tn"); ("password", JStr "")].

(** The same address after a no-break space, U+00A0, in UTF-8. *)
Definition sample_login_nbsp : body :=
  mkbody [("email", JStr (String (ascii_of_nat 194) (String (ascii_of_nat 160) "admin@parc.tn")));
          ("password", JStr "secret")].

(** Requests whose userId does not fit an INTEGER. *)
Definition sample_post_unreadable : body :=
  mkbody [("title", JStr "Hello"); ("userId", JNum (Int 2147483648))].

Definition sample_comment_unreadable : body :=
  mkbody [("content", JStr "Hi"); ("userId", JNum (Int 2147483648))].

(** An installation whose comments name their author, a user, in the
    generic author column.  User 5 belongs to Acme and has written on a post
    of the other company. *)
Definition sample_staff : table :=
  {| cols := [("id", DfSerial); ("email", DfNull); ("password", DfNull); ("role", DfNull);
              ("companyId", DfNull)];
     rows := [mkrow [("id", SInt 1); ("email", SText "Admin@Parc.tn");
                     ("password", SText "hashed:secret"); ("role", SText "ADMIN");
                     ("companyId", SInt 1)];
              mkrow [("id", SInt 5); ("email", SText "contact@acme.tn");
                     ("password", SText "hashed:acme"); ("role", SText "company");
                     ("companyId", SInt 2)]];
     serial := 6 |}.

Definition sample_admin_posts : table :=
  {| cols := [("id", DfSerial); ("title", DfNull); ("content", DfNull); ("authorId", DfNull);
              ("createdAt", DfNow)];
     rows := [mkrow [("id", SInt 1); ("title", SText "News"); ("content", SText "Second");
                     ("authorId", SInt 1); ("createdAt", STime 20)]];
     serial := 2 |}.

Definition sample_authored_comments : table :=
  {| cols := [("id", DfSerial); ("content", DfNull); ("authorId", DfNull); ("postId", DfNull);
              ("createdAt", DfNow)];
     rows := [mkrow [("id", SInt 1); ("content", SText "Thanks"); ("authorId", SInt 5);
                     ("postId", SInt 1); ("createdAt", STime 21)];
              mkrow [("id", SInt 2); ("content", SText "Welcome"); ("authorId", SInt 1);
                     ("postId", SInt 1); ("createdAt", STime 22)]];
     serial := 3 |}.

Definition sample_author_key (rule : fk_rule) : fkey :=
  {| fk_table := TComment; fk_column := "authorId"; fk_target := "User"; fk_on_delete := rule |}.

Definition sample_db_authors (rule : fk_rule) : db :=
  {| User := sample_staff; Company := sample_companies; Post := sample_admin_posts;
     Comment := sample_authored_comments; Message := sample_messages;
     fkeys := [sample_author_key rule;
               {| fk_table := TComment; fk_column := "postId"; fk_target := "Post";
                  fk_on_delete := Cascade |};
               {| fk_table := TPost; fk_column := "authorId"; fk_target := "Company";
                  fk_on_delete := NoAction |};
               {| fk_table := TUser; fk_column := "companyId"; fk_target := "Company";
                  fk_on_delete := NoAction |}];
     enums := [("Role", ["ADMIN"; "COMPANY"])] |}.
Section Server.

Context {platform : Unicode}.

(** The bcryptjs calls, the numeric reading of a string by JavaScript
    ([Number(s)]) and by PostgreSQL (a text parameter read as an integer) are
    left to the environment. *)
Variable bcrypt_compare : string → string → bool.
Variable bcrypt_hash : string → string.
Variable js_number_of_string : string → jsnum.
Variable pg_int_of_string : string → option Z.

(** [Number(v)] *)
Definition Number (v : jsval) : jsnum :=
  match v with
  | JUndefined => NaN
  | JNull => Int 0
  | JBool b => Int (if b then 1 else 0)
  | JNum n => n
  | JStr s => js_number_of_string s
  | JObj => NaN
  | JDate t => Int t
  end.

Definition out_of_range : string := "value out of range for type integer".
Definition invalid_integer : string := "invalid input syntax for type integer".

(** A parameter compared with, or stored in, an INTEGER column.  node-pg
    sends a number as the text JavaScript prints for it, and PostgreSQL reads
    that text as a 32-bit integer or refuses it. *)
Definition bind_int (v : jsval) : result sqlval :=
  match v with
  | JUndefined | JNull => Ok SNull
  | JNum (Int z) => if int4 z then Ok (SInt z) else Throw out_of_range
  | JStr s => match pg_int_of_string s with
              | Some z => if int4 z then Ok (SInt z) else Throw out_of_range
              | None => Throw invalid_integer
              end
  | _ => Throw invalid_integer
  end.

(** A parameter stored in a text column; only strings and null occur in the
    claims, other values are sent as their text. *)
Definition bind_text (v : jsval) : sqlval :=
  match v with
  | JUndefined | JNull => SNull
  | JStr s => SText s
  | JNum (Int z) => SText (pretty z)
  | JNum NaN => SText "NaN"
  | JNum (NonInt text) => SText text
  | JBool b => SText (if b then "true" else "false")
  | JObj => SText "{}"
  | JDate t => STime t
  end.

(** [bcrypt.compare(password, hash)] rejects when either is not a string. *)
Definition bcrypt_compare_js (password hash : jsval) : result bool :=
  match password, hash with
  | JStr p, JStr h => Ok (bcrypt_compare p h)
  | _, _ => Throw "Illegal arguments"
  end.

(** *** POST /api/auth/login *)

Definition user_login_columns : list string := ["id"; "email"; "password"; "role"; "companyId"].

(** [WHERE LOWER(email) = $1] *)
Definition email_is (normalizedEmail : string) (r : row) : bool :=
  sql_eq (sql_lower (get r "email")) (SText normalizedEmail).

(** SELECT id, email, password, role, "companyId" FROM "User"
    WHERE LOWER(email) = $1 LIMIT 1 *)
Definition q_login_user (d : db) (normalizedEmail : string) : result (option row) :=
  if has_cols (User d) user_login_columns
  then Ok (List.find (email_is normalizedEmail) (rows (User d)))
  else Throw no_column.

Definition normalizeEmail (email : jsval) : string :=
  match email with
  | JStr s => toLowerCase (trim s)
  | _ => ""
  end.

Definition lower_if_string (v : jsval) : jsval :=
  match v with
  | JStr s => JStr (toLowerCase s)
  | _ => v
  end.

Definition requestedRole_of (role : jsval) : jsval :=
  match role with
  | JStr s => JStr (toLowerCase s)
  | _ => JNull
  end.

Definition safeUser (user : row) (userRole : jsval) : json :=
  JO [("id", JV (js_of_sql (get user "id")));
      ("email", JV (js_of_sql (get user "email")));
      ("role", JV userRole);
      ("companyId", JV (js_of_sql (get user "companyId")))].

Definition login_try (d : db) (normalizedEmail : string) (password role : jsval) : result response :=
  result ← q_login_user d normalizedEmail;
  match result with
  | None => Ok (res_message 401 "Invalid credentials.")
  | Some user =>
      let requestedRole := requestedRole_of role in
      let userRole := lower_if_string (js_of_sql (get user "role")) in
      if truthy requestedRole && negb (bool_decide (userRole = requestedRole))
      then Ok (res_message 401 "Invalid role for this account.")
      else
        matches ← bcrypt_compare_js password (js_of_sql (get user "password"));
        if negb matches
        then Ok (res_message 401 "Invalid credentials.")
        else Ok (res_json (JO [("token", JV (JStr "dev-session-token"));
                               ("user", safeUser user userRole)]))
  end.

Definition login (d : db) (b : body) : response :=
  let email := field b "email" in
  let password := field b "password" in
  let role := field b "role" in
  let normalizedEmail := normalizeEmail email in
  if negb (truthy (JStr normalizedEmail)) || negb (truthy password)
  then res_message 400 "Email and password are required."
  else
    match login_try d normalizedEmail password role with
    | Ok r => r
    | Throw _ => res_message 500 "Server error."
    end.

(** *** GET /api/companies *)

Definition optional_company_columns : list string :=
  ["industry"; "location"; "website"; "email"; "phone"; "status"; "description"].

(** [hasX ? 'c.x AS x' : 'NULL::text AS x'] *)
Definition select_or_null (present : bool) (c : string) (r : row) : sqlval :=
  if present then get r c else SNull.

(** [if (hasX) groupBy.push('c.x')] *)
Definition push_if (present : bool) (c : string) : list string :=
  if present then [c] else [].

(** SELECT c.id, c.name, the seven selects, COUNT(u.id)::int AS employees
    FROM "Company" c LEFT JOIN "User" u ON u."companyId" = c.id
    GROUP BY groupBy ORDER BY c.name ASC *)
Definition q_companies (d : db)
  (hasIndustry hasLocation hasWebsite hasEmail hasPhone hasStatus hasDescription : bool)
  : result (list (list (string * sqlval))) :=
  let groupBy :=
    ["id"; "name"] ++ push_if hasIndustry "industry" ++ push_if hasLocation "location"
      ++ push_if hasWebsite "website" ++ push_if hasEmail "email" ++ push_if hasPhone "phone"
      ++ push_if hasStatus "status" ++ push_if hasDescription "description" in
  if has_cols (Company d) groupBy && has_cols (User d) ["id"; "companyId"] then
    let joined :=
      left_join (λ c u : row, sql_eq (get u "companyId") (get c "id"))
                (rows (Company d)) (rows (User d)) in
    let groups := group_by (λ cu : row * option row, map (get cu.1) groupBy) joined in
    let selected :=
      flat_map (λ g : list sqlval * list (row * option row),
                  match g.2 with
                  | [] => []
                  | (c, _) :: _ =>
                      [[("id", get c "id");
                        ("name", get c "name");
                        ("industry", select_or_null hasIndustry "industry" c);
                        ("location", select_or_null hasLocation "location" c);
                        ("website", select_or_null hasWebsite "website" c);
                        ("email", select_or_null hasEmail "email" c);
                        ("phone", select_or_null hasPhone "phone" c);
                        ("status", select_or_null hasStatus "status" c);
                        ("description", select_or_null hasDescription "description" c);
                        ("employees",
                          SInt (sql_count (λ cu : row * option row, get_opt cu.2 "id") g.2))]]
                  end) groups in
    Ok (order_by_asc (λ r : list (string * sqlval), default SNull (snd <$> r !! 1%nat)) selected)
  else Throw no_column.

Definition list_companies (d : db) : response :=
  let companyColumns := getTableColumns d TCompany in
  let hasIndustry := has companyColumns "industry" in
  let hasLocation := has companyColumns "location" in
  let hasWebsite := has companyColumns "website" in
  let hasEmail := has companyColumns "email" in
  let hasPhone := has companyColumns "phone" in
  let hasStatus := has companyColumns "status" in
  let hasDescription := has companyColumns "description" in
  match q_companies d hasIndustry hasLocation hasWebsite hasEmail hasPhone hasStatus
                    hasDescription with
  | Ok companiesResult => res_json (JA (map json_of_fields companiesResult))
  | Throw _ => res_message 500 "Server error."
  end.

(** *** GET /api/forum/posts *)

Definition post_key (hasContent hasCategory : bool) (x : row * row * option row) : list sqlval :=
  let p := x.1.1 in
  let c := x.1.2 in
  [get p "id"; get p "title"; get p "createdAt"; get c "name"; get c "id"]
    ++ (if hasContent then [get p "content"] else [])
    ++ (if hasCategory then [get p "category"] else []).

Definition post_fields (hasContent hasCategory : bool) (p c : row) (comments : Z)
  : list (string * sqlval) :=
  [("id", get p "id");
   ("title", get p "title");
   ("content", if hasContent then get p "content" else get p "title");
   ("category", select_or_null hasCategory "category" p);
   ("createdAt", get p "createdAt");
   ("company", get c "name");
   ("companyId", get c "id");
   ("comments", SInt comments)].

(** The selected "createdAt", the key of ORDER BY p."createdAt". *)
Definition createdAt_of (r : list (string * sqlval)) : sqlval :=
  default SNull (snd <$> List.find (λ kv, bool_decide (kv.1 = "createdAt")) r).

(** SELECT p.id, p.title, content, category, p."createdAt", c.name AS company,
      c.id AS "companyId", COUNT(cm.id)::int AS comments
    FROM "Post" p JOIN "Company" c ON c.id = p."authorId"
    LEFT JOIN "Comment" cm ON cm."postId" = p.id
    GROUP BY groupBy ORDER BY p."createdAt" DESC LIMIT 100 *)
Definition q_forum_posts (d : db) (hasContent hasCategory : bool)
  : result (list (list (string * sqlval))) :=
  if has_cols (Post d) (["id"; "title"; "createdAt"; "authorId"]
                          ++ push_if hasContent "content" ++ push_if hasCategory "category")
     && has_cols (Company d) ["name"; "id"]
     && has_cols (Comment d) ["id"; "postId"] then
    let pc := inner_join (λ p c : row, sql_eq (get c "id") (get p "authorId"))
                         (rows (Post d)) (rows (Company d)) in
    let joined := left_join (λ (x : row * row) (cm : row), sql_eq (get cm "postId") (get x.1 "id"))
                            pc (rows (Comment d)) in
    let groups := group_by (post_key hasContent hasCategory) joined in
    let selected :=
      flat_map (λ g : list sqlval * list (row * row * option row),
                  match g.2 with
                  | [] => []
                  | (p, c, _) :: _ =>
                      [post_fields hasContent hasCategory p c
                         (sql_count (λ x : row * row * option row, get_opt x.2 "id") g.2)]
                  end) groups in
    Ok (limit 100 (order_by_desc createdAt_of selected))
  else Throw no_column.

Definition list_posts (d : db) : response :=
  let postColumns := getTableColumns d TPost in
  let hasContent := has postColumns "content" in
  let hasCategory := has postColumns "category" in
  match q_forum_posts d hasContent hasCategory with
  | Ok postsResult => res_json (JA (map json_of_fields postsResult))
  | Throw _ => res_message 500 "Server error."
  end.

(** *** GET /api/messages *)

Definition message_fields (m cs cr : row) : list (string * sqlval) :=
  [("id", get m "id");
   ("content", get m "content");
   ("createdAt", get m "createdAt");
   ("senderCompanyId", get m "senderCompanyId");
   ("receiverCompanyId", get m "receiverCompanyId");
   ("senderName", get cs "name");
   ("receiverName", get cr "name")].

(** SELECT m.id, m.content, m."createdAt", m."senderCompanyId",
      m."receiverCompanyId", cs.name AS "senderName", cr.name AS "receiverName"
    FROM "Message" m
    JOIN "Company" cs ON cs.id = m."senderCompanyId"
    JOIN "Company" cr ON cr.id = m."receiverCompanyId"
    WHERE m."senderCompanyId" = $1 OR m."receiverCompanyId" = $1
    ORDER BY m."createdAt" ASC *)
Definition q_messages (d : db) (companyId : sqlval) : result (list (list (string * sqlval))) :=
  if has_cols (Message d) ["id"; "content"; "createdAt"; "senderCompanyId"; "receiverCompanyId"]
     && has_cols (Company d) ["id"; "name"] then
    let ms := inner_join (λ m cs : row, sql_eq (get cs "id") (get m "senderCompanyId"))
                         (rows (Message d)) (rows (Company d)) in
    let msr := inner_join (λ (x : row * row) (cr : row),
                             sql_eq (get cr "id") (get x.1 "receiverCompanyId"))
                          ms (rows (Company d)) in
    let kept := List.filter (λ x : row * row * row,
                               sql_eq (get x.1.1 "senderCompanyId") companyId
                               || sql_eq (get x.1.1 "receiverCompanyId") companyId) msr in
    Ok (map (λ x : row * row * row, message_fields x.1.1 x.1.2 x.2)
            (order_by_asc (λ x : row * row * row, get x.1.1 "createdAt") kept))
  else Throw no_column.

(** [companyId] is [Number(req.query.companyId)]. *)
Definition list_messages (d : db) (companyId : jsnum) : response :=
  if negb (truthy (JNum companyId))
  then res_message 400 "companyId is required."
  else
    match (p ← bind_int (JNum companyId); q_messages d p) with
    | Ok messagesResult => res_json (JA (map json_of_fields messagesResult))
    | Throw _ => res_message 500 "Server error."
    end.

(** *** POST /api/forum/posts *)

(** SELECT "companyId" FROM "User" WHERE id = $1 LIMIT 1 *)
Definition q_user_company (d : db) (userId : jsval) : result (option row) :=
  if has_cols (User d) ["companyId"; "id"] then
    p ← bind_int userId;
    Ok (List.find (λ r, sql_eq (get r "id") p) (rows (User d)))
  else Throw no_column.

(** SELECT selected FROM "Company" WHERE id = $1 LIMIT 1 *)
Definition q_company_by_id (d : db) (selected : list string) (id : jsval) : result (option row) :=
  if has_cols (Company d) ("id" :: selected) then
    p ← bind_int id;
    Ok (List.find (λ r, sql_eq (get r "id") p) (rows (Company d)))
  else Throw no_column.

(** The first lines of both forum writers:
      let resolvedCompanyId = companyId ? Number(companyId) : null
      if (!resolvedCompanyId && userId) { ... rows[0]?.companyId ?? null } *)
Definition resolve_company (d : db) (companyId userId : jsval) : result jsval :=
  let resolvedCompanyId := if truthy companyId then JNum (Number companyId) else JNull in
  if negb (truthy resolvedCompanyId) && truthy userId then
    userResult ← q_user_company d userId;
    Ok (match userResult with
        | Some r => nullish_or (js_of_sql (get r "companyId")) JNull
        | None => JNull
        end)
  else Ok resolvedCompanyId.

Definition create_post_try (now : Z) (d : db) (title content category companyId userId : jsval)
  : result (response * db) :=
  resolvedCompanyId ← resolve_company d companyId userId;
  if negb (truthy resolvedCompanyId)
  then Ok (res_message 400 "Company is required to create a post.", d)
  else
    companyResult ← q_company_by_id d [] resolvedCompanyId;
    match companyResult with
    | None => Ok (res_message 400 "Company not found.", d)
    | Some _ =>
        let postColumns := getTableColumns d TPost in
        let hasContent := has postColumns "content" in
        let hasCategory := has postColumns "category" in
        let hasUpdatedAt := has postColumns "updatedAt" in
        authorId ← bind_int resolvedCompanyId;
        let named :=
          [("title", bind_text title); ("authorId", authorId)]
            ++ (if hasContent then [("content", bind_text (js_or content (JStr "")))] else [])
            ++ (if hasCategory then [("category", bind_text (js_or category JNull))] else [])
            ++ (if hasUpdatedAt then [("updatedAt", STime now)] else []) in
        '(post, t) ← sql_insert_returning now (Post d) named ["id"; "title"; "createdAt"];
        Ok (res_json
              (JO [("id", JV (js_of_sql (get post "id")));
                   ("title", JV (js_of_sql (get post "title")));
                   ("content", JV (if hasContent then js_or content (JStr "")
                                   else js_of_sql (get post "title")));
                   ("category", JV (if hasCategory then js_or category JNull else JNull));
                   ("createdAt", JV (js_of_sql (get post "createdAt")));
                   ("companyId", JV resolvedCompanyId);
                   ("comments", JV (JNum (Int 0)))]),
            set_tbl d TPost t)
    end.

Definition error_message (msg : string) : string :=
  if truthy (JStr msg) then msg else "Server error.".

Definition create_post (now : Z) (d : db) (b : body) : response * db :=
  let title := field b "title" in
  let content := field b "content" in
  let category := field b "category" in
  let companyId := field b "companyId" in
  let userId := field b "userId" in
  if negb (truthy title)
  then (res_message 400 "Title is required.", d)
  else
    match create_post_try now d title content category companyId userId with
    | Ok r => r
    | Throw msg => (res_message 500 (error_message msg), d)
    end.

(** *** POST /api/forum/posts/:id/comments *)

(** Lines 1155-1173: which column holds the author, and which value goes
    into it. *)
Definition comment_author (d : db) (companyIdColumn userIdColumn authorIdColumn : option string)
  (resolvedCompanyId resolvedUserId : jsval) : option string * jsval :=
  match companyIdColumn with
  | Some c => (Some c, resolvedCompanyId)
  | None =>
      match userIdColumn with
      | Some c => (Some c, resolvedUserId)
      | None =>
          match authorIdColumn with
          | Some c =>
              match getForeignKeyTarget d TComment c with
              | Some targetTable =>
                  if truthy (JStr targetTable) && bool_decide (toLowerCase targetTable = "user")
                  then (Some c, resolvedUserId)
                  else (Some c, resolvedCompanyId)
              | None => (Some c, resolvedCompanyId)
              end
          | None => (None, JNull)
          end
      end
  end.

(** Reading an identifier that no enclosing scope declares. *)
Definition reference_error {A} (name : string) : result A :=
  Throw (name ++ " is not defined")%string.

Definition post_comment_try (now : Z) (d : db) (postId : jsnum) (content companyId userId : jsval)
  : result (response * db) :=
  let resolvedUserId := if truthy userId then JNum (Number userId) else JNull in
  resolvedCompanyId ← resolve_company d companyId userId;
  if negb (truthy resolvedCompanyId)
  then Ok (res_message 400 "Company is required to comment.", d)
  else
    companyResult ← q_company_by_id d ["name"] resolvedCompanyId;
    match companyResult with
    | None => Ok (res_message 400 "Company not found.", d)
    | Some companyRow =>
        let commentColumns := getTableColumns d TComment in
        let postIdColumn := resolveColumn commentColumns ["postId"; "post_id"] in
        let createdAtColumn := resolveColumn commentColumns ["createdAt"; "created_at"] in
        let companyIdColumn := resolveColumn commentColumns ["companyId"; "company_id"] in
        let userIdColumn := resolveColumn commentColumns ["userId"; "user_id"] in
        let authorIdColumn := resolveColumn commentColumns ["authorId"; "author_id"] in
        match postIdColumn with
        | None => Ok (res_message 500 "Comment schema is missing post reference.", d)
        | Some postIdColumn =>
            let '(authorColumn, authorValue) :=
              comment_author d companyIdColumn userIdColumn authorIdColumn
                             resolvedCompanyId resolvedUserId in
            match authorColumn with
            | Some authorColumn =>
                if negb (truthy (JStr authorColumn)) || negb (truthy authorValue)
                then Ok (res_message 400 "Author is required to comment.", d)
                else
                  (* lines 1179-1187 build insertColumns and insertValues; line 1189
                     reads [updatedAtColumn], which this handler never declares *)
                  updatedAtColumn ← reference_error (A := option string) "updatedAtColumn";
                  author ← bind_int authorValue;
                  post ← bind_int (JNum postId);
                  let insertNamed :=
                    [("content", bind_text content); (authorColumn, author); (postIdColumn, post)]
                      ++ match createdAtColumn with
                         | Some c => [(c, STime now)]
                         | None => []
                         end
                      ++ match updatedAtColumn with
                         | Some c => [(c, STime now)]
                         | None => []
                         end in
                  '(comment, t) ← sql_insert_returning now (Comment d) insertNamed
                                     (["id"; "content"] ++ match createdAtColumn with
                                                           | Some c => [c]
                                                           | None => []
                                                           end);
                  Ok (res_json
                        (JO [("id", JV (js_of_sql (get comment "id")));
                             ("content", JV (js_of_sql (get comment "content")));
                             ("createdAt",
                               JV (match createdAtColumn with
                                   | Some c => js_or (js_of_sql (get comment c)) (JDate now)
                                   | None => JDate now
                                   end));
                             ("postId", JV (JNum postId));
                             ("companyId", JV resolvedCompanyId);
                             ("company", JV (js_of_sql (get companyRow "name")))]),
                      set_tbl d TComment t)
            | None => Ok (res_message 400 "Author is required to comment.", d)
            end
        end
    end.

(** [postId] is [Number(req.params.id)]. *)
Definition post_comment (now : Z) (d : db) (postId : jsnum) (b : body) : response * db :=
  let content := field b "content" in
  let companyId := field b "companyId" in
  let userId := field b "userId" in
  if negb (truthy (JNum postId)) || negb (truthy content)
  then (res_message 400 "Post and content are required.", d)
  else
    match post_comment_try now d postId content companyId userId with
    | Ok r => r
    | Throw msg => (res_message 500 (error_message msg), d)
    end.

(** *** POST /api/messages *)

(** [REFERENCES "Company"(id)] *)
Definition references_company (d : db) (v : sqlval) : bool :=
  existsb (λ c : row, sql_eq (get c "id") v) (rows (Company d)).

(** [PRIMARY KEY]: not null and not yet taken. *)
Definition fresh_key (t : table) (v : sqlval) : bool :=
  negb (bool_decide (v = SNull)) && forallb (λ r : row, negb (sql_eq (get r "id") v)) (rows t).

(** INSERT INTO "Message" ("senderCompanyId", "receiverCompanyId", content)
    VALUES ($1, $2, $3)
    RETURNING id, content, "createdAt", "senderCompanyId", "receiverCompanyId"
    under the constraints of the table's declaration: the three columns are
    NOT NULL, id is the primary key, both company columns reference
    "Company"(id).  The parameters are read before the statement runs; the
    row then takes its id from the sequence, and that value stays drawn when
    a constraint refuses the row. *)
Definition q_insert_message (now : Z) (d : db) (senderCompanyId receiverCompanyId content : jsval)
  : result row * db :=
  match (sender ← bind_int senderCompanyId;
         receiver ← bind_int receiverCompanyId;
         Ok (sender, receiver)) with
  | Throw e => (Throw e, d)
  | Ok (sender, receiver) =>
      let text := bind_text content in
      match sql_insert_returning now (Message d)
              [("senderCompanyId", sender); ("receiverCompanyId", receiver); ("content", text)]
              ["id"; "content"; "createdAt"; "senderCompanyId"; "receiverCompanyId"] with
      | Throw e => (Throw e, d)
      | Ok (m, t) =>
          let refused := set_tbl d TMessage (set_rows t (rows (Message d))) in
          if bool_decide (sender = SNull) || bool_decide (receiver = SNull)
             || bool_decide (text = SNull)
          then (Throw "null value violates not-null constraint", refused)
          else if negb (fresh_key (Message d) (get m "id"))
          then (Throw "duplicate key value violates unique constraint", refused)
          else if negb (references_company d sender && references_company d receiver)
          then (Throw "insert violates foreign key constraint", refused)
          else (Ok m, set_tbl d TMessage t)
      end
  end.

Definition returned_message (m : row) : list (string * sqlval) :=
  [("id", get m "id");
   ("content", get m "content");
   ("createdAt", get m "createdAt");
   ("senderCompanyId", get m "senderCompanyId");
   ("receiverCompanyId", get m "receiverCompanyId")].

Definition send_message (now : Z) (d : db) (b : body) : response * db :=
  let senderCompanyId := field b "senderCompanyId" in
  let receiverCompanyId := field b "receiverCompanyId" in
  let content := field b "content" in
  if negb (truthy senderCompanyId) || negb (truthy receiverCompanyId) || negb (truthy content)
  then (res_message 400 "senderCompanyId, receiverCompanyId and content are required.", d)
  else
    match q_insert_message now d senderCompanyId receiverCompanyId content with
    | (Ok m, d') => (res_json (json_of_fields (returned_message m)), d')
    | (Throw _, d') => (res_message 500 "Server error.", d')
    end.

(** *** PUT /api/admin/companies/:id *)

Definition company_fields : list string :=
  ["name"; "industry"; "location"; "website"; "email"; "phone"; "status"; "description"].

(** [value === '' ? null : value] *)
Definition normalized (value : jsval) : jsval :=
  if bool_decide (value = JStr "") then JNull else value.

(** The [forEach] over [Object.entries(fields)] of the update handler. *)
Definition update_sets (companyColumns : list string) (b : body) : list (string * sqlval) :=
  flat_map (λ key,
              if negb (has companyColumns key) then []
              else if negb (hasOwnProperty b key) then []
              else [(key, bind_text (normalized (field b key)))])
           company_fields.

Definition update_company_try (now : Z) (d : db) (companyId : jsnum) (b : body)
  : result (response * db) :=
  let companyColumns := getTableColumns d TCompany in
  let hasUpdatedAt := has companyColumns "updatedAt" in
  let hasUpdatedAtSnake := has companyColumns "updated_at" in
  let sets := update_sets companyColumns b in
  let nonempty := negb (bool_decide (sets = [])) in
  let sets :=
    if hasUpdatedAt && nonempty then sets ++ [("updatedAt", STime now)]
    else if hasUpdatedAtSnake && nonempty then sets ++ [("updated_at", STime now)]
    else sets in
  if bool_decide (sets = [])
  then Ok (res_message 400 "No fields to update.", d)
  else
    id ← bind_int (JNum companyId);
    if negb (has_cols (Company d) ["id"]) then Throw no_column
    else
      '(updated, t) ← sql_update (Company d) sets (λ r, sql_eq (get r "id") id);
      match updated with
      | [] => Ok (res_message 404 "Company not found.", set_tbl d TCompany t)
      | r :: _ => Ok (res_json (json_of_fields (row_fields t r)), set_tbl d TCompany t)
      end.

(** [companyId] is [Number(req.params.id)]. *)
Definition update_company (now : Z) (d : db) (companyId : jsnum) (b : body) : response * db :=
  if negb (truthy (JNum companyId))
  then (res_message 400 "Invalid company id.", d)
  else
    match update_company_try now d companyId b with
    | Ok r => r
    | Throw msg => (res_message 500 (error_message msg), d)
    end.

(** ** Statements on a checked-out client

    The two handlers that open a transaction run their statements on one
    client.  [store] is what the client sees, [saved] the committed state an
    open transaction would fall back to, [log] the statements issued so
    far.  Any statement but ROLLBACK may fail for reasons of its own (a lost
    connection, a constraint, a type): [fault n] says whether the n-th one
    does, and whether it had drawn from a sequence by then. *)

Inductive stmt :=
| SBegin
| SCommit
| SRollback
| SCatalog (t : tablename)     (* getTableColumns, sent through the pool *)
| SSelect (t : tablename)
| SInsert (t : tablename)
| SDelete (t : tablename)
| SEnum                        (* a read of pg_type and pg_enum *)
| SAlterType.

Record conn := {
  store : db;
  saved : option db;
  tick : nat;
  log : list stmt
}.

Variable fault : nat → fate.

Definition M (A : Type) : Type := conn → result A * conn.

#[global] Instance M_ret : MRet M := λ A a c, (Ok a, c).
#[global] Instance M_bind : MBind M := λ A B k m c,
  match m c with
  | (Ok a, c') => k a c'
  | (Throw e, c') => (Throw e, c')
  end.

Definition committed (c : conn) : db := default (store c) (saved c).

Definition issued (s : stmt) (c : conn) : conn :=
  {| store := store c; saved := saved c; tick := S (tick c); log := log c ++ [s] |}.

Definition with_store (d : db) (c : conn) : conn :=
  {| store := d; saved := saved c; tick := tick c; log := log c |}.

Definition with_saved (o : option db) (c : conn) : conn :=
  {| store := store c; saved := o; tick := tick c; log := log c |}.

Definition connection_failure : string := "connection failure".

(** The sequence of the table has given out its next value. *)
Definition draw (s : stmt) (d : db) : db :=
  match s with
  | SInsert t =>
      if draws_serial (tbl d t) []
      then set_tbl d t {| cols := cols (tbl d t); rows := rows (tbl d t);
                          serial := serial (tbl d t) + 1 |}
      else d
  | _ => d
  end.

(** [client.query(...)] *)
Definition query {A} (s : stmt) (q : db → result (A * db)) : M A := λ c,
  let c' := issued s c in
  match fault (tick c) with
  | Fails drew =>
      (Throw connection_failure, if drew then with_store (draw s (store c)) c' else c')
  | Runs =>
      match q (store c) with
      | Ok (a, d) => (Ok a, with_store d c')
      | Throw e => (Throw e, c')
      end
  end.

(** [pool.query(...)] from inside the handler: another connection, which
    sees the committed state and changes nothing. *)
Definition pool_read {A} (s : stmt) (q : db → result A) : M A := λ c,
  let c' := issued s c in
  match fault (tick c) with
  | Fails _ => (Throw connection_failure, c')
  | Runs =>
      match q (committed c) with
      | Ok a => (Ok a, c')
      | Throw e => (Throw e, c')
      end
  end.

Definition BEGIN : M unit := λ c,
  let c' := issued SBegin c in
  match fault (tick c) with
  | Fails _ => (Throw connection_failure, c')
  | Runs => (Ok (), with_saved (Some (committed c)) c')
  end.

Definition COMMIT : M unit := λ c,
  let c' := issued SCommit c in
  match fault (tick c) with
  | Fails _ => (Throw connection_failure, c')
  | Runs => (Ok (), with_saved None c')
  end.

(** The table as it was, with the sequence where it is now. *)
Definition restore_table (was is_now : table) : table :=
  {| cols := cols was; rows := rows was; serial := serial is_now |}.

(** What ROLLBACK goes back to: the state before the transaction, but no
    sequence is wound back. *)
Definition restored (was is_now : db) : db :=
  {| User := restore_table (User was) (User is_now);
     Company := restore_table (Company was) (Company is_now);
     Post := restore_table (Post was) (Post is_now);
     Comment := restore_table (Comment was) (Comment is_now);
     Message := restore_table (Message was) (Message is_now);
     fkeys := fkeys was;
     enums := enums was |}.

Definition ROLLBACK : M unit := λ c,
  (Ok (), with_saved None (with_store (restored (committed c) (store c)) (issued SRollback c))).

(** try { body } catch (error) { ROLLBACK; 500 } on a fresh client *)
Definition run_transaction (body : M response) (d : db) : response * conn :=
  match body {| store := d; saved := None; tick := 0; log := [] |} with
  | (Ok r, c) => (r, c)
  | (Throw e, c) => (res_message 500 (error_message e), (ROLLBACK c).2)
  end.

(** *** POST /api/admin/companies *)

Definition set_enums (d : db) (e : list (string * list string)) : db :=
  {| User := User d; Company := Company d; Post := Post d; Comment := Comment d;
     Message := Message d; fkeys := fkeys d; enums := e |}.

(** SELECT e.enumlabel FROM pg_type t JOIN pg_enum e ON t.oid = e.enumtypid
    WHERE lower(t.typname) = lower($1) ORDER BY e.enumsortorder *)
Definition q_enum_labels (d : db) (typname : string) : list string :=
  flat_map snd
    (List.filter (λ tl : string * list string,
                    bool_decide (toLowerCase tl.1 = toLowerCase typname)) (enums d)).

(** SELECT typname FROM pg_type WHERE typname = $1 OR typname = $2 LIMIT 1 *)
Definition q_type_name (d : db) (a b : string) : option string :=
  fst <$> List.find (λ tl : string * list string,
                       bool_decide (tl.1 = a) || bool_decide (tl.1 = b)) (enums d).

(** ALTER TYPE "typeName" ADD VALUE IF NOT EXISTS 'label' *)
Definition alter_type_add_value (d : db) (typeName label : string) : db :=
  set_enums d
    (map (λ tl : string * list string,
            if bool_decide (tl.1 = typeName) && negb (has tl.2 label)
            then (tl.1, tl.2 ++ [label]) else tl) (enums d)).

(** The columns and values of INSERT INTO "Company". *)
Definition company_insert_named (now : Z) (companyColumns : list string) (b : body)
  : list (string * sqlval) :=
  let hasUpdatedAt := has companyColumns "updatedAt" in
  let hasUpdatedAtSnake := has companyColumns "updated_at" in
  let name := match field b "name" with
              | JStr s => JStr (trim s)
              | v => v
              end in
  [("name", bind_text name)]
    ++ flat_map (λ key,
                   if bool_decide (key = "name") then []
                   else if negb (has companyColumns key) then []
                   else if bool_decide (field b key = JUndefined) then []
                   else [(key, bind_text (normalized (field b key)))])
                company_fields
    ++ (if hasUpdatedAt then [("updatedAt", STime now)]
        else if hasUpdatedAtSnake then [("updated_at", STime now)]
        else []).

(** INSERT INTO "Company" (...) VALUES (...) RETURNING * *)
Definition q_insert_company (now : Z) (named : list (string * sqlval)) (d : db)
  : result (row * db) :=
  '(r, t) ← sql_insert now (Company d) named;
  Ok (r, set_tbl d TCompany t).

(** SELECT id FROM "User" WHERE LOWER(email) = LOWER($1) LIMIT 1 *)
Definition q_existing_user (email : jsval) (d : db) : result (option row) :=
  if has_cols (User d) ["id"; "email"]
  then Ok (List.find (λ r, sql_eq (sql_lower (get r "email")) (sql_lower (bind_text email)))
                     (rows (User d)))
  else Throw no_column.

(** INSERT INTO "User" (email, password, role, "companyId" ...) VALUES (...) *)
Definition q_insert_user (now : Z) (named : list (string * sqlval)) (d : db)
  : result (unit * db) :=
  '(_, t) ← sql_insert now (User d) named;
  Ok ((), set_tbl d TUser t).

Definition preferredCompanyRole : string := "company".

(** The message quotes the word company. *)
Definition role_enum_message : string :=
  ("Role enum does not include " ++ String (ascii_of_nat 34) "company"
   ++ String (ascii_of_nat 34) " and could not be updated automatically.")%string.

(** Lines 349-387: the label to store as the user's role, or the early 400.
    Whether the database lets a label be used in the transaction that added
    it depends on the type of the role column, which the catalogue of the
    embedding does not record: a refusal is one of the failures of the
    INSERT that follows. *)
Definition company_role : M (response + string) :=
  enumValues ← query SEnum (λ d, Ok (q_enum_labels d "Role", d));
  if negb (bool_decide (enumValues = [])) then
    let normalizedEnumValues := map toLowerCase enumValues in
    if negb (has normalizedEnumValues preferredCompanyRole) then
      typeName ← query SEnum (λ d, Ok (q_type_name d "Role" "role", d));
      match typeName with
      | Some typeName =>
          if truthy (JStr typeName) && is_word typeName then
            query SAlterType
                  (λ d, Ok ((), alter_type_add_value d typeName preferredCompanyRole));;
            refreshedValues ← query SEnum (λ d, Ok (q_enum_labels d typeName, d));
            let refreshedNormalized := map toLowerCase refreshedValues in
            mret (inr (at_index_of preferredCompanyRole refreshedNormalized refreshedValues
                                   preferredCompanyRole))
          else
            ROLLBACK;;
            mret (inl (res_message 400 role_enum_message))
      | None =>
          ROLLBACK;;
          mret (inl (res_message 400 role_enum_message))
      end
    else
      mret (inr (at_index_of preferredCompanyRole normalizedEnumValues enumValues
                             preferredCompanyRole))
  else mret (inr preferredCompanyRole).

(** Lines 342-419: the paired user; [Some r] is an early return. *)
Definition company_user (now : Z) (b : body) (company : row) : M (option response) :=
  if truthy (field b "email") && truthy (field b "password") then
    userColumns ← pool_read (SCatalog TUser) (λ d, Ok (getTableColumns d TUser));
    let canCreateUser := forallb (has userColumns) ["email"; "password"; "role"; "companyId"] in
    let userHasUpdatedAt := has userColumns "updatedAt" in
    let userHasUpdatedAtSnake := has userColumns "updated_at" in
    if canCreateUser then
      role ← company_role;
      match role with
      | inl early => mret (Some early)
      | inr roleValue =>
          existingUser ← query (SSelect TUser)
                               (λ d, r ← q_existing_user (field b "email") d; Ok (r, d));
          match existingUser with
          | Some _ =>
              ROLLBACK;;
              mret (Some (res_message 400 "Email already exists."))
          | None =>
              let hashedPassword := bcrypt_hash (js_String (field b "password")) in
              let named :=
                [("email", bind_text (field b "email")); ("password", SText hashedPassword);
                 ("role", SText roleValue); ("companyId", get company "id")]
                  ++ (if userHasUpdatedAt then [("updatedAt", STime now)]
                      else if userHasUpdatedAtSnake then [("updated_at", STime now)]
                      else []) in
              query (SInsert TUser) (q_insert_user now named);;
              mret None
          end
      end
    else mret None
  else mret None.

Definition create_company_body (now : Z) (b : body) : M response :=
  BEGIN;;
  companyColumns ← pool_read (SCatalog TCompany) (λ d, Ok (getTableColumns d TCompany));
  company ← query (SInsert TCompany)
                  (q_insert_company now (company_insert_named now companyColumns b));
  early ← company_user now b company;
  match early with
  | Some r => mret r
  | None =>
      COMMIT;;
      mret (res_json (json_of_fields (map (λ c, (c, get company c)) companyColumns)))
  end.

Definition is_string (v : jsval) : bool :=
  match v with
  | JStr _ => true
  | _ => false
  end.

Definition create_company (now : Z) (d : db) (b : body) : response * conn :=
  if negb (truthy (field b "name")) || negb (is_string (field b "name"))
  then (res_message 400 "name is required.", {| store := d; saved := None; tick := 0; log := [] |})
  else run_transaction (create_company_body now b) d.

(** *** DELETE /api/admin/companies/:id *)

(** DELETE FROM "Message" WHERE "senderCompanyId" = $1 OR "receiverCompanyId" = $1 *)
Definition q_delete_messages (id : sqlval) (d : db) : result (unit * db) :=
  if has_cols (Message d) ["senderCompanyId"; "receiverCompanyId"] then
    '(_, d') ← sql_delete_from d TMessage
                 (λ r, sql_eq (get r "senderCompanyId") id
                       || sql_eq (get r "receiverCompanyId") id);
    Ok ((), d')
  else Throw no_column.

(** DELETE FROM t WHERE column = $1 *)
Definition q_delete_where (t : tablename) (column : string) (id : sqlval) (d : db)
  : result (unit * db) :=
  if has_cols (tbl d t) [column] then
    '(_, d') ← sql_delete_from d t (λ r, sql_eq (get r column) id);
    Ok ((), d')
  else Throw no_column.

(** DELETE FROM "Comment" WHERE column IN (SELECT id FROM t WHERE owner = $1) *)
Definition q_delete_comments_in (column : string) (t : tablename) (owner : string) (id : sqlval)
  (d : db) : result (unit * db) :=
  if has_cols (Comment d) [column] && has_cols (tbl d t) ["id"; owner] then
    let ids := map (λ r : row, get r "id")
                   (List.filter (λ r : row, sql_eq (get r owner) id) (rows (tbl d t))) in
    '(_, d') ← sql_delete_from d TComment (λ r, sql_in (get r column) ids);
    Ok ((), d')
  else Throw no_column.

(** DELETE FROM "Company" WHERE id = $1 RETURNING id *)
Definition q_delete_company (id : sqlval) (d : db) : result (list row * db) :=
  if has_cols (Company d) ["id"]
  then sql_delete_from d TCompany (λ r, sql_eq (get r "id") id)
  else Throw no_column.

(** [if (column) { await client.query(...) }] *)
Definition when_column {A} (o : option A) (k : A → M unit) : M unit :=
  match o with
  | Some x => k x
  | None => mret ()
  end.

Definition both {A B} (a : option A) (b : option B) : option (A * B) :=
  match a, b with
  | Some x, Some y => Some (x, y)
  | _, _ => None
  end.

(** The one parameter of every statement, [[companyId]]. *)
Definition with_param {A} (companyId : jsnum) (q : sqlval → db → result (A * db)) (d : db)
  : result (A * db) :=
  id ← bind_int (JNum companyId);
  q id d.

Definition delete_company_body (companyId : jsnum) : M response :=
  BEGIN;;
  userColumns ← pool_read (SCatalog TUser) (λ d, Ok (getTableColumns d TUser));
  postColumns ← pool_read (SCatalog TPost) (λ d, Ok (getTableColumns d TPost));
  commentColumns ← pool_read (SCatalog TComment) (λ d, Ok (getTableColumns d TComment));
  let userCompanyColumn := resolveColumn userColumns ["companyId"; "company_id"] in
  let postAuthorColumn := resolveColumn postColumns ["authorId"; "author_id"] in
  let commentPostColumn := resolveColumn commentColumns ["postId"; "post_id"] in
  let commentCompanyColumn := resolveColumn commentColumns ["companyId"; "company_id"] in
  let commentUserColumn := resolveColumn commentColumns ["userId"; "user_id"] in
  let commentAuthorColumn := resolveColumn commentColumns ["authorId"; "author_id"] in
  query (SDelete TMessage) (with_param companyId q_delete_messages);;
  when_column commentCompanyColumn
    (λ c, query (SDelete TComment)
                (with_param companyId (q_delete_where TComment (quoteIdentifier c))));;
  when_column commentAuthorColumn
    (λ c, query (SDelete TComment)
                (with_param companyId (q_delete_where TComment (quoteIdentifier c))));;
  when_column (both commentUserColumn userCompanyColumn)
    (λ cu, query (SDelete TComment)
                 (with_param companyId
                    (q_delete_comments_in (quoteIdentifier cu.1) TUser (quoteIdentifier cu.2))));;
  when_column (both commentPostColumn postAuthorColumn)
    (λ cp, query (SDelete TComment)
                 (with_param companyId
                    (q_delete_comments_in (quoteIdentifier cp.1) TPost (quoteIdentifier cp.2))));;
  when_column postAuthorColumn
    (λ c, query (SDelete TPost)
                (with_param companyId (q_delete_where TPost (quoteIdentifier c))));;
  when_column userCompanyColumn
    (λ c, query (SDelete TUser)
                (with_param companyId (q_delete_where TUser (quoteIdentifier c))));;
  deleteResult ← query (SDelete TCompany) (with_param companyId q_delete_company);
  match deleteResult with
  | [] =>
      ROLLBACK;;
      mret (res_message 404 "Company not found.")
  | _ :: _ =>
      COMMIT;;
      mret (res_json (JO [("id", JV (JNum companyId))]))
  end.

(** [companyId] is [Number(req.params.id)]. *)
Definition delete_company (d : db) (companyId : jsnum) : response * conn :=
  if negb (truthy (JNum companyId))
  then (res_message 400 "Invalid company id.",
        {| store := d; saved := None; tick := 0; log := [] |})
  else run_transaction (delete_company_body companyId) d.

(** ** Notions the properties are stated with *)

(** A supplied role is a non-empty string; it is accepted when it equals the
    stored role up to case. *)
Definition role_accepted (role : jsval) (stored : sqlval) : bool :=
  match role with
  | JStr r =>
      bool_decide (r = "")
      || bool_decide (JStr (toLowerCase r) = lower_if_string (js_of_sql stored))
  | _ => true
  end.

(** The body of a successful login. *)
Definition login_success (u : row) : json :=
  JO [("token", JV (JStr "dev-session-token"));
      ("user", JO [("id", JV (js_of_sql (get u "id")));
                   ("email", JV (js_of_sql (get u "email")));
                   ("role", JV (lower_if_string (js_of_sql (get u "role"))));
                   ("companyId", JV (js_of_sql (get u "companyId")))])].

(** The ten fields of a listed company. *)
Definition company_listing_fields : list string :=
  ["id"; "name"; "industry"; "location"; "website"; "email"; "phone"; "status";
   "description"; "employees"].

(** The primary keys of a table. *)
Definition ids (t : table) : list sqlval := map (λ r : row, get r "id") (rows t).

(** The posts that have an authoring company, each with that company. *)
Definition authored_posts (d : db) : list (row * row) :=
  inner_join (λ p c : row, sql_eq (get c "id") (get p "authorId"))
             (rows (Post d)) (rows (Company d)).

(** The comments of a post. *)
Definition comments_on (d : db) (p : row) : list row :=
  List.filter (λ cm : row, sql_eq (get cm "postId") (get p "id")) (rows (Comment d)).

(** Their number, as COUNT(cm.id) counts. *)
Definition comments_of (d : db) (p : row) : Z :=
  sql_count (λ cm : row, get cm "id") (comments_on d p).

(** A post as the forum lists it. *)
Definition listed_post (d : db) (x : row * row) : list (string * sqlval) :=
  post_fields (has (colnames (Post d)) "content") (has (colnames (Post d)) "category")
              x.1 x.2 (comments_of d x.1).

(** The rows that the LEFT JOIN with "Comment" makes of one post. *)
Definition comment_block (d : db) (x : row * row) : list (row * row * option row) :=
  match comments_on d x.1 with
  | [] => [(x, None)]
  | ms => map (λ cm, (x, Some cm)) ms
  end.

(** A request's explicit company: a companyId that is truthy and reads as
    a number other than zero. *)
Definition explicit_company (companyId : jsval) : option jsnum :=
  if truthy companyId && truthy (JNum (Number companyId))
  then Some (Number companyId) else None.

(** The database reads the value as an integer parameter. *)
Definition binds (v : jsval) : bool :=
  match bind_int v with
  | Ok _ => true
  | Throw _ => false
  end.

(** The company a forum request acts for: the explicit companyId when the
    request carries one, otherwise the companyId of the user that userId
    names; none where the database cannot read the id it is given. *)
Definition effective_company (d : db) (companyId userId : jsval) : option sqlval :=
  match explicit_company companyId with
  | Some n =>
      match bind_int (JNum n) with
      | Ok p => Some p
      | Throw _ => None
      end
  | None =>
      if truthy userId then
        match bind_int userId with
        | Ok p => (λ r : row, get r "companyId")
                    <$> List.find (λ r : row, sql_eq (get r "id") p) (rows (User d))
        | Throw _ => None
        end
      else None
  end.

(** The database can read the id that the request resolves its company
    from: the explicit companyId, or else the userId when there is one. *)
Definition ids_readable (companyId userId : jsval) : bool :=
  match explicit_company companyId with
  | Some n => binds (JNum n)
  | None => negb (truthy userId) || binds userId
  end.

(** The value can be sent as an integer parameter. *)
Definition bindable (v : jsval) : Prop := ∃ p, bind_int v = Ok p.

(** The column is an INTEGER column: it holds NULL or a 32-bit integer in
    every row. *)
Definition int_column (t : table) (c : string) : Prop :=
  ∀ r, r ∈ rows t → get r c = SNull ∨ ∃ z, get r c = SInt z ∧ int4 z = true.

(** The columns of "Comment" that the comment handlers look for. *)
Definition comment_post_column (d : db) : option string :=
  resolveColumn (getTableColumns d TComment) ["postId"; "post_id"].
Definition comment_company_column (d : db) : option string :=
  resolveColumn (getTableColumns d TComment) ["companyId"; "company_id"].
Definition comment_user_column (d : db) : option string :=
  resolveColumn (getTableColumns d TComment) ["userId"; "user_id"].
Definition comment_generic_column (d : db) : option string :=
  resolveColumn (getTableColumns d TComment) ["authorId"; "author_id"].

(** The author column and the author value that a comment request comes
    to. *)
Definition comment_author_of (d : db) (companyId userId : jsval) : option string * jsval :=
  comment_author d (comment_company_column d) (comment_user_column d)
    (comment_generic_column d)
    (match effective_company d companyId userId with
     | Some s => js_of_sql s
     | None => JNull
     end)
    (if truthy userId then JNum (Number userId) else JNull).

(** The selected id of a listed record. *)
Definition id_of (r : list (string * sqlval)) : sqlval :=
  default SNull (snd <$> List.find (λ kv, bool_decide (kv.1 = "id")) r).

(** How often a listing shows the record with the given id. *)
Definition occurrences (id : sqlval) (rs : list (list (string * sqlval)))
  : list (list (string * sqlval)) :=
  List.filter (λ r, bool_decide (id_of r = id)) rs.

(** The states of a transaction that started from [d0]. *)
Definition in_transaction (d0 : db) (c : conn) : Prop := saved c = Some d0.

(** Two tables, or two states, that differ at most in where their
    sequences stand. *)
Definition same_table (t t' : table) : Prop := cols t = cols t' ∧ rows t = rows t'.

Definition unchanged (d d' : db) : Prop :=
  same_table (User d) (User d') ∧ same_table (Company d) (Company d')
  ∧ same_table (Post d) (Post d') ∧ same_table (Comment d) (Comment d')
  ∧ same_table (Message d) (Message d')
  ∧ fkeys d = fkeys d' ∧ enums d = enums d'.

Definition rolled_back (d0 : db) (c : conn) : Prop :=
  unchanged d0 (store c) ∧ saved c = None ∧ last (log c) = Some SRollback.

Definition committed_ok (c : conn) : Prop :=
  saved c = None ∧ last (log c) = Some SCommit.

(** A step inside the transaction: it either goes on inside it, or has
    rolled back and hands over a response that is not a success. *)
Definition tx_step {A} (d0 : db) (early : A → option response) (m : M A) : Prop :=
  ∀ c, in_transaction d0 c →
       match m c with
       | (Ok a, c') =>
           match early a with
           | Some r => status r ≠ 200%nat ∧ rolled_back d0 c'
           | None => in_transaction d0 c'
           end
       | (Throw _, c') => in_transaction d0 c'
       end.

(** The rest of a handler: it answers 200 after COMMIT, anything else after
    ROLLBACK, and an exception leaves the transaction open for the catch. *)
Definition tx_safe (d0 : db) (m : M response) : Prop :=
  ∀ c, in_transaction d0 c →
       match m c with
       | (Ok r, c') =>
           (status r = 200%nat ∧ committed_ok c') ∨ (status r ≠ 200%nat ∧ rolled_back d0 c')
       | (Throw _, c') => in_transaction d0 c'
       end.

Definition no_early {A} (a : A) : option response := None.

Definition early_left {A} (x : response + A) : option response :=
  match x with
  | inl r => Some r
  | inr _ => None
  end.

(** What a handler with a transaction owes: success means committed, any
    other answer leaves every table with the columns and rows it had, and
    the catalogue as it was, with no transaction open, and rolled back if
    anything was sent at all. *)
Definition atomic_outcome (d : db) (out : response * conn) : Prop :=
  (status out.1 = 200%nat → committed_ok out.2)
  ∧ (status out.1 ≠ 200%nat →
     unchanged d (store out.2) ∧ saved out.2 = None
     ∧ (log out.2 = [] ∨ last (log out.2) = Some SRollback)).

(** The columns that the delete handler resolves. *)
Definition user_company_column (d : db) : option string :=
  resolveColumn (getTableColumns d TUser) ["companyId"; "company_id"].
Definition post_author_column (d : db) : option string :=
  resolveColumn (getTableColumns d TPost) ["authorId"; "author_id"].

(** The ids of the rows of [t] that [owner] ties to the company. *)
Definition owned_ids (d : db) (t : tablename) (owner : string) (id : sqlval) : list sqlval :=
  map (λ r : row, get r "id")
      (List.filter (λ r : row, sql_eq (get r owner) id) (rows (tbl d t))).

Definition when_some {A} (o : option A) (f : A → db → db) (d : db) : db :=
  match o with
  | Some x => f x d
  | None => d
  end.

(** The stored state after the statements of a delete of company [id] that
    take messages and comments away, one statement after the other. *)
Definition delete_company_comments (d : db) (id : sqlval) : db :=
  let d1 := delete_rows d TMessage
              (λ r, sql_eq (get r "senderCompanyId") id
                    || sql_eq (get r "receiverCompanyId") id) in
  let d2 := when_some (comment_company_column d)
              (λ c d, delete_rows d TComment (λ r, sql_eq (get r c) id)) d1 in
  let d3 := when_some (comment_generic_column d)
              (λ c d, delete_rows d TComment (λ r, sql_eq (get r c) id)) d2 in
  let d4 := when_some (both (comment_user_column d) (user_company_column d))
              (λ cu d, delete_rows d TComment
                         (λ r, sql_in (get r cu.1) (owned_ids d TUser cu.2 id))) d3 in
  when_some (both (comment_post_column d) (post_author_column d))
    (λ cp d, delete_rows d TComment
               (λ r, sql_in (get r cp.1) (owned_ids d TPost cp.2 id))) d4.

(** The foreign keys of the data model: a user belongs to a company, a post
    to a company, a comment to a post and to a company or a user, a message
    to companies.  A key to a table outside the five is left alone. *)
Definition of_data_model (k : fkey) : bool :=
  match fk_table k with
  | TUser | TPost | TMessage => bool_decide (fk_target k = "Company")
  | TComment => bool_decide (fk_target k ∈ ["Post"; "Company"; "User"])
  | TCompany => false
  end
  || negb (bool_decide (fk_target k ∈ map table_name [TUser; TCompany; TPost; TComment; TMessage])).

Definition data_model (d : db) : Prop := Forall (λ k, of_data_model k = true) (fkeys d).

(** A row with some of its columns cleared. *)
Definition cleared (r' r : row) : Prop := ∀ c, get r' c = get r c ∨ get r' c = SNull.

(** What a DELETE may do to the tables: rows leave, columns of rows that
    stay are cleared; nothing is added, and the catalogue stays. *)
Definition shrunk (d d' : db) : Prop :=
  (∀ t r', r' ∈ rows (tbl d' t) → ∃ r, r ∈ rows (tbl d t) ∧ cleared r' r)
  ∧ (∀ t, cols (tbl d' t) = cols (tbl d t))
  ∧ fkeys d' = fkeys d ∧ enums d' = enums d.

(** No row is left that refers, through the key, to a key that is gone. *)
Definition unreferenced (k : fkey) (gone : list sqlval) (d : db) : Prop :=
  ∀ r, r ∈ rows (tbl d (fk_table k)) → refers k gone r = false.

(** The statement DELETE FROM t WHERE column = id, sent when the column was
    found, went through and led from [d] to [d']. *)
Definition delete_step (o : option string) (t : tablename) (id : sqlval) (d d' : db) : Prop :=
  match o with
  | Some c => ∃ deleted, sql_delete_from d t (λ r, sql_eq (get r c) id) = Ok (deleted, d')
  | None => d' = d
  end.

Definition log_when {A} (o : option A) (s : stmt) : list stmt :=
  match o with
  | Some _ => [s]
  | None => []
  end.

(** The statements of a successful delete, in the order they are sent. *)
Definition delete_company_log (d : db) : list stmt :=
  [SBegin; SCatalog TUser; SCatalog TPost; SCatalog TComment; SDelete TMessage]
    ++ log_when (comment_company_column d) (SDelete TComment)
    ++ log_when (comment_generic_column d) (SDelete TComment)
    ++ log_when (both (comment_user_column d) (user_company_column d)) (SDelete TComment)
    ++ log_when (both (comment_post_column d) (post_author_column d)) (SDelete TComment)
    ++ log_when (post_author_column d) (SDelete TPost)
    ++ log_when (user_company_column d) (SDelete TUser)
    ++ [SDelete TCompany; SCommit].

(** The place of a table in the order of deletion. *)
Definition delete_rank (s : stmt) : option nat :=
  match s with
  | SDelete TMessage => Some 0%nat
  | SDelete TComment => Some 1%nat
  | SDelete TPost => Some 2%nat
  | SDelete TUser => Some 3%nat
  | SDelete TCompany => Some 4%nat
  | _ => None
  end.

(** ** Statements sent through the pool

    Outside a transaction every statement commits on its own: what a
    handler wrote before an exception stays written. *)

Definition P (A : Type) : Type := db → result A * db.

#[global] Instance P_ret : MRet P := λ A a d, (Ok a, d).
#[global] Instance P_bind : MBind P := λ A B k m d,
  match m d with
  | (Ok a, d') => k a d'
  | (Throw e, d') => (Throw e, d')
  end.

(** [await pool.query(...)] with a statement that writes *)
Definition pool_write {A} (q : db → result (A * db)) : P A := λ d,
  match q d with
  | Ok (a, d') => (Ok a, d')
  | Throw e => (Throw e, d)
  end.

(** [await pool.query(...)] with a statement that reads *)
Definition pool_select {A} (q : db → result A) : P A := λ d, (q d, d).

(** try { body } catch (error) { 500, error.message || 'Server error.' } *)
Definition answer (body : P response) (d : db) : response * db :=
  match body d with
  | (Ok r, d') => (r, d')
  | (Throw e, d') => (res_message 500 (error_message e), d')
  end.

(** *** DELETE /api/forum/posts/:id *)

(** DELETE FROM "Post" WHERE id = $1 RETURNING id *)
Definition q_delete_post (id : sqlval) (d : db) : result (list row * db) :=
  if has_cols (Post d) ["id"]
  then sql_delete_from d TPost (λ r, sql_eq (get r "id") id)
  else Throw no_column.

Definition delete_post_body (postId : jsnum) : P response :=
  pool_write (with_param postId (q_delete_where TComment "postId"));;
  deleteResult ← pool_write (with_param postId q_delete_post);
  match deleteResult with
  | [] => mret (res_message 404 "Post not found.")
  | _ :: _ => mret (res_json (JO [("id", JV (JNum postId))]))
  end.

(** [postId] is [Number(req.params.id)]. *)
Definition delete_post (d : db) (postId : jsnum) : response * db :=
  if negb (truthy (JNum postId))
  then (res_message 400 "Invalid post id.", d)
  else answer (delete_post_body postId) d.

(** *** GET /api/forum/posts/:id/comments *)

(** The [joinClause] of the listing: none, the company through a column of
    the comment, or the company of the user that a column names. *)
Inductive comment_join :=
| NoJoin
| JoinCompany (column : string)
| JoinUser (column : string).

(** Lines 1080-1098 *)
Definition comment_join_of (d : db) (companyIdColumn userIdColumn authorIdColumn : option string)
  : comment_join :=
  match companyIdColumn with
  | Some c => JoinCompany (quoteIdentifier c)
  | None =>
      match userIdColumn with
      | Some c => JoinUser (quoteIdentifier c)
      | None =>
          match authorIdColumn with
          | Some c =>
              match getForeignKeyTarget d TComment c with
              | Some targetTable =>
                  if truthy (JStr targetTable) && bool_decide (toLowerCase targetTable = "user")
                  then JoinUser (quoteIdentifier c)
                  else JoinCompany (quoteIdentifier c)
              | None => JoinCompany (quoteIdentifier c)
              end
          | None => NoJoin
          end
      end
  end.

Definition option_list {A} (o : option A) : list A :=
  match o with
  | Some x => [x]
  | None => []
  end.

(** The comment with the company that the join finds for it. *)
Definition join_comments (d : db) (j : comment_join) : list (row * option row) :=
  match j with
  | NoJoin => map (λ cm : row, (cm, None)) (rows (Comment d))
  | JoinCompany column =>
      left_join (λ cm c : row, sql_eq (get c "id") (get cm column))
                (rows (Comment d)) (rows (Company d))
  | JoinUser column =>
      map (λ x : row * option row * option row, (x.1.1, x.2))
          (left_join (λ (x : row * option row) (c : row),
                        sql_eq (get c "id") (get_opt x.2 "companyId"))
                     (left_join (λ cm u : row, sql_eq (get u "id") (get cm column))
                                (rows (Comment d)) (rows (User d)))
                     (rows (Company d)))
  end.

Definition join_columns (d : db) (j : comment_join) : bool :=
  match j with
  | NoJoin => true
  | JoinCompany column => has_cols (Comment d) [column] && has_cols (Company d) ["id"; "name"]
  | JoinUser column =>
      has_cols (Comment d) [column] && has_cols (User d) ["id"; "companyId"]
      && has_cols (Company d) ["id"; "name"]
  end.

Definition comment_fields (createdAtColumn : option string) (cm : row) (c : option row)
  : list (string * sqlval) :=
  [("id", get cm "id");
   ("content", get cm "content");
   ("createdAt", match createdAtColumn with
                 | Some k => get cm k
                 | None => SNull
                 end);
   ("company", get_opt c "name");
   ("companyId", get_opt c "id")].

(** ORDER BY cm."createdAt", or cm.id where the table has no such column *)
Definition comment_order (createdAtColumn : option string) (x : row * option row) : sqlval :=
  match createdAtColumn with
  | Some k => get x.1 k
  | None => get x.1 "id"
  end.

(** SELECT cm.id, cm.content, createdAtSelect, companySelect
    FROM "Comment" cm joinClause
    WHERE cm.postIdColumn = $1
    ORDER BY cm.createdAtColumn or cm.id ASC *)
Definition q_comments (d : db) (postIdColumn : string) (createdAtColumn : option string)
  (j : comment_join) (postId : sqlval) : result (list (list (string * sqlval))) :=
  if has_cols (Comment d) (["id"; "content"; postIdColumn] ++ option_list createdAtColumn)
     && join_columns d j then
    let kept := List.filter (λ x : row * option row, sql_eq (get x.1 postIdColumn) postId)
                            (join_comments d j) in
    Ok (map (λ x : row * option row, comment_fields createdAtColumn x.1 x.2)
            (order_by_asc (comment_order createdAtColumn) kept))
  else Throw no_column.

Definition list_comments_try (d : db) (postId : jsnum) : result response :=
  let commentColumns := getTableColumns d TComment in
  let postIdColumn := resolveColumn commentColumns ["postId"; "post_id"] in
  let createdAtColumn := resolveColumn commentColumns ["createdAt"; "created_at"] in
  let companyIdColumn := resolveColumn commentColumns ["companyId"; "company_id"] in
  let userIdColumn := resolveColumn commentColumns ["userId"; "user_id"] in
  let authorIdColumn := resolveColumn commentColumns ["authorId"; "author_id"] in
  match postIdColumn with
  | None => Ok (res_message 500 "Comment schema is missing post reference.")
  | Some postIdColumn =>
      let j := comment_join_of d companyIdColumn userIdColumn authorIdColumn in
      p ← bind_int (JNum postId);
      commentsResult ← q_comments d (quoteIdentifier postIdColumn)
                                  (quoteIdentifier <$> createdAtColumn) j p;
      Ok (res_json (JA (map json_of_fields commentsResult)))
  end.

(** [postId] is [Number(req.params.id)]. *)
Definition list_comments (d : db) (postId : jsnum) : response :=
  if negb (truthy (JNum postId))
  then res_message 400 "Invalid post id."
  else
    match list_comments_try d postId with
    | Ok r => r
    | Throw msg => res_message 500 (error_message msg)
    end.

(** ** The administration pages *)

(** [new Date(v).toLocaleString('fr-FR', { hour, minute, day, month })] *)
Variable toLocaleString : jsval → string.

(** *** GET /api/admin/summary *)

(** SELECT (SELECT COUNT( * ) FROM "User")::int AS users, ... companies, posts, comments *)
Definition q_counts (d : db) : list (string * sqlval) :=
  [("users", SInt (Z.of_nat (length (rows (User d)))));
   ("companies", SInt (Z.of_nat (length (rows (Company d)))));
   ("posts", SInt (Z.of_nat (length (rows (Post d)))));
   ("comments", SInt (Z.of_nat (length (rows (Comment d)))))].

(** SELECT p.id, p.title, p."createdAt", c.name AS company
    FROM "Post" p JOIN "Company" c ON c.id = p."authorId"
    ORDER BY p."createdAt" DESC LIMIT 4 *)
Definition q_recent_posts (d : db) : result (list (row * row)) :=
  if has_cols (Post d) ["id"; "title"; "createdAt"; "authorId"]
     && has_cols (Company d) ["id"; "name"] then
    Ok (limit 4 (order_by_desc (λ x : row * row, get x.1 "createdAt")
                   (inner_join (λ p c : row, sql_eq (get c "id") (get p "authorId"))
                               (rows (Post d)) (rows (Company d)))))
  else Throw no_column.

(** FROM "Comment" c JOIN "Company" co ON co.id = c."authorId"
    JOIN "Post" p ON p.id = c."postId" *)
Definition comments_with_author_and_post (d : db) : list (row * row * row) :=
  inner_join (λ (x : row * row) (p : row), sql_eq (get p "id") (get x.1 "postId"))
             (inner_join (λ cm co : row, sql_eq (get co "id") (get cm "authorId"))
                         (rows (Comment d)) (rows (Company d)))
             (rows (Post d)).

(** SELECT c.content, c."createdAt", co.name AS company, p.title AS post_title
    FROM ... ORDER BY c."createdAt" DESC LIMIT 5 *)
Definition q_activity (d : db) : result (list (row * row * row)) :=
  if has_cols (Comment d) ["content"; "createdAt"; "authorId"; "postId"]
     && has_cols (Company d) ["id"; "name"]
     && has_cols (Post d) ["id"; "title"] then
    Ok (limit 5 (order_by_desc (λ x : row * row * row, get x.1.1 "createdAt")
                   (comments_with_author_and_post d)))
  else Throw no_column.

Definition activity_entry (x : row * row * row) : json :=
  JO [("title", JV (js_of_sql (get x.1.2 "name")));
      ("note", JV (js_of_sql (get x.1.1 "content")));
      ("time", JV (JStr (toLocaleString (js_of_sql (get x.1.1 "createdAt")))));
      ("tag", JV (js_of_sql (get x.2 "title")))].

Definition recent_post_entry (x : row * row) : json :=
  JO [("id", JV (js_of_sql (get x.1 "id")));
      ("title", JV (js_of_sql (get x.1 "title")));
      ("company", JV (js_of_sql (get x.2 "name")));
      ("createdAt", JV (js_of_sql (get x.1 "createdAt")))].

Definition admin_summary (d : db) : response :=
  match (postsResult ← q_recent_posts d;
         activityResult ← q_activity d;
         Ok (res_json (JO [("stats", json_of_fields (q_counts d));
                           ("activity", JA (map activity_entry activityResult));
                           ("recentPosts", JA (map recent_post_entry postsResult))]))) with
  | Ok r => r
  | Throw _ => res_message 500 "Server error."
  end.

(** *** GET /api/admin/messages *)

(** SELECT cm.id, cm.content, cm."createdAt", co.name AS company, p.title AS post_title
    FROM ... ORDER BY cm."createdAt" DESC LIMIT 20 *)
Definition q_admin_messages (d : db) : result (list (row * row * row)) :=
  if has_cols (Comment d) ["id"; "content"; "createdAt"; "authorId"; "postId"]
     && has_cols (Company d) ["id"; "name"]
     && has_cols (Post d) ["id"; "title"] then
    Ok (limit 20 (order_by_desc (λ x : row * row * row, get x.1.1 "createdAt")
                    (comments_with_author_and_post d)))
  else Throw no_column.

Definition admin_message_entry (x : row * row * row) : list (string * sqlval) :=
  [("id", get x.1.1 "id");
   ("from", get x.1.2 "name");
   ("subject", get x.2 "title");
   ("createdAt", get x.1.1 "createdAt");
   ("preview", get x.1.1 "content")].

Definition admin_messages (d : db) : response :=
  match q_admin_messages d with
  | Ok messagesResult => res_json (JA (map (λ x, json_of_fields (admin_message_entry x))
                                           messagesResult))
  | Throw _ => res_message 500 "Server error."
  end.

(** *** GET /api/admin/companies *)

(** MIN(x): the least value that is not NULL, NULL when there is none. *)
Definition sql_min {A} (x : A → sqlval) (l : list A) : sqlval :=
  foldr (λ a m, if sql_le (x a) m then x a else m) SNull l.

(** SELECT c.id, c.name, the seven selects, COUNT(u.id)::int AS employees,
      MIN(u.email) AS admin
    FROM "Company" c LEFT JOIN "User" u ON u."companyId" = c.id
    GROUP BY groupBy ORDER BY c.name ASC *)
Definition q_admin_companies (d : db)
  (hasIndustry hasLocation hasStatus hasWebsite hasEmail hasPhone hasDescription : bool)
  : result (list (list (string * sqlval))) :=
  let groupBy :=
    ["id"; "name"] ++ push_if hasIndustry "industry" ++ push_if hasLocation "location"
      ++ push_if hasStatus "status" ++ push_if hasWebsite "website" ++ push_if hasEmail "email"
      ++ push_if hasPhone "phone" ++ push_if hasDescription "description" in
  if has_cols (Company d) groupBy && has_cols (User d) ["id"; "email"; "companyId"] then
    let joined :=
      left_join (λ c u : row, sql_eq (get u "companyId") (get c "id"))
                (rows (Company d)) (rows (User d)) in
    let groups := group_by (λ cu : row * option row, map (get cu.1) groupBy) joined in
    let selected :=
      flat_map (λ g : list sqlval * list (row * option row),
                  match g.2 with
                  | [] => []
                  | (c, _) :: _ =>
                      [[("id", get c "id");
                        ("name", get c "name");
                        ("industry", select_or_null hasIndustry "industry" c);
                        ("location", select_or_null hasLocation "location" c);
                        ("status", select_or_null hasStatus "status" c);
                        ("website", select_or_null hasWebsite "website" c);
                        ("email", select_or_null hasEmail "email" c);
                        ("phone", select_or_null hasPhone "phone" c);
                        ("description", select_or_null hasDescription "description" c);
                        ("employees",
                          SInt (sql_count (λ cu : row * option row, get_opt cu.2 "id") g.2));
                        ("admin",
                          sql_min (λ cu : row * option row, get_opt cu.2 "email") g.2)]]
                  end) groups in
    Ok (order_by_asc (λ r : list (string * sqlval), default SNull (snd <$> r !! 1%nat)) selected)
  else Throw no_column.

Definition admin_companies (d : db) : response :=
  let companyColumns := getTableColumns d TCompany in
  let hasIndustry := has companyColumns "industry" in
  let hasLocation := has companyColumns "location" in
  let hasStatus := has companyColumns "status" in
  let hasWebsite := has companyColumns "website" in
  let hasEmail := has companyColumns "email" in
  let hasPhone := has companyColumns "phone" in
  let hasDescription := has companyColumns "description" in
  match q_admin_companies d hasIndustry hasLocation hasStatus hasWebsite hasEmail hasPhone
                          hasDescription with
  | Ok companiesResult => res_json (JA (map json_of_fields companiesResult))
  | Throw _ => res_message 500 "Server error."
  end.

(** *** GET /api/admin/users *)

Definition user_key (hasName hasStatus hasLastActive : bool) (x : row * option row)
  : list sqlval :=
  [get x.1 "id"; get x.1 "email"; get x.1 "role"; get_opt x.2 "name"]
    ++ (if hasName then [get x.1 "name"] else [])
    ++ (if hasStatus then [get x.1 "status"] else [])
    ++ (if hasLastActive then [get x.1 "lastActive"] else []).

Definition admin_user_fields (hasName hasStatus hasLastActive : bool) (u : row) (c : option row)
  : list (string * sqlval) :=
  [("id", get u "id");
   ("email", get u "email");
   ("role", get u "role");
   ("name", select_or_null hasName "name" u);
   ("status", select_or_null hasStatus "status" u);
   ("lastActive", select_or_null hasLastActive "lastActive" u);
   ("company", get_opt c "name")].

(** SELECT u.id, u.email, u.role, the three selects, c.name AS company
    FROM "User" u LEFT JOIN "Company" c ON c.id = u."companyId"
    GROUP BY groupBy ORDER BY u.id DESC *)
Definition q_admin_users (d : db) (hasName hasStatus hasLastActive : bool)
  : result (list (list (string * sqlval))) :=
  if has_cols (User d) (["id"; "email"; "role"; "companyId"] ++ push_if hasName "name"
                          ++ push_if hasStatus "status" ++ push_if hasLastActive "lastActive")
     && has_cols (Company d) ["id"; "name"] then
    let joined := left_join (λ u c : row, sql_eq (get c "id") (get u "companyId"))
                            (rows (User d)) (rows (Company d)) in
    let groups := group_by (user_key hasName hasStatus hasLastActive) joined in
    let selected :=
      flat_map (λ g : list sqlval * list (row * option row),
                  match g.2 with
                  | [] => []
                  | (u, c) :: _ => [admin_user_fields hasName hasStatus hasLastActive u c]
                  end) groups in
    Ok (order_by_desc id_of selected)
  else Throw no_column.

Definition admin_users (d : db) : response :=
  let userColumns := getTableColumns d TUser in
  let hasName := has userColumns "name" in
  let hasStatus := has userColumns "status" in
  let hasLastActive := has userColumns "lastActive" in
  match q_admin_users d hasName hasStatus hasLastActive with
  | Ok usersResult => res_json (JA (map json_of_fields usersResult))
  | Throw _ => res_message 500 "Server error."
  end.

(** *** GET /api/admin/posts *)

Definition admin_post_key (hasCategory hasStatus hasViews : bool) (x : row * row * option row)
  : list sqlval :=
  let p := x.1.1 in
  let c := x.1.2 in
  [get p "id"; get p "title"; get p "createdAt"; get c "name"; get c "id"]
    ++ (if hasCategory then [get p "category"] else [])
    ++ (if hasStatus then [get p "status"] else [])
    ++ (if hasViews then [get p "views"] else []).

Definition admin_post_fields (hasCategory hasStatus hasViews : bool) (p c : row) (comments : Z)
  : list (string * sqlval) :=
  [("id", get p "id");
   ("title", get p "title");
   ("createdAt", get p "createdAt");
   ("category", select_or_null hasCategory "category" p);
   ("status", select_or_null hasStatus "status" p);
   ("views", if hasViews then get p "views" else SInt 0);
   ("company", get c "name");
   ("comments", SInt comments)].

(** SELECT p.id, p.title, p."createdAt", the three selects, c.name AS company,
      COUNT(cm.id)::int AS comments
    FROM "Post" p JOIN "Company" c ON c.id = p."authorId"
    LEFT JOIN "Comment" cm ON cm."postId" = p.id
    GROUP BY groupBy ORDER BY p."createdAt" DESC LIMIT 12 *)
Definition q_admin_posts (d : db) (hasCategory hasStatus hasViews : bool)
  : result (list (list (string * sqlval))) :=
  if has_cols (Post d) (["id"; "title"; "createdAt"; "authorId"]
                          ++ push_if hasCategory "category" ++ push_if hasStatus "status"
                          ++ push_if hasViews "views")
     && has_cols (Company d) ["name"; "id"]
     && has_cols (Comment d) ["id"; "postId"] then
    let pc := inner_join (λ p c : row, sql_eq (get c "id") (get p "authorId"))
                         (rows (Post d)) (rows (Company d)) in
    let joined := left_join (λ (x : row * row) (cm : row), sql_eq (get cm "postId") (get x.1 "id"))
                            pc (rows (Comment d)) in
    let groups := group_by (admin_post_key hasCategory hasStatus hasViews) joined in
    let selected :=
      flat_map (λ g : list sqlval * list (row * row * option row),
                  match g.2 with
                  | [] => []
                  | (p, c, _) :: _ =>
                      [admin_post_fields hasCategory hasStatus hasViews p c
                         (sql_count (λ x : row * row * option row, get_opt x.2 "id") g.2)]
                  end) groups in
    Ok (limit 12 (order_by_desc createdAt_of selected))
  else Throw no_column.

Definition admin_posts (d : db) : response :=
  let postColumns := getTableColumns d TPost in
  let hasCategory := has postColumns "category" in
  let hasStatus := has postColumns "status" in
  let hasViews := has postColumns "views" in
  match q_admin_posts d hasCategory hasStatus hasViews with
  | Ok postsResult => res_json (JA (map json_of_fields postsResult))
  | Throw _ => res_message 500 "Server error."
  end.

(** ** Profile and settings *)

(** *** GET /api/profile *)

Definition profile_user_fields (hasName hasPhone hasAvatar : bool) (u : row)
  : list (string * sqlval) :=
  [("id", get u "id");
   ("email", get u "email");
   ("companyId", get u "companyId");
   ("name", select_or_null hasName "name" u);
   ("phone", select_or_null hasPhone "phone" u);
   ("avatar", select_or_null hasAvatar "avatar" u)].

(** SELECT u.id, u.email, u."companyId", the three selects
    FROM "User" u WHERE u.id = $1 LIMIT 1 *)
Definition q_profile_user (d : db) (hasName hasPhone hasAvatar : bool) (userId : jsval)
  : result (option row) :=
  if has_cols (User d) (["id"; "email"; "companyId"] ++ push_if hasName "name"
                          ++ push_if hasPhone "phone" ++ push_if hasAvatar "avatar") then
    p ← bind_int userId;
    Ok (List.find (λ r, sql_eq (get r "id") p) (rows (User d)))
  else Throw no_column.

Definition profile_company_fields
  (hasDescription hasWebsite hasLocation hasPhone hasEmail hasIndustry hasStatus : bool) (c : row)
  : list (string * sqlval) :=
  [("id", get c "id");
   ("name", get c "name");
   ("description", select_or_null hasDescription "description" c);
   ("website", select_or_null hasWebsite "website" c);
   ("location", select_or_null hasLocation "location" c);
   ("phone", select_or_null hasPhone "phone" c);
   ("email", select_or_null hasEmail "email" c);
   ("industry", select_or_null hasIndustry "industry" c);
   ("status", select_or_null hasStatus "status" c)].

(** SELECT c.id, c.name, the seven selects FROM "Company" c WHERE c.id = $1 LIMIT 1 *)
Definition q_profile_company (d : db) (id : jsval) : result (option (list (string * sqlval))) :=
  let companyColumns := getTableColumns d TCompany in
  let hasDescription := has companyColumns "description" in
  let hasWebsite := has companyColumns "website" in
  let hasLocation := has companyColumns "location" in
  let hasPhoneCompany := has companyColumns "phone" in
  let hasEmailCompany := has companyColumns "email" in
  let hasIndustry := has companyColumns "industry" in
  let hasStatus := has companyColumns "status" in
  companyResult ← q_company_by_id d ["name"] id;
  Ok (option_map (profile_company_fields hasDescription hasWebsite hasLocation hasPhoneCompany
                    hasEmailCompany hasIndustry hasStatus) companyResult).

Definition get_profile_try (d : db) (userId companyIdParam : jsnum) : result response :=
  let userColumns := getTableColumns d TUser in
  let hasName := has userColumns "name" in
  let hasPhone := has userColumns "phone" in
  let hasAvatar := has userColumns "avatar" in
  userResult ← q_profile_user d hasName hasPhone hasAvatar (JNum userId);
  match userResult with
  | None => Ok (res_message 404 "User not found.")
  | Some user =>
      let resolvedCompanyId := js_or (JNum companyIdParam) (js_of_sql (get user "companyId")) in
      company ← (if truthy resolvedCompanyId
                 then q_profile_company d resolvedCompanyId
                 else Ok None);
      Ok (res_json
            (JO [("user", json_of_fields (profile_user_fields hasName hasPhone hasAvatar user));
                 ("company", match company with
                             | Some c => json_of_fields c
                             | None => JV JNull
                             end)]))
  end.

(** [userId] and [companyIdParam] are [Number(req.query.userId)] and
    [Number(req.query.companyId)]. *)
Definition get_profile (d : db) (userId companyIdParam : jsnum) : response :=
  if negb (truthy (JNum userId))
  then res_message 400 "userId is required."
  else
    match get_profile_try d userId companyIdParam with
    | Ok r => r
    | Throw _ => res_message 500 "Server error."
    end.

(** *** PUT /api/profile *)

(** The [user] and [company] members of the body: an object with its own
    keys, or any other value. *)
Inductive member :=
| PVal (v : jsval)
| PObj (b : body).

(** [payload?.key] *)
Definition payload_field (p : member) (key : string) : jsval :=
  match p with
  | PObj b => field b key
  | PVal _ => JUndefined
  end.

(** [Object.prototype.hasOwnProperty.call(payload || {}, key)] *)
Definition payload_has (p : member) (key : string) : bool :=
  match p with
  | PObj b => hasOwnProperty b key
  | PVal _ => false
  end.

Definition payload_truthy (p : member) : bool :=
  match p with
  | PObj _ => true
  | PVal v => truthy v
  end.

Definition user_fields : list string := ["name"; "email"; "phone"; "avatar"].

Definition profile_company_keys : list string :=
  ["name"; "description"; "website"; "location"; "phone"; "email"; "industry"; "status"].

(** The [forEach] over [Object.entries(fields)] of the profile update. *)
Definition payload_sets (columns : list string) (p : member) (fields : list string)
  : list (string * sqlval) :=
  flat_map (λ key,
              if negb (has columns key) then []
              else if negb (payload_has p key) then []
              else [(key, bind_text (normalized (payload_field p key)))])
           fields.

(** UPDATE "User" SET sets WHERE id = $n RETURNING id, email, "companyId" *)
Definition q_update_user (sets : list (string * sqlval)) (userId : jsval) (d : db)
  : result (option row * db) :=
  if has_cols (User d) ["id"; "email"; "companyId"] then
    id ← bind_int userId;
    '(updated, t) ← sql_update (User d) sets (λ r, sql_eq (get r "id") id);
    Ok (head updated, set_tbl d TUser t)
  else Throw no_column.

(** UPDATE "Company" SET sets WHERE id = $n RETURNING id, name *)
Definition q_update_profile_company (sets : list (string * sqlval)) (companyId : jsval) (d : db)
  : result (option row * db) :=
  if has_cols (Company d) ["id"; "name"] then
    id ← bind_int companyId;
    '(updated, t) ← sql_update (Company d) sets (λ r, sql_eq (get r "id") id);
    Ok (head updated, set_tbl d TCompany t)
  else Throw no_column.

(** [{ ok: true, ...updates }]: a member of [updates] that was never
    assigned is left out, one assigned [null] is sent as null. *)
Definition updates_member (key : string) (fields : list string) (u : option (option row))
  : list (string * json) :=
  match u with
  | None => []
  | Some None => [(key, JV JNull)]
  | Some (Some r) => [(key, json_of_fields (map (λ c, (c, get r c)) fields))]
  end.

(** Lines 756-784: the update of the user, when the payload names a column. *)
Definition profile_user_update (userId : jsval) (userPayload : member)
  : P (option (option row)) :=
  userColumns ← pool_select (λ d, Ok (getTableColumns d TUser));
  let userSets := payload_sets userColumns userPayload user_fields in
  if negb (bool_decide (userSets = []))
  then r ← pool_write (q_update_user userSets userId); mret (Some r)
  else mret None.

(** Lines 788-831: the update of the company. *)
Definition profile_company_update (now : Z) (resolvedCompanyId : jsval)
  (companyPayload : member) : P (option (option row)) :=
  if truthy resolvedCompanyId && payload_truthy companyPayload then
    companyColumns ← pool_select (λ d, Ok (getTableColumns d TCompany));
    let hasUpdatedAt := has companyColumns "updatedAt" in
    let hasUpdatedAtSnake := has companyColumns "updated_at" in
    let companySets := payload_sets companyColumns companyPayload profile_company_keys in
    if negb (bool_decide (companySets = [])) then
      let sets :=
        companySets ++ (if hasUpdatedAt then [("updatedAt", STime now)]
                        else if hasUpdatedAtSnake then [("updated_at", STime now)]
                        else []) in
      r ← pool_write (q_update_profile_company sets resolvedCompanyId); mret (Some r)
    else mret None
  else mret None.

(** [companyId || updates.user?.companyId] *)
Definition profile_resolved_company (companyId : jsval) (updatesUser : option (option row))
  : jsval :=
  js_or companyId (match updatesUser with
                   | Some (Some r) => js_of_sql (get r "companyId")
                   | _ => JUndefined
                   end).

Definition put_profile_body (now : Z) (userId companyId : jsval)
  (userPayload companyPayload : member) : P response :=
  updatesUser ← profile_user_update userId userPayload;
  let resolvedCompanyId := profile_resolved_company companyId updatesUser in
  updatesCompany ← profile_company_update now resolvedCompanyId companyPayload;
  mret (res_json (JO ([("ok", JV (JBool true))]
                        ++ updates_member "user" ["id"; "email"; "companyId"] updatesUser
                        ++ updates_member "company" ["id"; "name"] updatesCompany))).

Definition put_profile (now : Z) (d : db) (userId companyId : jsval)
  (userPayload companyPayload : member) : response * db :=
  if negb (truthy userId)
  then (res_message 400 "userId is required.", d)
  else answer (put_profile_body now userId companyId userPayload companyPayload) d.

(** *** ensureAdminCompany *)

(** SELECT id FROM "Company" WHERE LOWER(name) = LOWER($1) LIMIT 1 *)
Definition q_company_named (d : db) (name : string) : result (option row) :=
  if has_cols (Company d) ["id"; "name"]
  then Ok (List.find (λ r, sql_eq (sql_lower (get r "name")) (sql_lower (SText name)))
                     (rows (Company d)))
  else Throw no_column.

Definition ensureAdminCompany (now : Z) : P unit :=
  companyColumns ← pool_select (λ d, Ok (getTableColumns d TCompany));
  if negb (has companyColumns "name") then mret ()
  else
    existing ← pool_select (λ d, q_company_named d "Admin");
    match existing with
    | Some _ => mret ()
    | None =>
        let hasUpdatedAt := has companyColumns "updatedAt" in
        let hasUpdatedAtSnake := has companyColumns "updated_at" in
        let named :=
          [("name", SText "Admin")]
            ++ (if hasUpdatedAt then [("updatedAt", STime now)]
                else if hasUpdatedAtSnake then [("updated_at", STime now)]
                else []) in
        pool_write (λ d, '(_, t) ← sql_insert now (Company d) named;
                         Ok ((), set_tbl d TCompany t))
    end.

(** *** The notification settings

    [ensureUserSettingsTable] declares "UserSettings" with "userId" as
    primary key referencing "User"(id), so the table is a finite map from
    user ids to the stored JSON and its time stamp. *)

Record settings := {
  notifications : json;
  updatedAt : Z
}.

Record installation := {
  tables : db;
  UserSettings : gmap Z settings
}.

(** What PostgreSQL stores in a jsonb column for the parameter that node-pg
    makes of a JavaScript value, or the error it raises. *)
Variable jsonb_param : json → result json.

(** [v || {}] on a value read from a jsonb column *)
Definition json_or_empty (o : option json) : json :=
  match o with
  | Some (JV v) => if truthy v then JV v else JO []
  | Some j => j
  | None => JO []
  end.

(** SELECT notifications FROM "UserSettings" WHERE "userId" = $1 LIMIT 1 *)
Definition q_notifications (s : installation) (userId : sqlval) : option json :=
  match userId with
  | SInt z => notifications <$> UserSettings s !! z
  | _ => None
  end.

(** [userId] is [Number(req.query.userId)]. *)
Definition get_notifications (s : installation) (userId : jsnum) : response :=
  if negb (truthy (JNum userId))
  then res_message 400 "userId is required."
  else
    match bind_int (JNum userId) with
    | Ok p => res_json (JO [("notifications", json_or_empty (q_notifications s p))])
    | Throw _ => res_message 500 "Server error."
    end.

(** [notifications && typeof notifications === 'object' ? notifications : {}] *)
Definition notifications_payload (notifications : json) : json :=
  match notifications with
  | JV JObj => JV JObj
  | JV _ => JO []
  | j => j
  end.

(** [REFERENCES "User"(id)] *)
Definition references_user (d : db) (v : sqlval) : bool :=
  existsb (λ u : row, sql_eq (get u "id") v) (rows (User d)).

(** INSERT INTO "UserSettings" ("userId", notifications, "updatedAt")
    VALUES ($1, $2, NOW())
    ON CONFLICT ("userId") DO UPDATE
      SET notifications = EXCLUDED.notifications, "updatedAt" = NOW()
    RETURNING notifications *)
Definition q_upsert_notifications (now : Z) (s : installation) (userId : jsval) (payload : json)
  : result (json * installation) :=
  p ← bind_int userId;
  stored ← jsonb_param payload;
  match p with
  | SInt z =>
      if references_user (tables s) p
      then Ok (stored,
               {| tables := tables s;
                  UserSettings := <[z := {| notifications := stored; updatedAt := now |}]>
                                    (UserSettings s) |})
      else Throw "insert violates foreign key constraint"
  | _ => Throw "null value violates not-null constraint"
  end.

Definition put_notifications (now : Z) (s : installation) (userId : jsval) (notifications : json)
  : response * installation :=
  if negb (truthy userId)
  then (res_message 400 "userId is required.", s)
  else
    let payload := notifications_payload notifications in
    match q_upsert_notifications now s userId payload with
    | Ok (stored, s') =>
        (res_json (JO [("notifications", json_or_empty (Some stored))]), s')
    | Throw msg => (res_message 500 (error_message msg), s)
    end.

End Server.

(** ** Identifiers in the text of a statement *)

Definition dquote : ascii := ascii_of_nat 34.

(** The global replace of the quote character by two of them. *)
Fixpoint double_quotes (s : string) : string :=
  match s with
  | EmptyString => EmptyString
  | String a s' =>
      if Ascii.eqb a dquote then String dquote (String dquote (double_quotes s'))
      else String a (double_quotes s')
  end.

(** [quoteIdentifier] as the text it puts into the statement: the value
    between quotes, with its own quotes doubled. *)
Definition quoteIdentifier_text (value : string) : string :=
  String dquote (double_quotes value ++ String dquote EmptyString).

(** How PostgreSQL reads a quoted identifier: after the opening quote, the
    characters up to the next single quote, two quotes in a row standing for
    one.  The result is the identifier and the text that follows it. *)
Fixpoint read_quoted (s : string) : option (string * string) :=
  match s with
  | EmptyString => None
  | String a s' =>
      if Ascii.eqb a dquote then
        match s' with
        | String b s'' =>
            if Ascii.eqb b dquote
            then (λ ir : string * string, (String dquote ir.1, ir.2)) <$> read_quoted s''
            else Some (EmptyString, s')
        | EmptyString => Some (EmptyString, EmptyString)
        end
      else (λ ir : string * string, (String a ir.1, ir.2)) <$> read_quoted s'
  end.

Definition read_identifier (s : string) : option (string * string) :=
  match s with
  | String a s' => if Ascii.eqb a dquote then read_quoted s' else None
  | EmptyString => None
  end.

(** ** The client: the authentication context *)

(** [email.split('@')[0]] *)
Fixpoint before_at (s : string) : string :=
  match s with
  | EmptyString => EmptyString
  | String a s' => if Ascii.eqb a "@" then EmptyString else String a (before_at s')
  end.

Definition getDisplayName (email : string) : string :=
  let namePart := before_at email in
  if truthy (JStr namePart) then namePart else email.

(** [flag] is [import.meta.env.VITE_DEMO_AUTH]. *)
Definition isDemoAuthEnabled (flag : option string) : bool :=
  match flag with
  | None => true
  | Some f => negb (bool_decide (f = "false"))
  end.

(** The user that the context holds. *)
Record client_user := {
  cu_id : jsval;
  cu_email : string;
  cu_role : jsval;
  cu_companyId : jsval;
  cu_name : string;
  cu_companyName : option string
}.

(** The state of the context: the [authToken] item of the local storage and
    the user. *)
Record auth := {
  authToken : option string;
  auth_user : option client_user
}.

(** The answer of the login end point, with the type the call declares. *)
Record login_result := {
  lr_token : string;
  lr_id : jsval;
  lr_email : string;
  lr_role : jsval;
  lr_companyId : jsval
}.

Definition isAuthenticated (s : auth) : bool := bool_decide (is_Some (auth_user s)).

(** [login]: [outcome] is what [apiFetch('/api/auth/login', ...)] came to,
    [now] is [Date.now()]. *)
Definition client_login (flag : option string) (now : Z) (email : string)
  (outcome : result login_result) (s : auth) : result unit * auth :=
  match outcome with
  | Ok r =>
      (Ok (),
       {| authToken := Some (lr_token r);
          auth_user :=
            Some {| cu_id := lr_id r;
                    cu_email := lr_email r;
                    cu_role := lr_role r;
                    cu_companyId := nullish_or (lr_companyId r) JNull;
                    cu_name := getDisplayName (lr_email r);
                    cu_companyName :=
                      if bool_decide (lr_role r = JStr "company")
                      then Some (getDisplayName (lr_email r)) else None |} |})
  | Throw e =>
      if negb (isDemoAuthEnabled flag) then (Throw e, s)
      else
        (Ok (),
         {| authToken := Some "demo-token";
            auth_user :=
              Some {| cu_id := JStr ("demo-" ++ pretty now);
                      cu_email := email;
                      cu_role := JStr "company";
                      cu_companyId := JStr "demo-company";
                      cu_name := getDisplayName email;
                      cu_companyName := Some (getDisplayName email) |} |})
  end.

Definition logout (s : auth) : auth := {| authToken := None; auth_user := None |}.

(** [role] is [None] for [null]. *)
Definition switchRole (role : option string) (s : auth) : auth :=
  match role with
  | None => {| authToken := authToken s; auth_user := None |}
  | Some r =>
      match auth_user s with
      | None => s
      | Some u =>
          {| authToken := authToken s;
             auth_user := Some {| cu_id := cu_id u; cu_email := cu_email u;
                                  cu_role := JStr r; cu_companyId := cu_companyId u;
                                  cu_name := cu_name u;
                                  cu_companyName := cu_companyName u |} |}
      end
  end.

(** The body that [login] sends. *)
Definition login_request (email password : string) : body :=
  {[ "email" := JStr email; "password" := JStr password ]}.

(** ** The client: the messages page *)

Record DbMessage := {
  dm_id : Z;
  dm_senderCompanyId : Z;
  dm_receiverCompanyId : Z;
  dm_content : string;
  dm_createdAt : string;
  dm_senderName : string;
  dm_receiverName : string
}.

Record listed_company := {
  lc_id : Z;
  lc_name : string
}.

Record shown_message := {
  sm_id : Z;
  sm_senderId : string;
  sm_content : string;
  sm_time : string;
  sm_status : string
}.

Record conversation := {
  cv_id : Z;
  cv_name : string;
  cv_avatar : string;
  cv_lastMessage : string;
  cv_time : string;
  cv_unread : Z;
  cv_online : bool;
  cv_messages : list shown_message
}.

Section MessagesPage.

(** [new Date(s).toLocaleTimeString('fr-FR', ...)] and
    [new Date(s).toLocaleString('fr-FR', ...)] *)
Variable toLocaleTimeString : string → string.
Variable toLocaleString : string → string.

(** The messages between the company and one other company. *)
Definition between (effectiveCompanyId other : Z) (message : DbMessage) : bool :=
  (bool_decide (dm_senderCompanyId message = effectiveCompanyId)
   && bool_decide (dm_receiverCompanyId message = other))
  || (bool_decide (dm_receiverCompanyId message = effectiveCompanyId)
      && bool_decide (dm_senderCompanyId message = other)).

Definition shown (effectiveCompanyId : Z) (message : DbMessage) : shown_message :=
  {| sm_id := dm_id message;
     sm_senderId := if bool_decide (dm_senderCompanyId message = effectiveCompanyId)
                    then "me" else "other";
     sm_content := dm_content message;
     sm_time := toLocaleTimeString (dm_createdAt message);
     sm_status := "read" |}.

(** The conversations that the effect builds. *)
Definition nextConversations (effectiveCompanyId : Z) (companies : list listed_company)
  (messages : list DbMessage) : list conversation :=
  let otherCompanies :=
    List.filter (λ company, negb (bool_decide (lc_id company = effectiveCompanyId))) companies in
  map (λ company,
         let convoMessageRecords :=
           List.filter (between effectiveCompanyId (lc_id company)) messages in
         let convoMessages :=
           map (shown effectiveCompanyId) (List.filter (λ _, true) convoMessageRecords) in
         {| cv_id := lc_id company;
            cv_name := lc_name company;
            cv_avatar := "";
            cv_lastMessage :=
              match last convoMessages with
              | Some l => if truthy (JStr (sm_content l)) then sm_content l else "Aucun message"
              | None => "Aucun message"
              end;
            cv_time := match last convoMessageRecords with
                       | Some r => toLocaleString (dm_createdAt r)
                       | None => ""
                       end;
            cv_unread := 0;
            cv_online := false;
            cv_messages := convoMessages |})
      otherCompanies.

(** The effect that rebuilds the conversations: it leaves them alone while
    there is no company to show them for.  [effectiveCompanyId] is
    [currentCompanyId || adminCompanyId], a number or, for [null] and [NaN],
    none. *)
Definition conversations_effect (effectiveCompanyId : option Z) (companies : list listed_company)
  (messages : list DbMessage) (conversations : list conversation) : list conversation :=
  match effectiveCompanyId with
  | Some id =>
      if negb (truthy (JNum (Int id))) then conversations
      else nextConversations id companies messages
  | None => conversations
  end.

End MessagesPage.

(** [handleSendMessage]: the message is shown at once under the id
    [-Date.now()], then replaced by what the server created, or removed
    when the call fails. *)
Definition optimistic_message (now effectiveCompanyId receiver : Z) (content isoNow : string)
  (companyName : option string) (receiverName : string) : DbMessage :=
  {| dm_id := - now;
     dm_senderCompanyId := effectiveCompanyId;
     dm_receiverCompanyId := receiver;
     dm_content := content;
     dm_createdAt := isoNow;
     dm_senderName := match companyName with
                      | Some n => if truthy (JStr n) then n else "Moi"
                      | None => "Moi"
                      end;
     dm_receiverName := receiverName |}.

Definition send_shown (optimisticMessage : DbMessage) (prev : list DbMessage) : list DbMessage :=
  prev ++ [optimisticMessage].

Definition send_created (optimisticId : Z) (created : DbMessage) (companyName : option string)
  (receiverName : string) (prev : list DbMessage) : list DbMessage :=
  map (λ item,
         if bool_decide (dm_id item = optimisticId)
         then {| dm_id := dm_id created;
                 dm_senderCompanyId := dm_senderCompanyId created;
                 dm_receiverCompanyId := dm_receiverCompanyId created;
                 dm_content := dm_content created;
                 dm_createdAt := dm_createdAt created;
                 dm_senderName := match companyName with
                                  | Some n => if truthy (JStr n) then n else "Moi"
                                  | None => "Moi"
                                  end;
                 dm_receiverName := receiverName |}
         else item) prev.

Definition send_failed (optimisticId : Z) (prev : list DbMessage) : list DbMessage :=
  List.filter (λ item, negb (bool_decide (dm_id item = optimisticId))) prev.

(** ** The client: the forum page *)

Record ForumPost := {
  fp_id : Z;
  fp_title : string;
  fp_content : string;
  fp_category : string;
  fp_likes : Z;
  fp_comments : Z;
  fp_isPinned : bool;
  fp_liked : bool
}.

Definition handleLike (postId : Z) (posts : list ForumPost) : list ForumPost :=
  map (λ post,
         if bool_decide (fp_id post = postId)
         then {| fp_id := fp_id post; fp_title := fp_title post; fp_content := fp_content post;
                 fp_category := fp_category post;
                 fp_likes := if fp_liked post then fp_likes post - 1 else fp_likes post + 1;
                 fp_comments := fp_comments post; fp_isPinned := fp_isPinned post;
                 fp_liked := negb (fp_liked post) |}
         else post) posts.

(** ** The client: the administration page *)

(** [object.key] on a record of a listing *)
Definition prop (r : list (string * sqlval)) (key : string) : jsval :=
  match List.find (λ kv : string * sqlval, bool_decide (kv.1 = key)) r with
  | Some kv => js_of_sql kv.2
  | None => JUndefined
  end.

(** The dash that stands for a missing value. *)
Definition dash : string := "—".

Record admin_company := {
  ac_id : jsval;
  ac_name : jsval;
  ac_sector : jsval;
  ac_address : jsval;
  ac_website : jsval;
  ac_phone : jsval;
  ac_email : jsval
}.

(** The mapping that [fetchCompanies] applies to each listed company. *)
Definition fetched_company (company : list (string * sqlval)) : admin_company :=
  {| ac_id := prop company "id";
     ac_name := prop company "name";
     ac_sector := js_or (prop company "industry") (JStr dash);
     ac_address := js_or (prop company "location") (JStr dash);
     ac_website := js_or (prop company "website") (JStr "");
     ac_phone := js_or (prop company "phone") (JStr "");
     ac_email := js_or (js_or (prop company "email") (prop company "admin")) (JStr dash) |}.

Record edit_form := {
  ef_name : jsval;
  ef_email : jsval;
  ef_sector : jsval;
  ef_address : jsval;
  ef_website : jsval;
  ef_phone : jsval
}.

Definition openEditCompany (company : admin_company) : edit_form :=
  {| ef_name := js_or (ac_name company) (JStr "");
     ef_email := js_or (ac_email company) (JStr "");
     ef_sector := js_or (ac_sector company) (JStr "");
     ef_address := js_or (ac_address company) (JStr "");
     ef_website := js_or (ac_website company) (JStr "");
     ef_phone := js_or (ac_phone company) (JStr "") |}.

(** The body that [handleUpdateCompany] sends. *)
Definition update_request (editForm : edit_form) : body :=
  {[ "name" := ef_name editForm;
     "email" := ef_email editForm;
     "industry" := ef_sector editForm;
     "location" := ef_address editForm;
     "website" := ef_website editForm;
     "phone" := ef_phone editForm ]}.

(** ** Notions for the further properties *)

Section FurtherNotions.

Context {platform : Unicode}.

(** The column of "Comment" that holds the time of creation. *)
Definition comment_created_column (d : db) : option string :=
  resolveColumn (getTableColumns d TComment) ["createdAt"; "created_at"].

(** The join that the listing makes on the stored schema. *)
Definition comment_join_on (d : db) : comment_join :=
  comment_join_of d (comment_company_column d) (comment_user_column d)
                  (comment_generic_column d).

(** The company that the listing shows for a comment. *)
Definition shown_company (d : db) (j : comment_join) (cm : row) : option row :=
  match j with
  | NoJoin => None
  | JoinCompany column =>
      head (List.filter (λ c : row, sql_eq (get c "id") (get cm column)) (rows (Company d)))
  | JoinUser column =>
      head (List.filter
              (λ c : row,
                 sql_eq (get c "id")
                        (get_opt (head (List.filter (λ u : row, sql_eq (get u "id") (get cm column))
                                                    (rows (User d)))) "companyId"))
              (rows (Company d)))
  end.

(** The key by which the listing is ordered, read from a record. *)
Definition comment_order_of (createdAtColumn : option string) (r : list (string * sqlval))
  : sqlval :=
  match createdAtColumn with
  | Some _ => createdAt_of r
  | None => id_of r
  end.

(** A field of a listed record. *)
Definition field_of (k : string) (r : list (string * sqlval)) : sqlval :=
  default SNull (snd <$> List.find (λ kv, bool_decide (kv.1 = k)) r).

(** The users of a company, as the join of the administration listing
    finds them. *)
Definition staff (d : db) (c : row) : list row :=
  List.filter (λ u : row, sql_eq (get u "companyId") (get c "id")) (rows (User d)).

(** The rows that the LEFT JOIN with "User" makes of one company. *)
Definition staff_block (d : db) (c : row) : list (row * option row) :=
  match staff d c with
  | [] => [(c, None)]
  | ms => map (λ u, (c, Some u)) ms
  end.

(** The company of a user, if its companyId names one. *)
Definition employer (d : db) (u : row) : option row :=
  head (List.filter (λ c : row, sql_eq (get c "id") (get u "companyId")) (rows (Company d))).

(** A post as the administration lists it. *)
Definition admin_listed_post (d : db) (x : row * row) : list (string * sqlval) :=
  admin_post_fields (has (colnames (Post d)) "category") (has (colnames (Post d)) "status")
                    (has (colnames (Post d)) "views") x.1 x.2 (comments_of d x.1).

(** A user as the administration lists it. *)
Definition admin_listed_user (d : db) (u : row) : list (string * sqlval) :=
  admin_user_fields (has (colnames (User d)) "name") (has (colnames (User d)) "status")
                    (has (colnames (User d)) "lastActive") u (employer d u).

(** A company as the administration lists it. *)
Definition admin_listed_company (d : db) (c : row) : list (string * sqlval) :=
  [("id", get c "id");
   ("name", get c "name");
   ("industry", select_or_null (has (colnames (Company d)) "industry") "industry" c);
   ("location", select_or_null (has (colnames (Company d)) "location") "location" c);
   ("status", select_or_null (has (colnames (Company d)) "status") "status" c);
   ("website", select_or_null (has (colnames (Company d)) "website") "website" c);
   ("email", select_or_null (has (colnames (Company d)) "email") "email" c);
   ("phone", select_or_null (has (colnames (Company d)) "phone") "phone" c);
   ("description", select_or_null (has (colnames (Company d)) "description") "description" c);
   ("employees", SInt (sql_count (λ u : row, get u "id") (staff d c)));
   ("admin", sql_min (λ u : row, get u "email") (staff d c))].

(** The user and the company as the profile shows them. *)
Definition profile_user (d : db) (u : row) : list (string * sqlval) :=
  profile_user_fields (has (colnames (User d)) "name") (has (colnames (User d)) "phone")
                      (has (colnames (User d)) "avatar") u.

Definition profile_company (d : db) (c : row) : list (string * sqlval) :=
  profile_company_fields
    (has (colnames (Company d)) "description") (has (colnames (Company d)) "website")
    (has (colnames (Company d)) "location") (has (colnames (Company d)) "phone")
    (has (colnames (Company d)) "email") (has (colnames (Company d)) "industry")
    (has (colnames (Company d)) "status") c.

(** An id that counts as given: a number other than zero. *)
Definition given_id (v : sqlval) : option Z :=
  match v with
  | SInt z => if z =? 0 then None else Some z
  | _ => None
  end.

(** The company whose profile is shown: the one that the query names when
    it names one, else the user's own. *)
Definition profile_company_id (companyIdParam : jsnum) (u : row) : option Z :=
  match companyIdParam with
  | Int c => if c =? 0 then given_id (get u "companyId") else Some c
  | NaN => given_id (get u "companyId")
  | NonInt _ => None
  end.

(** A number of the query that the database can read where it is used as
    an id: one that is not given, or an integer that fits an INTEGER. *)
Definition readable_id (n : jsnum) : bool :=
  match n with
  | NaN => true
  | Int c => int4 c
  | NonInt _ => false
  end.

(** UPDATE ... SET sets on one row. *)
Definition updated (sets : list (string * sqlval)) (r : row) : row := list_to_map sets ∪ r.

(** The fields that a profile update sets on the user. *)
Definition user_sets (d : db) (userPayload : member) : list (string * sqlval) :=
  payload_sets (colnames (User d)) userPayload user_fields.

(** The row that [ensureAdminCompany] inserts. *)
Definition admin_company_named (now : Z) (d : db) : list (string * sqlval) :=
  [("name", SText "Admin")]
    ++ (if has (colnames (Company d)) "updatedAt" then [("updatedAt", STime now)]
        else if has (colnames (Company d)) "updated_at" then [("updated_at", STime now)]
        else []).

(** Some company is named admin, up to case. *)
Definition has_admin_company (d : db) : Prop :=
  ∃ r, r ∈ rows (Company d) ∧ sql_lower (get r "name") = SText "admin".

(** The string holds an at sign. *)
Fixpoint has_at (s : string) : bool :=
  match s with
  | EmptyString => false
  | String a s' => Ascii.eqb a "@" || has_at s'
  end.


(** The stored messages that a company sent or received. *)
Definition messages_of (d : db) (X : Z) : list row :=
  List.filter (λ m : row, sql_eq (get m "senderCompanyId") (SInt X)
                          || sql_eq (get m "receiverCompanyId") (SInt X))
              (rows (Message d)).

(** Every message names an existing sender and receiver, as the foreign
    keys of the table demand. *)
Definition messages_reference_companies (d : db) : Prop :=
  ∀ m, m ∈ rows (Message d) →
       references_company d (get m "senderCompanyId") = true
       ∧ references_company d (get m "receiverCompanyId") = true.

(** The value that comes back for a field shown with a dash when empty. *)
Definition through_dash (v : sqlval) : sqlval :=
  bind_text (normalized (js_or (js_or (js_of_sql v) (JStr dash)) (JStr ""))).

(** The value that comes back for a field shown empty when empty. *)
Definition through_blank (v : sqlval) : sqlval :=
  bind_text (normalized (js_or (js_or (js_of_sql v) (JStr "")) (JStr ""))).


(** A company as the directory lists it. *)
Definition directory_company (d : db) (c : row) : list (string * sqlval) :=
  [("id", get c "id");
   ("name", get c "name");
   ("industry", select_or_null (has (colnames (Company d)) "industry") "industry" c);
   ("location", select_or_null (has (colnames (Company d)) "location") "location" c);
   ("website", select_or_null (has (colnames (Company d)) "website") "website" c);
   ("email", select_or_null (has (colnames (Company d)) "email") "email" c);
   ("phone", select_or_null (has (colnames (Company d)) "phone") "phone" c);
   ("status", select_or_null (has (colnames (Company d)) "status") "status" c);
   ("description", select_or_null (has (colnames (Company d)) "description") "description" c);
   ("employees", SInt (sql_count (λ u : row, get u "id") (staff d c)))].

End FurtherNotions.

(** ** Further samples *)

Definition sample_toLocaleString (v : jsval) : string := js_String v.
Definition sample_jsonb (j : json) : result json := Ok j.

Definition sample_installation : installation :=
  {| tables := sample_db; UserSettings := ∅ |}.

Definition sample_notifications : json :=
  JO [("email", JV (JBool true)); ("forum", JV (JBool false))].

(** A Comment table that spells the post column post_id. *)
Definition sample_snake_comments : table :=
  {| cols := [("id", DfSerial); ("content", DfNull); ("authorId", DfNull); ("post_id", DfNull)];
     rows := [mkrow [("id", SInt 1); ("content", SText "Welcome"); ("authorId", SInt 1);
                     ("post_id", SInt 1)]];
     serial := 2 |}.

Definition sample_db_snake : db :=
  {| User := sample_users; Company := sample_companies; Post := sample_posts;
     Comment := sample_snake_comments; Message := sample_messages;
     fkeys := []; enums := [] |}.

Definition sample_user_payload : member :=
  PObj (mkbody [("email", JStr "new@acme.tn"); ("role", JStr "admin")]).

Definition sample_company_payload : member := PObj (mkbody [("name", JStr "Acme SA")]).

(** A name with a quote in it. *)
Definition sample_identifier : string :=
  String "a" (String (ascii_of_nat 34) (String "b" EmptyString)).

Definition sample_listed_companies : list listed_company :=
  [{| lc_id := 1; lc_name := "Admin" |}; {| lc_id := 2; lc_name := "Acme" |};
   {| lc_id := 3; lc_name := "Beta" |}].

Definition sample_db_message (i s r : Z) (c : string) : DbMessage :=
  {| dm_id := i; dm_senderCompanyId := s; dm_receiverCompanyId := r; dm_content := c;
     dm_createdAt := "2024-01-01"; dm_senderName := ""; dm_receiverName := "" |}.

Definition sample_db_messages : list DbMessage :=
  [sample_db_message 1 1 2 "Bonjour"; sample_db_message 2 2 1 "Salut";
   sample_db_message 3 1 1 "Note"].

Definition sample_forum_posts : list ForumPost :=
  [{| fp_id := 7; fp_title := "Hello"; fp_content := "First"; fp_category := "events";
      fp_likes := 0; fp_comments := 2; fp_isPinned := false; fp_liked := false |};
   {| fp_id := 8; fp_title := "News"; fp_content := "Second"; fp_category := "questions";
      fp_likes := 3; fp_comments := 0; fp_isPinned := false; fp_liked := true |}].

(** A Company table with the columns that the edit form writes. *)
Definition sample_full_companies : table :=
  {| cols := [("id", DfSerial); ("name", DfNull); ("industry", DfNull); ("location", DfNull);
              ("website", DfNull); ("phone", DfNull)];
     rows := [mkrow [("id", SInt 1); ("name", SText "Acme"); ("industry", SNull);
                     ("location", SText "Tunis"); ("website", SNull); ("phone", SText "")]];
     serial := 2 |}.

Definition sample_db_full : db :=
  {| User := sample_users; Company := sample_full_companies; Post := sample_posts;
     Comment := sample_comments; Message := sample_messages;
     fkeys := []; enums := [] |}.

Definition sample_full_company : row :=
  mkrow [("id", SInt 1); ("name", SText "Acme"); ("industry", SNull);
         ("location", SText "Tunis"); ("website", SNull); ("phone", SText "")].

Definition sample_message_to_nobody : body :=
  mkbody [("senderCompanyId", JNum (Int 2)); ("receiverCompanyId", JNum (Int 99));
          ("content", JStr "Salut")].


(** ** Properties *)

(** Membership in a list that is written out. *)
Ltac in_list := solve [repeat first [apply list_elem_of_here | apply list_elem_of_further]].

(** *** Strings and values *)

Lemma lower_letters_empty (s : string) : lower_letters s = "" ↔ s = "".
Proof. destruct s; simpl; split; congruence. Qed.

Lemma toLowerCase_empty `{Unicode} (s : string) : toLowerCase s = "" ↔ s = "".
Proof.
  unfold toLowerCase. destruct (ascii_only s) eqn:E.
  - apply lower_letters_empty.
  - split; [done|]. intros ->. done.
Qed.

Lemma toLowerCase_ascii `{Unicode} (s : string) :
  ascii_only s = true → toLowerCase s = lower_letters s.
Proof. unfold toLowerCase. by intros ->. Qed.

Lemma truthy_JStr (s : string) : truthy (JStr s) = true ↔ s ≠ "".
Proof.
  simpl. rewrite negb_true_iff, bool_decide_eq_false. tauto.
Qed.

Lemma truthy_JStr_false (s : string) : truthy (JStr s) = false ↔ s = "".
Proof.
  simpl. rewrite negb_false_iff, bool_decide_eq_true. tauto.
Qed.

Lemma has_elem (columns : list string) (c : string) : has columns c = true ↔ c ∈ columns.
Proof. unfold has. apply bool_decide_eq_true. Qed.

Lemma has_cols_Forall (t : table) (cs : list string) :
  has_cols t cs = true ↔ Forall (λ c, c ∈ colnames t) cs.
Proof.
  unfold has_cols. rewrite forallb_forall, Forall_forall.
  split; intros H c Hc.
  - apply has_elem, H. by apply list_elem_of_In.
  - apply has_elem, H. by apply list_elem_of_In.
Qed.

(** *** Login *)

Section LoginProperties.

Context {platform : Unicode}.
Variable bcrypt_compare : string → string → bool.

#[local] Set Default Proof Using "Type".

Lemma role_check (role : jsval) (stored : sqlval) :
  truthy (requestedRole_of role)
  && negb (bool_decide (lower_if_string (js_of_sql stored) = requestedRole_of role))
  = negb (role_accepted role stored).
Proof.
  destruct role; simpl; try reflexivity.
  rewrite negb_orb. f_equal.
  - f_equal. apply bool_decide_ext. apply toLowerCase_empty.
  - f_equal. apply bool_decide_ext. split; congruence.
Qed.

Lemma role_accepted_equal (r : string) : role_accepted (JStr r) (SText r) = true.
Proof.
  simpl. apply orb_true_iff. right. by apply bool_decide_eq_true.
Qed.

Lemma role_accepted_absent (stored : sqlval) : role_accepted JUndefined stored = true.
Proof. reflexivity. Qed.

Lemma login_found (d : db) (b : body) (e p h : string) (u : row) :
  has_cols (User d) user_login_columns = true →
  field b "email" = JStr e →
  field b "password" = JStr p →
  trim e ≠ "" →
  p ≠ "" →
  List.find (email_is (toLowerCase (trim e))) (rows (User d)) = Some u →
  get u "password" = SText h →
  login bcrypt_compare d b =
    if role_accepted (field b "role") (get u "role")
    then if bcrypt_compare p h
         then res_json (login_success u)
         else res_message 401 "Invalid credentials."
    else res_message 401 "Invalid role for this account.".
Proof.
  intros Hc He Hp Hne Hpne Hu Hh.
  unfold login. rewrite He, Hp. simpl normalizeEmail.
  assert (truthy (JStr (toLowerCase (trim e))) = true) as ->.
  { apply truthy_JStr. by rewrite toLowerCase_empty. }
  assert (truthy (JStr p) = true) as -> by by apply truthy_JStr.
  simpl. unfold login_try, q_login_user. rewrite Hc. simpl. rewrite Hu.
  rewrite role_check.
  destruct (role_accepted (field b "role") (get u "role")); simpl; [|done].
  rewrite Hh. simpl. by destruct (bcrypt_compare p h).
Qed.

Lemma login_missing (d : db) (b : body) :
  truthy (JStr (normalizeEmail (field b "email"))) = false
  ∨ truthy (field b "password") = false →
  login bcrypt_compare d b = res_message 400 "Email and password are required.".
Proof.
  intros H. unfold login.
  assert (negb (truthy (JStr (normalizeEmail (field b "email"))))
          || negb (truthy (field b "password")) = true) as ->; [|done].
  apply orb_true_iff. destruct H as [-> | ->]; auto.
Qed.

(** C1, as amended: a login without an email (non-empty once trimmed) or
    without a password is answered 400.  Otherwise, when the email, trimmed
    and compared without case, finds a stored user whose hash is a string,
    the answer is the token with the reduced record id, email, role,
    companyId if the password matches the stored hash and the supplied role
    is accepted (a non-empty string role must equal the stored one up to
    case), and 401 if the password does not match or the role is not
    accepted. *)
Theorem login_contract (d : db) (b : body) :
  (truthy (JStr (normalizeEmail (field b "email"))) = false
   ∨ truthy (field b "password") = false →
   login bcrypt_compare d b
   = {| status := 400;
        payload := JO [("message", JV (JStr "Email and password are required."))] |})
  ∧ ∀ (e p h : string) (u : row),
      has_cols (User d) user_login_columns = true →
      field b "email" = JStr e →
      field b "password" = JStr p →
      trim e ≠ "" →
      p ≠ "" →
      List.find (email_is (toLowerCase (trim e))) (rows (User d)) = Some u →
      get u "password" = SText h →
      (role_accepted (field b "role") (get u "role") = true →
       bcrypt_compare p h = true →
       login bcrypt_compare d b =
         {| status := 200;
            payload :=
              JO [("token", JV (JStr "dev-session-token"));
                  ("user", JO [("id", JV (js_of_sql (get u "id")));
                               ("email", JV (js_of_sql (get u "email")));
                               ("role", JV (lower_if_string (js_of_sql (get u "role"))));
                               ("companyId", JV (js_of_sql (get u "companyId")))])] |})
      ∧ (role_accepted (field b "role") (get u "role") = false ∨ bcrypt_compare p h = false →
         status (login bcrypt_compare d b) = 401%nat).
Proof.
  split; [apply login_missing|].
  intros e p h u Hc He Hp Hne Hpne Hu Hh.
  rewrite (login_found d b e p h u) by done.
  split.
  - intros -> ->. reflexivity.
  - intros [-> | ->]; [done|].
    by destruct (role_accepted _ _).
Qed.

Lemma login_ok_shape (d : db) (b : body) :
  status (login bcrypt_compare d b) = 200%nat →
  ∃ u, payload (login bcrypt_compare d b) = login_success u.
Proof.
  unfold login.
  destruct (negb _ || negb _); [discriminate|].
  unfold login_try, q_login_user.
  destruct (has_cols _ _); simpl; [|discriminate].
  destruct (List.find _ _) as [u|]; [|discriminate].
  destruct (truthy _ && negb _); [discriminate|].
  destruct (bcrypt_compare_js _ _) as [[]|]; simpl; try discriminate.
  intros _. by exists u.
Qed.

(** C9: two successful logins, whoever logs in and whatever the stored state,
    carry the same token, the constant dev-session-token. *)
Theorem login_token_constant (d1 d2 : db) (b1 b2 : body) :
  status (login bcrypt_compare d1 b1) = 200%nat →
  status (login bcrypt_compare d2 b2) = 200%nat →
  json_field (payload (login bcrypt_compare d1 b1)) "token" = Some (JV (JStr "dev-session-token"))
  ∧ json_field (payload (login bcrypt_compare d2 b2)) "token" = json_field (payload (login bcrypt_compare d1 b1)) "token".
Proof.
  intros [u1 H1]%login_ok_shape [u2 H2]%login_ok_shape.
  rewrite H1, H2. split; reflexivity.
Qed.

End LoginProperties.

(** *** Deleting under foreign keys *)

Lemma sql_in_false (x : sqlval) (l : list sqlval) (v : sqlval) :
  sql_in x l = false → v ∈ l → sql_eq x v = false.
Proof.
  unfold sql_in. intros H Hv. destruct (sql_eq x v) eqn:E; [|done].
  assert (existsb (sql_eq x) l = true); [|congruence].
  apply existsb_exists. exists v. by rewrite <- list_elem_of_In.
Qed.

Lemma sql_in_null (l : list sqlval) : sql_in SNull l = false.
Proof. unfold sql_in. induction l as [|v l IH]; [done|]. cbn [existsb sql_eq]. done. Qed.

Lemma sql_eq_null_l (v : sqlval) : sql_eq SNull v = false.
Proof. reflexivity. Qed.

Lemma list_filter_elem {A} (f : A → bool) (l : list A) (x : A) :
  x ∈ List.filter f l ↔ x ∈ l ∧ f x = true.
Proof. rewrite !list_elem_of_In. apply filter_In. Qed.

Lemma filter_lengths {A} (f : A → bool) (l : list A) :
  (length (List.filter (λ x, negb (f x)) l) + length (List.filter f l) = length l)%nat.
Proof.
  induction l as [|x l IH]; [done|]. cbn [List.filter].
  destruct (f x); cbn [negb length]; lia.
Qed.

Lemma cleared_refl (r : row) : cleared r r.
Proof. intros c. by left. Qed.

Lemma cleared_trans (r1 r2 r3 : row) : cleared r1 r2 → cleared r2 r3 → cleared r1 r3.
Proof.
  intros H12 H23 c. destruct (H12 c) as [-> | ->]; [|by right]. apply H23.
Qed.

(** What holds of no row before holds of none after, as long as it does not
    hold of a cleared column. *)
Lemma cleared_sql_eq (r' r : row) (c : string) (v : sqlval) :
  cleared r' r → sql_eq (get r c) v = false → sql_eq (get r' c) v = false.
Proof. intros Hc Hv. by destruct (Hc c) as [-> | ->]. Qed.

Lemma cleared_sql_in (r' r : row) (c : string) (l : list sqlval) :
  cleared r' r → sql_in (get r c) l = false → sql_in (get r' c) l = false.
Proof. intros Hc Hv. destruct (Hc c) as [-> | ->]; [done | apply sql_in_null]. Qed.

Lemma shrunk_refl (d : db) : shrunk d d.
Proof.
  split_and!; try done. intros t r Hr. exists r. split; [done | apply cleared_refl].
Qed.

Lemma shrunk_trans (d1 d2 d3 : db) : shrunk d1 d2 → shrunk d2 d3 → shrunk d1 d3.
Proof.
  intros (Hr1 & Hc1 & Hf1 & He1) (Hr2 & Hc2 & Hf2 & He2). split_and!.
  - intros t r3 H3. destruct (Hr2 t r3 H3) as (r2 & H2 & C23).
    destruct (Hr1 t r2 H2) as (r1 & H1 & C12). exists r1. split; [done|].
    by eapply cleared_trans.
  - intros t. by rewrite Hc2, Hc1.
  - by rewrite Hf2.
  - by rewrite He2.
Qed.

Lemma tbl_set_tbl (d : db) (t : tablename) (x : table) : tbl (set_tbl d t x) t = x.
Proof. by destruct t. Qed.

Lemma tbl_set_tbl_other (d : db) (t t' : tablename) (x : table) :
  t ≠ t' → tbl (set_tbl d t x) t' = tbl d t'.
Proof. by destruct t, t'. Qed.

Lemma fkeys_set_tbl (d : db) (t : tablename) (x : table) : fkeys (set_tbl d t x) = fkeys d.
Proof. by destruct t. Qed.

Lemma enums_set_tbl (d : db) (t : tablename) (x : table) : enums (set_tbl d t x) = enums d.
Proof. by destruct t. Qed.

Lemma tbl_delete_rows_other (d : db) (t t' : tablename) (cond : row → bool) :
  t ≠ t' → tbl (delete_rows d t cond) t' = tbl d t'.
Proof. apply tbl_set_tbl_other. Qed.

Lemma rows_delete_rows (d : db) (t : tablename) (cond : row → bool) :
  rows (tbl (delete_rows d t cond) t) = List.filter (λ r, negb (cond r)) (rows (tbl d t)).
Proof. unfold delete_rows. by rewrite tbl_set_tbl. Qed.

(** A row that is still there after a DELETE was there before and is not
    one the DELETE selects. *)
Lemma elem_delete_rows (d : db) (t t' : tablename) (cond : row → bool) (r : row) :
  r ∈ rows (tbl (delete_rows d t cond) t') →
  r ∈ rows (tbl d t') ∧ (t = t' → cond r = false).
Proof.
  destruct (decide (t = t')) as [<-|Hne].
  - rewrite rows_delete_rows, list_filter_elem, negb_true_iff. by intros [? ?].
  - rewrite tbl_delete_rows_other by done. by split.
Qed.

Lemma shrunk_delete_rows (d : db) (t : tablename) (cond : row → bool) :
  shrunk d (delete_rows d t cond).
Proof.
  split_and!.
  - intros t' r [Hr _]%elem_delete_rows. exists r. split; [done | apply cleared_refl].
  - intros t'. destruct (decide (t = t')) as [<-|Hne].
    + unfold delete_rows. by rewrite tbl_set_tbl.
    + by rewrite tbl_delete_rows_other.
  - apply fkeys_set_tbl.
  - apply enums_set_tbl.
Qed.

Lemma get_set_null (k : fkey) (gone : list sqlval) (r : row) : cleared (set_null k gone r) r.
Proof.
  unfold set_null. destruct (refers k gone r); [|apply cleared_refl].
  intros c. unfold get. destruct (decide (fk_column k = c)) as [<-|Hne].
  - right. by rewrite lookup_insert_eq.
  - left. by rewrite lookup_insert_ne.
Qed.

Lemma refers_set_null (k : fkey) (gone : list sqlval) (r : row) :
  refers k gone (set_null k gone r) = false.
Proof.
  unfold set_null. destruct (refers k gone r) eqn:E; [|done].
  unfold refers, get. rewrite lookup_insert_eq. apply sql_in_null.
Qed.

Lemma shrunk_null_rows (d : db) (k : fkey) (gone : list sqlval) : shrunk d (null_rows d k gone).
Proof.
  unfold null_rows. split_and!.
  - intros t r'. destruct (decide (fk_table k = t)) as [<-|Hne].
    + rewrite tbl_set_tbl. cbn [set_rows rows].
      rewrite list_elem_of_In, in_map_iff. intros (r & <- & Hr).
      exists r. split; [by apply list_elem_of_In | apply get_set_null].
    + rewrite tbl_set_tbl_other by done. intros Hr. exists r'.
      split; [done | apply cleared_refl].
  - intros t. destruct (decide (fk_table k = t)) as [<-|Hne].
    + by rewrite tbl_set_tbl.
    + by rewrite tbl_set_tbl_other.
  - apply fkeys_set_tbl.
  - apply enums_set_tbl.
Qed.

Section Cascades.

Variable ks : list fkey.

(** What every step of a cascade keeps, every cascade keeps.  [P] holds of
    the tables that rows may leave. *)
Section Invariant.

Variable R : relation deleting.
Variable P : tablename → Prop.
Hypothesis R_refl : ∀ s, R s s.
Hypothesis R_trans : ∀ s1 s2 s3, R s1 s2 → R s2 s3 → R s1 s3.
Hypothesis P_closed :
  ∀ k t, k ∈ ks → P t → fk_target k = table_name t → P (fk_table k).
Hypothesis R_delete :
  ∀ k gone (s : deleting), k ∈ ks → P (fk_table k) →
    R s (delete_rows s.1 (fk_table k) (refers k gone),
         s.2 ++ map (λ r, (fk_table k, key_of r))
                    (List.filter (refers k gone) (rows (tbl s.1 (fk_table k))))).
Hypothesis R_null :
  ∀ k gone (s : deleting), k ∈ ks → P (fk_table k) → R s (null_rows s.1 k gone, s.2).

Lemma fk_step_keeps (cascade : tablename → list sqlval → deleting → option deleting)
  (t : tablename) (gone : list sqlval) (k : fkey) (s s' : deleting) :
  (∀ t gone s s', P t → cascade t gone s = Some s' → R s s') →
  k ∈ ks → P t → fk_step cascade t gone k s = Some s' → R s s'.
Proof using R_refl R_trans P_closed R_delete R_null.
  intros Hrec Hk Ht. unfold fk_step.
  destruct (bool_decide _) eqn:E; [|by intros [= <-]].
  apply bool_decide_eq_true in E.
  destruct (List.filter _ _) as [|r0 hit] eqn:Hhit; [by intros [= <-]|].
  destruct (fk_on_delete k).
  - by intros [= <-].
  - intros Hc. eapply R_trans; [|eapply Hrec; [|exact Hc]; by eapply P_closed].
    rewrite <- Hhit. apply R_delete; [done|]. by eapply P_closed.
  - intros [= <-]. apply R_null; [done|]. by eapply P_closed.
Qed.

Lemma fk_fold_keeps (cascade : tablename → list sqlval → deleting → option deleting)
  (t : tablename) (gone : list sqlval) (l : list fkey) (acc : option deleting)
  (s' : deleting) :
  (∀ t gone s s', P t → cascade t gone s = Some s' → R s s') →
  (∀ k, k ∈ l → k ∈ ks) → P t →
  foldl (λ acc k, acc ≫= fk_step cascade t gone k) acc l = Some s' →
  ∃ s, acc = Some s ∧ R s s'.
Proof using R_refl R_trans P_closed R_delete R_null.
  intros Hrec. revert acc. induction l as [|k l IH]; intros acc Hl Ht; cbn [foldl].
  - intros ->. eauto.
  - intros Hf. apply IH in Hf as (s1 & Hs1 & HR); [|intros; apply Hl; by right|done].
    destruct acc as [s|]; [|done]. cbn in Hs1. exists s. split; [done|].
    eapply R_trans; [|exact HR].
    eapply fk_step_keeps; [exact Hrec | apply Hl; by left | done | exact Hs1].
Qed.

Lemma on_delete_keeps (fuel : nat) (t : tablename) (gone : list sqlval) (s s' : deleting) :
  P t → on_delete fuel ks t gone s = Some s' → R s s'.
Proof using R_refl R_trans P_closed R_delete R_null.
  revert t gone s s'. induction fuel as [|fuel IH]; intros t gone s s' Ht; cbn [on_delete].
  - discriminate.
  - intros Hf. apply fk_fold_keeps in Hf as (s0 & [= <-] & HR); done.
Qed.

End Invariant.

(** A cascade only takes rows away and clears columns. *)
Lemma on_delete_shrunk (fuel : nat) (t : tablename) (gone : list sqlval) (s s' : deleting) :
  on_delete fuel ks t gone s = Some s' → shrunk s.1 s'.1.
Proof.
  apply (on_delete_keeps (λ s s', shrunk s.1 s'.1) (λ _, True)); try done.
  - intros ?. apply shrunk_refl.
  - intros ? ? ?. apply shrunk_trans.
  - intros k gone' s0 _ _. apply shrunk_delete_rows.
  - intros k gone' s0 _ _. apply shrunk_null_rows.
Qed.

(** The keys that have left stay on record. *)
Lemma on_delete_record (fuel : nat) (t : tablename) (gone : list sqlval) (s s' : deleting) :
  on_delete fuel ks t gone s = Some s' → ∀ g, g ∈ s.2 → g ∈ s'.2.
Proof.
  apply (on_delete_keeps (λ s s' : deleting, ∀ g, g ∈ s.2 → g ∈ s'.2) (λ _, True)); try done.
  - intros s1 s2 s3 H12 H23 g Hg. by apply H23, H12.
  - intros k gone' s0 _ _ g Hg. cbn [snd]. apply elem_of_app. by left.
Qed.

(** A table that no chain of foreign keys ties to the table of the DELETE
    is left alone. *)
Lemma on_delete_frame (P : tablename → Prop) (fuel : nat) (t : tablename)
  (gone : list sqlval) (s s' : deleting) :
  (∀ k t, k ∈ ks → P t → fk_target k = table_name t → P (fk_table k)) →
  P t → on_delete fuel ks t gone s = Some s' →
  ∀ t', ¬ P t' → tbl s'.1 t' = tbl s.1 t'.
Proof.
  intros Hclosed.
  apply (on_delete_keeps (λ s s' : deleting, ∀ t', ¬ P t' → tbl s'.1 t' = tbl s.1 t') P);
    try done.
  - intros s1 s2 s3 H12 H23 t' Ht'. by rewrite H23, H12.
  - intros k gone' s0 _ HP t' Ht'. cbn [fst]. apply tbl_delete_rows_other.
    intros <-. done.
  - intros k gone' s0 _ HP t' Ht'. cbn [fst]. unfold null_rows. apply tbl_set_tbl_other.
    intros <-. done.
Qed.

Lemma unreferenced_shrunk (k : fkey) (gone : list sqlval) (d d' : db) :
  shrunk d d' → unreferenced k gone d → unreferenced k gone d'.
Proof.
  intros (Hr & _) Hu r' Hr'. destruct (Hr _ _ Hr') as (r & Hin & Hc).
  unfold refers. eapply cleared_sql_in; [exact Hc|]. by apply Hu.
Qed.

Lemma fk_step_Some (cascade : tablename → list sqlval → deleting → option deleting)
  (t : tablename) (gone : list sqlval) (k : fkey) (s s' : deleting) :
  (∀ t gone s s', cascade t gone s = Some s' → shrunk s.1 s'.1) →
  fk_step cascade t gone k s = Some s' → shrunk s.1 s'.1.
Proof.
  intros Hrec. unfold fk_step.
  destruct (bool_decide _); [|intros [= <-]; apply shrunk_refl].
  destruct (List.filter _ _) as [|r0 hit]; [intros [= <-]; apply shrunk_refl|].
  destruct (fk_on_delete k).
  - intros [= <-]. apply shrunk_refl.
  - intros Hc%Hrec. eapply shrunk_trans; [|exact Hc]. apply shrunk_delete_rows.
  - intros [= <-]. apply shrunk_null_rows.
Qed.

Lemma fk_fold_shrunk (cascade : tablename → list sqlval → deleting → option deleting)
  (t : tablename) (gone : list sqlval) (l : list fkey) (acc : option deleting)
  (s' : deleting) :
  (∀ t gone s s', cascade t gone s = Some s' → shrunk s.1 s'.1) →
  foldl (λ acc k, acc ≫= fk_step cascade t gone k) acc l = Some s' →
  ∃ s, acc = Some s ∧ shrunk s.1 s'.1.
Proof.
  intros Hrec. revert acc. induction l as [|k l IH]; intros acc; cbn [foldl].
  - intros ->. eexists. split; [done | apply shrunk_refl].
  - intros (s1 & Hs1 & HR)%IH. destruct acc as [s|]; [|done]. cbn in Hs1.
    exists s. split; [done|]. eapply shrunk_trans; [|exact HR]. by eapply fk_step_Some.
Qed.

(** After the step of a key with a rule, nothing refers through it. *)
Lemma fk_step_unreferenced (cascade : tablename → list sqlval → deleting → option deleting)
  (t : tablename) (gone : list sqlval) (k : fkey) (s s' : deleting) :
  (∀ t gone s s', cascade t gone s = Some s' → shrunk s.1 s'.1) →
  fk_target k = table_name t → fk_on_delete k ≠ NoAction →
  fk_step cascade t gone k s = Some s' → unreferenced k gone s'.1.
Proof.
  intros Hrec Ht Hrule. unfold fk_step. rewrite (bool_decide_eq_true_2 _ Ht).
  destruct (List.filter _ _) as [|r0 hit] eqn:Hhit.
  - intros [= <-] r Hr. destruct (refers k gone r) eqn:E; [|done].
    assert (r ∈ List.filter (refers k gone) (rows (tbl s.1 (fk_table k)))) as Hin.
    { by apply list_filter_elem. }
    rewrite Hhit in Hin. by apply elem_of_nil in Hin.
  - destruct (fk_on_delete k); [done| |].
    + intros Hc%Hrec. eapply unreferenced_shrunk; [exact Hc|]. cbn [fst].
      intros r [_ Hr]%elem_delete_rows. by apply Hr.
    + intros [= <-] r. cbn [fst]. unfold null_rows. rewrite tbl_set_tbl. cbn [set_rows rows].
      rewrite list_elem_of_In, in_map_iff. intros (r1 & <- & _). apply refers_set_null.
Qed.

Lemma fk_fold_unreferenced (cascade : tablename → list sqlval → deleting → option deleting)
  (t : tablename) (gone : list sqlval) (l : list fkey) (acc : option deleting)
  (s' : deleting) (k : fkey) :
  (∀ t gone s s', cascade t gone s = Some s' → shrunk s.1 s'.1) →
  k ∈ l → fk_target k = table_name t → fk_on_delete k ≠ NoAction →
  foldl (λ acc k, acc ≫= fk_step cascade t gone k) acc l = Some s' →
  unreferenced k gone s'.1.
Proof.
  intros Hrec. revert acc. induction l as [|k0 l IH]; intros acc Hk Ht Hrule; cbn [foldl].
  - by apply elem_of_nil in Hk.
  - intros Hf. apply elem_of_cons in Hk as [<- | Hk]; [|by eapply IH].
    apply fk_fold_shrunk in Hf as (s1 & Hs1 & HR); [|done].
    destruct acc as [s|]; [|done]. cbn in Hs1.
    eapply unreferenced_shrunk; [exact HR|]. by eapply fk_step_unreferenced.
Qed.

Lemma on_delete_unreferenced (fuel : nat) (t : tablename) (gone : list sqlval)
  (s s' : deleting) (k : fkey) :
  k ∈ ks → fk_target k = table_name t → fk_on_delete k ≠ NoAction →
  on_delete fuel ks t gone s = Some s' → unreferenced k gone s'.1.
Proof.
  destruct fuel as [|fuel]; cbn [on_delete]; [discriminate|].
  intros Hk Ht Hrule. eapply fk_fold_unreferenced; try done.
  intros t0 gone0 s0 s0'. apply on_delete_shrunk.
Qed.

(** Where no row refers to what leaves, nothing else happens. *)
Lemma on_delete_idle (fuel : nat) (t : tablename) (gone : list sqlval) (s : deleting) :
  (∀ k, k ∈ ks → fk_target k = table_name t → unreferenced k gone s.1) →
  on_delete (S fuel) ks t gone s = Some s.
Proof.
  cbn [on_delete]. generalize (on_delete fuel ks). intros cascade Hidle.
  assert (∀ l, (∀ k, k ∈ l → k ∈ ks) →
               foldl (λ acc k, acc ≫= fk_step cascade t gone k) (Some s) l = Some s) as Hl.
  { induction l as [|k l IH]; intros Hin; cbn [foldl]; [done|].
    assert (fk_step cascade t gone k s = Some s) as Hstep.
    { unfold fk_step. destruct (bool_decide _) eqn:E; [|done].
      apply bool_decide_eq_true in E.
      destruct (List.filter _ _) as [|r0 hit] eqn:Hhit; [done|].
      assert (r0 ∈ List.filter (refers k gone) (rows (tbl s.1 (fk_table k)))) as Hr0.
      { rewrite Hhit. by left. }
      apply list_filter_elem in Hr0 as [Hr0 Href].
      rewrite (Hidle k) in Href; [done | apply Hin; by left | done | done]. }
    cbn. rewrite Hstep. apply IH. intros k' Hk'. apply Hin. by right. }
  by apply Hl.
Qed.

End Cascades.

Lemma row_count_delete_rows (d : db) (t : tablename) (cond : row → bool) :
  (row_count (delete_rows d t cond) + length (List.filter cond (rows (tbl d t)))
   = row_count d)%nat.
Proof.
  unfold delete_rows, row_count, sql_delete.
  pose proof (filter_lengths cond (rows (tbl d t))).
  destruct t; cbn [tbl set_tbl snd set_rows rows User Company Post Comment Message] in *; lia.
Qed.

Lemma row_count_null_rows (d : db) (k : fkey) (gone : list sqlval) :
  row_count (null_rows d k gone) = row_count d.
Proof.
  unfold null_rows, row_count.
  destruct (fk_table k);
    cbn [tbl set_tbl set_rows rows User Company Post Comment Message];
    by rewrite length_map.
Qed.

(** Every level of a cascade deletes a row, so fuel above the number of rows
    is enough. *)
Lemma on_delete_enough (ks : list fkey) (fuel : nat) (t : tablename) (gone : list sqlval)
  (s : deleting) :
  (row_count s.1 < fuel)%nat →
  ∃ s', on_delete fuel ks t gone s = Some s' ∧ (row_count s'.1 ≤ row_count s.1)%nat.
Proof.
  revert t gone s. induction fuel as [|fuel IH]; intros t gone s Hlt; [lia|].
  cbn [on_delete].
  assert (∀ l s0, (row_count s0.1 ≤ row_count s.1)%nat →
            ∃ s', foldl (λ acc k, acc ≫= fk_step (on_delete fuel ks) t gone k) (Some s0) l
                  = Some s'
                  ∧ (row_count s'.1 ≤ row_count s.1)%nat) as Hl.
  { induction l as [|k l IHl]; intros s0 Hs0; cbn [foldl]; [eauto|].
    assert (∃ s1, fk_step (on_delete fuel ks) t gone k s0 = Some s1
                  ∧ (row_count s1.1 ≤ row_count s.1)%nat) as (s1 & Hs1 & Hle).
    { unfold fk_step. destruct (bool_decide _); [|eauto].
      destruct (List.filter _ _) as [|r0 hit] eqn:Hhit; [eauto|].
      destruct (fk_on_delete k); [eauto| |].
      - pose proof (row_count_delete_rows s0.1 (fk_table k) (refers k gone)) as Hrc.
        rewrite Hhit in Hrc. cbn [length] in Hrc.
        destruct (IH (fk_table k) (map key_of (r0 :: hit))
                     (delete_rows s0.1 (fk_table k) (refers k gone),
                      s0.2 ++ map (λ r, (fk_table k, key_of r)) (r0 :: hit)))
          as (s1 & Hs1 & Hle); [cbn [fst]; lia|].
        exists s1. split; [done|]. cbn [fst] in Hle. lia.
      - eexists. split; [done|]. cbn [fst]. rewrite row_count_null_rows. done. }
    cbn. rewrite Hs1. by apply IHl. }
  by apply Hl.
Qed.

Section DeleteFrom.

(** What a DELETE that went through has done: the selected rows have left
    their table, rows have only left or lost columns elsewhere, and no row
    refers any longer, through a foreign key in force, to a row that the
    statement selected. *)
Lemma sql_delete_from_ok (d d' : db) (t : tablename) (cond : row → bool) (deleted : list row) :
  sql_delete_from d t cond = Ok (deleted, d') →
  deleted = List.filter cond (rows (tbl d t))
  ∧ shrunk d d'
  ∧ (∀ r', r' ∈ rows (tbl d' t) → ∃ r, r ∈ rows (tbl d t) ∧ cond r = false ∧ cleared r' r)
  ∧ (∀ k, k ∈ constraints d → fk_target k = table_name t →
          unreferenced k (map key_of (List.filter cond (rows (tbl d t)))) d')
  ∧ (∀ P : tablename → Prop,
       (∀ k t, k ∈ constraints d → P t → fk_target k = table_name t → P (fk_table k)) →
       P t → ∀ t', ¬ P t' → tbl d' t' = tbl d t').
Proof.
  unfold sql_delete_from.
  destruct (on_delete _ _ _ _ _) as [s|] eqn:Hon; [|discriminate].
  destruct (forallb _ _) eqn:Hcheck; [|discriminate].
  intros [= <- <-]. split; [done|].
  pose proof (on_delete_shrunk _ _ _ _ _ _ Hon) as Hsh. cbn [fst] in Hsh.
  split_and!.
  - eapply shrunk_trans; [apply shrunk_delete_rows | exact Hsh].
  - intros r' Hr'. destruct Hsh as (Hrows & _).
    destruct (Hrows _ _ Hr') as (r & Hr & Hc).
    apply elem_delete_rows in Hr as [Hr Hcond]. exists r. split_and!; [done | by apply Hcond | done].
  - intros k Hk Ht. destruct (decide (fk_on_delete k = NoAction)) as [Hno|Hrule].
    + rewrite forallb_forall in Hcheck. specialize (Hcheck k).
      rewrite Hno in Hcheck. rewrite <- list_elem_of_In in Hcheck. specialize (Hcheck Hk).
      unfold no_action_ok in Hcheck. rewrite forallb_forall in Hcheck.
      intros r Hr. apply list_elem_of_In in Hr. specialize (Hcheck r Hr).
      apply negb_true_iff in Hcheck.
      unfold refers, sql_in.
      destruct (existsb (sql_eq (get r (fk_column k))) _) eqn:Hex; [|done].
      apply existsb_exists in Hex as (v & Hv & Heq).
      assert (existsb (λ g : tablename * sqlval,
                         bool_decide (fk_target k = table_name g.1)
                         && sql_eq (get r (fk_column k)) g.2) s.2 = true); [|congruence].
      apply existsb_exists. exists (t, v). split.
      * apply list_elem_of_In. eapply on_delete_record; [exact Hon|]. cbn [snd].
        apply list_elem_of_In, in_map_iff. by exists v.
      * cbn [fst snd]. by rewrite (bool_decide_eq_true_2 _ Ht).
    + by eapply on_delete_unreferenced.
  - intros P Hclosed HP t' Ht'.
    rewrite (on_delete_frame _ P _ _ _ _ _ Hclosed HP Hon) by done. cbn [fst].
    apply tbl_delete_rows_other. intros <-. done.
Qed.

(** Where no row refers to the rows that leave, the DELETE takes them and
    nothing else. *)
Lemma sql_delete_from_plain (d : db) (t : tablename) (cond : row → bool) :
  (∀ k, k ∈ constraints d → fk_target k = table_name t →
        unreferenced k (map key_of (List.filter cond (rows (tbl d t))))
                     (delete_rows d t cond)) →
  sql_delete_from d t cond
  = Ok (List.filter cond (rows (tbl d t)), delete_rows d t cond).
Proof.
  intros Hidle. unfold sql_delete_from. rewrite on_delete_idle by done.
  cbn [fst]. destruct (forallb _ _) eqn:Hcheck; [done|]. exfalso.
  apply not_true_iff_false in Hcheck. apply Hcheck. apply forallb_forall.
  intros k Hk%list_elem_of_In. destruct (fk_on_delete k); [|done..].
  unfold no_action_ok. apply forallb_forall. intros r Hr%list_elem_of_In. cbn [fst snd] in *.
  apply negb_true_iff. destruct (existsb _ _) eqn:Hex; [|done].
  apply existsb_exists in Hex as ([t0 v] & Hg & Hgv). cbn [fst snd] in Hgv.
  apply in_map_iff in Hg as (v0 & [= <- <-] & Hv0).
  apply andb_true_iff in Hgv as [Ht%bool_decide_eq_true Heq].
  pose proof (Hidle k Hk Ht r Hr) as Href.
  rewrite (sql_in_false _ _ _ Href) in Heq; [done | by apply list_elem_of_In].
Qed.

(** A DELETE never runs out of fuel. *)
Lemma sql_delete_from_runs (d : db) (t : tablename) (cond : row → bool) :
  sql_delete_from d t cond ≠ Throw "stack depth limit exceeded".
Proof.
  unfold sql_delete_from.
  destruct (on_delete_enough (constraints d) (S (row_count d)) t
              (map key_of (List.filter cond (rows (tbl d t))))
              (delete_rows d t cond,
               map (λ v, (t, v)) (map key_of (List.filter cond (rows (tbl d t))))))
    as (s & -> & _).
  - cbn [fst]. pose proof (row_count_delete_rows d t cond). lia.
  - by destruct (forallb _ _).
Qed.

End DeleteFrom.

(** *** The company listing *)

Lemma has_cols_app (t : table) (l1 l2 : list string) :
  has_cols t (l1 ++ l2) = has_cols t l1 && has_cols t l2.
Proof. unfold has_cols. apply forallb_app. Qed.

Lemma has_cols_push_if (t : table) (c : string) :
  has_cols t (push_if (has (colnames t) c) c) = true.
Proof.
  unfold push_if. destruct (has (colnames t) c) eqn:E; simpl; [|done].
  by rewrite E.
Qed.

Lemma order_by_asc_elem {A} (key : A → sqlval) (l : list A) (x : A) :
  x ∈ order_by_asc key l ↔ x ∈ l.
Proof. unfold order_by_asc. by rewrite merge_sort_Permutation. Qed.

Lemma order_by_desc_elem {A} (key : A → sqlval) (l : list A) (x : A) :
  x ∈ order_by_desc key l ↔ x ∈ l.
Proof. unfold order_by_desc. by rewrite merge_sort_Permutation. Qed.

(** *** Grouping, ordering, joining *)

Lemma sql_le_total (a b : sqlval) : sql_le a b = true ∨ sql_le b a = true.
Proof.
  destruct a, b; simpl; auto.
  - destruct (Z.leb_spec z z0); auto. right. apply Z.leb_le. lia.
  - apply String.leb_total.
  - destruct (Z.leb_spec t t0); auto. right. apply Z.leb_le. lia.
Qed.

#[global] Instance asc_total {A} (key : A → sqlval) : Total (asc key).
Proof. intros x y. apply sql_le_total. Qed.

#[global] Instance desc_total {A} (key : A → sqlval) : Total (desc key).
Proof. intros x y. apply sql_le_total. Qed.

Lemma Sorted_take {A} (R : relation A) (n : nat) (l : list A) :
  Sorted R l → Sorted R (take n l).
Proof.
  intros H. revert n. induction H as [|x l Hl IH Hhd]; intros [|n]; simpl; try constructor.
  - apply IH.
  - destruct Hhd; destruct n; simpl; constructor; done.
Qed.

Lemma order_by_desc_sorted {A} (key : A → sqlval) (l : list A) :
  Sorted (desc key) (order_by_desc key l).
Proof. apply Sorted_merge_sort, _. Qed.

Lemma order_by_asc_sorted {A} (key : A → sqlval) (l : list A) :
  Sorted (asc key) (order_by_asc key l).
Proof. apply Sorted_merge_sort, _. Qed.

Section grouping.
Context {A K : Type} `{EqDecision K} (key : A → K).

Lemma insert_group_fresh (k : K) (x : A) (g : list (K * list A)) :
  k ∉ g.*1 → insert_group k x g = g ++ [(k, [x])].
Proof.
  induction g as [|[k' xs] g IH]; simpl; [done|].
  intros Hk. apply not_elem_of_cons in Hk as [Hne Hk].
  destruct (decide (k = k')); [done|]. by rewrite IH.
Qed.

Lemma insert_group_last (k : K) (x : A) (xs : list A) (g : list (K * list A)) :
  k ∉ g.*1 → insert_group k x (g ++ [(k, xs)]) = g ++ [(k, x :: xs)].
Proof.
  induction g as [|[k' ys] g IH]; simpl.
  - intros _. by destruct (decide (k = k)).
  - intros Hk. apply not_elem_of_cons in Hk as [Hne Hk].
    destruct (decide (k = k')); [done|]. by rewrite IH.
Qed.

Lemma group_block (k : K) (l : list A) (g : list (K * list A)) :
  k ∉ g.*1 → l ≠ [] → Forall (λ a, key a = k) l →
  foldr (λ x g, insert_group (key x) x g) g l = g ++ [(k, l)].
Proof.
  intros Hk. induction l as [|a l IH]; [done|].
  intros _ Hall. apply Forall_cons in Hall as [Ha Hall]. simpl. rewrite Ha.
  destruct l as [|b l].
  - simpl. by apply insert_group_fresh.
  - rewrite IH by done. by apply insert_group_last.
Qed.

(** Grouping a list made of blocks, each of one key and the keys all
    different, gives the blocks back. *)
Lemma group_by_blocks (bs : list (K * list A)) :
  NoDup bs.*1 →
  Forall (λ b, b.2 ≠ [] ∧ Forall (λ a, key a = b.1) b.2) bs →
  group_by key (concat bs.*2) = reverse bs.
Proof.
  unfold group_by. induction bs as [|[k b] bs IH]; [done|].
  intros Hnd Hall. rewrite fmap_cons in Hnd. apply NoDup_cons in Hnd as [Hk Hnd].
  apply Forall_cons in Hall as [[Hne Hb] Hall].
  rewrite fmap_cons. change (concat ((k, b).2 :: bs.*2)) with (b ++ concat bs.*2).
  rewrite foldr_app, IH by done.
  rewrite (group_block k) by (rewrite ?fmap_reverse, ?elem_of_reverse; done).
  by rewrite reverse_cons.
Qed.
End grouping.

Lemma fmap_is_map {A B} (f : A → B) (l : list A) : f <$> l = map f l.
Proof. reflexivity. Qed.

Lemma NoDup_map_finer {A B C} (f : A → B) (g : A → C) (l : list A) :
  (∀ x y, g x = g y → f x = f y) → NoDup (map f l) → NoDup (map g l).
Proof.
  intros Hfg. induction l as [|x l IH]; cbn [map]; [constructor|].
  intros [Hx Hl]%NoDup_cons. apply NoDup_cons. split; [|by apply IH].
  rewrite list_elem_of_In, in_map_iff. intros (y & Hy1 & Hy2). apply Hx.
  rewrite list_elem_of_In, in_map_iff. exists y. split; [by apply Hfg | done].
Qed.

Lemma filter_sublist {A} (f : A → bool) (l : list A) : List.filter f l `sublist_of` l.
Proof.
  induction l as [|x l IH]; cbn [List.filter]; [constructor|].
  destruct (f x); by constructor.
Qed.

Lemma NoDup_map_filter {A B} (k : A → B) (f : A → bool) (l : list A) :
  NoDup (map k l) → NoDup (map k (List.filter f l)).
Proof.
  intros H. apply (sublist_NoDup _ (k <$> l)); [exact H|].
  change (k <$> List.filter f l `sublist_of` k <$> l).
  apply fmap_sublist, filter_sublist.
Qed.

(** The pairs of an inner join inherit distinctness from the two sides. *)
Lemma inner_join_NoDup {A B K1 K2} (on : A → B → bool) (k1 : A → K1) (k2 : B → K2)
  (l : list A) (r : list B) :
  NoDup (map k1 l) → NoDup (map k2 r) →
  NoDup (map (λ x : A * B, (k1 x.1, k2 x.2)) (inner_join on l r)).
Proof.
  intros Hl Hr. unfold inner_join. induction l as [|a l IH]; cbn [flat_map map]; [constructor|].
  cbn [map] in Hl. apply NoDup_cons in Hl as [Ha Hl].
  rewrite map_app. apply NoDup_app. split_and!.
  - rewrite map_map. cbn [fst snd].
    pose proof (NoDup_map_filter k2 (on a) r Hr) as Hm.
    revert Hm. generalize (List.filter (on a) r). intros m Hm.
    induction m as [|b m IHm]; cbn [map] in *; [constructor|].
    apply NoDup_cons in Hm as [Hb Hm]. apply NoDup_cons. split; [|by apply IHm].
    rewrite list_elem_of_In, in_map_iff. intros (b' & [= Heq] & Hb'). apply Hb.
    rewrite list_elem_of_In, in_map_iff. by exists b'.
  - intros [x y]. rewrite !list_elem_of_In, !in_map_iff.
    intros ([a1 b1] & [= <- <-] & Hb) ([a2 b2] & [= Heq1 Heq2] & Hin).
    apply in_map_iff in Hb as (b3 & [= <- <-] & _).
    apply in_flat_map in Hin as (a3 & Ha3 & Hin).
    apply in_map_iff in Hin as (b4 & [= <- <-] & _). cbn [fst snd] in *.
    apply Ha. rewrite list_elem_of_In, in_map_iff. by exists a3.
  - by apply IH.
Qed.

Lemma inner_join_elem {A B} (on : A → B → bool) (l : list A) (r : list B) (a : A) (b : B) :
  (a, b) ∈ inner_join on l r ↔ a ∈ l ∧ b ∈ r ∧ on a b = true.
Proof.
  unfold inner_join. rewrite list_elem_of_In, in_flat_map. split.
  - intros (a' & Ha & Hin). apply in_map_iff in Hin as (b' & [= -> ->] & Hb).
    apply filter_In in Hb as [Hb Hon]. by rewrite !list_elem_of_In.
  - intros (Ha & Hb & Hon). exists a. split; [by apply list_elem_of_In|].
    apply in_map_iff. exists b. split; [done|]. apply filter_In.
    split; [by apply list_elem_of_In | done].
Qed.

(** *** The newest rows of a listing *)

Lemma ascii_compare_lt_trans (a b c : ascii) :
  Ascii.compare a b = Lt → Ascii.compare b c = Lt → Ascii.compare a c = Lt.
Proof. unfold Ascii.compare. rewrite !N.compare_lt_iff. lia. Qed.

Lemma string_compare_le_trans (s1 s2 s3 : string) :
  String.compare s1 s2 ≠ Gt → String.compare s2 s3 ≠ Gt → String.compare s1 s3 ≠ Gt.
Proof.
  revert s2 s3. induction s1 as [|a s1 IH]; intros [|b s2] [|c s3]; simpl; try congruence.
  destruct (Ascii.compare a b) eqn:Eab; try congruence.
  - apply Ascii.compare_eq_iff in Eab. subst b.
    destruct (Ascii.compare a c) eqn:Eac; try congruence. apply IH.
  - destruct (Ascii.compare b c) eqn:Ebc; try congruence.
    + apply Ascii.compare_eq_iff in Ebc. subst c. rewrite Eab. congruence.
    + rewrite (ascii_compare_lt_trans _ _ _ Eab Ebc). congruence.
Qed.

Lemma string_leb_trans (s1 s2 s3 : string) :
  String.leb s1 s2 = true → String.leb s2 s3 = true → String.leb s1 s3 = true.
Proof.
  unfold String.leb. intros H1 H2.
  pose proof (string_compare_le_trans s1 s2 s3) as H.
  destruct (String.compare s1 s2), (String.compare s2 s3), (String.compare s1 s3);
    try congruence; exfalso; apply H; congruence.
Qed.

Lemma sql_le_trans (a b c : sqlval) :
  sql_le a b = true → sql_le b c = true → sql_le a c = true.
Proof.
  destruct a, b, c; cbn [sql_le]; try done.
  - rewrite !Z.leb_le. lia.
  - apply string_leb_trans.
  - rewrite !Z.leb_le. lia.
Qed.

#[global] Instance asc_trans {A} (key : A → sqlval) : Transitive (asc key).
Proof. intros x y z. apply sql_le_trans. Qed.

#[global] Instance desc_trans {A} (key : A → sqlval) : Transitive (desc key).
Proof. intros x y z H1 H2. unfold desc in *. by eapply sql_le_trans. Qed.

Lemma elem_drop {A} (n : nat) (l : list A) (x : A) : x ∈ drop n l → x ∈ l.
Proof.
  revert n. induction l as [|a l IH]; intros [|n]; cbn [drop]; try done.
  intros H. right. by eapply IH.
Qed.

Lemma elem_take {A} (n : nat) (l : list A) (x : A) : x ∈ take n l → x ∈ l.
Proof.
  revert n. induction l as [|a l IH]; intros [|n]; cbn [take]; try done.
  - by intros ?%elem_of_nil.
  - intros [-> | H]%elem_of_cons; [by left|]. right. by eapply IH.
Qed.

Lemma StronglySorted_take_drop {A} (R : relation A) (n : nat) (l : list A) (x y : A) :
  StronglySorted R l → x ∈ take n l → y ∈ drop n l → R x y.
Proof.
  intros H. revert n. induction H as [|a l Hl IH Hall]; intros n.
  - rewrite take_nil. by intros ?%elem_of_nil.
  - destruct n as [|n]; cbn [take drop]; [by intros ?%elem_of_nil|].
    intros [-> | Hx]%elem_of_cons Hy.
    + rewrite Forall_forall in Hall. apply Hall. by eapply elem_drop.
    + by eapply IH.
Qed.

(** ORDER BY key DESC LIMIT n keeps the rows with the greatest keys: a row
    that is left out is not newer than a row that is kept. *)
Lemma limit_desc_newest {A} (key : A → sqlval) (n : nat) (l : list A) (x y : A) :
  x ∈ limit n (order_by_desc key l) → y ∈ l → y ∉ limit n (order_by_desc key l) →
  sql_le (key y) (key x) = true.
Proof.
  intros Hx Hy Hny. unfold limit in *.
  assert (y ∈ drop n (order_by_desc key l)) as Hd.
  { apply (order_by_desc_elem key) in Hy.
    rewrite <- (take_drop n (order_by_desc key l)) in Hy.
    apply elem_of_app in Hy as [Hy | Hy]; [done | exact Hy]. }
  apply (StronglySorted_take_drop (desc key) n (order_by_desc key l) x y); [|done..].
  apply Sorted_StronglySorted; [apply _ | apply order_by_desc_sorted].
Qed.

Lemma limit_length {A} (n : nat) (l : list A) : (length (limit n l) ≤ n)%nat.
Proof. unfold limit. rewrite length_take. lia. Qed.

Lemma limit_elem {A} (n : nat) (l : list A) (x : A) : x ∈ limit n l → x ∈ l.
Proof. unfold limit. apply elem_take. Qed.

Lemma limit_all {A} (n : nat) (l : list A) : (length l ≤ n)%nat → limit n l = l.
Proof. unfold limit. apply take_ge. Qed.

(** *** What GROUP BY keeps *)

Section groups.
Context {A K : Type} `{EqDecision K} (key : A → K).

Lemma insert_group_elem (k : K) (x : A) (g : list (K * list A)) (k' : K) (xs : list A) :
  (k', xs) ∈ insert_group k x g →
  (k' = k ∧ (xs = [x] ∨ ∃ ys, (k, ys) ∈ g ∧ xs = x :: ys)) ∨ (k', xs) ∈ g.
Proof.
  induction g as [|[k0 ys] g IH]; cbn [insert_group].
  - intros [= -> ->]%list_elem_of_singleton. left. split; [done | by left].
  - destruct (decide (k = k0)) as [<-|Hne].
    + intros [[= -> ->] | Hin]%elem_of_cons.
      * left. split; [done|]. right. exists ys. split; [by left | done].
      * right. by right.
    + intros [[= -> ->] | Hin]%elem_of_cons; [right; by left|].
      destruct (IH Hin) as [(-> & [-> | (zs & Hzs & ->)]) | Hg].
      * left. split; [done | by left].
      * left. split; [done|]. right. exists zs. split; [by right | done].
      * right. by right.
Qed.

Lemma insert_group_has (k : K) (x : A) (g : list (K * list A)) :
  ∃ xs, (k, x :: xs) ∈ insert_group k x g.
Proof.
  induction g as [|[k0 ys] g IH]; cbn [insert_group].
  - exists []. by left.
  - destruct (decide (k = k0)) as [<-|Hne].
    + exists ys. by left.
    + destruct IH as (xs & Hxs). exists xs. by right.
Qed.

Lemma insert_group_keeps (k : K) (x : A) (g : list (K * list A)) (k' : K) (xs : list A) :
  k' ≠ k → (k', xs) ∈ g → (k', xs) ∈ insert_group k x g.
Proof.
  intros Hne. induction g as [|[k0 ys] g IH]; cbn [insert_group];
    [by intros ?%elem_of_nil|].
  intros [[= <- <-] | Hin]%elem_of_cons.
  - destruct (decide (k = k')); [congruence | by left].
  - destruct (decide (k = k0)); right; [done | by apply IH].
Qed.

(** Every group is of one key, not empty, and made of rows of the list. *)
Lemma group_by_sound (l : list A) (k : K) (xs : list A) :
  (k, xs) ∈ group_by key l → xs ≠ [] ∧ ∀ x, x ∈ xs → x ∈ l ∧ key x = k.
Proof.
  unfold group_by. revert k xs. induction l as [|a l IH]; intros k xs; cbn [foldr].
  - by intros ?%elem_of_nil.
  - intros [(-> & [-> | (ys & Hys & ->)]) | Hin]%insert_group_elem.
    + split; [done|]. intros x ->%list_elem_of_singleton. split; [by left | done].
    + split; [done|]. destruct (IH _ _ Hys) as [_ Hall].
      intros x [-> | Hx]%elem_of_cons; [split; [by left | done]|].
      destruct (Hall x Hx). split; [by right | done].
    + destruct (IH _ _ Hin) as [Hne Hall]. split; [done|].
      intros x Hx. destruct (Hall x Hx). split; [by right | done].
Qed.

(** Every row of the list is in the group of its key. *)
Lemma group_by_complete (l : list A) (x : A) :
  x ∈ l → ∃ xs, (key x, xs) ∈ group_by key l.
Proof.
  unfold group_by. induction l as [|a l IH]; cbn [foldr]; [by intros ?%elem_of_nil|].
  intros Hx. destruct (decide (key x = key a)) as [->|Hne].
  - destruct (insert_group_has (key a) a (foldr (λ x g, insert_group (key x) x g) [] l))
      as (xs & Hxs). eauto.
  - apply elem_of_cons in Hx as [-> | Hx]; [done|].
    destruct (IH Hx) as (xs & Hxs). exists xs. by apply insert_group_keeps.
Qed.

End groups.

Lemma left_join_elem {A B} (on : A → B → bool) (l : list A) (r : list B) (a : A)
  (o : option B) :
  (a, o) ∈ left_join on l r → a ∈ l.
Proof.
  unfold left_join. rewrite list_elem_of_In, in_flat_map. intros (a' & Ha & Hin).
  destruct (List.filter (on a') r) as [|b bs].
  - destruct Hin as [[= <- <-]|[]]. by apply list_elem_of_In.
  - apply in_map_iff in Hin as (b' & [= <- <-] & _). by apply list_elem_of_In.
Qed.

Lemma left_join_has {A B} (on : A → B → bool) (l : list A) (r : list B) (a : A) :
  a ∈ l → ∃ o, (a, o) ∈ left_join on l r.
Proof.
  intros Ha. unfold left_join.
  destruct (List.filter (on a) r) as [|b bs] eqn:E.
  - exists None. apply list_elem_of_In, in_flat_map. exists a.
    split; [by apply list_elem_of_In|]. rewrite E. by left.
  - exists (Some b). apply list_elem_of_In, in_flat_map. exists a.
    split; [by apply list_elem_of_In|]. rewrite E. by left.
Qed.

(** *** The forum listing *)

Lemma comment_block_nonempty (d : db) (x : row * row) : comment_block d x ≠ [].
Proof. unfold comment_block. by destruct (comments_on d x.1). Qed.

Lemma comment_block_first (d : db) (x : row * row) :
  ∃ o rest, comment_block d x = (x, o) :: rest.
Proof. unfold comment_block. destruct (comments_on d x.1); simpl; eauto. Qed.

Lemma comment_block_key (d : db) (hc hk : bool) (x : row * row) :
  Forall (λ y, post_key hc hk y = post_key hc hk (x, None)) (comment_block d x).
Proof.
  unfold comment_block. destruct (comments_on d x.1) as [|cm ms].
  - by constructor.
  - apply Forall_forall. intros y. rewrite list_elem_of_In, in_map_iff.
    by intros (b & <- & _).
Qed.

Lemma comment_block_count (d : db) (x : row * row) :
  sql_count (λ y : row * row * option row, get_opt y.2 "id") (comment_block d x)
  = comments_of d x.1.
Proof.
  unfold comment_block, comments_of, sql_count. destruct (comments_on d x.1) as [|cm ms] eqn:E.
  - reflexivity.
  - f_equal. f_equal. generalize (cm :: ms). intros l.
    induction l as [|a l IH]; cbn [map List.filter]; [done|].
    cbn [get_opt snd]. destruct (negb _); cbn [length]; by rewrite IH.
Qed.

Lemma post_key_ids (hc hk : bool) (x y : row * row) :
  post_key hc hk (x, None) = post_key hc hk (y, None) →
  (get x.1 "id", get x.2 "id") = (get y.1 "id", get y.2 "id").
Proof. unfold post_key. cbn [fst snd app]. by intros [= -> _ _ _ ->]. Qed.

Lemma flat_map_singleton {A B} (f : A → B) (l : list A) :
  flat_map (λ x, [f x]) l = map f l.
Proof. induction l; cbn [flat_map map app]; congruence. Qed.

Lemma flat_map_map {A B C} (f : A → B) (g : B → list C) (l : list A) :
  flat_map g (map f l) = flat_map (λ x, g (f x)) l.
Proof. induction l; cbn [flat_map map]; congruence. Qed.

Lemma q_forum_posts_groups (d : db) (hc hk : bool) :
  NoDup (ids (Post d)) → NoDup (ids (Company d)) →
  group_by (post_key hc hk)
    (left_join (λ (x : row * row) (cm : row), sql_eq (get cm "postId") (get x.1 "id"))
               (authored_posts d) (rows (Comment d)))
  = reverse (map (λ x, (post_key hc hk (x, None), comment_block d x)) (authored_posts d)).
Proof.
  intros Hp Hc.
  set (bs := map (λ x, (post_key hc hk (x, None), comment_block d x)) (authored_posts d)).
  assert (left_join (λ (x : row * row) (cm : row), sql_eq (get cm "postId") (get x.1 "id"))
                    (authored_posts d) (rows (Comment d)) = concat bs.*2) as ->.
  { unfold left_join, bs. rewrite fmap_is_map, map_map. cbn [snd].
    rewrite flat_map_concat_map. reflexivity. }
  apply group_by_blocks.
  - unfold bs. rewrite fmap_is_map, map_map. cbn [fst].
    apply (NoDup_map_finer (λ x : row * row, (get x.1 "id", get x.2 "id"))).
    + intros x y. apply post_key_ids.
    + unfold authored_posts.
      by apply (inner_join_NoDup _ (λ r : row, get r "id") (λ r : row, get r "id")).
  - unfold bs. apply Forall_forall. intros b. rewrite list_elem_of_In, in_map_iff.
    intros (x & <- & _). cbn [fst snd]. split.
    + apply comment_block_nonempty.
    + apply comment_block_key.
Qed.

(** The statement of the listing computes what its words say: the authored
    posts, each with its company and its number of comments, newest first,
    the first hundred. *)
Lemma q_forum_posts_eq (d : db) :
  has_cols (Post d) ["id"; "title"; "createdAt"; "authorId"] = true →
  has_cols (Company d) ["name"; "id"] = true →
  has_cols (Comment d) ["id"; "postId"] = true →
  NoDup (ids (Post d)) → NoDup (ids (Company d)) →
  q_forum_posts d (has (colnames (Post d)) "content") (has (colnames (Post d)) "category")
  = Ok (limit 100 (order_by_desc createdAt_of
                     (map (listed_post d) (reverse (authored_posts d))))).
Proof.
  intros Hpc Hcc Hmc Hp Hc. unfold q_forum_posts.
  rewrite !has_cols_app, Hpc, Hcc, Hmc, !has_cols_push_if. cbn [andb].
  fold (authored_posts d). rewrite q_forum_posts_groups by done.
  do 3 f_equal. rewrite <- fmap_is_map, <- fmap_reverse, !fmap_is_map, flat_map_map.
  cbn [snd]. rewrite <- flat_map_singleton. apply flat_map_ext. intros [p c].
  destruct (comment_block_first d (p, c)) as (o & rest & E).
  rewrite comment_block_count, E. reflexivity.
Qed.

(** C7: the forum listing answers 200 with at most one hundred records,
    newest first; every record is a stored post joined with the company its
    authorId names and carries the number of that post's comments; a post
    with a company that is left out is not newer than any record that is
    listed; and while there are at most a hundred such posts, every one of
    them is listed. *)
Theorem list_posts_contract (d : db) :
  has_cols (Post d) ["id"; "title"; "createdAt"; "authorId"] = true →
  has_cols (Company d) ["name"; "id"] = true →
  has_cols (Comment d) ["id"; "postId"] = true →
  NoDup (ids (Post d)) → NoDup (ids (Company d)) →
  ∃ rs,
    list_posts d = {| status := 200; payload := JA (map json_of_fields rs) |}
    ∧ (length rs ≤ 100)%nat
    ∧ Sorted (desc createdAt_of) rs
    ∧ (∀ r, r ∈ rs →
         ∃ p c, p ∈ rows (Post d) ∧ c ∈ rows (Company d)
                ∧ sql_eq (get c "id") (get p "authorId") = true
                ∧ r = listed_post d (p, c))
    ∧ (∀ p c r, p ∈ rows (Post d) → c ∈ rows (Company d) →
                sql_eq (get c "id") (get p "authorId") = true →
                listed_post d (p, c) ∉ rs → r ∈ rs →
                sql_le (get p "createdAt") (createdAt_of r) = true)
    ∧ ((length (authored_posts d) ≤ 100)%nat →
       ∀ p c, p ∈ rows (Post d) → c ∈ rows (Company d) →
              sql_eq (get c "id") (get p "authorId") = true →
              listed_post d (p, c) ∈ rs).
Proof.
  intros Hpc Hcc Hmc Hp Hc.
  exists (limit 100 (order_by_desc createdAt_of
                       (map (listed_post d) (reverse (authored_posts d))))).
  split_and!.
  - unfold list_posts, getTableColumns. cbn [tbl]. by rewrite q_forum_posts_eq.
  - unfold limit. rewrite length_take. lia.
  - apply Sorted_take, order_by_desc_sorted.
  - intros r Hr. unfold limit in Hr. apply elem_of_take in Hr as (i & Hr & _).
    apply list_elem_of_lookup_2, order_by_desc_elem in Hr.
    apply list_elem_of_In, in_map_iff in Hr as ([p c] & <- & Hin).
    apply list_elem_of_In, elem_of_reverse, inner_join_elem in Hin as (Hp' & Hc' & Hon).
    by exists p, c.
  - intros p c r Hp' Hc' Hon Hout Hr.
    change (get p "createdAt") with (createdAt_of (listed_post d (p, c))).
    apply (limit_desc_newest createdAt_of 100
             (map (listed_post d) (reverse (authored_posts d)))); [done| |done].
    apply list_elem_of_In, in_map_iff. exists (p, c). split; [done|].
    apply list_elem_of_In, elem_of_reverse, inner_join_elem. done.
  - intros Hlen p c Hp' Hc' Hon. unfold limit. rewrite take_ge.
    + apply order_by_desc_elem, list_elem_of_In, in_map_iff. exists (p, c). split; [done|].
      apply list_elem_of_In, elem_of_reverse, inner_join_elem. done.
    + unfold order_by_desc. rewrite merge_sort_Permutation, length_map, length_reverse. done.
Qed.

(** *** The directory of companies *)

Lemma staff_block_nonempty (d : db) (c : row) : staff_block d c ≠ [].
Proof. unfold staff_block. by destruct (staff d c). Qed.

Lemma staff_block_first (d : db) (c : row) : ∃ o rest, staff_block d c = (c, o) :: rest.
Proof. unfold staff_block. destruct (staff d c); simpl; eauto. Qed.

Lemma staff_block_count (d : db) (c : row) (k : string) :
  sql_count (λ cu : row * option row, get_opt cu.2 k) (staff_block d c)
  = sql_count (λ u : row, get u k) (staff d c).
Proof.
  unfold staff_block, sql_count. destruct (staff d c) as [|u ms] eqn:E; [reflexivity|].
  f_equal. f_equal. generalize (u :: ms). intros l.
  induction l as [|a l IH]; cbn [map List.filter]; [done|].
  cbn [get_opt snd]. destruct (negb _); cbn [length]; by rewrite IH.
Qed.

Lemma staff_block_min (d : db) (c : row) (k : string) :
  sql_min (λ cu : row * option row, get_opt cu.2 k) (staff_block d c)
  = sql_min (λ u : row, get u k) (staff d c).
Proof.
  unfold staff_block, sql_min. destruct (staff d c) as [|u ms] eqn:E; [reflexivity|].
  generalize (u :: ms). intros l.
  induction l as [|a l IH]; cbn [map foldr]; [done|].
  cbn [get_opt snd]. by rewrite IH.
Qed.

Lemma company_groups (d : db) (rest : list string) :
  NoDup (ids (Company d)) →
  group_by (λ cu : row * option row, map (get cu.1) ("id" :: rest))
           (left_join (λ c u : row, sql_eq (get u "companyId") (get c "id"))
                      (rows (Company d)) (rows (User d)))
  = reverse (map (λ c, (map (get c) ("id" :: rest), staff_block d c)) (rows (Company d))).
Proof.
  intros Hc.
  set (bs := map (λ c, (map (get c) ("id" :: rest), staff_block d c)) (rows (Company d))).
  assert (left_join (λ c u : row, sql_eq (get u "companyId") (get c "id"))
                    (rows (Company d)) (rows (User d)) = concat bs.*2) as ->.
  { unfold left_join, bs. rewrite fmap_is_map, map_map. cbn [snd].
    rewrite flat_map_concat_map. reflexivity. }
  apply group_by_blocks.
  - unfold bs. rewrite fmap_is_map, map_map. cbn [fst].
    apply (NoDup_map_finer (λ c : row, get c "id")); [|exact Hc].
    intros x y. cbn [map]. by intros [= -> _].
  - unfold bs. apply Forall_forall. intros b. rewrite list_elem_of_In, in_map_iff.
    intros (c & <- & _). cbn [fst snd]. split; [apply staff_block_nonempty|].
    unfold staff_block. destruct (staff d c) as [|u ms].
    + by constructor.
    + apply Forall_forall. intros y. rewrite list_elem_of_In, in_map_iff.
      by intros (u' & <- & _).
Qed.

(** The record that the listing makes of a group that starts with [c]. *)
Lemma q_companies_rows (d : db) (h1 h2 h3 h4 h5 h6 h7 : bool) rs r :
  q_companies d h1 h2 h3 h4 h5 h6 h7 = Ok rs →
  r ∈ rs →
  ∃ (c : row) (n : Z),
    c ∈ rows (Company d)
    ∧ r = [("id", get c "id");
           ("name", get c "name");
           ("industry", select_or_null h1 "industry" c);
           ("location", select_or_null h2 "location" c);
           ("website", select_or_null h3 "website" c);
           ("email", select_or_null h4 "email" c);
           ("phone", select_or_null h5 "phone" c);
           ("status", select_or_null h6 "status" c);
           ("description", select_or_null h7 "description" c);
           ("employees", SInt n)].
Proof.
  unfold q_companies. destruct (_ && _); [|discriminate].
  intros [= <-] Hr. apply order_by_asc_elem in Hr.
  apply list_elem_of_In, in_flat_map in Hr as ([k g] & Hg & Hin). cbn [snd] in Hin.
  destruct g as [|[c u] g]; cbn [In] in Hin; [done|].
  destruct Hin as [<-|[]]. exists c. eexists. split; [|done].
  apply list_elem_of_In, group_by_sound in Hg as [_ Hall].
  destruct (Hall (c, u)) as [Hin _]; [by left|].
  by apply left_join_elem in Hin.
Qed.

(** Every company has its record. *)
Lemma q_companies_complete (d : db) (h1 h2 h3 h4 h5 h6 h7 : bool) rs (c : row) :
  q_companies d h1 h2 h3 h4 h5 h6 h7 = Ok rs →
  c ∈ rows (Company d) →
  ∃ r, r ∈ rs ∧ field_of "id" r = get c "id" ∧ field_of "name" r = get c "name".
Proof.
  unfold q_companies. destruct (_ && _); [|discriminate].
  intros [= <-] Hc.
  destruct (left_join_has (λ c u : row, sql_eq (get u "companyId") (get c "id"))
              (rows (Company d)) (rows (User d)) c Hc) as (o & Hjoin).
  match goal with
  | |- context [group_by ?key ?l] =>
      destruct (group_by_complete key l (c, o) Hjoin) as (xs & Hxs);
      destruct (group_by_sound key l _ _ Hxs) as [Hne Hall]
  end.
  destruct xs as [|[c' u'] xs]; [done|].
  destruct (Hall (c', u')) as [_ Hkey]; [by left|].
  cbn [fst app map] in Hkey. injection Hkey as Hid Hname _.
  eexists. split.
  - apply order_by_asc_elem, list_elem_of_In, in_flat_map.
    eexists. split; [apply list_elem_of_In; exact Hxs|]. cbn [snd]. by left.
  - split; [exact Hid | exact Hname].
Qed.

(** With distinct primary keys the listing is the list of the companies,
    one record each, in some order. *)
Lemma q_companies_eq (d : db) :
  has_cols (Company d) ["id"; "name"] = true →
  has_cols (User d) ["id"; "companyId"] = true →
  NoDup (ids (Company d)) →
  ∃ key,
    q_companies d (has (colnames (Company d)) "industry")
      (has (colnames (Company d)) "location") (has (colnames (Company d)) "website")
      (has (colnames (Company d)) "email") (has (colnames (Company d)) "phone")
      (has (colnames (Company d)) "status") (has (colnames (Company d)) "description")
    = Ok (order_by_asc key (map (directory_company d) (reverse (rows (Company d))))).
Proof.
  intros Hc Hu Hnd. eexists. unfold q_companies.
  rewrite !has_cols_app, Hc, Hu, !has_cols_push_if. cbn [andb app].
  rewrite company_groups by done.
  do 2 f_equal. rewrite <- fmap_is_map, <- fmap_reverse, !fmap_is_map, flat_map_map.
  cbn [snd]. rewrite <- flat_map_singleton. apply flat_map_ext. intros c.
  destruct (staff_block_first d c) as (o & rest & E).
  rewrite staff_block_count, E. reflexivity.
Qed.

(** C8: whatever optional columns the Company table has, the listing
    answers 200.  Every record carries the ten fields, shows the id and the
    name of a stored company, and has null in each optional column that the
    table lacks; every stored company has a record; and with distinct
    primary keys the records are those of the companies, one each. *)
Theorem list_companies_nulls (d : db) :
  has_cols (Company d) ["id"; "name"] = true →
  has_cols (User d) ["id"; "companyId"] = true →
  ∃ rs,
    list_companies d = {| status := 200; payload := JA (map json_of_fields rs) |}
    ∧ (∀ r, r ∈ rs →
         r.*1 = company_listing_fields
         ∧ (∃ c, c ∈ rows (Company d)
                 ∧ field_of "id" r = get c "id" ∧ field_of "name" r = get c "name")
         ∧ ∀ c, c ∈ optional_company_columns → c ∉ colnames (Company d) →
                (c, SNull) ∈ r ∧ ∀ v, (c, v) ∈ r → v = SNull)
    ∧ (∀ c, c ∈ rows (Company d) →
            ∃ r, r ∈ rs ∧ field_of "id" r = get c "id" ∧ field_of "name" r = get c "name")
    ∧ (NoDup (ids (Company d)) → rs ≡ₚ map (directory_company d) (rows (Company d))).
Proof.
  intros Hc Hu. unfold list_companies.
  destruct (q_companies _ _ _ _ _ _ _ _) as [rs|msg] eqn:Hq.
  - exists rs. split; [done|]. split_and!.
    + intros r Hr.
      destruct (q_companies_rows _ _ _ _ _ _ _ _ _ _ Hq Hr) as (c & n & Hin & ->).
      split; [done|]. split; [by exists c|]. intros col Hcol Habs.
      assert (has (getTableColumns d TCompany) col = false) as Hno.
      { apply not_true_is_false. by rewrite has_elem. }
      unfold optional_company_columns in Hcol.
      repeat (apply elem_of_cons in Hcol as [-> | Hcol];
              [rewrite Hno; simpl; split;
               [ in_list
               | intros v Hv; repeat (apply elem_of_cons in Hv as [[= ?] | Hv]; try done);
                 by apply elem_of_nil in Hv ] |]).
      by apply elem_of_nil in Hcol.
    + intros c Hin. by eapply q_companies_complete.
    + intros Hnd. destruct (q_companies_eq d Hc Hu Hnd) as (key & Heq).
      unfold getTableColumns in Hq. cbn [tbl] in Hq. rewrite Heq in Hq. injection Hq as <-.
      unfold order_by_asc. rewrite <- !fmap_is_map, merge_sort_Permutation.
      by rewrite reverse_Permutation.
  - exfalso. unfold q_companies in Hq.
    rewrite !has_cols_app, Hc, Hu in Hq. unfold getTableColumns in Hq. simpl tbl in Hq.
    rewrite !has_cols_push_if in Hq. done.
Qed.

(** *** Creating a post *)

Lemma find_none_existsb {A} (f : A → bool) (l : list A) :
  List.find f l = None ↔ existsb f l = false.
Proof.
  induction l as [|x l IH]; cbn [List.find existsb]; [done|].
  destruct (f x); cbn [orb]; [split; discriminate | done].
Qed.

Lemma find_some_existsb {A} (f : A → bool) (l : list A) (x : A) :
  List.find f l = Some x → existsb f l = true.
Proof.
  intros H. destruct (existsb f l) eqn:E; [done|].
  apply find_none_existsb in E. congruence.
Qed.

Lemma find_some_elem {A} (f : A → bool) (l : list A) (x : A) :
  List.find f l = Some x → x ∈ l ∧ f x = true.
Proof. intros H. apply find_some in H. by rewrite list_elem_of_In. Qed.

(** Reading a named column of a freshly inserted row. *)
Lemma list_to_map_first {V} (l : list (string * V)) (c : string) (v : V) :
  (∃ x, x ∈ l ∧ x.1 = c) → (∀ x, x ∈ l → x.1 = c → x.2 = v) →
  (list_to_map l : gmap string V) !! c = Some v.
Proof.
  induction l as [|[k w] l IH]; intros (x & Hx & Hk) Hall.
  - by apply elem_of_nil in Hx.
  - cbn [list_to_map foldr]. destruct (decide (k = c)) as [->|Hne].
    + rewrite lookup_insert_eq. f_equal. apply (Hall (c, w)); [left | done].
    + rewrite lookup_insert_ne by done. apply IH.
      * apply elem_of_cons in Hx as [-> | Hx]; [done | eauto].
      * intros y Hy. apply Hall. by right.
Qed.

Lemma new_row_named (now : Z) (t : table) (named : list (string * sqlval)) (c : string)
  (v : sqlval) :
  c ∈ colnames t → NoDup named.*1 → (c, v) ∈ named →
  get (new_row now t named) c = v.
Proof.
  intros Hc Hnd Hin. unfold get, new_row.
  assert ((list_to_map named : gmap string sqlval) !! c = Some v) as Hnamed.
  { by apply elem_of_list_to_map. }
  erewrite list_to_map_first; [done | |].
  - unfold colnames in Hc. apply list_elem_of_fmap in Hc as (cd & -> & Hcd).
    exists (cd.1, v). split; [|done].
    apply list_elem_of_In, in_map_iff. exists cd. rewrite Hnamed.
    split; [done | by apply list_elem_of_In].
  - intros x. rewrite list_elem_of_In, in_map_iff. intros (cd & <- & _) Heq.
    cbn [fst snd] in *. subst c. by rewrite Hnamed.
Qed.

Lemma sql_insert_rows (now : Z) (t t' : table) (named : list (string * sqlval)) (r : row) :
  sql_insert now t named = Ok (r, t') →
  rows t' = rows t ++ [r] ∧ r = new_row now t named ∧ cols t' = cols t
  ∧ has_cols t named.*1 = true ∧ NoDup named.*1.
Proof.
  unfold sql_insert. destruct (has_cols t named.*1) eqn:Hc; [|discriminate].
  destruct (bool_decide (NoDup named.*1)) eqn:Hn; [|discriminate].
  apply bool_decide_eq_true in Hn. intros [= <- <-]. done.
Qed.

Lemma sql_insert_returning_rows (now : Z) (t t' : table) (named : list (string * sqlval))
  (returning : list string) (r : row) :
  sql_insert_returning now t named returning = Ok (r, t') →
  rows t' = rows t ++ [r] ∧ r = new_row now t named ∧ cols t' = cols t
  ∧ has_cols t named.*1 = true ∧ NoDup named.*1 ∧ has_cols t returning = true.
Proof.
  unfold sql_insert_returning. destruct (has_cols t returning); [|discriminate].
  intros H%sql_insert_rows. by destruct_and!.
Qed.

Section ForumProperties.

Variable js_number_of_string : string → jsnum.
Variable pg_int_of_string : string → option Z.

#[local] Set Default Proof Using "Type".

Lemma bind_int_js_of_sql_int (z : Z) :
  int4 z = true → bind_int pg_int_of_string (JNum (Int z)) = Ok (SInt z).
Proof. cbn [bind_int]. by intros ->. Qed.

Lemma binds_Ok (v : jsval) :
  binds pg_int_of_string v = true → ∃ p, bind_int pg_int_of_string v = Ok p.
Proof. unfold binds. destruct (bind_int _ _); [eauto | discriminate]. Qed.

Lemma binds_Throw (v : jsval) :
  binds pg_int_of_string v = false → ∃ e, bind_int pg_int_of_string v = Throw e.
Proof. unfold binds. destruct (bind_int _ _); [discriminate | eauto]. Qed.

(** What the database reads as an integer fits an INTEGER. *)
Lemma bind_int_range (v : jsval) (z : Z) :
  bind_int pg_int_of_string v = Ok (SInt z) → int4 z = true.
Proof.
  destruct v as [| |b|[|z'|text]|s| |t]; cbn [bind_int]; try discriminate.
  - destruct (int4 z') eqn:E; [|discriminate]. by intros [= <-].
  - destruct (pg_int_of_string s) as [z'|]; [|discriminate].
    destruct (int4 z') eqn:E; [|discriminate]. by intros [= <-].
Qed.

(** A number that the database reads is an integer in range. *)
Lemma bind_int_number (n : jsnum) (p : sqlval) :
  bind_int pg_int_of_string (JNum n) = Ok p → ∃ z, n = Int z ∧ p = SInt z ∧ int4 z = true.
Proof.
  destruct n as [|z|text]; cbn [bind_int]; try discriminate.
  destruct (int4 z) eqn:E; [|discriminate]. intros [= <-]. eauto.
Qed.

Lemma explicit_company_truthy (companyId : jsval) :
  truthy (if truthy companyId then JNum (Number js_number_of_string companyId) else JNull)
  = bool_decide (is_Some (explicit_company js_number_of_string companyId)).
Proof.
  unfold explicit_company. destruct (truthy companyId); cbn [andb]; [|done].
  by destruct (truthy (JNum _)).
Qed.

(** What the first lines of both forum writers compute, when the database
    can read the id they send. *)
Lemma resolve_company_effective (d : db) (companyId userId : jsval) :
  has_cols (User d) ["companyId"; "id"] = true →
  int_column (User d) "companyId" →
  ids_readable js_number_of_string pg_int_of_string companyId userId = true →
  ∃ v, resolve_company js_number_of_string pg_int_of_string d companyId userId = Ok v
       ∧ match effective_company js_number_of_string pg_int_of_string d companyId userId with
         | Some s => v = js_of_sql s ∧ (s = SNull ∨ ∃ z, s = SInt z ∧ int4 z = true)
         | None => truthy v = false
         end.
Proof.
  intros Hc Hint. unfold resolve_company, effective_company, ids_readable.
  rewrite explicit_company_truthy.
  destruct (explicit_company js_number_of_string companyId) as [n|] eqn:He.
  - rewrite bool_decide_eq_true_2 by eauto. cbn [negb andb].
    intros (p & Hp)%binds_Ok. rewrite Hp.
    apply bind_int_number in Hp as (z & -> & -> & Hz).
    unfold explicit_company in He. destruct (truthy companyId); [|done].
    cbn [andb] in He. destruct (truthy (JNum _)); [|done]. injection He as ->.
    eexists. split; [done|]. split; [done | eauto].
  - rewrite bool_decide_eq_false_2 by (by intros [? ?]). cbn [negb andb].
    destruct (truthy userId) eqn:Hu; cbn [negb orb].
    + intros (p & Hp)%binds_Ok. unfold q_user_company. rewrite Hc, Hp.
      cbn [mbind result_bind].
      destruct (List.find _ _) as [r|] eqn:Hf; cbn [fmap option_fmap option_map].
      * apply find_some_elem in Hf as [Hr _]. eexists. split; [done|].
        destruct (Hint r Hr) as [-> | (z & -> & Hz)]; split; eauto.
      * eexists. split; [done|]. done.
    + intros _. eexists. split; [done|].
      unfold explicit_company in He. destruct (truthy companyId); [|done].
      cbn [andb] in He. by destruct (truthy (JNum _)).
Qed.

(** And when it cannot: the lookup of the user raises, or the company is a
    number that the database refuses. *)
Lemma resolve_company_refused (d : db) (companyId userId : jsval) :
  has_cols (User d) ["companyId"; "id"] = true →
  ids_readable js_number_of_string pg_int_of_string companyId userId = false →
  effective_company js_number_of_string pg_int_of_string d companyId userId = None
  ∧ ((∃ e, resolve_company js_number_of_string pg_int_of_string d companyId userId = Throw e)
     ∨ ∃ n e, resolve_company js_number_of_string pg_int_of_string d companyId userId
              = Ok (JNum n)
              ∧ truthy (JNum n) = true
              ∧ bind_int pg_int_of_string (JNum n) = Throw e).
Proof.
  intros Hc. unfold resolve_company, effective_company, ids_readable.
  rewrite explicit_company_truthy.
  destruct (explicit_company js_number_of_string companyId) as [n|] eqn:He.
  - rewrite bool_decide_eq_true_2 by eauto. cbn [negb andb].
    intros (e & Hp)%binds_Throw. rewrite Hp. split; [done|]. right.
    unfold explicit_company in He. destruct (truthy companyId); [|done].
    cbn [andb] in He. destruct (truthy (JNum _)) eqn:Ht; [|done]. injection He as <-.
    eauto.
  - rewrite bool_decide_eq_false_2 by (by intros [? ?]). cbn [negb andb].
    destruct (truthy userId) eqn:Hu; cbn [negb orb]; [|discriminate].
    intros (e & Hp)%binds_Throw. rewrite Hp. split; [done|]. left.
    unfold q_user_company. rewrite Hc, Hp. cbn [mbind result_bind]. eauto.
Qed.


End ForumProperties.

(** *** Posting a comment *)

Section CommentProperties.

Context {platform : Unicode}.
Variable js_number_of_string : string → jsnum.
Variable pg_int_of_string : string → option Z.

#[local] Set Default Proof Using "Type".

Lemma lowerMap_fold (columns : list string) (m : gmap string string) (k c : string) :
  fold_left (λ m column, <[toLowerCase column := column]> m) columns m !! k = Some c →
  (c ∈ columns ∧ toLowerCase c = k) ∨ m !! k = Some c.
Proof.
  revert m. induction columns as [|x columns IH]; intros m; cbn [fold_left]; [auto|].
  intros H. apply IH in H as [[Hc Hk] | H].
  - left. split; [by right | done].
  - destruct (decide (toLowerCase x = k)) as [<-|Hne].
    + rewrite lookup_insert_eq in H. injection H as <-. left. split; [by left | done].
    + rewrite lookup_insert_ne in H by done. by right.
Qed.

Lemma lowerMap_lookup (columns : list string) (k c : string) :
  lowerMap columns !! k = Some c → c ∈ columns ∧ toLowerCase c = k.
Proof.
  unfold lowerMap. intros [H | H]%lowerMap_fold; [done|].
  by rewrite lookup_empty in H.
Qed.

Lemma lowerMap_fold_is_Some (columns : list string) (m : gmap string string) (k : string) :
  (∃ c, c ∈ columns ∧ toLowerCase c = k) ∨ is_Some (m !! k) →
  is_Some (fold_left (λ m column, <[toLowerCase column := column]> m) columns m !! k).
Proof.
  revert m. induction columns as [|x columns IH]; intros m; cbn [fold_left].
  - intros [(c & Hc & _) | H]; [by apply elem_of_nil in Hc | done].
  - intros [(c & Hc & Hk) | H]; apply IH.
    + apply elem_of_cons in Hc as [-> | Hc]; [|eauto].
      right. rewrite <- Hk, lookup_insert_eq. eauto.
    + right. destruct (decide (toLowerCase x = k)) as [<-|Hne].
      * rewrite lookup_insert_eq. eauto.
      * by rewrite lookup_insert_ne.
Qed.

(** A resolved column is a column of the table, non-empty, and one of the
    candidates up to case. *)
Lemma resolveColumn_Some (columns candidates : list string) (c : string) :
  resolveColumn columns candidates = Some c →
  c ∈ columns ∧ c ≠ "" ∧ ∃ candidate, candidate ∈ candidates
                                     ∧ toLowerCase c = toLowerCase candidate.
Proof.
  unfold resolveColumn. induction candidates as [|x candidates IH]; cbn [resolveCandidates].
  - discriminate.
  - destruct (lowerMap columns !! toLowerCase x) as [m|] eqn:Hm.
    + destruct (truthy (JStr m)) eqn:Ht.
      * intros [= <-]. apply lowerMap_lookup in Hm as [Hin Hk].
        apply truthy_JStr in Ht. split_and!; [done..|]. exists x. split; [by left | done].
      * intros H. destruct (IH H) as (? & ? & y & ? & ?).
        split_and!; [done..|]. exists y. split; [by right | done].
    + intros H. destruct (IH H) as (? & ? & y & ? & ?).
      split_and!; [done..|]. exists y. split; [by right | done].
Qed.

(** Nothing resolves only when no column spells a candidate. *)
Lemma resolveColumn_None (columns candidates : list string) :
  Forall (λ candidate, candidate ≠ "") candidates →
  resolveColumn columns candidates = None →
  ∀ c candidate, c ∈ columns → candidate ∈ candidates →
                 toLowerCase c ≠ toLowerCase candidate.
Proof.
  unfold resolveColumn. induction candidates as [|x candidates IH]; cbn [resolveCandidates].
  - intros _ _ c y _ Hy. by apply elem_of_nil in Hy.
  - intros [Hx Hall]%Forall_cons Hres c y Hc Hy Heq.
    destruct (lowerMap columns !! toLowerCase x) as [m|] eqn:Hm.
    + destruct (truthy (JStr m)) eqn:Ht; [done|].
      apply truthy_JStr_false in Ht. subst m.
      apply lowerMap_lookup in Hm as [_ Hk]. change (toLowerCase "") with "" in Hk.
      symmetry in Hk.
      apply (proj1 (toLowerCase_empty _)) in Hk. congruence.
    + apply elem_of_cons in Hy as [-> | Hy]; [|by eapply IH].
      assert (is_Some (lowerMap columns !! toLowerCase x)) as [? ?]; [|congruence].
      apply lowerMap_fold_is_Some. left. eauto.
Qed.

Lemma comment_author_column (d : db) (cc uc ac : option string) (v1 v2 : jsval) :
  (comment_author d cc uc ac v1 v2).1
  = match cc with
    | Some c => Some c
    | None => match uc with
              | Some c => Some c
              | None => ac
              end
    end.
Proof.
  unfold comment_author. destruct cc, uc, ac; try done.
  destruct (getForeignKeyTarget _ _ _); [|done]. by destruct (_ && _).
Qed.

(** A value that passes [!authorValue] is never sent as NULL. *)
Lemma bind_int_truthy (v : jsval) (p : sqlval) :
  truthy v = true → bind_int pg_int_of_string v = Ok p → p ≠ SNull.
Proof.
  destruct v as [| |b|[|z|text]|s| |t]; cbn [truthy bind_int]; try discriminate.
  - destruct (int4 z); [|discriminate]. by intros _ [= <-].
  - destruct (pg_int_of_string s) as [z|]; [|discriminate].
    destruct (int4 z); [|discriminate]. by intros _ [= <-].
Qed.

(** The handler reaches line 1189 on every path that would insert, so it
    never answers 200 and never changes the stored state. *)
Lemma post_comment_fails (now : Z) (d : db) (postId : jsnum) (b : body) :
  let out := post_comment js_number_of_string pg_int_of_string now d postId b in
  out.2 = d ∧ status out.1 ≠ 200%nat.
Proof.
  cbn zeta. unfold post_comment.
  destruct (_ || _); [done|].
  unfold post_comment_try.
  destruct (resolve_company _ _ _ _ _) as [rc|msg]; cbn [mbind result_bind]; [|done].
  destruct (negb (truthy rc)); [done|].
  destruct (q_company_by_id _ _ _ _) as [[c|]|msg]; cbn [mbind result_bind]; [|done..].
  destruct (resolveColumn _ ["postId"; "post_id"]); [|done].
  destruct (comment_author _ _ _ _ _ _) as [[col|] val]; [|done].
  destruct (_ || _); done.
Qed.


End CommentProperties.

(** *** Sending and listing messages *)

Lemma sql_eq_true (a b : sqlval) : sql_eq a b = true ↔ a = b ∧ a ≠ SNull.
Proof.
  destruct a, b; cbn [sql_eq]; rewrite ?bool_decide_eq_true; split;
    try (intros [? ?]); try done.
Qed.

Lemma has_cols_same (t t' : table) (cs : list string) :
  cols t' = cols t → has_cols t' cs = has_cols t cs.
Proof. unfold has_cols, colnames. by intros ->. Qed.

Lemma inner_join_app {A B} (on : A → B → bool) (l1 l2 : list A) (r : list B) :
  inner_join on (l1 ++ l2) r = inner_join on l1 r ++ inner_join on l2 r.
Proof. unfold inner_join. apply flat_map_app. Qed.

Lemma filter_Permutation {A} (f : A → bool) (l l' : list A) :
  l ≡ₚ l' → List.filter f l ≡ₚ List.filter f l'.
Proof.
  induction 1 as [|x l l' _ IH|x y l|l l' l'' _ IH1 _ IH2]; cbn [List.filter].
  - done.
  - destruct (f x); by rewrite IH.
  - destruct (f x), (f y); try done. apply perm_swap.
  - by rewrite IH1.
Qed.

Lemma filter_map_comm {A B} (f : A → B) (p : B → bool) (l : list A) :
  List.filter p (map f l) = map f (List.filter (λ x, p (f x)) l).
Proof.
  induction l as [|x l IH]; cbn [map List.filter]; [done|].
  destruct (p (f x)); cbn [map]; by rewrite IH.
Qed.

Lemma filter_none {A} (f : A → bool) (l : list A) :
  (∀ x, x ∈ l → f x = false) → List.filter f l = [].
Proof.
  induction l as [|x l IH]; cbn [List.filter]; [done|].
  intros H. rewrite (H x) by left. apply IH. intros y Hy. apply H. by right.
Qed.

(** A key that occurs, among distinct keys, selects exactly one row. *)
Lemma filter_unique {A} (k : A → sqlval) (v : sqlval) (l : list A) :
  NoDup (map k l) → existsb (λ c, sql_eq (k c) v) l = true →
  ∃ c, List.filter (λ c, sql_eq (k c) v) l = [c] ∧ c ∈ l ∧ k c = v.
Proof.
  induction l as [|a l IH]; cbn [map existsb List.filter]; [discriminate|].
  intros [Ha Hl]%NoDup_cons He.
  destruct (sql_eq (k a) v) eqn:Ea.
  - exists a. apply sql_eq_true in Ea as [Ea _]. split_and!; [|by left|done].
    f_equal. apply filter_none. intros c Hc.
    destruct (sql_eq (k c) v) eqn:Ec; [|done].
    apply sql_eq_true in Ec as [Ec _]. exfalso. apply Ha.
    rewrite list_elem_of_In, in_map_iff. exists c. split; [congruence|].
    by apply list_elem_of_In.
  - cbn [orb] in He. destruct (IH Hl He) as (c & -> & Hc & Hk).
    exists c. split_and!; [done|by right|done].
Qed.

Lemma Sorted_map_key {A B} (R : relation A) (R' : relation B) (f : A → B) (l : list A) :
  (∀ x y, R x y → R' (f x) (f y)) → Sorted R l → Sorted R' (map f l).
Proof.
  intros HR. induction 1 as [|x l Hl IH Hhd]; cbn [map]; constructor; [done|].
  destruct Hhd; cbn [map]; constructor. by apply HR.
Qed.

Section MessageProperties.

Variable pg_int_of_string : string → option Z.

#[local] Set Default Proof Using "Type".

(** What a successful send has done. *)
Lemma send_message_ok (now : Z) (d : db) (b : body) (A B : Z) :
  field b "senderCompanyId" = JNum (Int A) →
  field b "receiverCompanyId" = JNum (Int B) →
  status (send_message pg_int_of_string now d b).1 = 200%nat →
  ∃ m t,
    send_message pg_int_of_string now d b
    = (res_json (json_of_fields (returned_message m)), set_tbl d TMessage t)
    ∧ rows t = rows (Message d) ++ [m]
    ∧ cols t = cols (Message d)
    ∧ has_cols (Message d)
        ["id"; "content"; "createdAt"; "senderCompanyId"; "receiverCompanyId"] = true
    ∧ get m "senderCompanyId" = SInt A
    ∧ get m "receiverCompanyId" = SInt B
    ∧ references_company d (SInt A) = true
    ∧ references_company d (SInt B) = true
    ∧ fresh_key (Message d) (get m "id") = true
    ∧ A ≠ 0 ∧ B ≠ 0
    ∧ int4 A = true ∧ int4 B = true.
Proof.
  intros HA HB. unfold send_message. rewrite HA, HB. cbn [truthy].
  destruct (A =? 0) eqn:EA; [discriminate|].
  destruct (B =? 0) eqn:EB; [discriminate|].
  cbn [negb orb]. destruct (negb (truthy (field b "content"))); [discriminate|].
  unfold q_insert_message. cbn [bind_int].
  destruct (int4 A) eqn:IA; cbn [mbind result_bind]; [|discriminate].
  destruct (int4 B) eqn:IB; cbn [mbind result_bind]; [|discriminate].
  destruct (sql_insert_returning _ _ _ _) as [[m t]|msg] eqn:Hins; [|discriminate].
  destruct (_ || _ || _); [discriminate|].
  destruct (fresh_key _ _) eqn:Hfresh; cbn [negb]; [|discriminate].
  destruct (references_company d (SInt A)) eqn:RA; cbn [andb negb]; [|discriminate].
  destruct (references_company d (SInt B)) eqn:RB; cbn [negb]; [|discriminate].
  intros _. exists m, t.
  apply sql_insert_returning_rows in Hins as (Hrows & -> & Hcols & Hnamed & Hnd & Hret).
  apply has_cols_Forall in Hnamed.
  rewrite !fmap_cons in Hnamed. cbn [fst] in Hnamed.
  apply Forall_cons in Hnamed as [Hs Hnamed]. apply Forall_cons in Hnamed as [Hr _].
  split_and!; try done.
  - apply new_row_named; [done..|in_list].
  - apply new_row_named; [done..|in_list].
  - by apply Z.eqb_neq.
  - by apply Z.eqb_neq.
Qed.

Lemma id_of_message_fields (m cs cr : row) : id_of (message_fields m cs cr) = get m "id".
Proof. reflexivity. Qed.

Lemma createdAt_of_message_fields (m cs cr : row) :
  createdAt_of (message_fields m cs cr) = get m "createdAt".
Proof. reflexivity. Qed.

Lemma fresh_key_elem (t : table) (v : sqlval) (r : row) :
  fresh_key t v = true → r ∈ rows t → get r "id" ≠ v.
Proof.
  unfold fresh_key. intros [Hv Hall]%andb_true_iff Hr Heq.
  apply negb_true_iff, bool_decide_eq_false in Hv.
  rewrite forallb_forall in Hall. apply list_elem_of_In, Hall, negb_true_iff in Hr.
  assert (sql_eq (get r "id") v = true); [|congruence].
  apply sql_eq_true. split; congruence.
Qed.

(** C5: after a message is sent with success from company A to company B,
    the listing for A and the listing for B each answer 200, show the new
    message exactly once, with the names of both companies, and are ordered
    by creation time, oldest first. *)
Theorem message_listed_once (now : Z) (d : db) (b : body) (A B X : Z) :
  has_cols (Company d) ["id"; "name"] = true →
  NoDup (ids (Company d)) →
  field b "senderCompanyId" = JNum (Int A) →
  field b "receiverCompanyId" = JNum (Int B) →
  status (send_message pg_int_of_string now d b).1 = 200%nat →
  X = A ∨ X = B →
  ∃ m rs cs cr,
    (send_message pg_int_of_string now d b).1
    = {| status := 200; payload := json_of_fields (returned_message m) |}
    ∧ list_messages pg_int_of_string (send_message pg_int_of_string now d b).2 (Int X)
      = {| status := 200; payload := JA (map json_of_fields rs) |}
    ∧ occurrences (get m "id") rs = [message_fields m cs cr]
    ∧ get cs "id" = SInt A ∧ get cr "id" = SInt B
    ∧ Sorted (asc createdAt_of) rs.
Proof.
  intros Hcc Hnd HA HB Hok HX.
  destruct (send_message_ok now d b A B HA HB Hok)
    as (m & t & -> & Hrows & Hcols & Hmc & HsA & HrB & RA & RB & Hfresh & HA0 & HB0
        & IA & IB).
  cbn [fst snd].
  destruct (filter_unique (λ c : row, get c "id") (SInt A) (rows (Company d)) Hnd RA)
    as (cs & Hcs & _ & Hcsid).
  destruct (filter_unique (λ c : row, get c "id") (SInt B) (rows (Company d)) Hnd RB)
    as (cr & Hcr & _ & Hcrid).
  set (kept :=
         List.filter (λ x : row * row * row,
                        sql_eq (get x.1.1 "senderCompanyId") (SInt X)
                        || sql_eq (get x.1.1 "receiverCompanyId") (SInt X))
           (inner_join (λ (x : row * row) (c : row),
                          sql_eq (get c "id") (get x.1 "receiverCompanyId"))
              (inner_join (λ m c : row, sql_eq (get c "id") (get m "senderCompanyId"))
                          (rows (Message d) ++ [m]) (rows (Company d)))
              (rows (Company d)))).
  exists m, (map (λ x : row * row * row, message_fields x.1.1 x.1.2 x.2)
                 (order_by_asc (λ x : row * row * row, get x.1.1 "createdAt") kept)), cs, cr.
  split_and!; try done.
  - unfold list_messages. cbn [truthy].
    assert ((X =? 0) = false) as -> by (apply Z.eqb_neq; by destruct HX as [-> | ->]).
    assert (int4 X = true) as IX by (by destruct HX as [-> | ->]).
    cbn [negb bind_int]. rewrite IX. cbn [mbind result_bind]. unfold q_messages.
    cbn [set_tbl Message Company].
    rewrite (has_cols_same (Message d) t) by done. rewrite Hmc, Hcc. cbn [andb].
    by rewrite Hrows.
  - unfold occurrences. rewrite filter_map_comm.
    assert (List.filter
              (λ x : row * row * row,
                 bool_decide (id_of (message_fields x.1.1 x.1.2 x.2) = get m "id"))
              (order_by_asc (λ x : row * row * row, get x.1.1 "createdAt") kept)
            = [(m, cs, cr)]) as ->; [|done].
    apply Permutation_singleton_r. unfold order_by_asc.
    rewrite (filter_Permutation _ _ _ (merge_sort_Permutation _ kept)).
    apply Permutation_singleton_r. subst kept. rewrite !inner_join_app, !List.filter_app.
    rewrite (filter_none _ (List.filter _ _)).
    + unfold inner_join. cbn [flat_map app]. rewrite HsA, Hcs. cbn [map flat_map app fst snd].
      rewrite HrB, Hcr. cbn [map app List.filter fst snd]. rewrite HsA, HrB.
      assert (sql_eq (SInt A) (SInt X) || sql_eq (SInt B) (SInt X) = true) as ->.
      { cbn [sql_eq]. destruct HX as [-> | ->];
          rewrite (bool_decide_eq_true_2 _ eq_refl); by rewrite ?orb_true_r. }
      cbn [List.filter]. rewrite id_of_message_fields.
      by rewrite (bool_decide_eq_true_2 _ eq_refl).
    + intros [[m' c1] c2] Hin. rewrite id_of_message_fields. cbn [fst snd].
      apply bool_decide_eq_false.
      apply list_filter_elem in Hin as [Hin _].
      apply inner_join_elem in Hin as (Hin & _ & _).
      apply inner_join_elem in Hin as (Hin & _ & _).
      by eapply fresh_key_elem.
  - apply (Sorted_map_key (asc (λ x : row * row * row, get x.1.1 "createdAt"))).
    + intros x y Hxy. unfold asc. by rewrite !createdAt_of_message_fields.
    + apply order_by_asc_sorted.
Qed.

End MessageProperties.

(** *** Transactions *)

Section TransactionProperties.

Context {platform : Unicode}.
Variable bcrypt_hash : string → string.
Variable pg_int_of_string : string → option Z.
Variable fault : nat → fate.

#[local] Set Default Proof Using "Type".

Lemma M_bind_unfold {A B} (m : M A) (k : A → M B) (c : conn) :
  (m ≫= k) c = match m c with
               | (Ok a, c') => k a c'
               | (Throw e, c') => (Throw e, c')
               end.
Proof. reflexivity. Qed.

Lemma unchanged_refl (d : db) : unchanged d d.
Proof. by repeat split. Qed.

(** ROLLBACK gives back the rows and the catalogue, not the sequences. *)
Lemma unchanged_restored (d0 d : db) : unchanged d0 (restored d0 d).
Proof. by repeat split. Qed.

Lemma tx_step_query {A} (d0 : db) (s : stmt) (q : db → result (A * db)) :
  tx_step d0 no_early (query fault s q).
Proof.
  intros c Hc. unfold query. destruct (fault (tick c)) as [|[]]; [|done..].
  destruct (q (store c)) as [[a d]|e]; done.
Qed.

Lemma tx_step_pool_read {A} (d0 : db) (s : stmt) (q : db → result A) :
  tx_step d0 no_early (pool_read fault s q).
Proof.
  intros c Hc. unfold pool_read. destruct (fault (tick c)); [|done].
  destruct (q (committed c)) as [a|e]; done.
Qed.

Lemma tx_step_ret {A} (d0 : db) (a : A) : tx_step d0 no_early (mret a : M A).
Proof. intros c Hc. done. Qed.

Lemma tx_step_bind {A B} (d0 : db) (early : B → option response) (m : M A) (k : A → M B) :
  tx_step d0 no_early m → (∀ a, tx_step d0 early (k a)) → tx_step d0 early (m ≫= k).
Proof.
  intros Hm Hk c Hc. rewrite M_bind_unfold. specialize (Hm c Hc).
  destruct (m c) as [[a|e] c']; [|done]. by apply Hk.
Qed.

Lemma last_snoc_log (c : conn) (s : stmt) : last (log (issued s c)) = Some s.
Proof. cbn [issued log]. apply last_snoc. Qed.

Lemma tx_step_rollback {A} (d0 : db) (early : A → option response) (a : A) (r : response) :
  early a = Some r → status r ≠ 200%nat →
  tx_step d0 early (ROLLBACK ≫= λ _, mret a).
Proof.
  intros He Hr c Hc. rewrite M_bind_unfold. unfold ROLLBACK, mret, M_ret. rewrite He.
  split; [done|]. unfold rolled_back, committed.
  cbn [with_saved with_store issued store saved log]. rewrite Hc. cbn [default].
  split_and!; [apply unchanged_restored | done | apply last_snoc].
Qed.

Lemma tx_safe_rollback (d0 : db) (r : response) :
  status r ≠ 200%nat → tx_safe d0 (ROLLBACK ≫= λ _, mret r).
Proof.
  intros Hr c Hc. rewrite M_bind_unfold. unfold ROLLBACK, mret, M_ret. right.
  split; [done|]. unfold rolled_back, committed.
  cbn [with_saved with_store issued store saved log]. rewrite Hc. cbn [default].
  split_and!; [apply unchanged_restored | done | apply last_snoc].
Qed.

Lemma tx_safe_commit (d0 : db) (r : response) :
  status r = 200%nat → tx_safe d0 (COMMIT fault ≫= λ _, mret r).
Proof.
  intros Hr c Hc. rewrite M_bind_unfold. unfold COMMIT.
  destruct (fault (tick c)); [|done]. left. split; [done|].
  split; [done|]. apply last_snoc.
Qed.

Lemma tx_safe_bind {A} (d0 : db) (m : M A) (k : A → M response) :
  tx_step d0 no_early m → (∀ a, tx_safe d0 (k a)) → tx_safe d0 (m ≫= k).
Proof.
  intros Hm Hk c Hc. rewrite M_bind_unfold. specialize (Hm c Hc).
  destruct (m c) as [[a|e] c']; [|done]. by apply Hk.
Qed.

(** Binding a step that may have returned early. *)
Lemma tx_safe_early {A} (d0 : db) (early : A → option response) (m : M A)
  (k : A → M response) :
  tx_step d0 early m →
  (∀ a r, early a = Some r → k a = mret r) →
  (∀ a, early a = None → tx_safe d0 (k a)) →
  tx_safe d0 (m ≫= k).
Proof.
  intros Hm Hearly Hk c Hc. rewrite M_bind_unfold. specialize (Hm c Hc).
  destruct (m c) as [[a|e] c']; [|done].
  destruct (early a) as [r|] eqn:He.
  - rewrite (Hearly a r He). by right.
  - by apply Hk.
Qed.

Lemma tx_step_early {A B} (d0 : db) (early : A → option response)
  (early' : B → option response) (m : M A) (k : A → M B) :
  tx_step d0 early m →
  (∀ a r, early a = Some r → ∃ b, k a = mret b ∧ early' b = Some r) →
  (∀ a, early a = None → tx_step d0 early' (k a)) →
  tx_step d0 early' (m ≫= k).
Proof.
  intros Hm Hearly Hk c Hc. rewrite M_bind_unfold. specialize (Hm c Hc).
  destruct (m c) as [[a|e] c']; [|done].
  destruct (early a) as [r|] eqn:He.
  - destruct (Hearly a r He) as (b & -> & Hb). cbn. by rewrite Hb.
  - by apply Hk.
Qed.

(** A handler that opens a transaction and whose rest is safe is atomic. *)
Lemma run_transaction_atomic (d : db) (rest : M response) :
  tx_safe d rest →
  atomic_outcome d (run_transaction (BEGIN fault ≫= λ _, rest) d).
Proof.
  intros Hrest. unfold run_transaction. rewrite M_bind_unfold. unfold BEGIN.
  cbn [tick]. destruct (fault 0).
  - match goal with
    | |- context [rest ?c] =>
        specialize (Hrest c eq_refl); destruct (rest c) as [[r|e] c']
    end.
    + unfold atomic_outcome. cbn [fst snd].
      destruct Hrest as [[Hr [Hs Hl]] | [Hr (Hst & Hs & Hl)]]; split; try done.
      intros _. auto.
    + unfold atomic_outcome. cbn [fst snd status res_message]. split; [done|].
      intros _. cbn [ROLLBACK snd with_saved with_store issued store saved log].
      unfold committed. rewrite Hrest. cbn [default].
      split_and!; [apply unchanged_restored | done |]. right. apply last_snoc.
  - unfold atomic_outcome. cbn [fst snd status res_message]. split; [done|].
    intros _. cbn [ROLLBACK snd with_saved with_store issued store saved log committed default].
    split_and!; [apply unchanged_restored | done |]. right. apply last_snoc.
Qed.

Lemma tx_step_when {A} (d0 : db) (o : option A) (k : A → M ()) :
  (∀ x, tx_step d0 no_early (k x)) → tx_step d0 no_early (when_column o k).
Proof. intros Hk. destruct o; [apply Hk | apply tx_step_ret]. Qed.

Lemma tx_step_ret_continue {A} (d0 : db) (early : A → option response) (a : A) :
  early a = None → tx_step d0 early (mret a : M A).
Proof. intros He c Hc. unfold mret, M_ret. by rewrite He. Qed.

Lemma delete_company_safe (d0 : db) (companyId : jsnum) :
  tx_safe d0
    (userColumns ← pool_read fault (SCatalog TUser) (λ d, Ok (getTableColumns d TUser));
     postColumns ← pool_read fault (SCatalog TPost) (λ d, Ok (getTableColumns d TPost));
     commentColumns ← pool_read fault (SCatalog TComment)
                                (λ d, Ok (getTableColumns d TComment));
     let userCompanyColumn := resolveColumn userColumns ["companyId"; "company_id"] in
     let postAuthorColumn := resolveColumn postColumns ["authorId"; "author_id"] in
     let commentPostColumn := resolveColumn commentColumns ["postId"; "post_id"] in
     let commentCompanyColumn := resolveColumn commentColumns ["companyId"; "company_id"] in
     let commentUserColumn := resolveColumn commentColumns ["userId"; "user_id"] in
     let commentAuthorColumn := resolveColumn commentColumns ["authorId"; "author_id"] in
     query fault (SDelete TMessage) (with_param pg_int_of_string companyId q_delete_messages);;
     when_column commentCompanyColumn
       (λ c, query fault (SDelete TComment)
                   (with_param pg_int_of_string companyId
                      (q_delete_where TComment (quoteIdentifier c))));;
     when_column commentAuthorColumn
       (λ c, query fault (SDelete TComment)
                   (with_param pg_int_of_string companyId
                      (q_delete_where TComment (quoteIdentifier c))));;
     when_column (both commentUserColumn userCompanyColumn)
       (λ cu, query fault (SDelete TComment)
                    (with_param pg_int_of_string companyId
                       (q_delete_comments_in (quoteIdentifier cu.1) TUser
                                             (quoteIdentifier cu.2))));;
     when_column (both commentPostColumn postAuthorColumn)
       (λ cp, query fault (SDelete TComment)
                    (with_param pg_int_of_string companyId
                       (q_delete_comments_in (quoteIdentifier cp.1) TPost
                                             (quoteIdentifier cp.2))));;
     when_column postAuthorColumn
       (λ c, query fault (SDelete TPost)
                   (with_param pg_int_of_string companyId
                      (q_delete_where TPost (quoteIdentifier c))));;
     when_column userCompanyColumn
       (λ c, query fault (SDelete TUser)
                   (with_param pg_int_of_string companyId
                      (q_delete_where TUser (quoteIdentifier c))));;
     deleteResult ← query fault (SDelete TCompany)
                          (with_param pg_int_of_string companyId q_delete_company);
     match deleteResult with
     | [] => ROLLBACK;; mret (res_message 404 "Company not found.")
     | _ :: _ => COMMIT fault;; mret (res_json (JO [("id", JV (JNum companyId))]))
     end).
Proof.
  repeat (apply tx_safe_bind;
          [first [apply tx_step_pool_read | apply tx_step_query
                 | apply tx_step_when; intros ?; apply tx_step_query]
          | intros ?]).
  match goal with |- tx_safe _ (match ?l with _ => _ end) => destruct l end.
  - by apply tx_safe_rollback.
  - by apply tx_safe_commit.
Qed.

Lemma company_role_step (d0 : db) : tx_step d0 early_left (company_role fault).
Proof.
  unfold company_role.
  apply tx_step_bind; [apply tx_step_query | intros enumValues].
  destruct (negb (bool_decide (enumValues = []))); [|by apply tx_step_ret_continue].
  destruct (negb (has _ _)); [|by apply tx_step_ret_continue].
  apply tx_step_bind; [apply tx_step_query | intros [typeName|]].
  - destruct (_ && _).
    + apply tx_step_bind; [apply tx_step_query | intros _].
      apply tx_step_bind; [apply tx_step_query | intros refreshedValues].
      by apply tx_step_ret_continue.
    + by eapply tx_step_rollback.
  - by eapply tx_step_rollback.
Qed.

Lemma company_user_step (d0 : db) (now : Z) (b : body) (company : row) :
  tx_step d0 id (company_user bcrypt_hash fault now b company).
Proof.
  unfold company_user.
  destruct (_ && _); [|by apply tx_step_ret_continue].
  apply tx_step_bind; [apply tx_step_pool_read | intros userColumns].
  destruct (forallb _ _); [|by apply tx_step_ret_continue].
  apply (tx_step_early d0 early_left); [apply company_role_step | |].
  - intros [r'|roleValue] r [= <-]. by eexists.
  - intros [r'|roleValue] [=].
    apply tx_step_bind; [apply tx_step_query | intros [existing|]].
    + by eapply tx_step_rollback.
    + apply tx_step_bind; [apply tx_step_query | intros _].
      by apply tx_step_ret_continue.
Qed.

Lemma create_company_safe (d0 : db) (now : Z) (b : body) :
  tx_safe d0
    (companyColumns ← pool_read fault (SCatalog TCompany)
                                (λ d, Ok (getTableColumns d TCompany));
     company ← query fault (SInsert TCompany)
                     (q_insert_company now (company_insert_named now companyColumns b));
     early ← company_user bcrypt_hash fault now b company;
     match early with
     | Some r => mret r
     | None =>
         COMMIT fault;;
         mret (res_json (json_of_fields (map (λ c, (c, get company c)) companyColumns)))
     end).
Proof.
  apply tx_safe_bind; [apply tx_step_pool_read | intros companyColumns].
  apply tx_safe_bind; [apply tx_step_query | intros company].
  apply (tx_safe_early d0 id); [apply company_user_step | |].
  - by intros [r'|] r [= <-].
  - intros [r'|] [=]. by apply tx_safe_commit.
Qed.


End TransactionProperties.

(** *** Deleting a company *)

Section DeleteProperties.

Context {platform : Unicode}.
Variable pg_int_of_string : string → option Z.
Variable fault : nat → fate.

#[local] Set Default Proof Using "Type".

Lemma delete_company_log_order (d : db) :
  Sorted le (omap delete_rank (delete_company_log d))
  ∧ head (omap delete_rank (delete_company_log d)) = Some 0%nat
  ∧ last (omap delete_rank (delete_company_log d)) = Some 4%nat.
Proof.
  unfold delete_company_log.
  destruct (comment_company_column d), (comment_generic_column d), (comment_user_column d),
    (user_company_column d), (comment_post_column d), (post_author_column d);
    cbn; split_and!; try done; repeat constructor.
Qed.

Lemma elem_when_delete {A} (o : option A) (t t' : tablename) (cond : A → db → row → bool)
  (d : db) (r : row) :
  r ∈ rows (tbl (when_some o (λ x d, delete_rows d t (cond x d)) d) t') →
  r ∈ rows (tbl d t') ∧ (∀ x, o = Some x → t = t' → cond x d r = false).
Proof.
  destruct o as [x|]; cbn [when_some].
  - intros [Hr Hc]%elem_delete_rows. split; [done|]. by intros ? [= <-].
  - done.
Qed.

Lemma tbl_when_delete_other {A} (o : option A) (t t' : tablename)
  (cond : A → db → row → bool) (d : db) :
  t ≠ t' → tbl (when_some o (λ x d, delete_rows d t (cond x d)) d) t' = tbl d t'.
Proof. intros Hne. destruct o; [by apply tbl_delete_rows_other | done]. Qed.

Lemma shrunk_when_delete {A} (o : option A) (t : tablename) (cond : A → db → row → bool)
  (d : db) :
  shrunk d (when_some o (λ x d, delete_rows d t (cond x d)) d).
Proof. destruct o; [apply shrunk_delete_rows | apply shrunk_refl]. Qed.

(** What holds of every row and is kept when columns are cleared holds of
    every row that is left. *)
Lemma shrunk_keeps (Q : row → Prop) (d d' : db) (t : tablename) :
  shrunk d d' → (∀ r' r, cleared r' r → Q r → Q r') →
  (∀ r, r ∈ rows (tbl d t) → Q r) → ∀ r', r' ∈ rows (tbl d' t) → Q r'.
Proof.
  intros (Hrows & _) Hq Hd r' Hr'. destruct (Hrows _ _ Hr') as (r & Hr & Hc).
  eapply Hq; [exact Hc|]. by apply Hd.
Qed.

Lemma constraints_shrunk (d d' : db) : shrunk d d' → constraints d' = constraints d.
Proof. intros (_ & _ & Hf & _). unfold constraints. by rewrite Hf. Qed.

Lemma data_model_shrunk (d d' : db) : shrunk d d' → data_model d → data_model d'.
Proof. intros (_ & _ & Hf & _). unfold data_model. by rewrite Hf. Qed.

(** The tables that a foreign key of the data model may tie to a table. *)
Lemma data_model_targets (d : db) (k : fkey) (t : tablename) :
  data_model d → k ∈ constraints d → fk_target k = table_name t →
  match t with
  | TMessage | TComment => False
  | TPost | TUser => fk_table k = TComment
  | TCompany => True
  end.
Proof.
  intros Hm Hk Ht. unfold constraints in Hk. apply elem_of_app in Hk as [Hk|Hk].
  - unfold message_fkeys in Hk.
    apply elem_of_cons in Hk as [-> | Hk];
      [|apply elem_of_cons in Hk as [-> | Hk]; [|by apply elem_of_nil in Hk]];
      cbn [fk_target] in Ht; by destruct t.
  - unfold data_model in Hm. rewrite Forall_forall in Hm. specialize (Hm k Hk).
    unfold of_data_model in Hm. apply orb_true_iff in Hm as [Hm|Hm].
    + destruct (fk_table k) eqn:Hfk; try done;
        apply bool_decide_eq_true in Hm; rewrite Ht in Hm;
        destruct t; try done; try discriminate;
        repeat (apply elem_of_cons in Hm as [Hm|Hm]; [discriminate|]);
        by apply elem_of_nil in Hm.
    + apply negb_true_iff, bool_decide_eq_false in Hm. exfalso. apply Hm.
      rewrite Ht. apply list_elem_of_In, in_map. destruct t; cbn; tauto.
Qed.

(** Nothing refers to a message or a comment, so a DELETE on either takes
    the rows it selects and nothing else. *)
Lemma delete_plain (d : db) (t : tablename) (cond : row → bool) :
  data_model d → t = TMessage ∨ t = TComment →
  sql_delete_from d t cond = Ok (List.filter cond (rows (tbl d t)), delete_rows d t cond).
Proof.
  intros Hm Ht. apply sql_delete_from_plain. intros k Hk Htg.
  pose proof (data_model_targets d k t Hm Hk Htg) as H0. by destruct Ht as [-> | ->].
Qed.

Lemma q_delete_messages_ok (id : sqlval) (d d' : db) (u : ()) :
  data_model d →
  q_delete_messages id d = Ok (u, d') →
  d' = delete_rows d TMessage
         (λ r, sql_eq (get r "senderCompanyId") id || sql_eq (get r "receiverCompanyId") id).
Proof.
  intros Hm. destruct u. unfold q_delete_messages. destruct (has_cols _ _); [|discriminate].
  rewrite delete_plain by auto. cbn [mbind result_bind]. by intros [= <-].
Qed.

Lemma q_delete_where_plain (column : string) (id : sqlval) (d d' : db) (u : ()) :
  data_model d →
  q_delete_where TComment column id d = Ok (u, d') →
  d' = delete_rows d TComment (λ r, sql_eq (get r column) id).
Proof.
  intros Hm. destruct u. unfold q_delete_where. destruct (has_cols _ _); [|discriminate].
  rewrite delete_plain by auto. cbn [mbind result_bind]. by intros [= <-].
Qed.

Lemma q_delete_comments_in_ok (column : string) (t : tablename) (owner : string) (id : sqlval)
  (d d' : db) (u : ()) :
  data_model d →
  q_delete_comments_in column t owner id d = Ok (u, d') →
  d' = delete_rows d TComment (λ r, sql_in (get r column) (owned_ids d t owner id)).
Proof.
  intros Hm. destruct u. unfold q_delete_comments_in. destruct (_ && _); [|discriminate].
  rewrite delete_plain by auto. cbn [mbind result_bind]. by intros [= <-].
Qed.

Lemma q_delete_where_ok (t : tablename) (column : string) (id : sqlval) (d d' : db) (u : ()) :
  q_delete_where t column id d = Ok (u, d') → delete_step (Some column) t id d d'.
Proof.
  destruct u. unfold q_delete_where, delete_step. destruct (has_cols _ _); [|discriminate].
  destruct (sql_delete_from _ _ _) as [[deleted d0]|e]; [|discriminate].
  cbn [mbind result_bind]. intros [= <-]. by exists deleted.
Qed.

Lemma q_delete_company_ok (id : sqlval) (d d' : db) (deleted : list row) :
  q_delete_company id d = Ok (deleted, d') →
  sql_delete_from d TCompany (λ r, sql_eq (get r "id") id) = Ok (deleted, d').
Proof. unfold q_delete_company. by destruct (has_cols _ _). Qed.

(** What a conditional DELETE that went through has done. *)
Lemma delete_step_ok (o : option string) (t : tablename) (id : sqlval) (d d' : db) :
  delete_step o t id d d' →
  shrunk d d'
  ∧ (∀ c r, o = Some c → r ∈ rows (tbl d' t) → sql_eq (get r c) id = false)
  ∧ (∀ c k, o = Some c → k ∈ constraints d → fk_target k = table_name t →
            unreferenced k (owned_ids d t c id) d')
  ∧ (∀ P : tablename → Prop,
       (∀ k t, k ∈ constraints d → P t → fk_target k = table_name t → P (fk_table k)) →
       P t → ∀ t', ¬ P t' → tbl d' t' = tbl d t').
Proof.
  destruct o as [c|]; cbn [delete_step].
  - intros (deleted & (_ & Hsh & Hrows & Href & Hframe)%sql_delete_from_ok).
    split_and!; [done| | |done].
    + intros c0 r [= <-] Hr. destruct (Hrows r Hr) as (r0 & _ & Hc & Hcl).
      by eapply cleared_sql_eq.
    + intros c0 k [= <-] Hk Ht. by apply Href.
  - intros ->. split_and!; [apply shrunk_refl|done..].
Qed.

Lemma bind_ok {A B} (m : M A) (k : A → M B) (c cf : conn) (b : B) :
  (m ≫= k) c = (Ok b, cf) → ∃ a c', m c = (Ok a, c') ∧ k a c' = (Ok b, cf).
Proof.
  rewrite M_bind_unfold. destruct (m c) as [[a|e] c']; [eauto | discriminate].
Qed.

Lemma query_ok {A} (s : stmt) (q : db → result (A * db)) (c c' : conn) (a : A) :
  query fault s q c = (Ok a, c') →
  ∃ d', q (store c) = Ok (a, d')
        ∧ store c' = d' ∧ log c' = log c ++ [s] ∧ saved c' = saved c.
Proof.
  unfold query. destruct (fault (tick c)); [|discriminate].
  destruct (q (store c)) as [[a' d']|e]; [|discriminate].
  intros [= <- <-]. by exists d'.
Qed.

Lemma pool_read_ok {A} (s : stmt) (q : db → result A) (c c' : conn) (a : A) :
  pool_read fault s q c = (Ok a, c') →
  q (committed c) = Ok a ∧ store c' = store c ∧ log c' = log c ++ [s] ∧ saved c' = saved c.
Proof.
  unfold pool_read. destruct (fault (tick c)); [|discriminate].
  destruct (q (committed c)) as [a'|e]; [|discriminate].
  by intros [= <- <-].
Qed.

Lemma BEGIN_ok (c c' : conn) (u : ()) :
  BEGIN fault c = (Ok u, c') →
  store c' = store c ∧ log c' = log c ++ [SBegin] ∧ saved c' = Some (committed c).
Proof.
  destruct u. unfold BEGIN. destruct (fault (tick c)); [|discriminate]. by intros [= <-].
Qed.

Lemma COMMIT_ok (c c' : conn) (u : ()) :
  COMMIT fault c = (Ok u, c') →
  store c' = store c ∧ log c' = log c ++ [SCommit] ∧ saved c' = None.
Proof.
  destruct u. unfold COMMIT. destruct (fault (tick c)); [|discriminate]. by intros [= <-].
Qed.

Lemma with_param_int {A} (z : Z) (q : sqlval → db → result (A * db)) (d : db) :
  int4 z = true → with_param pg_int_of_string (Int z) q d = q (SInt z) d.
Proof. intros Hz. unfold with_param. cbn [bind_int]. by rewrite Hz. Qed.

Lemma with_param_range {A} (z : Z) (q : sqlval → db → result (A * db)) (d : db)
  (x : A * db) :
  with_param pg_int_of_string (Int z) q d = Ok x → int4 z = true.
Proof. unfold with_param. cbn [bind_int]. by destruct (int4 z). Qed.

(** A conditional DELETE on comments that went through. *)
Lemma when_delete_ok {A} (o : option A) (s : stmt) (q : A → db → result (() * db))
  (f : A → db → db) (c c' : conn) (u : ()) :
  (∀ x u d', q x (store c) = Ok (u, d') → d' = f x (store c)) →
  when_column o (λ x, query fault s (q x)) c = (Ok u, c') →
  store c' = when_some o f (store c) ∧ log c' = log c ++ log_when o s
  ∧ saved c' = saved c.
Proof.
  intros Hq. destruct u. destruct o as [x|]; cbn [when_column when_some log_when].
  - intros (d' & Hd' & -> & -> & ->)%query_ok. by rewrite (Hq _ _ _ Hd').
  - intros [= <-]. by rewrite app_nil_r.
Qed.

(** A conditional DELETE on a table that others refer to. *)
Lemma when_delete_step (o : option string) (t : tablename) (z : Z) (c c' : conn) (u : ()) :
  int4 z = true →
  when_column o (λ x, query fault (SDelete t)
                            (with_param pg_int_of_string (Int z)
                               (q_delete_where t (quoteIdentifier x)))) c = (Ok u, c') →
  delete_step o t (SInt z) (store c) (store c')
  ∧ log c' = log c ++ log_when o (SDelete t) ∧ saved c' = saved c.
Proof.
  intros Hz. destruct u. destruct o as [x|]; cbn [when_column delete_step log_when].
  - intros (d' & Hd' & -> & -> & ->)%query_ok. rewrite with_param_int in Hd' by done.
    by apply q_delete_where_ok in Hd'.
  - intros [= <-]. by rewrite app_nil_r.
Qed.

(** What a delete that answers 200 has done and sent. *)
Lemma delete_company_success (d : db) (companyId : jsnum) :
  data_model d →
  status (delete_company pg_int_of_string fault d companyId).1 = 200%nat →
  ∃ z d6 d7 deleted,
    companyId = Int z ∧ z ≠ 0 ∧ int4 z = true
    ∧ delete_step (post_author_column d) TPost (SInt z) (delete_company_comments d (SInt z)) d6
    ∧ delete_step (user_company_column d) TUser (SInt z) d6 d7
    ∧ sql_delete_from d7 TCompany (λ r, sql_eq (get r "id") (SInt z))
      = Ok (deleted, store (delete_company pg_int_of_string fault d companyId).2)
    ∧ deleted ≠ []
    ∧ log (delete_company pg_int_of_string fault d companyId).2 = delete_company_log d.
Proof.
  intros Hm. unfold delete_company. destruct companyId as [|z|x]; [discriminate| |].
  2:{ cbn [truthy negb]. unfold run_transaction.
      destruct (delete_company_body _ _ _ _) as [[r|e] cf] eqn:Hrun; [|discriminate].
      unfold delete_company_body in Hrun.
      apply bind_ok in Hrun as (? & c1 & _ & Hrun).
      apply bind_ok in Hrun as (uc & c2 & _ & Hrun).
      apply bind_ok in Hrun as (pc & c3 & _ & Hrun).
      apply bind_ok in Hrun as (cc & c4 & _ & Hrun).
      apply bind_ok in Hrun as (? & c5 & (d5 & Hd5 & _)%query_ok & Hrun).
      discriminate. }
  cbn [truthy]. destruct (z =? 0) eqn:Hz; [discriminate|]. cbn [negb].
  apply Z.eqb_neq in Hz. intros Hok.
  revert Hok. unfold run_transaction.
  destruct (delete_company_body _ _ _ _) as [[r|e] cf] eqn:Hrun; [|discriminate].
  cbn [fst snd]. intros Hok. unfold delete_company_body in Hrun.
  apply bind_ok in Hrun as (? & c1 & (Hs1 & Hl1 & Hv1)%BEGIN_ok & Hrun).
  apply bind_ok in Hrun as (uc & c2 & (Huc & Hs2 & Hl2 & Hv2)%pool_read_ok & Hrun).
  apply bind_ok in Hrun as (pc & c3 & (Hpc & Hs3 & Hl3 & Hv3)%pool_read_ok & Hrun).
  apply bind_ok in Hrun as (cc & c4 & (Hcc & Hs4 & Hl4 & Hv4)%pool_read_ok & Hrun).
  unfold committed in Huc, Hpc, Hcc.
  rewrite Hv1 in Huc. rewrite Hv2, Hv1 in Hpc. rewrite Hv3, Hv2, Hv1 in Hcc.
  cbn [default committed saved store] in Huc, Hpc, Hcc.
  injection Huc as <-. injection Hpc as <-. injection Hcc as <-.
  assert (store c4 = d) as Hd4 by (by rewrite Hs4, Hs3, Hs2, Hs1).
  apply bind_ok in Hrun as (? & c5 & (d5 & Hd5 & Hs5 & Hl5 & Hv5)%query_ok & Hrun).
  pose proof (with_param_range _ _ _ _ Hd5) as Hrange.
  rewrite with_param_int in Hd5 by done. rewrite Hd4 in Hd5.
  apply q_delete_messages_ok in Hd5; [|done].
  assert (shrunk d (store c5)) as Sh5.
  { rewrite Hs5, Hd5. apply shrunk_delete_rows. }
  apply bind_ok in Hrun as (? & c6 & Hc6 & Hrun).
  apply (when_delete_ok _ _ _ (λ c d, delete_rows d TComment (λ r, sql_eq (get r c) (SInt z))))
    in Hc6 as (Hs6 & Hl6 & Hv6);
    [|intros col0 u0 d0'; rewrite with_param_int by done;
      apply q_delete_where_plain; by eapply data_model_shrunk].
  assert (shrunk d (store c6)) as Sh6.
  { eapply shrunk_trans; [exact Sh5|]. rewrite Hs6. apply shrunk_when_delete. }
  apply bind_ok in Hrun as (? & c7 & Hc7 & Hrun).
  apply (when_delete_ok _ _ _ (λ c d, delete_rows d TComment (λ r, sql_eq (get r c) (SInt z))))
    in Hc7 as (Hs7 & Hl7 & Hv7);
    [|intros col0 u0 d0'; rewrite with_param_int by done;
      apply q_delete_where_plain; by eapply data_model_shrunk].
  assert (shrunk d (store c7)) as Sh7.
  { eapply shrunk_trans; [exact Sh6|]. rewrite Hs7. apply shrunk_when_delete. }
  apply bind_ok in Hrun as (? & c8 & Hc8 & Hrun).
  apply (when_delete_ok _ _ _
           (λ (cu : string * string) d,
              delete_rows d TComment
                (λ r, sql_in (get r cu.1) (owned_ids d TUser cu.2 (SInt z)))))
    in Hc8 as (Hs8 & Hl8 & Hv8);
    [|intros col0 u0 d0'; rewrite with_param_int by done;
      apply q_delete_comments_in_ok; by eapply data_model_shrunk].
  assert (shrunk d (store c8)) as Sh8.
  { eapply shrunk_trans; [exact Sh7|]. rewrite Hs8.
    apply (shrunk_when_delete _ TComment
             (λ (cu : string * string) d r,
                sql_in (get r cu.1) (owned_ids d TUser cu.2 (SInt z)))). }
  apply bind_ok in Hrun as (? & c9 & Hc9 & Hrun).
  apply (when_delete_ok _ _ _
           (λ (cp : string * string) d,
              delete_rows d TComment
                (λ r, sql_in (get r cp.1) (owned_ids d TPost cp.2 (SInt z)))))
    in Hc9 as (Hs9 & Hl9 & Hv9);
    [|intros col0 u0 d0'; rewrite with_param_int by done;
      apply q_delete_comments_in_ok; by eapply data_model_shrunk].
  apply bind_ok in Hrun as (? & c10 & (St10 & Hl10 & Hv10)%when_delete_step & Hrun); [|done].
  apply bind_ok in Hrun as (? & c11 & (St11 & Hl11 & Hv11)%when_delete_step & Hrun); [|done].
  apply bind_ok in Hrun as (deleted & c12 & (d12 & Hd12 & Hs12 & Hl12 & Hv12)%query_ok & Hrun).
  rewrite with_param_int in Hd12 by done. apply q_delete_company_ok in Hd12.
  destruct deleted as [|r0 deleted].
  { apply bind_ok in Hrun as (? & ? & _ & [= <- <-]). discriminate. }
  apply bind_ok in Hrun as (? & c13 & (Hs13 & Hl13 & Hv13)%COMMIT_ok & [= <- <-]).
  exists z, (store c10), (store c11), (r0 :: deleted).
  assert (store c9 = delete_company_comments d (SInt z)) as Hd9.
  { rewrite Hs9, Hs8, Hs7, Hs6, Hs5, Hd5. reflexivity. }
  split_and!; try done.
  - by rewrite <- Hd9.
  - by rewrite Hs13, Hs12.
  - rewrite Hl13, Hl12, Hl11, Hl10, Hl9, Hl8, Hl7, Hl6, Hl5, Hl4, Hl3, Hl2, Hl1.
    cbn [log app]. unfold delete_company_log. rewrite <- !app_assoc. reflexivity.
Qed.


End DeleteProperties.

(** *** The fields of a company *)

Lemma update_sets_elem (columns : list string) (b : body) (k : string) (v : sqlval) :
  (k, v) ∈ update_sets columns b ↔
  k ∈ company_fields ∧ has columns k = true ∧ hasOwnProperty b k = true
  ∧ v = bind_text (normalized (field b k)).
Proof.
  unfold update_sets. rewrite list_elem_of_In, in_flat_map. split.
  - intros (key & Hkey & Hin). apply list_elem_of_In in Hkey.
    destruct (has columns key) eqn:Hh; cbn [negb] in Hin; [|done].
    destruct (hasOwnProperty b key) eqn:Ho; cbn [negb] in Hin; [|done].
    destruct Hin as [[= <- <-]|[]]. done.
  - intros (Hk & Hh & Ho & ->). exists k. split; [by apply list_elem_of_In|].
    rewrite Hh, Ho. by left.
Qed.

Lemma company_field_not_stamp (k : string) :
  k ∈ company_fields → k ≠ "updatedAt" ∧ k ≠ "updated_at".
Proof.
  unfold company_fields. intros H.
  repeat (apply elem_of_cons in H as [-> | H]; [done|]). by apply elem_of_nil in H.
Qed.

Lemma normalized_empty : bind_text (normalized (JStr "")) = SNull.
Proof. reflexivity. Qed.

Section CompanyFieldProperties.

Context {platform : Unicode}.
Variable bcrypt_hash : string → string.
Variable pg_int_of_string : string → option Z.
Variable fault : nat → fate.

#[local] Set Default Proof Using "Type".

(** An update that names no column of the table changes nothing. *)
Lemma update_company_no_fields (now : Z) (d : db) (companyId : jsnum) (b : body) :
  truthy (JNum companyId) = true →
  (∀ k, is_Some (b !! k) → k ∉ colnames (Company d)) →
  update_company pg_int_of_string now d companyId b
  = (res_message 400 "No fields to update.", d).
Proof.
  intros Hid Hkeys. unfold update_company. rewrite Hid. cbn [negb].
  unfold update_company_try.
  assert (update_sets (getTableColumns d TCompany) b = []) as ->.
  { apply elem_of_nil_inv. intros [k v] (Hk & Hh & Ho & _)%update_sets_elem.
    apply bool_decide_eq_true in Ho. apply has_elem in Hh. by apply (Hkeys k). }
  cbn [bool_decide decide_rel negb andb].
  by rewrite !andb_false_r.
Qed.

(** A successful update has stored NULL for a field sent as the empty
    string. *)
Lemma update_company_empty_null (now : Z) (d : db) (z : Z) (b : body) (k : string) (r : row) :
  status (update_company pg_int_of_string now d (Int z) b).1 = 200%nat →
  k ∈ company_fields → b !! k = Some (JStr "") → k ∈ colnames (Company d) →
  r ∈ rows (Company (update_company pg_int_of_string now d (Int z) b).2) →
  sql_eq (get r "id") (SInt z) = true →
  get r k = SNull.
Proof.
  intros Hok Hk Hb Hcol. revert Hok. unfold update_company.
  destruct (negb (truthy (JNum (Int z)))); [discriminate|].
  unfold update_company_try.
  set (sets0 := update_sets (getTableColumns d TCompany) b).
  set (sets := if has (getTableColumns d TCompany) "updatedAt"
                  && negb (bool_decide (sets0 = []))
               then sets0 ++ [("updatedAt", STime now)]
               else if has (getTableColumns d TCompany) "updated_at"
                       && negb (bool_decide (sets0 = []))
                    then sets0 ++ [("updated_at", STime now)]
                    else sets0).
  assert ((list_to_map sets : row) !! k = Some SNull) as Hsets.
  { assert ((k, SNull) ∈ sets0) as Hin.
    { apply update_sets_elem. split_and!; [done|by apply has_elem| |].
      - apply bool_decide_eq_true. by rewrite Hb.
      - unfold field. by rewrite Hb. }
    assert (∀ x, x ∈ sets0 → x.1 = k → x.2 = SNull) as Hall.
    { intros [k' v] (_ & _ & _ & ->)%update_sets_elem [= ->]. cbn [snd].
      unfold field. by rewrite Hb. }
    destruct (company_field_not_stamp k Hk) as [Hn1 Hn2].
    apply list_to_map_first.
    - exists (k, SNull). split; [|done]. subst sets.
      repeat case_match; rewrite ?elem_of_app; auto.
    - intros x Hx Hxk. subst sets.
      repeat case_match; rewrite ?elem_of_app in Hx;
        try (destruct Hx as [Hx | ->%list_elem_of_singleton]; [|done]); by apply Hall. }
  destruct (bool_decide (sets = [])); [discriminate|].
  cbn [bind_int]. destruct (int4 z); [|discriminate]. cbn [mbind result_bind].
  destruct (negb (has_cols (Company d) ["id"])); [discriminate|].
  unfold sql_update. destruct (has_cols (Company d) sets.*1); [|discriminate].
  cbn [mbind result_bind].
  assert (∀ t', r ∈ rows (Company (set_tbl d TCompany
                 (set_rows (Company d)
                    (map (λ r0 : row, if sql_eq (get r0 "id") (SInt z)
                                      then (list_to_map sets : row) ∪ r0 else r0)
                         (rows (Company d)))))) →
                t' = () → sql_eq (get r "id") (SInt z) = true → get r k = SNull) as Hmain.
  { intros _ Hr _ Hid. cbn [set_tbl Company set_rows rows] in Hr.
    apply list_elem_of_In, in_map_iff in Hr as (r0 & <- & _).
    destruct (sql_eq (get r0 "id") (SInt z)) eqn:E; [|congruence].
    unfold get. by rewrite (lookup_union_Some_l _ _ _ _ Hsets). }
  destruct (map _ (List.filter _ _)); cbn [fst snd status res_message res_json];
    intros Hok Hr Hid; [discriminate|]. by apply (Hmain ()).
Qed.

Lemma company_role_frame (c c' : conn) (roleValue : string) :
  company_role fault c = (Ok (inr roleValue), c') → Company (store c') = Company (store c).
Proof.
  unfold company_role.
  intros (enumValues & c1 & (d1 & [= _ <-] & Hs1 & _)%query_ok & H)%bind_ok.
  destruct (negb (bool_decide (enumValues = []))); [|injection H as _ <-; by rewrite Hs1].
  destruct (negb (has _ _)); [|injection H as _ <-; by rewrite Hs1].
  apply bind_ok in H as (typeName & c2 & (d2 & [= _ <-] & Hs2 & _)%query_ok & H).
  destruct typeName as [typeName|].
  - destruct (_ && _).
    + apply bind_ok in H as ([] & c3 & (d3 & [= <-] & Hs3 & _)%query_ok & H).
      apply bind_ok in H as (? & c4 & (d4 & [= _ <-] & Hs4 & _)%query_ok & H).
      injection H as _ <-. rewrite Hs4, Hs3. cbn [alter_type_add_value set_enums Company].
      by rewrite Hs2, Hs1.
    + by apply bind_ok in H as (? & ? & _ & [=]).
  - by apply bind_ok in H as (? & ? & _ & [=]).
Qed.

Lemma company_user_frame (now : Z) (b : body) (company : row) (c c' : conn) :
  company_user bcrypt_hash fault now b company c = (Ok None, c') →
  Company (store c') = Company (store c).
Proof.
  unfold company_user.
  destruct (_ && _); [|by intros [= <-]].
  intros (userColumns & c1 & (_ & Hs1 & _)%pool_read_ok & H)%bind_ok.
  destruct (forallb _ _); [|injection H as <-; by rewrite Hs1].
  apply bind_ok in H as ([r|roleValue] & c2 & Hrole & H); [done|].
  apply company_role_frame in Hrole.
  apply bind_ok in H as (existing & c3 & (d3 & Hq3 & Hs3 & _)%query_ok & H).
  destruct (q_existing_user _ _) as [e|] eqn:He; cbn [mbind result_bind] in Hq3; [|done].
  injection Hq3 as <- <-.
  destruct e as [e|].
  - by apply bind_ok in H as (? & ? & _ & [=]).
  - apply bind_ok in H as ([] & c4 & (d4 & Hq4 & Hs4 & _)%query_ok & [= <-]).
    unfold q_insert_user in Hq4.
    destruct (sql_insert _ _ _) as [[u t]|]; cbn [mbind result_bind] in Hq4; [|done].
    injection Hq4 as <-. rewrite Hs4. cbn [set_tbl Company]. by rewrite Hs3, Hrole, Hs1.
Qed.

(** What a create that answers 200 has stored in "Company". *)
Lemma create_company_success (now : Z) (d : db) (b : body) :
  status (create_company bcrypt_hash fault now d b).1 = 200%nat →
  let named := company_insert_named now (colnames (Company d)) b in
  truthy (field b "name") = true
  ∧ has_cols (Company d) named.*1 = true
  ∧ NoDup named.*1
  ∧ rows (Company (store (create_company bcrypt_hash fault now d b).2))
    = rows (Company d) ++ [new_row now (Company d) named].
Proof.
  unfold create_company.
  destruct (truthy (field b "name")) eqn:Hname; [|discriminate].
  destruct (negb (is_string (field b "name"))); [discriminate|]. cbn [negb orb].
  unfold run_transaction.
  destruct (create_company_body _ _ _ _ _) as [[r|e] cf] eqn:Hrun; [|discriminate].
  cbn [fst snd]. intros Hok. unfold create_company_body in Hrun.
  apply bind_ok in Hrun as (? & c1 & (Hs1 & _ & Hv1)%(BEGIN_ok fault) & Hrun).
  apply bind_ok in Hrun as (cols & c2 & (Hcols & Hs2 & _ & Hv2)%pool_read_ok & Hrun).
  unfold committed in Hcols. rewrite Hv1 in Hcols. cbn in Hcols. injection Hcols as <-.
  apply bind_ok in Hrun as (company & c3 & (d3 & Hq3 & Hs3 & _)%query_ok & Hrun).
  rewrite Hs2, Hs1 in Hq3. cbn [store] in Hq3. unfold q_insert_company in Hq3.
  destruct (sql_insert _ _ _) as [[r0 t]|] eqn:Hins; cbn [mbind result_bind] in Hq3; [|done].
  injection Hq3 as <- <-.
  apply sql_insert_rows in Hins as (Hrows & -> & _ & Hhas & Hnd).
  apply bind_ok in Hrun as ([early|] & c4 & Huser & Hrun).
  { injection Hrun as <- <-. revert Hok Huser. unfold company_user.
    destruct (_ && _); [|done].
    intros Hok (? & ? & _ & H)%bind_ok.
    destruct (forallb _ _); [|done].
    apply bind_ok in H as ([r'|rv] & ? & Hrole & H).
    - injection H as <- <-. revert Hrole. unfold company_role.
      intros (ev & ? & _ & H)%bind_ok.
      destruct (negb (bool_decide (ev = []))); [|done].
      destruct (negb (has _ _)); [|done].
      apply bind_ok in H as ([tn|] & ? & _ & H).
      + destruct (_ && _).
        * by apply bind_ok in H as (? & ? & _ & (? & ? & _ & [=])%bind_ok).
        * apply bind_ok in H as (? & ? & _ & [= <- <-]). done.
      + apply bind_ok in H as (? & ? & _ & [= <- <-]). done.
    - apply bind_ok in H as ([ex|] & ? & _ & H).
      + apply bind_ok in H as (? & ? & _ & [= <- <-]). done.
      + by apply bind_ok in H as (? & ? & _ & [=]). }
  apply company_user_frame in Huser.
  apply bind_ok in Hrun as (? & c5 & (Hs5 & _)%(COMMIT_ok fault) & [= <- <-]).
  split_and!; try done.
  rewrite Hs5, Huser, Hs3. cbn [set_tbl Company]. done.
Qed.

(** C10, as amended: a company update whose id is zero or not a number is
    answered 400 with the message Invalid company id.; one whose id is a
    non-zero number and whose body names no column of the Company table is
    answered 400 with the message No fields to update.; in both cases the
    stored state is as before.  And after a successful update or create, a
    field of the company that is a column of the table and was sent as the
    empty string is stored as NULL. *)
Theorem company_fields_contract (now : Z) (d : db) (b : body) (companyId : jsnum) :
  (truthy (JNum companyId) = false →
   update_company pg_int_of_string now d companyId b
   = ({| status := 400; payload := JO [("message", JV (JStr "Invalid company id."))] |}, d))
  ∧ (truthy (JNum companyId) = true →
     (∀ k, is_Some (b !! k) → k ∉ colnames (Company d)) →
     update_company pg_int_of_string now d companyId b
     = ({| status := 400; payload := JO [("message", JV (JStr "No fields to update."))] |},
        d))
  ∧ (∀ z k r,
       companyId = Int z →
       status (update_company pg_int_of_string now d companyId b).1 = 200%nat →
       k ∈ company_fields → b !! k = Some (JStr "") → k ∈ colnames (Company d) →
       r ∈ rows (Company (update_company pg_int_of_string now d companyId b).2) →
       sql_eq (get r "id") (SInt z) = true →
       get r k = SNull)
  ∧ (∀ k,
       status (create_company bcrypt_hash fault now d b).1 = 200%nat →
       k ∈ company_fields → b !! k = Some (JStr "") → k ∈ colnames (Company d) →
       ∃ company,
         rows (Company (store (create_company bcrypt_hash fault now d b).2))
         = rows (Company d) ++ [company]
         ∧ get company k = SNull).
Proof.
  split_and!.
  - intros Hid. unfold update_company. by rewrite Hid.
  - apply update_company_no_fields.
  - intros z k r -> Hok Hk Hb Hcol Hr Hid. by eapply update_company_empty_null.
  - intros k Hok Hk Hb Hcol.
    destruct (create_company_success now d b Hok) as (Hname & Hhas & Hnd & Hrows).
    eexists. split; [exact Hrows|].
    assert (field b k = JStr "") as Hf by (unfold field; by rewrite Hb).
    assert (k ≠ "name") as Hn.
    { intros ->. rewrite Hf in Hname. done. }
    apply new_row_named; [done..|].
    unfold company_insert_named. rewrite !elem_of_app. right. left.
    apply list_elem_of_In, in_flat_map. exists k. split; [by apply list_elem_of_In|].
    rewrite (bool_decide_eq_false_2 _ Hn).
    rewrite (proj2 (has_elem _ _) Hcol). cbn [negb]. rewrite Hf.
    rewrite (bool_decide_eq_false_2 (JStr "" = JUndefined)) by done. by left.
Qed.

End CompanyFieldProperties.

(** *** Deleting a post *)

Lemma answer_ok (body : P response) (d d' : db) (r : response) :
  body d = (Ok r, d') → answer body d = (r, d').
Proof. unfold answer. by intros ->. Qed.

Lemma answer_throw (body : P response) (d d' : db) (e : string) :
  body d = (@Throw response e, d') → answer body d = (res_message 500 (error_message e), d').
Proof. unfold answer. by intros ->. Qed.

Lemma message_fkeys_target (k : fkey) :
  k ∈ message_fkeys → fk_table k = TMessage ∧ fk_target k = "Company".
Proof.
  unfold message_fkeys. intros Hk.
  apply elem_of_cons in Hk as [-> | Hk]; [done|].
  apply elem_of_cons in Hk as [-> | Hk]; [done|]. by apply elem_of_nil in Hk.
Qed.

Section ForumMoreProperties.

Context {platform : Unicode}.
Variable pg_int_of_string : string → option Z.

#[local] Set Default Proof Using "Type".

(** The foreign keys to "Post" are those of the comments' post column, and
    none leads to "Comment". *)
Lemma delete_post_run (d : db) (z : Z) :
  z ≠ 0 → int4 z = true →
  has_cols (Comment d) ["postId"] = true →
  has_cols (Post d) ["id"] = true →
  (∀ k, k ∈ fkeys d → fk_target k ≠ "Comment") →
  (∀ k, k ∈ fkeys d → fk_target k = "Post" → fk_table k = TComment ∧ fk_column k = "postId") →
  delete_post pg_int_of_string d (Int z)
  = (match List.filter (λ r : row, sql_eq (get r "id") (SInt z)) (rows (Post d)) with
     | [] => res_message 404 "Post not found."
     | _ :: _ => res_json (JO [("id", JV (JNum (Int z)))])
     end,
     delete_rows (delete_rows d TComment (λ r, sql_eq (get r "postId") (SInt z)))
                 TPost (λ r, sql_eq (get r "id") (SInt z))).
Proof.
  intros Hz Hrange Hc Hp Hnc Hpost. unfold delete_post. cbn [truthy].
  rewrite (proj2 (Z.eqb_neq z 0) Hz). cbn [negb].
  set (d1 := delete_rows d TComment (λ r, sql_eq (get r "postId") (SInt z))).
  assert (with_param pg_int_of_string (Int z) (q_delete_where TComment "postId") d
          = Ok ((), d1)) as H1.
  { unfold with_param. cbn [bind_int]. rewrite Hrange. cbn [mbind result_bind].
    unfold q_delete_where. cbn [tbl]. rewrite Hc.
    rewrite sql_delete_from_plain; [done|].
    intros k [Hk|Hk]%elem_of_app Ht.
    - apply message_fkeys_target in Hk as [_ Hk]. rewrite Hk in Ht. done.
    - by destruct (Hnc k Hk). }
  assert (with_param pg_int_of_string (Int z) q_delete_post d1
          = Ok (List.filter (λ r : row, sql_eq (get r "id") (SInt z)) (rows (Post d)),
                delete_rows d1 TPost (λ r, sql_eq (get r "id") (SInt z)))) as H2.
  { unfold with_param. cbn [bind_int]. rewrite Hrange. cbn [mbind result_bind].
    unfold q_delete_post. change (Post d1) with (Post d). rewrite Hp.
    rewrite sql_delete_from_plain; [done|].
    intros k [Hk|Hk]%elem_of_app Ht.
    - apply message_fkeys_target in Hk as [_ Hk]. rewrite Hk in Ht. done.
    - destruct (Hpost k Hk Ht) as [Hkt Hkc]. intros r. rewrite Hkt.
      rewrite tbl_delete_rows_other by done. intros [_ Hr]%elem_delete_rows.
      specialize (Hr eq_refl). cbn beta in Hr. unfold refers. rewrite Hkc.
      unfold sql_in. apply not_true_is_false. intros (v & Hv & Heq)%existsb_exists.
      apply in_map_iff in Hv as (p & <- & [_ Hpz]%filter_In).
      apply sql_eq_true in Hpz as [Hpz _]. unfold key_of in Heq. rewrite Hpz in Heq.
      congruence. }
  unfold answer, delete_post_body, mbind, P_bind, pool_write. rewrite H1, H2.
  by destruct (List.filter _ (rows (Post d))).
Qed.


(** X2: a delete whose id is zero or not a number is answered 400, and on a
    Comment table without a column spelled postId (one that spells it
    post_id, say) every delete is answered 500; in both cases nothing is
    deleted, whether or not the post exists. *)
Theorem delete_post_rejected (d : db) (postId : jsnum) :
  (truthy (JNum postId) = false →
   delete_post pg_int_of_string d postId
   = ({| status := 400; payload := JO [("message", JV (JStr "Invalid post id."))] |}, d))
  ∧ (truthy (JNum postId) = true → "postId" ∉ colnames (Comment d) →
     status (delete_post pg_int_of_string d postId).1 = 500%nat
     ∧ (delete_post pg_int_of_string d postId).2 = d).
Proof.
  split.
  - intros H. unfold delete_post. by rewrite H.
  - intros H Hno. unfold delete_post. rewrite H. cbn [negb].
    unfold answer, delete_post_body, mbind, P_bind, pool_write, with_param.
    destruct (bind_int pg_int_of_string (JNum postId)) as [p|e];
      cbn [mbind result_bind]; [|done].
    unfold q_delete_where, has_cols. cbn [tbl forallb].
    assert (has (colnames (Comment d)) "postId" = false) as ->; [|done].
    apply not_true_is_false. by rewrite has_elem.
Qed.

(** *** Listing the comments of a post *)

Lemma filter_at_most_one {A} (k : A → sqlval) (v : sqlval) (l : list A) :
  NoDup (map k l) → (length (List.filter (λ c, sql_eq (k c) v) l) ≤ 1)%nat.
Proof.
  intros Hnd. destruct (existsb (λ c, sql_eq (k c) v) l) eqn:E.
  - destruct (filter_unique k v l Hnd E) as (c & -> & _). done.
  - rewrite filter_none; [simpl; lia|].
    intros x Hx. apply not_true_is_false. intros Hon.
    assert (existsb (λ c, sql_eq (k c) v) l = true); [|congruence].
    apply existsb_exists. exists x. split; [by apply list_elem_of_In | done].
Qed.

(** A LEFT JOIN on a key of the right side keeps every left row once. *)
Lemma left_join_unique {A B} (on : A → B → bool) (l : list A) (r : list B) :
  (∀ a, (length (List.filter (on a) r) ≤ 1)%nat) →
  left_join on l r = map (λ a, (a, head (List.filter (on a) r))) l.
Proof.
  intros H. induction l as [|a l IH]; [done|].
  cbn [map]. rewrite <- IH. unfold left_join. cbn [flat_map]. specialize (H a).
  destruct (List.filter (on a) r) as [|b [|b' m]]; cbn [map head app length] in *;
    [done | done | lia].
Qed.

Lemma join_comments_once (d : db) (j : comment_join) :
  NoDup (ids (Company d)) → NoDup (ids (User d)) →
  join_comments d j = map (λ cm, (cm, shown_company d j cm)) (rows (Comment d)).
Proof.
  intros Hc Hu. destruct j as [|column|column]; cbn [join_comments shown_company].
  - done.
  - apply left_join_unique. intros cm.
    apply (filter_at_most_one (λ c : row, get c "id")). exact Hc.
  - rewrite (left_join_unique _ (rows (Comment d))).
    2:{ intros cm. apply (filter_at_most_one (λ u : row, get u "id")). exact Hu. }
    rewrite left_join_unique.
    2:{ intros x. apply (filter_at_most_one (λ c : row, get c "id")). exact Hc. }
    by rewrite map_map, map_map.
Qed.

Lemma id_of_comment_fields (k : option string) (cm : row) (c : option row) :
  id_of (comment_fields k cm c) = get cm "id".
Proof. reflexivity. Qed.

Lemma createdAt_of_comment_fields (k : string) (cm : row) (c : option row) :
  createdAt_of (comment_fields (Some k) cm c) = get cm k.
Proof. reflexivity. Qed.

Lemma q_comments_once (d : db) (pc : string) (k : option string) (j : comment_join) (p : sqlval) :
  has_cols (Comment d) (["id"; "content"; pc] ++ option_list k) = true →
  join_columns d j = true →
  NoDup (ids (Company d)) → NoDup (ids (User d)) →
  ∃ rs, q_comments d pc k j p = Ok rs
        ∧ rs ≡ₚ map (λ cm, comment_fields k cm (shown_company d j cm))
                    (List.filter (λ cm : row, sql_eq (get cm pc) p) (rows (Comment d)))
        ∧ Sorted (asc (comment_order_of k)) rs.
Proof.
  intros Hcols Hj Hc Hu. unfold q_comments. rewrite Hcols, Hj. cbn [andb].
  eexists. split; [reflexivity|]. rewrite join_comments_once by done. split.
  - rewrite filter_map_comm. cbn [fst].
    unfold order_by_asc. rewrite <- !fmap_is_map. rewrite merge_sort_Permutation.
    by rewrite <- list_fmap_compose.
  - apply (Sorted_map_key (asc (comment_order k))); [|apply order_by_asc_sorted].
    intros x y. unfold asc, comment_order, comment_order_of. by destruct k.
Qed.

Lemma comment_join_columns (d : db) (cc uc ac : option string) :
  (∀ c, cc = Some c → c ∈ colnames (Comment d)) →
  (∀ c, uc = Some c → c ∈ colnames (Comment d)) →
  (∀ c, ac = Some c → c ∈ colnames (Comment d)) →
  has_cols (Company d) ["id"; "name"] = true →
  has_cols (User d) ["id"; "companyId"] = true →
  join_columns d (comment_join_of d cc uc ac) = true.
Proof.
  intros Hcc Huc Hac Hco Hus.
  assert (∀ c, c ∈ colnames (Comment d) → has_cols (Comment d) [c] = true) as Hone.
  { intros c Hin. unfold has_cols. cbn [forallb]. by rewrite (proj2 (has_elem _ _) Hin). }
  unfold comment_join_of, quoteIdentifier.
  destruct cc as [c|]; [cbn [join_columns]; by rewrite Hone, Hco by auto|].
  destruct uc as [c|]; [cbn [join_columns]; by rewrite Hone, Hco, Hus by auto|].
  destruct ac as [c|]; [|done].
  destruct (getForeignKeyTarget d TComment c) as [t|];
    [destruct (truthy (JStr t) && bool_decide (toLowerCase t = "user"))|];
    cbn [join_columns]; by rewrite Hone, ?Hco, ?Hus by auto.
Qed.

(** X3: on a Comment table with a post column, for a post id that is a
    non-zero number and fits an INTEGER, the listing answers 200 with exactly the comments of
    that post, each one once, whether or not a company is found for it, and
    sorted ascending by the time of creation (by id when the table has no
    such column).  Primary keys of companies and users are distinct. *)
Theorem list_comments_each_once (d : db) (z : Z) (pc : string) :
  z ≠ 0 → int4 z = true →
  comment_post_column d = Some pc →
  has_cols (Comment d) ["id"; "content"] = true →
  has_cols (Company d) ["id"; "name"] = true →
  has_cols (User d) ["id"; "companyId"] = true →
  NoDup (ids (Company d)) → NoDup (ids (User d)) →
  ∃ rs,
    list_comments pg_int_of_string d (Int z)
    = {| status := 200; payload := JA (map json_of_fields rs) |}
    ∧ rs ≡ₚ map (λ cm, comment_fields (comment_created_column d) cm
                         (shown_company d (comment_join_on d) cm))
                (List.filter (λ cm : row, sql_eq (get cm pc) (SInt z)) (rows (Comment d)))
    ∧ map id_of rs
      ≡ₚ map (λ cm : row, get cm "id")
             (List.filter (λ cm : row, sql_eq (get cm pc) (SInt z)) (rows (Comment d)))
    ∧ Sorted (asc (comment_order_of (comment_created_column d))) rs.
Proof.
  intros Hz Hrange Hpc Hcm Hco Hus Hc Hu.
  unfold list_comments. cbn [truthy]. rewrite (proj2 (Z.eqb_neq z 0) Hz). cbn [negb].
  unfold list_comments_try. fold (comment_post_column d). rewrite Hpc.
  cbn [bind_int]. rewrite Hrange. cbn [mbind result_bind]. change (quoteIdentifier pc) with pc.
  fold (comment_created_column d) (comment_company_column d) (comment_user_column d)
       (comment_generic_column d).
  fold (comment_join_on d).
  assert (quoteIdentifier <$> comment_created_column d = comment_created_column d) as ->
    by (by destruct (comment_created_column d)).
  assert (∀ cands c, resolveColumn (getTableColumns d TComment) cands = Some c
                     → c ∈ colnames (Comment d)) as Hres.
  { intros cands c H. by apply resolveColumn_Some in H as [H _]. }
  destruct (q_comments_once d pc (comment_created_column d) (comment_join_on d) (SInt z))
    as (rs & Hq & Hperm & Hsorted); [| |done|done|].
  - rewrite has_cols_app. apply andb_true_intro. split.
    + unfold has_cols in *. cbn [forallb] in *. rewrite !andb_true_r in *.
      apply andb_true_iff in Hcm as [-> Hcm]. rewrite Hcm. cbn [andb].
      apply has_elem. by eapply Hres.
    + destruct (comment_created_column d) as [k|] eqn:Ek; cbn [option_list]; [|done].
      unfold has_cols. cbn [forallb]. rewrite andb_true_r. apply has_elem. by eapply Hres.
  - apply comment_join_columns; try done; intros c Hc'; by eapply Hres.
  - rewrite Hq. exists rs. split_and!; [done|done| |done].
    rewrite <- !fmap_is_map, Hperm, <- list_fmap_compose. done.
Qed.

(** X4: the listing looks for the company of a comment through the column
    that posting a comment fills: the company column, else the user column,
    else the generic author column; and it goes through the user's company
    exactly when posting stores the user's id. *)
Theorem comment_join_matches_author (d : db) (cc uc ac : option string) (company user : jsval) :
  comment_author d cc uc ac company user
  = match comment_join_of d cc uc ac with
    | NoJoin => (None, JNull)
    | JoinCompany c => (Some c, company)
    | JoinUser c => (Some c, user)
    end.
Proof.
  unfold comment_author, comment_join_of, quoteIdentifier.
  destruct cc, uc, ac; try done.
  destruct (getForeignKeyTarget _ _ _); [|done]. by destruct (_ && _).
Qed.

End ForumMoreProperties.

(** *** The summary and the messages of the administration *)

Section AdminProperties.

Variable toLocaleString : jsval → string.

#[local] Set Default Proof Using "Type".

(** X5: the summary answers 200 with the four counts, at most four recent
    posts and at most five entries of activity.  The recent posts are posts
    with their authoring company, and a post that is left out is not newer
    than one that is shown; the same holds for the activity, drawn from the
    comments that have both an authoring company and a post. *)
Theorem admin_summary_newest (d : db) :
  has_cols (Post d) ["id"; "title"; "createdAt"; "authorId"] = true →
  has_cols (Company d) ["id"; "name"] = true →
  has_cols (Comment d) ["content"; "createdAt"; "authorId"; "postId"] = true →
  ∃ posts activity,
    admin_summary toLocaleString d
    = {| status := 200;
         payload :=
           JO [("stats",
                JO [("users", JV (JNum (Int (Z.of_nat (length (rows (User d)))))));
                    ("companies", JV (JNum (Int (Z.of_nat (length (rows (Company d)))))));
                    ("posts", JV (JNum (Int (Z.of_nat (length (rows (Post d)))))));
                    ("comments", JV (JNum (Int (Z.of_nat (length (rows (Comment d)))))))]);
               ("activity", JA (map (activity_entry toLocaleString) activity));
               ("recentPosts", JA (map recent_post_entry posts))] |}
    ∧ (length posts ≤ 4)%nat ∧ (length activity ≤ 5)%nat
    ∧ (∀ x, x ∈ posts → x ∈ authored_posts d)
    ∧ (∀ x y, x ∈ posts → y ∈ authored_posts d → y ∉ posts →
              sql_le (get y.1 "createdAt") (get x.1 "createdAt") = true)
    ∧ (∀ x, x ∈ activity → x ∈ comments_with_author_and_post d)
    ∧ (∀ x y, x ∈ activity → y ∈ comments_with_author_and_post d → y ∉ activity →
              sql_le (get y.1.1 "createdAt") (get x.1.1 "createdAt") = true).
Proof.
  intros Hp Hc Hm. unfold admin_summary, q_recent_posts, q_activity.
  assert (has_cols (Post d) ["id"; "title"] = true) as Hp'.
  { unfold has_cols in *. cbn [forallb] in *. rewrite !andb_true_iff in *. tauto. }
  rewrite Hp, Hc, Hm, Hp'. cbn [andb mbind result_bind].
  fold (authored_posts d).
  eexists _, _. split; [reflexivity|].
  split_and!.
  - apply limit_length.
  - apply limit_length.
  - intros x Hx. apply limit_elem in Hx. by apply order_by_desc_elem in Hx.
  - intros x y Hx Hy Hny.
    by apply (limit_desc_newest (λ x : row * row, get x.1 "createdAt") 4 (authored_posts d)).
  - intros x Hx. apply limit_elem in Hx. by apply order_by_desc_elem in Hx.
  - intros x y Hx Hy Hny.
    by apply (limit_desc_newest (λ x : row * row * row, get x.1.1 "createdAt") 5
                                (comments_with_author_and_post d)).
Qed.

End AdminProperties.

(** X6: the administration's message list answers 200 with at most twenty
    comments, newest first, each with the name of its authoring company and
    the title of its post; comments without such a company or post are not
    shown, and a comment that is left out is not newer than one that is
    shown. *)
Theorem admin_messages_newest (d : db) :
  has_cols (Comment d) ["id"; "content"; "createdAt"; "authorId"; "postId"] = true →
  has_cols (Company d) ["id"; "name"] = true →
  has_cols (Post d) ["id"; "title"] = true →
  ∃ shown,
    admin_messages d
    = {| status := 200;
         payload := JA (map (λ x, json_of_fields (admin_message_entry x)) shown) |}
    ∧ (length shown ≤ 20)%nat
    ∧ Sorted (desc (λ x : row * row * row, get x.1.1 "createdAt")) shown
    ∧ (∀ cm co p, (cm, co, p) ∈ shown →
                  cm ∈ rows (Comment d) ∧ co ∈ rows (Company d) ∧ p ∈ rows (Post d)
                  ∧ sql_eq (get co "id") (get cm "authorId") = true
                  ∧ sql_eq (get p "id") (get cm "postId") = true)
    ∧ (∀ x y, x ∈ shown → y ∈ comments_with_author_and_post d → y ∉ shown →
              sql_le (get y.1.1 "createdAt") (get x.1.1 "createdAt") = true)
    ∧ ((length (comments_with_author_and_post d) ≤ 20)%nat →
       shown ≡ₚ comments_with_author_and_post d).
Proof.
  intros Hm Hc Hp. unfold admin_messages, q_admin_messages.
  rewrite Hm, Hc, Hp. cbn [andb].
  eexists. split; [reflexivity|]. split_and!.
  - apply limit_length.
  - apply Sorted_take, order_by_desc_sorted.
  - intros cm co p Hx.
    apply limit_elem in Hx. apply order_by_desc_elem in Hx.
    unfold comments_with_author_and_post in Hx.
    apply inner_join_elem in Hx as (Hx & Hpin & Hon2). cbn [fst] in Hon2.
    apply inner_join_elem in Hx as (Hcm & Hco & Hon1). tauto.
  - intros x y Hx Hy Hny.
    by apply (limit_desc_newest (λ x : row * row * row, get x.1.1 "createdAt") 20
                                (comments_with_author_and_post d)).
  - intros Hlen. rewrite limit_all.
    + unfold order_by_desc. apply merge_sort_Permutation.
    + unfold order_by_desc. by rewrite merge_sort_Permutation.
Qed.

(** *** The listings of the administration *)

Lemma sql_min_null {A} (x : A → sqlval) (l : list A) :
  sql_min x l = SNull ↔ ∀ a, a ∈ l → x a = SNull.
Proof.
  unfold sql_min. induction l as [|a l IH]; cbn [foldr].
  - split; [by intros _ ? ?%elem_of_nil | done].
  - set (m := foldr _ SNull l) in *. split.
    + intros H b Hb. apply elem_of_cons in Hb as [Hb | Hb].
      * subst b. destruct (sql_le (x a) m) eqn:E; [done|]. rewrite H in E.
        by destruct (x a).
      * apply IH; [|done]. destruct (sql_le (x a) m) eqn:E; [|done].
        rewrite H in E. by destruct m.
    + intros H. assert (m = SNull) as -> by (apply IH; intros b Hb; apply H; by right).
      rewrite (H a) by left. done.
Qed.

Lemma sql_min_elem {A} (x : A → sqlval) (l : list A) :
  sql_min x l ≠ SNull → ∃ a, a ∈ l ∧ x a = sql_min x l.
Proof.
  unfold sql_min. induction l as [|a l IH]; cbn [foldr]; [done|].
  set (m := foldr _ SNull l) in *.
  destruct (sql_le (x a) m) eqn:E.
  - intros _. exists a. split; [by left | done].
  - intros H. destruct (IH H) as (b & Hb & Hx). exists b. split; [by right | done].
Qed.

(** A company as the administration lists it. *)
Lemma q_admin_companies_eq (d : db) :
  has_cols (Company d) ["id"; "name"] = true →
  has_cols (User d) ["id"; "email"; "companyId"] = true →
  NoDup (ids (Company d)) →
  ∃ key,
    q_admin_companies d (has (colnames (Company d)) "industry")
      (has (colnames (Company d)) "location") (has (colnames (Company d)) "status")
      (has (colnames (Company d)) "website") (has (colnames (Company d)) "email")
      (has (colnames (Company d)) "phone") (has (colnames (Company d)) "description")
    = Ok (order_by_asc key (map (admin_listed_company d) (reverse (rows (Company d)))))
    ∧ ∀ c, key (admin_listed_company d c) = get c "name".
Proof.
  intros Hc Hu Hnd. eexists. split.
  - unfold q_admin_companies. rewrite !has_cols_app, Hc, Hu, !has_cols_push_if. cbn [andb app].
    rewrite company_groups by done.
    do 2 f_equal. rewrite <- fmap_is_map, <- fmap_reverse, !fmap_is_map, flat_map_map.
    cbn [snd]. rewrite <- flat_map_singleton. apply flat_map_ext. intros c.
    destruct (staff_block_first d c) as (o & rest & E).
    rewrite staff_block_count, staff_block_min, E. reflexivity.
  - reflexivity.
Qed.

(** X7: the administration's company listing answers 200 with one record
    per company; the record of a company carries the number of users whose
    companyId is the company's id as employees, and as admin the email of
    one of those users, null exactly when none of them has an email.
    Primary keys of companies are distinct. *)
Theorem admin_companies_staff (d : db) :
  has_cols (Company d) ["id"; "name"] = true →
  has_cols (User d) ["id"; "email"; "companyId"] = true →
  NoDup (ids (Company d)) →
  ∃ rs,
    admin_companies d = {| status := 200; payload := JA (map json_of_fields rs) |}
    ∧ map (field_of "id") rs ≡ₚ ids (Company d)
    ∧ ∀ r, r ∈ rs →
        ∃ c, c ∈ rows (Company d)
             ∧ field_of "id" r = get c "id"
             ∧ field_of "name" r = get c "name"
             ∧ field_of "employees" r = SInt (sql_count (λ u : row, get u "id") (staff d c))
             ∧ (field_of "admin" r = SNull ↔ ∀ u, u ∈ staff d c → get u "email" = SNull)
             ∧ (field_of "admin" r ≠ SNull →
                ∃ u, u ∈ staff d c ∧ get u "email" = field_of "admin" r).
Proof.
  intros Hc Hu Hnd.
  destruct (q_admin_companies_eq d Hc Hu Hnd) as (key & Hq & Hkey).
  exists (order_by_asc key (map (admin_listed_company d) (reverse (rows (Company d))))).
  assert (∀ r, r ∈ order_by_asc key (map (admin_listed_company d) (reverse (rows (Company d))))
               → ∃ c, c ∈ rows (Company d) ∧ r = admin_listed_company d c) as Hshape.
  { intros r Hr. apply order_by_asc_elem in Hr.
    apply list_elem_of_In, in_map_iff in Hr as (c & <- & Hin).
    exists c. split; [|done]. apply list_elem_of_In in Hin. by rewrite elem_of_reverse in Hin. }
  split_and!.
  - unfold admin_companies, getTableColumns. cbn [tbl]. by rewrite Hq.
  - unfold order_by_asc. rewrite <- !fmap_is_map, merge_sort_Permutation.
    rewrite <- list_fmap_compose, reverse_Permutation. done.
  - intros r Hr. destruct (Hshape r Hr) as (c & Hin & ->). exists c.
    split_and!; try done.
    + apply sql_min_null.
    + apply sql_min_elem.
Qed.

(** *** GET /api/admin/users *)

Lemma NoDup_map_key {A B} (k : A → B) (l : list A) (x y : A) :
  NoDup (map k l) → x ∈ l → y ∈ l → k x = k y → x = y.
Proof.
  induction l as [|a l IH]; cbn [map]; [by intros _ ?%elem_of_nil|].
  intros [Ha Hl]%NoDup_cons Hx Hy Hk.
  apply elem_of_cons in Hx as [Hx | Hx]; apply elem_of_cons in Hy as [Hy | Hy]; subst.
  - done.
  - exfalso. apply Ha. rewrite Hk. apply list_elem_of_In, in_map, list_elem_of_In, Hy.
  - exfalso. apply Ha. rewrite <- Hk. apply list_elem_of_In, in_map, list_elem_of_In, Hx.
  - by apply IH.
Qed.

Lemma user_groups (d : db) (h1 h2 h3 : bool) :
  NoDup (ids (User d)) → NoDup (ids (Company d)) →
  group_by (user_key h1 h2 h3)
           (left_join (λ u c : row, sql_eq (get c "id") (get u "companyId"))
                      (rows (User d)) (rows (Company d)))
  = reverse (map (λ u, (user_key h1 h2 h3 (u, employer d u), [(u, employer d u)]))
                 (rows (User d))).
Proof.
  intros Hu Hc.
  set (bs := map (λ u, (user_key h1 h2 h3 (u, employer d u), [(u, employer d u)]))
                 (rows (User d))).
  assert (left_join (λ u c : row, sql_eq (get c "id") (get u "companyId"))
                    (rows (User d)) (rows (Company d)) = concat bs.*2) as ->.
  { rewrite left_join_unique.
    - unfold bs. generalize (rows (User d)). intros l.
      induction l as [|u l IH]; [done|]. cbn [map]. rewrite IH. reflexivity.
    - intros u. apply (filter_at_most_one (λ c : row, get c "id")). exact Hc. }
  apply group_by_blocks.
  - unfold bs. rewrite fmap_is_map, map_map. cbn [fst].
    apply (NoDup_map_finer (λ u : row, get u "id")); [|exact Hu].
    intros x y. unfold user_key. cbn [fst app]. by intros [= -> _].
  - unfold bs. apply Forall_forall. intros b. rewrite list_elem_of_In, in_map_iff.
    intros (u & <- & _). cbn [fst snd]. split; [done|]. by repeat constructor.
Qed.

(** X8: the administration's user listing answers 200 with every user
    exactly once, sorted by id descending; a user's record carries the name
    of the company that its companyId names, or null when there is none, and
    null for each of name, status and lastActive that the table lacks.
    Primary keys of users and companies are distinct. *)
Theorem admin_users_each_once (d : db) :
  has_cols (User d) ["id"; "email"; "role"; "companyId"] = true →
  has_cols (Company d) ["id"; "name"] = true →
  NoDup (ids (User d)) → NoDup (ids (Company d)) →
  ∃ rs,
    admin_users d = {| status := 200; payload := JA (map json_of_fields rs) |}
    ∧ rs ≡ₚ map (admin_listed_user d) (rows (User d))
    ∧ Sorted (desc (field_of "id")) rs
    ∧ ∀ u, u ∈ rows (User d) →
        field_of "id" (admin_listed_user d u) = get u "id"
        ∧ (∀ c, c ∈ rows (Company d) → sql_eq (get c "id") (get u "companyId") = true →
                field_of "company" (admin_listed_user d u) = get c "name")
        ∧ ((∀ c, c ∈ rows (Company d) → sql_eq (get c "id") (get u "companyId") = false) →
           field_of "company" (admin_listed_user d u) = SNull)
        ∧ ∀ k, k ∈ ["name"; "status"; "lastActive"] → k ∉ colnames (User d) →
               field_of k (admin_listed_user d u) = SNull.
Proof.
  intros Hu Hc Hndu Hndc.
  exists (order_by_desc id_of (map (admin_listed_user d) (reverse (rows (User d))))).
  split_and!.
  - unfold admin_users, getTableColumns, q_admin_users. cbn [tbl].
    rewrite !has_cols_app, Hu, Hc, !has_cols_push_if. cbn [andb].
    rewrite user_groups by done. do 3 f_equal.
    rewrite <- fmap_is_map, <- fmap_reverse, !fmap_is_map, flat_map_map.
    cbn [snd]. by rewrite flat_map_singleton.
  - unfold order_by_desc. rewrite <- !fmap_is_map, merge_sort_Permutation.
    by rewrite reverse_Permutation.
  - apply order_by_desc_sorted.
  - intros u Hin. split_and!.
    + reflexivity.
    + intros c Hcin Hon. unfold admin_listed_user, admin_user_fields, field_of, employer.
      cbn [List.find fst snd bool_decide decide_rel]. 
      destruct (filter_unique (λ c : row, get c "id") (get u "companyId") (rows (Company d)))
        as (c' & -> & Hc' & Hid); [done| |].
      * apply existsb_exists. exists c. split; [by apply list_elem_of_In | done].
      * apply sql_eq_true in Hon as [Hon _]. cbn [head get_opt].
        assert (c' = c) as ->; [|done].
        apply (NoDup_map_key (λ c : row, get c "id") (rows (Company d))); [done..|].
        cbn beta. congruence.
    + intros Hno. unfold admin_listed_user, admin_user_fields, field_of, employer.
      rewrite filter_none by done. reflexivity.
    + intros k Hk Hcol.
      assert (has (colnames (User d)) k = false) as Hno.
      { apply not_true_is_false. by rewrite has_elem. }
      unfold admin_listed_user, admin_user_fields, field_of.
      repeat (apply elem_of_cons in Hk as [-> | Hk]; [by rewrite Hno|]).
      by apply elem_of_nil in Hk.
Qed.

(** *** GET /api/admin/posts *)

Lemma admin_post_groups (d : db) (h1 h2 h3 : bool) :
  NoDup (ids (Post d)) → NoDup (ids (Company d)) →
  group_by (admin_post_key h1 h2 h3)
    (left_join (λ (x : row * row) (cm : row), sql_eq (get cm "postId") (get x.1 "id"))
               (authored_posts d) (rows (Comment d)))
  = reverse (map (λ x, (admin_post_key h1 h2 h3 (x, None), comment_block d x))
                 (authored_posts d)).
Proof.
  intros Hp Hc.
  set (bs := map (λ x, (admin_post_key h1 h2 h3 (x, None), comment_block d x))
                 (authored_posts d)).
  assert (left_join (λ (x : row * row) (cm : row), sql_eq (get cm "postId") (get x.1 "id"))
                    (authored_posts d) (rows (Comment d)) = concat bs.*2) as ->.
  { unfold left_join, bs. rewrite fmap_is_map, map_map. cbn [snd].
    rewrite flat_map_concat_map. reflexivity. }
  apply group_by_blocks.
  - unfold bs. rewrite fmap_is_map, map_map. cbn [fst].
    apply (NoDup_map_finer (λ x : row * row, (get x.1 "id", get x.2 "id"))).
    + intros x y. unfold admin_post_key. cbn [fst snd app]. by intros [= -> _ _ _ ->].
    + unfold authored_posts.
      by apply (inner_join_NoDup _ (λ r : row, get r "id") (λ r : row, get r "id")).
  - unfold bs. apply Forall_forall. intros b. rewrite list_elem_of_In, in_map_iff.
    intros (x & <- & _). cbn [fst snd]. split; [apply comment_block_nonempty|].
    unfold comment_block. destruct (comments_on d x.1) as [|cm ms].
    + by constructor.
    + apply Forall_forall. intros y. rewrite list_elem_of_In, in_map_iff.
      by intros (b & <- & _).
Qed.

Lemma q_admin_posts_eq (d : db) :
  has_cols (Post d) ["id"; "title"; "createdAt"; "authorId"] = true →
  has_cols (Company d) ["name"; "id"] = true →
  has_cols (Comment d) ["id"; "postId"] = true →
  NoDup (ids (Post d)) → NoDup (ids (Company d)) →
  q_admin_posts d (has (colnames (Post d)) "category") (has (colnames (Post d)) "status")
                (has (colnames (Post d)) "views")
  = Ok (limit 12 (order_by_desc createdAt_of
                    (map (admin_listed_post d) (reverse (authored_posts d))))).
Proof.
  intros Hpc Hcc Hmc Hp Hc. unfold q_admin_posts.
  rewrite !has_cols_app, Hpc, Hcc, Hmc, !has_cols_push_if. cbn [andb].
  fold (authored_posts d). rewrite admin_post_groups by done.
  do 3 f_equal. rewrite <- fmap_is_map, <- fmap_reverse, !fmap_is_map, flat_map_map.
  cbn [snd]. rewrite <- flat_map_singleton. apply flat_map_ext. intros [p c].
  destruct (comment_block_first d (p, c)) as (o & rest & E).
  rewrite comment_block_count, E. reflexivity.
Qed.

(** X9: the administration's post listing answers 200 with at most twelve
    records, newest first; every record is a stored post joined with the
    company its authorId names, carries the number of that post's comments,
    and shows 0 views when the table has no views column; a post that is
    left out is not newer than one that is shown.  Primary keys of posts and
    companies are distinct. *)
Theorem admin_posts_newest (d : db) :
  has_cols (Post d) ["id"; "title"; "createdAt"; "authorId"] = true →
  has_cols (Company d) ["name"; "id"] = true →
  has_cols (Comment d) ["id"; "postId"] = true →
  NoDup (ids (Post d)) → NoDup (ids (Company d)) →
  ∃ rs,
    admin_posts d = {| status := 200; payload := JA (map json_of_fields rs) |}
    ∧ (length rs ≤ 12)%nat
    ∧ Sorted (desc (field_of "createdAt")) rs
    ∧ (∀ r, r ∈ rs →
         ∃ p c, p ∈ rows (Post d) ∧ c ∈ rows (Company d)
                ∧ sql_eq (get c "id") (get p "authorId") = true
                ∧ r = admin_listed_post d (p, c)
                ∧ field_of "comments" r = SInt (comments_of d p)
                ∧ ("views" ∉ colnames (Post d) → field_of "views" r = SInt 0))
    ∧ (∀ r p c, r ∈ rs → p ∈ rows (Post d) → c ∈ rows (Company d) →
                sql_eq (get c "id") (get p "authorId") = true →
                admin_listed_post d (p, c) ∉ rs →
                sql_le (get p "createdAt") (field_of "createdAt" r) = true).
Proof.
  intros Hpc Hcc Hmc Hp Hc.
  exists (limit 12 (order_by_desc createdAt_of
                      (map (admin_listed_post d) (reverse (authored_posts d))))).
  split_and!.
  - unfold admin_posts, getTableColumns. cbn [tbl]. by rewrite q_admin_posts_eq.
  - apply limit_length.
  - apply Sorted_take, order_by_desc_sorted.
  - intros r Hr. apply limit_elem in Hr. apply order_by_desc_elem in Hr.
    apply list_elem_of_In, in_map_iff in Hr as ([p c] & <- & Hin).
    apply list_elem_of_In in Hin. rewrite elem_of_reverse in Hin.
    apply inner_join_elem in Hin as (Hp' & Hc' & Hon).
    exists p, c. split_and!; try done.
    intros Hno. unfold admin_listed_post, admin_post_fields, field_of.
    assert (has (colnames (Post d)) "views" = false) as ->; [|done].
    apply not_true_is_false. by rewrite has_elem.
  - intros r p c Hr Hp' Hc' Hon Hout.
    apply (limit_desc_newest createdAt_of 12
             (map (admin_listed_post d) (reverse (authored_posts d))) r
             (admin_listed_post d (p, c))); [done| |done].
    apply list_elem_of_In, in_map_iff. exists (p, c). split; [done|].
    apply list_elem_of_In. rewrite elem_of_reverse. by apply inner_join_elem.
Qed.

(** *** The profile *)

Lemma payload_sets_elem (columns : list string) (p : member) (fields : list string)
  (k : string) (v : sqlval) :
  (k, v) ∈ payload_sets columns p fields ↔
  k ∈ fields ∧ has columns k = true ∧ payload_has p k = true
  ∧ v = bind_text (normalized (payload_field p k)).
Proof.
  unfold payload_sets. rewrite list_elem_of_In, in_flat_map. split.
  - intros (key & Hkey & Hin). apply list_elem_of_In in Hkey.
    destruct (has columns key) eqn:Hh; cbn [negb] in Hin; [|done].
    destruct (payload_has p key) eqn:Ho; cbn [negb] in Hin; [|done].
    destruct Hin as [[= <- <-]|[]]. done.
  - intros (Hk & Hh & Ho & ->). exists k. split; [by apply list_elem_of_In|].
    rewrite Hh, Ho. by left.
Qed.

Lemma payload_sets_cols (t : table) (p : member) (fields : list string) :
  has_cols t (payload_sets (colnames t) p fields).*1 = true.
Proof.
  unfold has_cols. apply forallb_forall. intros k Hk.
  apply list_elem_of_In, list_elem_of_fmap in Hk as ([k' v] & -> & Hin).
  by apply payload_sets_elem in Hin as (_ & Hh & _).
Qed.

Lemma get_updated (sets : list (string * sqlval)) (r : row) (k : string) (v : sqlval) :
  (k, v) ∈ sets → (∀ x, x ∈ sets → x.1 = k → x.2 = v) → get (updated sets r) k = v.
Proof.
  intros Hin Hall. unfold get, updated.
  erewrite lookup_union_Some_l; [done|]. apply list_to_map_first; [|done].
  by exists (k, v).
Qed.

Lemma get_not_updated (sets : list (string * sqlval)) (r : row) (k : string) :
  k ∉ sets.*1 → get (updated sets r) k = get r k.
Proof.
  intros Hk. unfold get, updated. rewrite lookup_union_r; [done|].
  by apply not_elem_of_list_to_map.
Qed.

Lemma sql_update_rows (t t' : table) (sets : list (string * sqlval)) (cond : row → bool)
  (rs : list row) :
  sql_update t sets cond = Ok (rs, t') →
  has_cols t sets.*1 = true
  ∧ rs = map (updated sets) (List.filter cond (rows t))
  ∧ t' = set_rows t (map (λ r, if cond r then updated sets r else r) (rows t)).
Proof.
  unfold sql_update. destruct (has_cols t sets.*1); [|discriminate].
  intros [= <- <-]. split_and!; [done| |done].
  induction (rows t) as [|r l IH]; cbn [List.filter]; [done|].
  destruct (cond r) eqn:E; [|exact IH]. cbn [map]. rewrite E. f_equal. exact IH.
Qed.

Section ProfileProperties.

Variable pg_int_of_string : string → option Z.

#[local] Set Default Proof Using "Type".


Lemma P_bind_unfold {A B} (m : P A) (k : A → P B) (d : db) :
  (m ≫= k) d = match m d with
               | (Ok a, d') => k a d'
               | (Throw e, d') => (Throw e, d')
               end.
Proof. reflexivity. Qed.

(** The update of the company leaves the users alone. *)
Lemma profile_company_update_frame (now : Z) (id : jsval) (p : member) (d : db) :
  User (profile_company_update pg_int_of_string now id p d).2 = User d.
Proof.
  unfold profile_company_update.
  destruct (truthy id && payload_truthy p); [|done].
  rewrite P_bind_unfold. unfold pool_select. cbn [fst snd].
  destruct (negb _); [|done].
  rewrite P_bind_unfold. unfold pool_write, q_update_profile_company.
  destruct (has_cols (Company d) ["id"; "name"]); [|done].
  destruct (bind_int pg_int_of_string id) as [v|]; cbn [mbind result_bind]; [|done].
  destruct (sql_update _ _ _) as [[rs t]|]; cbn [mbind result_bind]; done.
Qed.

Lemma profile_user_update_run (d : db) (userId : jsval) (userPayload : member) (z : Z) :
  bind_int pg_int_of_string userId = Ok (SInt z) →
  has_cols (User d) ["id"; "email"; "companyId"] = true →
  user_sets d userPayload ≠ [] →
  profile_user_update pg_int_of_string userId userPayload d
  = (Ok (Some (head (map (updated (user_sets d userPayload))
                         (List.filter (λ r : row, sql_eq (get r "id") (SInt z))
                                      (rows (User d)))))),
     set_tbl d TUser
       (set_rows (User d)
          (map (λ r : row, if sql_eq (get r "id") (SInt z)
                           then updated (user_sets d userPayload) r else r)
               (rows (User d))))).
Proof.
  intros Hid Hcols Hsets. unfold profile_user_update.
  rewrite P_bind_unfold. unfold pool_select, getTableColumns. cbn [tbl].
  fold (user_sets d userPayload).
  rewrite (bool_decide_eq_false_2 _ Hsets). cbn [negb].
  rewrite P_bind_unfold. unfold pool_write, q_update_user. rewrite Hcols, Hid.
  cbn [mbind result_bind].
  destruct (sql_update (User d) (user_sets d userPayload)
                       (λ r : row, sql_eq (get r "id") (SInt z))) as [[rs t]|e] eqn:E.
  - apply sql_update_rows in E as (_ & -> & ->). reflexivity.
  - exfalso. unfold sql_update in E. unfold user_sets in E.
    by rewrite payload_sets_cols in E.
Qed.

(** X11: after a profile update that is answered 200, every user but the
    one that userId names is as before; in that user's row each of name,
    email, phone and avatar that the payload carries and the table has is
    stored as sent, the empty string as NULL, and every other column is as
    before. *)
Theorem put_profile_user_stored (now : Z) (d : db) (userId companyId : jsval)
  (userPayload companyPayload : member) (z : Z) :
  bind_int pg_int_of_string userId = Ok (SInt z) →
  has_cols (User d) ["id"; "email"; "companyId"] = true →
  let out := put_profile pg_int_of_string now d userId companyId userPayload companyPayload in
  status out.1 = 200%nat →
  ∃ f : row → row,
    rows (User out.2) = map f (rows (User d))
    ∧ ∀ r,
        (sql_eq (get r "id") (SInt z) = false → f r = r)
        ∧ (sql_eq (get r "id") (SInt z) = true →
           (∀ k, k ∈ user_fields → k ∈ colnames (User d) → payload_has userPayload k = true →
                 get (f r) k = bind_text (normalized (payload_field userPayload k))
                 ∧ (payload_field userPayload k = JStr "" → get (f r) k = SNull))
           ∧ (∀ k, k ∉ user_fields ∨ payload_has userPayload k = false →
                   get (f r) k = get r k)).
Proof.
  intros Hid Hcols out. subst out. unfold put_profile.
  destruct (negb (truthy userId)); [discriminate|].
  unfold answer, put_profile_body. rewrite P_bind_unfold.
  destruct (decide (user_sets d userPayload = [])) as [Hnil | Hsets].
  - (* nothing to set on the user *)
    assert (profile_user_update pg_int_of_string userId userPayload d = (Ok None, d)) as ->.
    { unfold profile_user_update. rewrite P_bind_unfold. unfold pool_select, getTableColumns.
      cbn [tbl]. fold (user_sets d userPayload). rewrite Hnil. done. }
    rewrite P_bind_unfold.
    pose proof (profile_company_update_frame now (profile_resolved_company companyId None)
                  companyPayload d) as Hframe.
    destruct (profile_company_update _ _ _ _ d) as [[u|e] d2]; cbn [fst snd] in *;
      [|discriminate].
    intros _. exists (λ r, r). unfold mret, P_ret. cbn [fst snd].
    rewrite Hframe, map_id. split; [done|].
    intros r. split; [done|]. intros _. split; [|done].
    intros k Hk Hcol Hhas. exfalso.
    assert ((k, bind_text (normalized (payload_field userPayload k)))
              ∈ user_sets d userPayload) as Hin.
    { apply payload_sets_elem. split_and!; [done|by apply has_elem|done|done]. }
    rewrite Hnil in Hin. by apply elem_of_nil in Hin.
  - rewrite (profile_user_update_run d userId userPayload z) by done.
    rewrite P_bind_unfold.
    match goal with
    | |- context [profile_company_update _ _ ?id _ ?d1] =>
        pose proof (profile_company_update_frame now id companyPayload d1) as Hframe;
        destruct (profile_company_update pg_int_of_string now id companyPayload d1)
          as [[u|e] d2]
    end; cbn [fst snd] in *; [|discriminate].
    intros _.
    exists (λ r : row, if sql_eq (get r "id") (SInt z)
                       then updated (user_sets d userPayload) r else r).
    split; [unfold mret, P_ret; cbn [fst snd]; by rewrite Hframe|].
    intros r. split; [by intros ->|]. intros ->. split.
    + intros k Hk Hcol Hhas.
      assert (get (updated (user_sets d userPayload) r) k
              = bind_text (normalized (payload_field userPayload k))) as Hget.
      { apply get_updated.
        - apply payload_sets_elem. split_and!; [done|by apply has_elem|done|done].
        - intros [k' v] (_ & _ & _ & ->)%payload_sets_elem [= ->]. done. }
      split; [done|]. intros Hempty. by rewrite Hget, Hempty.
    + intros k Hk. apply get_not_updated. intros Hin.
      apply list_elem_of_fmap in Hin as ([k' v] & -> & Hin).
      apply payload_sets_elem in Hin as (Hf & _ & Hh & _). cbn [fst] in *.
      destruct Hk as [Hk | Hk]; [done | congruence].
Qed.

(** X12: the profile update is not atomic.  When the payload sets a column
    of the user and the statement on the company then fails because the
    database cannot read the companyId as an integer, the answer is 500 and
    the change of the user is kept. *)
Theorem put_profile_keeps_user_on_failure (now : Z) (d : db) (userId companyId : jsval)
  (userPayload companyPayload : member) (z : Z) (e : string) :
  truthy userId = true →
  bind_int pg_int_of_string userId = Ok (SInt z) →
  has_cols (User d) ["id"; "email"; "companyId"] = true →
  has_cols (Company d) ["id"; "name"] = true →
  user_sets d userPayload ≠ [] →
  truthy companyId = true →
  bind_int pg_int_of_string companyId = Throw e →
  payload_sets (colnames (Company d)) companyPayload profile_company_keys ≠ [] →
  let out := put_profile pg_int_of_string now d userId companyId userPayload companyPayload in
  status out.1 = 500%nat
  ∧ rows (User out.2)
    = map (λ r : row, if sql_eq (get r "id") (SInt z)
                      then updated (user_sets d userPayload) r else r)
          (rows (User d))
  ∧ Company out.2 = Company d.
Proof.
  intros Hu Hid Hucols Hccols Hsets Hc Hcid Hcsets out. subst out.
  unfold put_profile. rewrite Hu. cbn [negb].
  unfold answer, put_profile_body. rewrite P_bind_unfold.
  rewrite (profile_user_update_run d userId userPayload z) by done.
  rewrite P_bind_unfold.
  assert (payload_truthy companyPayload = true) as Hp.
  { destruct companyPayload as [v|b]; [|done]. exfalso. apply Hcsets.
    apply elem_of_nil_inv. intros [k v'] (_ & _ & Hh & _)%payload_sets_elem. done. }
  unfold profile_resolved_company, js_or. rewrite Hc.
  unfold profile_company_update. rewrite Hc, Hp. cbn [andb].
  rewrite P_bind_unfold. unfold pool_select, getTableColumns. cbn [tbl set_tbl Company].
  rewrite (bool_decide_eq_false_2 _ Hcsets). cbn [negb].
  rewrite P_bind_unfold. unfold pool_write, q_update_profile_company.
  cbn [set_tbl Company]. rewrite Hccols, Hcid. cbn [mbind result_bind fst snd].
  done.
Qed.

End ProfileProperties.

(** *** The notification settings *)

Section SettingsProperties.

Context {platform : Unicode}.
Variable pg_int_of_string : string → option Z.
Variable jsonb_param : json → result json.

#[local] Set Default Proof Using "Type".

(** X13: what a notification update answers with status 200 is what a
    later read for the same user answers, whatever was stored before; the
    settings of the other users and the tables are untouched.  The user id
    is read by the database as a number other than zero. *)
Theorem notifications_round_trip (now : Z) (s : installation) (userId : jsval)
  (notifications : json) (z : Z) :
  bind_int pg_int_of_string userId = Ok (SInt z) →
  z ≠ 0 →
  let out := put_notifications pg_int_of_string jsonb_param now s userId notifications in
  status out.1 = 200%nat →
  get_notifications pg_int_of_string out.2 (Int z) = out.1
  ∧ (∀ z', z' ≠ z → UserSettings out.2 !! z' = UserSettings s !! z')
  ∧ tables out.2 = tables s.
Proof.
  intros Hid Hz out. subst out. unfold put_notifications.
  pose proof (bind_int_range _ _ _ Hid) as Hrange.
  destruct (negb (truthy userId)); [discriminate|].
  unfold q_upsert_notifications. rewrite Hid. cbn [mbind result_bind].
  destruct (jsonb_param (notifications_payload notifications)) as [stored|e];
    cbn [mbind result_bind]; [|discriminate].
  destruct (references_user (tables s) (SInt z)); [|discriminate].
  intros _. cbn [fst snd UserSettings tables]. split_and!.
  - unfold get_notifications. cbn [truthy]. rewrite (proj2 (Z.eqb_neq z 0) Hz).
    cbn [negb bind_int]. rewrite Hrange. cbn [q_notifications UserSettings].
    by rewrite lookup_insert_eq.
  - intros z' Hne. by rewrite lookup_insert_ne.
  - done.
Qed.

(** X14: a read for a user without stored settings, whose id fits an
    INTEGER, answers an empty object, and a read for an id that does not fit
    one is answered 500; an update for an id that names no user is refused by
    the foreign key, answered 500, and stores nothing; and notifications that
    are not an object are stored as the empty object. *)
Theorem notifications_edges (now : Z) (s : installation) (userId : jsval) (z : Z) :
  (z ≠ 0 → int4 z = true → UserSettings s !! z = None →
   get_notifications pg_int_of_string s (Int z)
   = {| status := 200; payload := JO [("notifications", JO [])] |})
  ∧ (z ≠ 0 → int4 z = false →
     status (get_notifications pg_int_of_string s (Int z)) = 500%nat)
  ∧ (truthy userId = true →
     bind_int pg_int_of_string userId = Ok (SInt z) →
     (∀ u, u ∈ rows (User (tables s)) → get u "id" ≠ SInt z) →
     ∀ notifications,
       status (put_notifications pg_int_of_string jsonb_param now s userId notifications).1
       = 500%nat
       ∧ (put_notifications pg_int_of_string jsonb_param now s userId notifications).2 = s)
  ∧ (∀ v, v ≠ JObj →
          put_notifications pg_int_of_string jsonb_param now s userId (JV v)
          = put_notifications pg_int_of_string jsonb_param now s userId (JO [])).
Proof.
  split_and!.
  - intros Hz Hrange Hnone. unfold get_notifications. cbn [truthy].
    rewrite (proj2 (Z.eqb_neq z 0) Hz). cbn [negb bind_int]. rewrite Hrange.
    cbn [q_notifications]. by rewrite Hnone.
  - intros Hz Hrange. unfold get_notifications. cbn [truthy].
    rewrite (proj2 (Z.eqb_neq z 0) Hz). cbn [negb bind_int]. by rewrite Hrange.
  - intros Hu Hid Hno notifications. unfold put_notifications. rewrite Hu. cbn [negb].
    unfold q_upsert_notifications. rewrite Hid. cbn [mbind result_bind].
    destruct (jsonb_param _) as [stored|e]; cbn [mbind result_bind]; [|done].
    assert (references_user (tables s) (SInt z) = false) as ->; [|done].
    unfold references_user. apply not_true_is_false. intros H.
    apply existsb_exists in H as (u & Hin & Heq). apply sql_eq_true in Heq as [Heq _].
    apply (Hno u); [by apply list_elem_of_In | done].
  - intros v Hv. unfold put_notifications. by destruct v.
Qed.

End SettingsProperties.

(** *** The administrator's company *)

Section AdminCompanyProperties.

Context {platform : Unicode}.

#[local] Set Default Proof Using "Type".

Lemma find_lower_name (l : list row) (r : row) :
  List.find (λ r : row, sql_eq (sql_lower (get r "name")) (sql_lower (SText "Admin"))) l = Some r →
  r ∈ l ∧ sql_lower (get r "name") = SText "admin".
Proof.
  intros H. apply find_some_elem in H as [Hin Heq]. split; [done|].
  by apply sql_eq_true in Heq as [Heq _].
Qed.

Lemma admin_company_named_ok (now : Z) (d : db) :
  has (colnames (Company d)) "name" = true →
  has_cols (Company d) (admin_company_named now d).*1 = true
  ∧ NoDup (admin_company_named now d).*1
  ∧ ("name", SText "Admin") ∈ admin_company_named now d.
Proof.
  intros Hname. unfold admin_company_named, has_cols.
  destruct (has (colnames (Company d)) "updatedAt") eqn:E1;
    [|destruct (has (colnames (Company d)) "updated_at") eqn:E2];
    cbn [app fmap list_fmap fst forallb]; rewrite ?Hname, ?E1, ?E2; cbn [andb];
    (split_and!; [done | | by left]);
    repeat (apply NoDup_cons; split;
            [rewrite ?elem_of_cons, elem_of_nil; intros H; by repeat destruct H as [H|H]|]);
    apply NoDup_nil_2.
Qed.

Lemma ensureAdminCompany_run (now : Z) (d : db) :
  has_cols (Company d) ["id"; "name"] = true →
  ensureAdminCompany now d
  = (Ok (),
     match List.find (λ r : row, sql_eq (sql_lower (get r "name")) (sql_lower (SText "Admin")))
                     (rows (Company d)) with
     | Some _ => d
     | None =>
         set_tbl d TCompany
           {| cols := cols (Company d);
              rows := rows (Company d) ++ [new_row now (Company d) (admin_company_named now d)];
              serial := if draws_serial (Company d) (admin_company_named now d)
                        then serial (Company d) + 1 else serial (Company d) |}
     end).
Proof.
  intros Hcols.
  assert (has (colnames (Company d)) "name" = true) as Hname.
  { unfold has_cols in Hcols. cbn [forallb] in Hcols. rewrite !andb_true_iff in Hcols. tauto. }
  unfold ensureAdminCompany. rewrite P_bind_unfold.
  unfold pool_select at 1. unfold getTableColumns. cbn [tbl]. rewrite Hname. cbn [negb].
  rewrite P_bind_unfold. unfold pool_select, q_company_named. rewrite Hcols.
  destruct (List.find _ (rows (Company d))) as [x|] eqn:E; [done|].
  unfold pool_write. fold (admin_company_named now d).
  destruct (admin_company_named_ok now d Hname) as (Hhas & Hnd & _).
  unfold sql_insert. rewrite Hhas, (bool_decide_eq_true_2 _ Hnd). reflexivity.
Qed.

(** X15: on a Company table with id and name columns, ensuring the
    administrator's company succeeds and leaves a company whose name is
    admin up to case; it adds at most one row, none when such a company
    exists already, touches no other table, and running it again changes
    nothing. *)
Theorem ensureAdminCompany_idempotent (now : Z) (d : db) :
  has_cols (Company d) ["id"; "name"] = true →
  ∃ d1,
    ensureAdminCompany now d = (Ok (), d1)
    ∧ has_admin_company d1
    ∧ (has_admin_company d → d1 = d)
    ∧ (rows (Company d1) = rows (Company d) ∨ ∃ r, rows (Company d1) = rows (Company d) ++ [r])
    ∧ User d1 = User d ∧ Post d1 = Post d ∧ Comment d1 = Comment d ∧ Message d1 = Message d
    ∧ ∀ now', ensureAdminCompany now' d1 = (Ok (), d1).
Proof.
  intros Hcols.
  assert (has (colnames (Company d)) "name" = true) as Hname.
  { unfold has_cols in Hcols. cbn [forallb] in Hcols. rewrite !andb_true_iff in Hcols. tauto. }
  assert (∀ d', cols (Company d') = cols (Company d) → has_admin_company d' →
                ∀ now', ensureAdminCompany now' d' = (Ok (), d')) as Hagain.
  { intros d' Hsame (r & Hin & Hr) now'. rewrite ensureAdminCompany_run.
    - destruct (List.find _ (rows (Company d'))) as [x|] eqn:E; [done|].
      exfalso.
      assert (sql_eq (sql_lower (get r "name")) (sql_lower (SText "Admin")) = true) as Hon.
      { rewrite Hr. done. }
      apply list_elem_of_In in Hin. by rewrite (find_none _ _ E r Hin) in Hon.
    - by rewrite (has_cols_same (Company d) (Company d')). }
  eexists. split; [by apply ensureAdminCompany_run|].
  destruct (List.find _ (rows (Company d))) as [x|] eqn:E.
  - apply find_lower_name in E as [Hin Hx].
    assert (has_admin_company d) as Hadm by (by exists x).
    split_and!; [done | done | by left | done.. | by apply Hagain].
  - destruct (admin_company_named_ok now d Hname) as (Hhas & Hnd & Hin).
    assert (sql_lower (get (new_row now (Company d) (admin_company_named now d)) "name")
            = SText "admin") as Hlow.
    { rewrite (new_row_named now (Company d) _ "name" (SText "Admin")); [done| |done|done].
      by apply has_elem. }
    match goal with
    | |- has_admin_company ?d1 ∧ _ => assert (has_admin_company d1) as Hadm
    end.
    { eexists. cbn [set_tbl Company rows]. split; [|exact Hlow].
      apply elem_of_app. right. by left. }
    split_and!; [done | | right; by eexists | done.. | by apply Hagain].
    intros (r & Hr & Hl). exfalso. apply list_elem_of_In in Hr.
    pose proof (find_none _ _ E r Hr) as Hno. cbn beta in Hno. by rewrite Hl in Hno.
Qed.

End AdminCompanyProperties.

(** *** Resolving a column *)

Section ColumnProperties.

Context {platform : Unicode}.

#[local] Set Default Proof Using "Type".

Lemma lowerMap_is_Some (columns : list string) (k : string) :
  (∃ c, c ∈ columns ∧ toLowerCase c = k) → is_Some (lowerMap columns !! k).
Proof. intros H. unfold lowerMap. apply lowerMap_fold_is_Some. by left. Qed.

(** X16: [resolveColumn] answers a column of the table, never the empty
    name, that spells one of the candidates up to case, and null only when
    no column does; when some column spells the first candidate, the answer
    spells the first candidate. *)
Theorem resolveColumn_contract (columns candidates : list string) :
  Forall (λ candidate, candidate ≠ "") candidates →
  match resolveColumn columns candidates with
  | Some c =>
      c ∈ columns ∧ c ≠ ""
      ∧ (∃ candidate, candidate ∈ candidates ∧ toLowerCase c = toLowerCase candidate)
      ∧ ∀ first rest, candidates = first :: rest →
          (∃ column, column ∈ columns ∧ toLowerCase column = toLowerCase first) →
          toLowerCase c = toLowerCase first
  | None =>
      ∀ c candidate, c ∈ columns → candidate ∈ candidates →
                     toLowerCase c ≠ toLowerCase candidate
  end.
Proof.
  intros Hne. destruct (resolveColumn columns candidates) as [c|] eqn:E.
  - destruct (resolveColumn_Some _ _ _ E) as (Hin & Hc & Hcand). split_and!; [done..|].
    intros first rest -> Hsome. apply lowerMap_is_Some in Hsome as [m Hm].
    unfold resolveColumn in E. cbn [resolveCandidates] in E. rewrite Hm in E.
    apply lowerMap_lookup in Hm as [_ Hlow].
    destruct (truthy (JStr m)) eqn:Ht.
    + injection E as <-. done.
    + exfalso. apply truthy_JStr_false in Ht. subst m.
      rewrite (proj2 (toLowerCase_empty "") eq_refl) in Hlow.
      symmetry in Hlow. apply (proj1 (toLowerCase_empty _)) in Hlow.
      apply Forall_cons in Hne as [Hfirst _]. done.
  - by apply resolveColumn_None.
Qed.

End ColumnProperties.

(** *** Quoting an identifier *)

Lemma read_quoted_step (a : ascii) (s : string) :
  a ≠ dquote →
  read_quoted (String a s)
  = (λ ir : string * string, (String a ir.1, ir.2)) <$> read_quoted s.
Proof. intros Hne. cbn [read_quoted]. by destruct (Ascii.eqb_spec a dquote). Qed.

Lemma read_quoted_pair (s : string) :
  read_quoted (String dquote (String dquote s))
  = (λ ir : string * string, (String dquote ir.1, ir.2)) <$> read_quoted s.
Proof. cbn [read_quoted]. by rewrite !Ascii.eqb_refl. Qed.

Lemma read_quoted_end (rest : string) :
  (∀ s, rest ≠ String dquote s) → read_quoted (String dquote rest) = Some (EmptyString, rest).
Proof.
  intros Hrest. cbn [read_quoted]. rewrite Ascii.eqb_refl.
  destruct rest as [|b rest]; [done|].
  destruct (Ascii.eqb_spec b dquote) as [-> | _]; [by destruct (Hrest rest) | done].
Qed.

Lemma read_quoted_doubled (value rest : string) :
  (∀ s, rest ≠ String dquote s) →
  read_quoted (String.append (double_quotes value) (String dquote rest)) = Some (value, rest).
Proof.
  intros Hrest. induction value as [|a value IH].
  - by apply read_quoted_end.
  - cbn [double_quotes]. destruct (Ascii.eqb_spec a dquote) as [-> | Hne].
    + change (String.append (String dquote (String dquote (double_quotes value)))
                            (String dquote rest))
        with (String dquote (String dquote
                (String.append (double_quotes value) (String dquote rest)))).
      by rewrite read_quoted_pair, IH.
    + change (String.append (String a (double_quotes value)) (String dquote rest))
        with (String a (String.append (double_quotes value) (String dquote rest))).
      by rewrite read_quoted_step, IH.
Qed.

Lemma append_assoc_quote (s rest : string) :
  String.append (String.append s (String dquote EmptyString)) rest
  = String.append s (String dquote rest).
Proof.
  induction s as [|a s IH]; [done|].
  change (String a (String.append (String.append s (String dquote EmptyString)) rest)
          = String a (String.append s (String dquote rest))).
  by rewrite IH.
Qed.

(** X17: the text that [quoteIdentifier] writes is read back by the
    database as the very name it was given, quotes inside the name
    included, and the reading stops where the statement goes on. *)
Theorem quoteIdentifier_read_back (value rest : string) :
  (∀ s, rest ≠ String dquote s) →
  read_identifier (quoteIdentifier_text value ++ rest) = Some (quoteIdentifier value, rest).
Proof.
  intros Hrest. unfold quoteIdentifier_text, quoteIdentifier.
  change (read_identifier
            (String dquote (String.append
                              (String.append (double_quotes value) (String dquote EmptyString))
                              rest)) = Some (value, rest)).
  cbn [read_identifier]. rewrite Ascii.eqb_refl, append_assoc_quote.
  by apply read_quoted_doubled.
Qed.

(** *** The authentication context of the client *)

Lemma append_cons (a : ascii) (s r : string) :
  String.append (String a s) r = String a (String.append s r).
Proof. reflexivity. Qed.

Lemma append_empty_r (s : string) : String.append s EmptyString = s.
Proof. induction s as [|a s IH]; [done|]. by rewrite append_cons, IH. Qed.

Lemma before_at_prefix (email : string) :
  ∃ rest, email = String.append (before_at email) rest.
Proof.
  induction email as [|a email [rest IH]]; [by exists EmptyString|].
  cbn [before_at]. destruct (Ascii.eqb a "@").
  - by exists (String a email).
  - exists rest. by rewrite append_cons, <- IH.
Qed.

Lemma before_at_no_at (email : string) : has_at (before_at email) = false.
Proof.
  induction email as [|a email IH]; [done|]. cbn [before_at].
  destruct (Ascii.eqb a "@") eqn:E; [done|]. cbn [has_at]. by rewrite E, IH.
Qed.

(** X18: the display name is the part of the address before the first at
    sign, so it is a prefix of the address without an at sign; only an
    address that begins with the at sign is shown whole.  It is empty only
    for the empty address. *)
Theorem getDisplayName_prefix (email : string) :
  (∃ rest, email = String.append (getDisplayName email) rest)
  ∧ (getDisplayName email = EmptyString → email = EmptyString)
  ∧ (has_at (getDisplayName email) = true →
     ∃ rest, email = String "@" rest ∧ getDisplayName email = email).
Proof.
  unfold getDisplayName. destruct (truthy (JStr (before_at email))) eqn:E.
  - split_and!.
    + apply before_at_prefix.
    + intros H. apply truthy_JStr in E. done.
    + intros H. by rewrite before_at_no_at in H.
  - apply truthy_JStr_false in E. split_and!.
    + exists EmptyString. by rewrite append_empty_r.
    + done.
    + intros H. destruct email as [|a s]; [done|]. cbn [before_at] in E.
      destruct (Ascii.eqb_spec a "@") as [-> | _]; [|done]. by exists s.
Qed.

(** X19: while the demo flag is not the word false, a login always ends
    with a user in the context and a token in the storage, whatever the
    server answered; after a failed call the user has the role company and
    the token is demo-token.  With the flag set to false a failed call is
    passed on and changes nothing. *)
Theorem client_login_demo (flag : option string) (now : Z) (email : string)
  (outcome : result login_result) (s : auth) :
  (isDemoAuthEnabled flag = true →
   (client_login flag now email outcome s).1 = Ok ()
   ∧ isAuthenticated (client_login flag now email outcome s).2 = true
   ∧ is_Some (authToken (client_login flag now email outcome s).2)
   ∧ ∀ e, outcome = Throw e →
          authToken (client_login flag now email outcome s).2 = Some "demo-token"
          ∧ cu_role <$> auth_user (client_login flag now email outcome s).2
            = Some (JStr "company"))
  ∧ (isDemoAuthEnabled flag = false →
     ∀ e, outcome = Throw e → client_login flag now email outcome s = (Throw e, s)).
Proof.
  unfold client_login. split.
  - intros Hdemo. rewrite Hdemo. cbn [negb]. destruct outcome as [r|e]; cbn [fst snd].
    + split_and!; [done | done | by eexists | discriminate].
    + split_and!; [done | done | by eexists | done].
  - intros Hdemo e ->. by rewrite Hdemo.
Qed.

Section SignIn.

Context {platform : Unicode}.
Variable bcrypt_compare : string → string → bool.

#[local] Set Default Proof Using "Type".

(** X20: the sign-in call of the client sends an email and a password and
    no role, so the server never rejects it for the role: its answer is
    never the message about an invalid role. *)
Theorem login_request_no_role (d : db) (email password : string) :
  payload (login bcrypt_compare d (login_request email password))
  ≠ JO [("message", JV (JStr "Invalid role for this account."))].
Proof.
  unfold login, login_request.
  assert (field ({[ "email" := JStr email; "password" := JStr password ]} : body) "role"
          = JUndefined) as -> by done.
  destruct (negb _ || negb _); [done|].
  unfold login_try. destruct (q_login_user d _) as [[u|]|]; cbn [mbind result_bind]; try done.
  cbn [requestedRole_of truthy andb].
  destruct (bcrypt_compare_js _ _ _) as [[|]|]; cbn [mbind result_bind negb]; done.
Qed.

End SignIn.

(** *** The messages page *)

Lemma between_other (own x y : Z) (m : DbMessage) :
  x ≠ own → y ≠ own → between own x m = true → between own y m = true → x = y.
Proof.
  unfold between. intros Hx Hy.
  rewrite !orb_true_iff, !andb_true_iff, !bool_decide_eq_true. intros H1 H2.
  destruct H1 as [[? ?] | [? ?]], H2 as [[? ?] | [? ?]]; congruence.
Qed.

Section ConversationProperties.

Variable toLocaleTimeString : string → string.
Variable toLocaleString : string → string.

#[local] Set Default Proof Using "Type".

(** X21: while the page has no company to show conversations for (the
    id is null, not a number or zero), the effect leaves the conversations
    as they are.  Otherwise the conversations are one per listed company
    other than the viewer's, each holding exactly the messages exchanged
    with that company, in the order they were listed.  No message is in two
    conversations, a message exchanged with a listed company is in its
    conversation, and a message of the company to itself is in none.  The
    ids of the listed companies are distinct. *)
Theorem conversations_partition (effectiveCompanyId : option Z)
  (companies : list listed_company) (messages : list DbMessage)
  (conversations : list conversation) :
  NoDup (map lc_id companies) →
  let convs := conversations_effect toLocaleTimeString toLocaleString effectiveCompanyId
                                    companies messages conversations in
  (effectiveCompanyId = None ∨ effectiveCompanyId = Some 0 → convs = conversations)
  ∧ ∀ own, effectiveCompanyId = Some own → own ≠ 0 →
      map cv_id convs = List.filter (λ x, negb (bool_decide (x = own))) (map lc_id companies)
      ∧ (∀ cv, cv ∈ convs →
           cv_id cv ≠ own
           ∧ cv_messages cv
             = map (shown toLocaleTimeString own) (List.filter (between own (cv_id cv)) messages))
      ∧ (∀ m cv cv', cv ∈ convs → cv' ∈ convs →
                     between own (cv_id cv) m = true → between own (cv_id cv') m = true →
                     cv = cv')
      ∧ (∀ m c, m ∈ messages → c ∈ companies → lc_id c ≠ own → between own (lc_id c) m = true →
                ∃ cv, cv ∈ convs ∧ cv_id cv = lc_id c
                      ∧ shown toLocaleTimeString own m ∈ cv_messages cv)
      ∧ (∀ m cv, cv ∈ convs → dm_senderCompanyId m = own → dm_receiverCompanyId m = own →
                 between own (cv_id cv) m = false).
Proof.
  intros Hnd convs. subst convs. split; [by intros [-> | ->]|].
  intros own -> Hown. unfold conversations_effect. cbn [truthy].
  rewrite (proj2 (Z.eqb_neq own 0) Hown). cbn [negb].
  unfold nextConversations.
  set (F := λ company : listed_company, _).
  assert (∀ cv, cv ∈ map F (List.filter (λ company, negb (bool_decide (lc_id company = own)))
                                        companies) →
                ∃ c, c ∈ companies ∧ lc_id c ≠ own ∧ cv = F c) as Hconv.
  { intros cv Hcv. apply list_elem_of_In, in_map_iff in Hcv as (c & <- & Hc).
    apply filter_In in Hc as [Hc Hne]. apply negb_true_iff, bool_decide_eq_false in Hne.
    exists c. by rewrite list_elem_of_In. }
  assert (∀ l : list DbMessage, List.filter (λ _, true) l = l) as Hall.
  { intros l. induction l as [|x l IH]; cbn [List.filter]; [done|]. by rewrite IH. }
  split_and!.
  - rewrite map_map. subst F. cbn [cv_id]. by rewrite filter_map_comm.
  - intros cv Hcv. destruct (Hconv cv Hcv) as (c & _ & Hne & ->). subst F. cbn [cv_id cv_messages].
    by rewrite Hall.
  - intros m cv cv' Hcv Hcv' Hb Hb'.
    destruct (Hconv cv Hcv) as (c & Hc & Hne & ->).
    destruct (Hconv cv' Hcv') as (c' & Hc' & Hne' & ->).
    assert (c = c') as ->; [|done].
    apply (NoDup_map_key lc_id companies); [done..|].
    subst F. cbn [cv_id] in *. by eapply between_other.
  - intros m c Hm Hc Hne Hb. exists (F c). split_and!.
    + apply list_elem_of_In, in_map, filter_In. rewrite <- list_elem_of_In. split; [done|].
      by apply negb_true_iff, bool_decide_eq_false.
    + done.
    + subst F. cbn [cv_messages]. rewrite Hall.
      apply list_elem_of_In, in_map, filter_In. by rewrite <- list_elem_of_In.
  - intros m cv Hcv Hs Hr. destruct (Hconv cv Hcv) as (c & _ & Hne & ->).
    subst F. cbn [cv_id]. unfold between. rewrite Hs, Hr.
    rewrite (bool_decide_eq_false_2 (own = lc_id c)) by congruence.
    by rewrite !andb_false_r.
Qed.

End ConversationProperties.

(** X22: a message is shown while it is being sent; if the call fails the
    list of messages is as it was before, and if it succeeds the message
    that was shown is replaced, in place, by the one the server created,
    with the names the page knows.  The id under which it was shown is not
    that of another message. *)
Theorem send_message_settles (optimisticMessage created : DbMessage) (companyName : option string)
  (receiverName : string) (prev : list DbMessage) :
  dm_id optimisticMessage ∉ map dm_id prev →
  send_failed (dm_id optimisticMessage) (send_shown optimisticMessage prev) = prev
  ∧ ∃ shown_created,
      send_created (dm_id optimisticMessage) created companyName receiverName
                   (send_shown optimisticMessage prev)
      = prev ++ [shown_created]
      ∧ dm_id shown_created = dm_id created
      ∧ dm_content shown_created = dm_content created
      ∧ dm_senderCompanyId shown_created = dm_senderCompanyId created
      ∧ dm_receiverCompanyId shown_created = dm_receiverCompanyId created
      ∧ dm_receiverName shown_created = receiverName.
Proof.
  intros Hfresh. unfold send_failed, send_created, send_shown.
  assert (∀ item, item ∈ prev → bool_decide (dm_id item = dm_id optimisticMessage) = false)
    as Hother.
  { intros item Hin. apply bool_decide_eq_false. intros Heq. apply Hfresh.
    rewrite <- Heq. apply list_elem_of_In, in_map, list_elem_of_In, Hin. }
  split.
  - rewrite List.filter_app. cbn [List.filter].
    rewrite (bool_decide_eq_true_2 (dm_id optimisticMessage = dm_id optimisticMessage)) by done.
    cbn [negb]. rewrite app_nil_r.
    induction prev as [|x l IH]; cbn [List.filter]; [done|].
    rewrite (Hother x) by left. cbn [negb]. f_equal. apply IH.
    + intros Hin. apply Hfresh. cbn [map]. by right.
    + intros item Hitem. apply Hother. by right.
  - rewrite map_app. cbn [map].
    rewrite (bool_decide_eq_true_2 (dm_id optimisticMessage = dm_id optimisticMessage)) by done.
    eexists. split.
    { f_equal. induction prev as [|x l IH]; cbn [map]; [done|].
      rewrite (Hother x) by left. f_equal. apply IH.
      - intros Hin. apply Hfresh. cbn [map]. by right.
      - intros item Hitem. apply Hother. by right. }
    split_and!; reflexivity.
Qed.

(** *** The forum page *)

(** X23: liking a post twice leaves every post as it was: the mark and the
    number of likes are back, and liking never touches a post with another
    id. *)
Theorem handleLike_twice (postId : Z) (posts : list ForumPost) :
  handleLike postId (handleLike postId posts) = posts
  ∧ ∀ post, post ∈ posts → fp_id post ≠ postId → post ∈ handleLike postId posts.
Proof.
  unfold handleLike. split.
  - rewrite map_map. rewrite <- (map_id posts) at 2. apply map_ext. intros post.
    destruct (bool_decide (fp_id post = postId)) eqn:E; cbn [fp_id]; rewrite E; [|done].
    destruct post as [i t c k l n p []]; cbn; f_equal; lia.
  - intros post Hin Hne. apply list_elem_of_In, in_map_iff. exists post.
    rewrite (bool_decide_eq_false_2 _ Hne). by rewrite <- list_elem_of_In.
Qed.

(** *** All the messages of a company *)

(** An inner join in which every left row finds exactly one partner keeps
    the left rows as they are. *)
Lemma inner_join_total {A B} (on : A → B → bool) (l : list A) (r : list B) :
  (∀ a, a ∈ l → ∃ b, List.filter (on a) r = [b]) →
  map fst (inner_join on l r) = l.
Proof.
  intros H. unfold inner_join. induction l as [|a l IH]; cbn [flat_map map]; [done|].
  rewrite map_app, IH by (intros x Hx; apply H; by right).
  destruct (H a) as [b ->]; [by left | done].
Qed.

Section MessageListProperties.

Variable pg_int_of_string : string → option Z.

#[local] Set Default Proof Using "Type".

(** X24: the message listing of a company whose id is a non-zero number
    that fits an INTEGER answers 200 with every stored message that the
    company sent or received, each exactly once and no other, oldest first,
    with the names of both companies.  Company ids are distinct and every
    message names existing companies. *)
Theorem list_messages_complete (d : db) (X : Z) :
  X ≠ 0 → int4 X = true →
  has_cols (Message d)
    ["id"; "content"; "createdAt"; "senderCompanyId"; "receiverCompanyId"] = true →
  has_cols (Company d) ["id"; "name"] = true →
  NoDup (ids (Company d)) →
  messages_reference_companies d →
  ∃ rs,
    list_messages pg_int_of_string d (Int X)
    = {| status := 200; payload := JA (map json_of_fields rs) |}
    ∧ map id_of rs ≡ₚ map (λ m : row, get m "id") (messages_of d X)
    ∧ Sorted (asc createdAt_of) rs
    ∧ ∀ r, r ∈ rs →
        ∃ m cs cr, r = message_fields m cs cr
                   ∧ m ∈ messages_of d X ∧ cs ∈ rows (Company d) ∧ cr ∈ rows (Company d)
                   ∧ get cs "id" = get m "senderCompanyId"
                   ∧ get cr "id" = get m "receiverCompanyId".
Proof.
  intros HX Hrange Hm Hc Hnd Hfk.
  unfold list_messages. cbn [truthy]. rewrite (proj2 (Z.eqb_neq X 0) HX).
  cbn [negb bind_int]. rewrite Hrange. cbn [mbind result_bind]. unfold q_messages. rewrite Hm, Hc. cbn [andb].
  set (ms := inner_join (λ m cs : row, sql_eq (get cs "id") (get m "senderCompanyId"))
                        (rows (Message d)) (rows (Company d))).
  set (msr := inner_join (λ (x : row * row) (cr : row),
                            sql_eq (get cr "id") (get x.1 "receiverCompanyId"))
                         ms (rows (Company d))).
  set (kept := List.filter _ msr).
  assert (map fst ms = rows (Message d)) as Hms.
  { apply inner_join_total. intros m Hin. destruct (Hfk m Hin) as [Hs _].
    destruct (filter_unique (λ c : row, get c "id") _ _ Hnd Hs) as (c & Hf & _). eauto. }
  assert (map fst msr = ms) as Hmsr.
  { apply inner_join_total. intros [m cs] Hin.
    apply inner_join_elem in Hin as (Hin & _ & _). destruct (Hfk m Hin) as [_ Hr].
    destruct (filter_unique (λ c : row, get c "id") _ _ Hnd Hr) as (c & Hf & _). eauto. }
  assert (map (λ x : row * row * row, x.1.1) kept = messages_of d X) as Hkept.
  { subst kept. unfold messages_of. rewrite <- Hms, <- Hmsr, map_map.
    by rewrite (filter_map_comm (λ x : row * row * row, x.1.1)). }
  eexists. split; [reflexivity|]. split_and!.
  - rewrite map_map.
    rewrite (map_ext _ (λ x : row * row * row, get x.1.1 "id")) by done.
    rewrite <- Hkept, map_map. unfold order_by_asc.
    rewrite <- !fmap_is_map. by rewrite merge_sort_Permutation.
  - apply (Sorted_map_key (asc (λ x : row * row * row, get x.1.1 "createdAt"))).
    + intros x y Hxy. unfold asc. by rewrite !createdAt_of_message_fields.
    + apply order_by_asc_sorted.
  - intros r Hr. apply list_elem_of_In, in_map_iff in Hr as ([[m cs] cr] & <- & Hin).
    apply list_elem_of_In, order_by_asc_elem in Hin.
    exists m, cs, cr. cbn [fst snd]. split; [done|].
    assert (m ∈ messages_of d X) as Hmx.
    { rewrite <- Hkept. apply list_elem_of_In, in_map_iff. exists (m, cs, cr).
      split; [done | by apply list_elem_of_In]. }
    subst kept. apply list_filter_elem in Hin as [Hin _].
    apply inner_join_elem in Hin as (Hin & Hcr & Hon2). cbn [fst] in Hon2.
    apply inner_join_elem in Hin as (_ & Hcs & Hon1).
    apply sql_eq_true in Hon1 as [Hon1 _]. apply sql_eq_true in Hon2 as [Hon2 _].
    done.
Qed.

(** X25: a message without a sender, a receiver or a content is answered
    400 and nothing is sent to the database.  One whose sender or receiver
    is a number that names no company is refused, by the foreign key or
    because the number does not fit an INTEGER, and is not answered 200;
    every table keeps its columns and rows. *)
Theorem send_message_rejected (now : Z) (d : db) (b : body) :
  (truthy (field b "senderCompanyId") = false ∨ truthy (field b "receiverCompanyId") = false
   ∨ truthy (field b "content") = false →
   send_message pg_int_of_string now d b
   = ({| status := 400;
         payload := JO [("message",
                         JV (JStr "senderCompanyId, receiverCompanyId and content are required."))]
      |}, d))
  ∧ ∀ A B,
      field b "senderCompanyId" = JNum (Int A) →
      field b "receiverCompanyId" = JNum (Int B) →
      references_company d (SInt A) = false ∨ references_company d (SInt B) = false →
      status (send_message pg_int_of_string now d b).1 ≠ 200%nat
      ∧ unchanged d (send_message pg_int_of_string now d b).2.
Proof.
  split.
  - intros H. unfold send_message.
    assert (negb (truthy (field b "senderCompanyId"))
            || negb (truthy (field b "receiverCompanyId"))
            || negb (truthy (field b "content")) = true) as ->; [|done].
    rewrite !orb_true_iff, !negb_true_iff. tauto.
  - intros A B HA HB Hno. unfold send_message. rewrite HA, HB.
    destruct (_ || _ || _); [split; [done | apply unchanged_refl]|].
    unfold q_insert_message. cbn [bind_int].
    destruct (int4 A); cbn [mbind result_bind]; [|split; [done | apply unchanged_refl]].
    destruct (int4 B); cbn [mbind result_bind]; [|split; [done | apply unchanged_refl]].
    destruct (sql_insert_returning _ _ _ _) as [[m t]|e] eqn:Hins;
      [|split; [done | apply unchanged_refl]].
    assert (cols t = cols (Message d)) as Hcols.
    { unfold sql_insert_returning, sql_insert in Hins.
      destruct (has_cols _ _); [|done]. destruct (_ && _); [|done]. by injection Hins as _ <-. }
    assert (unchanged d (set_tbl d TMessage (set_rows t (rows (Message d))))) as Hsame.
    { unfold unchanged, same_table. cbn [set_tbl User Company Post Comment Message fkeys enums
                                          set_rows cols rows]. by rewrite Hcols. }
    destruct (_ || _ || _); [done|].
    destruct (negb (fresh_key _ _)); [done|].
    assert (negb (references_company d (SInt A) && references_company d (SInt B)) = true)
      as ->; [|done].
    apply negb_true_iff, andb_false_iff. exact Hno.
Qed.

End MessageListProperties.

(** *** Editing a company from the administration page *)

Lemma update_sets_cols (t : table) (b : body) :
  has_cols t (update_sets (colnames t) b).*1 = true.
Proof.
  unfold has_cols. apply forallb_forall. intros k Hk.
  apply list_elem_of_In, list_elem_of_fmap in Hk as ([k' v] & -> & Hin).
  by apply update_sets_elem in Hin as (_ & Hh & _).
Qed.

Section AdminEditProperties.

Variable pg_int_of_string : string → option Z.

#[local] Set Default Proof Using "Type".

(** What a successful update has stored in the row of the company. *)
Lemma update_company_stored (now : Z) (d : db) (z : Z) (b : body) (c : row) :
  z ≠ 0 → int4 z = true →
  has_cols (Company d) ["id"] = true →
  c ∈ rows (Company d) → get c "id" = SInt z →
  update_sets (colnames (Company d)) b ≠ [] →
  status (update_company pg_int_of_string now d (Int z) b).1 = 200%nat
  ∧ ∀ r, r ∈ rows (Company (update_company pg_int_of_string now d (Int z) b).2) →
         get r "id" = SInt z →
         ∀ k, k ∈ company_fields → k ∈ colnames (Company d) → is_Some (b !! k) →
              get r k = bind_text (normalized (field b k)).
Proof.
  intros Hz Hrange Hid Hc Hcid Hne. unfold update_company. cbn [truthy].
  rewrite (proj2 (Z.eqb_neq z 0) Hz). cbn [negb].
  unfold update_company_try, getTableColumns. cbn [tbl].
  set (sets0 := update_sets (colnames (Company d)) b) in *.
  rewrite (bool_decide_eq_false_2 _ Hne). cbn [negb]. rewrite !andb_true_r.
  set (sets := if has (colnames (Company d)) "updatedAt"
               then sets0 ++ [("updatedAt", STime now)]
               else if has (colnames (Company d)) "updated_at"
                    then sets0 ++ [("updated_at", STime now)]
                    else sets0).
  assert (sets ≠ []) as Hne'.
  { subst sets. repeat case_match; try done; by destruct sets0. }
  rewrite (bool_decide_eq_false_2 _ Hne'). cbn [bind_int]. rewrite Hrange.
  cbn [mbind result_bind]. rewrite Hid. cbn [negb].
  assert (has_cols (Company d) sets.*1 = true) as Hcols.
  { subst sets. pose proof (update_sets_cols (Company d) b) as H0. fold sets0 in H0.
    destruct (has (colnames (Company d)) "updatedAt") eqn:E1;
      [|destruct (has (colnames (Company d)) "updated_at") eqn:E2];
      rewrite ?fmap_app, ?has_cols_app, ?H0; try done;
      unfold has_cols; cbn [fmap list_fmap fst forallb]; by rewrite ?E1, ?E2. }
  unfold sql_update. rewrite Hcols. cbn [mbind result_bind].
  assert (List.filter (λ r : row, sql_eq (get r "id") (SInt z)) (rows (Company d)) ≠ []) as Hf.
  { intros E. assert (c ∈ List.filter (λ r : row, sql_eq (get r "id") (SInt z))
                                      (rows (Company d))) as Hin.
    { apply list_filter_elem. split; [done|]. rewrite Hcid. cbn.
      by apply bool_decide_eq_true_2. }
    rewrite E in Hin. by apply elem_of_nil in Hin. }
  destruct (List.filter _ (rows (Company d))) as [|x l]; [done|]. cbn [map fst snd].
  split; [done|].
  intros r Hr Hrid k Hk Hcol Hb. cbn [set_tbl Company set_rows rows] in Hr.
  apply list_elem_of_In, in_map_iff in Hr as (r0 & <- & _).
  assert ("id" ∉ sets.*1) as Hnoid.
  { intros Hin. apply list_elem_of_fmap in Hin as ([k' v] & Hk' & Hin). cbn [fst] in Hk'.
    subst k'. subst sets.
    assert (("id", v) ∈ sets0 → False) as Hno.
    { intros (Hf' & _)%update_sets_elem. unfold company_fields in Hf'.
      repeat (apply elem_of_cons in Hf' as [Hf' | Hf']; [discriminate|]).
      by apply elem_of_nil in Hf'. }
    repeat case_match; rewrite ?elem_of_app in Hin;
      try (destruct Hin as [Hin | Hin%list_elem_of_singleton]; [|done]); by apply Hno. }
  destruct (sql_eq (get r0 "id") (SInt z)) eqn:E.
  - fold (updated sets r0). apply get_updated.
    + assert ((k, bind_text (normalized (field b k))) ∈ sets0) as Hin.
      { apply update_sets_elem. split_and!; [done | by apply has_elem | | done].
        by apply bool_decide_eq_true. }
      subst sets. repeat case_match; rewrite ?elem_of_app; auto.
    + intros [k' v] Hin [= ->]. cbn [snd]. destruct (company_field_not_stamp k Hk) as [Hn1 Hn2].
      subst sets.
      assert ((k, v) ∈ sets0 → v = bind_text (normalized (field b k))) as Hv.
      { by intros (_ & _ & _ & ->)%update_sets_elem. }
      repeat case_match; rewrite ?elem_of_app in Hin;
        try (destruct Hin as [Hin | Hin%list_elem_of_singleton]; [|congruence]); by apply Hv.
  - exfalso. rewrite Hrid in E. cbn in E. by rewrite bool_decide_eq_true_2 in E.
Qed.

Lemma prop_listed_company (d : db) (c : row) (k : string) :
  k ∈ ["industry"; "location"; "status"; "website"; "email"; "phone"; "description"] →
  prop (admin_listed_company d c) k
  = js_of_sql (select_or_null (has (colnames (Company d)) k) k c).
Proof.
  intros Hk. repeat (apply elem_of_cons in Hk as [-> | Hk]; [reflexivity|]).
  by apply elem_of_nil in Hk.
Qed.

Lemma through_dash_cases (v : sqlval) :
  (v = SNull ∨ v = SText "" → through_dash v = SText dash)
  ∧ (∀ s, v = SText s → s ≠ "" → through_dash v = SText s).
Proof.
  split.
  - by intros [-> | ->].
  - intros s -> Hs. unfold through_dash, js_or. cbn [js_of_sql].
    rewrite (proj2 (truthy_JStr s) Hs), (proj2 (truthy_JStr s) Hs).
    unfold normalized. rewrite bool_decide_eq_false_2; [done | congruence].
Qed.

Lemma through_blank_cases (v : sqlval) :
  (v = SNull ∨ v = SText "" → through_blank v = SNull)
  ∧ (∀ s, v = SText s → s ≠ "" → through_blank v = SText s).
Proof.
  split.
  - by intros [-> | ->].
  - intros s -> Hs. unfold through_blank, js_or. cbn [js_of_sql].
    rewrite (proj2 (truthy_JStr s) Hs), (proj2 (truthy_JStr s) Hs).
    unfold normalized. rewrite bool_decide_eq_false_2; [done | congruence].
Qed.

(** X26: saving the edit form of a listed company without changing
    anything is answered 200 but does not leave the company as it was:
    an industry or a location that was null or empty is stored as a dash,
    while a website or a phone that was null or empty is stored as null;
    a field that held a text is kept.  The company has a name, its id is a
    non-zero number, and these columns exist; the id column is an INTEGER
    column. *)
Theorem admin_edit_unchanged_save (now : Z) (d : db) (c : row) (z : Z) (n : string) :
  z ≠ 0 →
  int_column (Company d) "id" →
  has_cols (Company d) ["id"; "name"; "industry"; "location"; "website"; "phone"] = true →
  c ∈ rows (Company d) → get c "id" = SInt z → get c "name" = SText n → n ≠ "" →
  let b := update_request (openEditCompany (fetched_company (admin_listed_company d c))) in
  status (update_company pg_int_of_string now d (Int z) b).1 = 200%nat
  ∧ ∀ r, r ∈ rows (Company (update_company pg_int_of_string now d (Int z) b).2) →
         get r "id" = SInt z →
         get r "name" = SText n
         ∧ (∀ k, k ∈ ["industry"; "location"] →
                 (get c k = SNull ∨ get c k = SText "" → get r k = SText dash)
                 ∧ ∀ s, get c k = SText s → s ≠ "" → get r k = SText s)
         ∧ (∀ k, k ∈ ["website"; "phone"] →
                 (get c k = SNull ∨ get c k = SText "" → get r k = SNull)
                 ∧ ∀ s, get c k = SText s → s ≠ "" → get r k = SText s).
Proof.
  intros Hz Hint Hcols Hc Hcid Hname Hn b.
  assert (int4 z = true) as Hrange.
  { destruct (Hint c Hc) as [E | (z' & E & Hz')]; rewrite Hcid in E; [done|].
    by injection E as ->. }
  assert (∀ k, k ∈ ["id"; "name"; "industry"; "location"; "website"; "phone"] →
               k ∈ colnames (Company d)) as Hcol.
  { intros k Hk. apply has_cols_Forall in Hcols. rewrite Forall_forall in Hcols. auto. }
  assert (has_cols (Company d) ["id"] = true) as Hid.
  { unfold has_cols. cbn [forallb]. rewrite andb_true_r. apply has_elem, Hcol. in_list. }
  assert (∀ k, k ∈ ["name"; "industry"; "location"; "website"; "phone"] →
               is_Some (b !! k) ∧ k ∈ company_fields ∧ k ∈ colnames (Company d)
               ∧ has (colnames (Company d)) k = true) as Hkey.
  { intros k Hk. subst b. unfold update_request, company_fields.
    repeat (apply elem_of_cons in Hk as [-> | Hk];
            [split_and!; [by eexists | in_list | apply Hcol; in_list
                          | apply has_elem, Hcol; in_list]|]).
    by apply elem_of_nil in Hk. }
  assert (update_sets (colnames (Company d)) b ≠ []) as Hne.
  { intros E. destruct (Hkey "name") as (Hs & Hf & Hcn & Hh); [in_list|].
    assert (("name", bind_text (normalized (field b "name")))
              ∈ update_sets (colnames (Company d)) b) as Hin.
    { apply update_sets_elem. split_and!; [done | done | | done].
      by apply bool_decide_eq_true. }
    rewrite E in Hin. by apply elem_of_nil in Hin. }
  destruct (update_company_stored now d z b c Hz Hrange Hid Hc Hcid Hne) as [Hok Hstored].
  split; [exact Hok|]. intros r Hr Hrid.
  assert (∀ k, k ∈ ["name"; "industry"; "location"; "website"; "phone"] →
               get r k = bind_text (normalized (field b k))) as Hget.
  { intros k Hk. destruct (Hkey k Hk) as (Hs & Hf & Hcn & _). by apply (Hstored r Hr Hrid). }
  assert (field b "name" = JStr n) as Fname.
  { subst b. unfold update_request, field. cbn. unfold js_or.
    change (prop (admin_listed_company d c) "name") with (js_of_sql (get c "name")).
    rewrite Hname. cbn [js_of_sql]. by rewrite !(proj2 (truthy_JStr n) Hn). }
  assert (∀ k, k ∈ ["industry"; "location"; "website"; "phone"] →
               prop (admin_listed_company d c) k = js_of_sql (get c k)) as Hprop.
  { intros k Hk.
    assert (has (colnames (Company d)) k = true) as Hh.
    { apply Hkey. repeat (apply elem_of_cons in Hk as [-> | Hk]; [in_list|]).
      by apply elem_of_nil in Hk. }
    rewrite prop_listed_company.
    - by rewrite Hh.
    - repeat (apply elem_of_cons in Hk as [-> | Hk]; [in_list|]). by apply elem_of_nil in Hk. }
  assert (field b "industry" = js_or (js_or (js_of_sql (get c "industry")) (JStr dash)) (JStr "")
          ∧ field b "location"
            = js_or (js_or (js_of_sql (get c "location")) (JStr dash)) (JStr "")
          ∧ field b "website" = js_or (js_or (js_of_sql (get c "website")) (JStr "")) (JStr "")
          ∧ field b "phone" = js_or (js_or (js_of_sql (get c "phone")) (JStr "")) (JStr ""))
    as (Fi & Fl & Fw & Fp).
  { rewrite <- !Hprop by in_list. subst b. split_and!; reflexivity. }
  split_and!.
  - rewrite Hget by in_list. rewrite Fname. unfold normalized.
    rewrite bool_decide_eq_false_2; [done | congruence].
  - intros k Hk. apply elem_of_cons in Hk as [-> | Hk];
      [|apply elem_of_cons in Hk as [-> | Hk]; [|by apply elem_of_nil in Hk]].
    + rewrite Hget by in_list. rewrite Fi. apply through_dash_cases.
    + rewrite Hget by in_list. rewrite Fl. apply through_dash_cases.
  - intros k Hk. apply elem_of_cons in Hk as [-> | Hk];
      [|apply elem_of_cons in Hk as [-> | Hk]; [|by apply elem_of_nil in Hk]].
    + rewrite Hget by in_list. rewrite Fw. apply through_blank_cases.
    + rewrite Hget by in_list. rewrite Fp. apply through_blank_cases.
Qed.

End AdminEditProperties.

(** *** The directory of companies *)

(** X27: the company listing answers 200 with every company exactly once,
    and the employees of a company are the users whose companyId is the
    company's id, counted wherever the user has an id.  Primary keys of
    companies are distinct. *)
Theorem list_companies_employees (d : db) :
  has_cols (Company d) ["id"; "name"] = true →
  has_cols (User d) ["id"; "companyId"] = true →
  NoDup (ids (Company d)) →
  ∃ rs,
    list_companies d = {| status := 200; payload := JA (map json_of_fields rs) |}
    ∧ rs ≡ₚ map (directory_company d) (rows (Company d))
    ∧ map (field_of "id") rs ≡ₚ ids (Company d)
    ∧ ∀ r, r ∈ rs →
        ∃ c, c ∈ rows (Company d) ∧ field_of "id" r = get c "id"
             ∧ field_of "employees" r = SInt (sql_count (λ u : row, get u "id") (staff d c)).
Proof.
  intros Hc Hu Hnd.
  assert (∃ key, list_companies d
                 = res_json (JA (map json_of_fields
                                     (order_by_asc key (map (directory_company d)
                                                            (reverse (rows (Company d))))))))
    as (key & Heq).
  { destruct (q_companies_eq d Hc Hu Hnd) as (key & Hq). exists key.
    unfold list_companies, getTableColumns. cbn [tbl]. by rewrite Hq. }
  eexists. split; [exact Heq|].
  assert (order_by_asc key (map (directory_company d) (reverse (rows (Company d))))
          ≡ₚ map (directory_company d) (rows (Company d))) as Hperm.
  { unfold order_by_asc. rewrite <- !fmap_is_map, merge_sort_Permutation.
    by rewrite reverse_Permutation. }
  split_and!.
  - exact Hperm.
  - rewrite <- !fmap_is_map, Hperm, <- list_fmap_compose. done.
  - intros r Hr. rewrite Hperm in Hr.
    apply list_elem_of_In, in_map_iff in Hr as (c & <- & Hin).
    exists c. by rewrite list_elem_of_In.
Qed.

Section MoreProperties.

Context {platform : Unicode}.
Variable bcrypt_compare : string → string → bool.
Variable pg_int_of_string : string → option Z.

#[local] Set Default Proof Using "Type".


(** X29: a sign in for an address that no user has and a sign in with a
    wrong password for an address that a user has are answered alike, with
    status 401 and the message Invalid credentials. *)
Theorem login_unknown_like_wrong_password (d : db) (email password : string) :
  trim email ≠ "" → password ≠ "" →
  has_cols (User d) user_login_columns = true →
  match List.find (email_is (toLowerCase (trim email))) (rows (User d)) with
  | None =>
      login bcrypt_compare d (login_request email password)
      = {| status := 401; payload := JO [("message", JV (JStr "Invalid credentials."))] |}
  | Some u =>
      ∀ h, get u "password" = SText h → bcrypt_compare password h = false →
           login bcrypt_compare d (login_request email password)
           = {| status := 401; payload := JO [("message", JV (JStr "Invalid credentials."))] |}
  end.
Proof.
  intros He Hp Hc.
  assert (field (login_request email password) "email" = JStr email) as Fe by done.
  assert (field (login_request email password) "password" = JStr password) as Fp by done.
  assert (field (login_request email password) "role" = JUndefined) as Fr by done.
  destruct (List.find _ (rows (User d))) as [u|] eqn:E.
  - intros h Hh Hwrong.
    rewrite (login_found bcrypt_compare d _ email password h u) by done.
    rewrite Fr, role_accepted_absent, Hwrong. done.
  - unfold login. rewrite Fe, Fp, Fr. cbn [normalizeEmail].
    assert (truthy (JStr (toLowerCase (trim email))) = true) as ->.
    { apply truthy_JStr. by rewrite toLowerCase_empty. }
    assert (truthy (JStr password) = true) as -> by by apply truthy_JStr.
    cbn [negb orb]. unfold login_try, q_login_user. rewrite Hc. cbn [mbind result_bind].
    by rewrite E.
Qed.

End MoreProperties.

(** ** The properties on the sample installation *)

#[local] Existing Instance sample_unicode.

Ltac computed := vm_compute; first [reflexivity | exact I | congruence].

Lemma sample_users_int_column : int_column (User sample_db) "companyId".
Proof.
  intros r Hr. cbn [sample_db User sample_users rows] in Hr.
  repeat (apply elem_of_cons in Hr as [-> | Hr];
          [right; eexists; split; [vm_compute; reflexivity | reflexivity]|]).
  by apply elem_of_nil in Hr.
Qed.

Lemma sample_admin_found :
  List.find (email_is "admin@parc.tn") (rows (User sample_db))
  = Some (mkrow [("id", SInt 1); ("email", SText "Admin@Parc.tn");
                 ("password", SText "hashed:secret"); ("role", SText "ADMIN");
                 ("companyId", SInt 1)]).
Proof. vm_compute. reflexivity. Qed.

Lemma login_contract_witness :
  login sample_compare sample_db sample_login_no_password
  = {| status := 400;
       payload := JO [("message", JV (JStr "Email and password are required."))] |}
  ∧ login sample_compare sample_db sample_login =
      {| status := 200;
         payload :=
           JO [("token", JV (JStr "dev-session-token"));
               ("user", JO [("id", JV (JNum (Int 1)));
                            ("email", JV (JStr "Admin@Parc.tn"));
                            ("role", JV (JStr "admin"));
                            ("companyId", JV (JNum (Int 1)))])] |}.
Proof.
  split.
  - apply (proj1 (login_contract sample_compare sample_db sample_login_no_password)).
    right. computed.
  - refine (proj1 (proj2 (login_contract sample_compare sample_db sample_login)
                     " admin@parc.tn " "secret" "hashed:secret"
                     (mkrow [("id", SInt 1); ("email", SText "Admin@Parc.tn");
                             ("password", SText "hashed:secret"); ("role", SText "ADMIN");
                             ("companyId", SInt 1)])
                     _ _ _ _ _ _ _) _ _); computed.
Defined.

(** The claim on C1 as it is worded fails twice on this installation: an
    empty password, which does not match the stored hash, is answered 400
    and not 401; and the role admin, which is not the stored role ADMIN,
    is accepted. *)
Lemma login_claim_counterexample :
  ∃ u, List.find (email_is "admin@parc.tn") (rows (User sample_db)) = Some u
       ∧ get u "password" = SText "hashed:secret"
       ∧ get u "role" = SText "ADMIN"
       ∧ sample_compare "" "hashed:secret" = false
       ∧ status (login sample_compare sample_db sample_login_no_password) = 400%nat
       ∧ field sample_login "role" = JStr "admin"
       ∧ status (login sample_compare sample_db sample_login) = 200%nat.
Proof.
  eexists. split; [exact sample_admin_found|]. split_and!; computed.
Qed.

(** White space is trimmed as JavaScript trims it: the address after a
    no-break space finds the same user. *)
Example login_after_no_break_space :
  status (login sample_compare sample_db sample_login_nbsp) = 200%nat.
Proof. vm_compute. reflexivity. Qed.

Lemma login_token_constant_witness :
  json_field (payload (login sample_compare sample_db sample_login)) "token"
  = Some (JV (JStr "dev-session-token")).
Proof.
  refine (proj1 (login_token_constant sample_compare sample_db sample_db
                   sample_login sample_login _ _)); computed.
Defined.

Lemma list_companies_nulls_witness :
  ∃ rs,
    list_companies sample_db = {| status := 200; payload := JA (map json_of_fields rs) |}
    ∧ (∀ r, r ∈ rs → r.*1 = company_listing_fields ∧ ("location", SNull) ∈ r)
    ∧ ∀ c, c ∈ rows (Company sample_db) → ∃ r, r ∈ rs ∧ field_of "id" r = get c "id".
Proof.
  destruct (list_companies_nulls sample_db) as (rs & Heq & Hrec & Hall & _).
  - computed.
  - computed.
  - exists rs. split_and!; [exact Heq| |].
    + intros r Hr. destruct (Hrec r Hr) as (Hf & _ & Hnull). split; [exact Hf|].
      apply (Hnull "location").
      * apply (bool_decide_unpack _). computed.
      * apply (bool_decide_unpack _). computed.
    + intros c Hc. destruct (Hall c Hc) as (r & Hr & Hid & _). by exists r.
Defined.

Lemma sample_ids_distinct : NoDup (ids (Post sample_db)) ∧ NoDup (ids (Company sample_db)).
Proof. split; apply (bool_decide_unpack _); computed. Qed.

Lemma list_posts_contract_witness :
  ∃ rs,
    list_posts sample_db = {| status := 200; payload := JA (map json_of_fields rs) |}
    ∧ (length rs ≤ 100)%nat
    ∧ Sorted (desc createdAt_of) rs
    ∧ ∀ p c, p ∈ rows (Post sample_db) → c ∈ rows (Company sample_db) →
             sql_eq (get c "id") (get p "authorId") = true →
             listed_post sample_db (p, c) ∈ rs.
Proof.
  destruct (list_posts_contract sample_db) as (rs & Heq & Hlen & Hsorted & _ & _ & Hall);
    [first [apply sample_ids_distinct | computed]..|].
  exists rs. split_and!; [exact Heq | exact Hlen | exact Hsorted|].
  apply Hall. vm_compute. lia.
Defined.


(** The claim on C4 as it is worded fails on this installation: the request
    carries no companyId and a userId that names no user, so neither yields
    an existing company, but the userId does not fit an INTEGER, the lookup
    of the user raises, and the answer is 500 and not 400. *)
Lemma create_post_claim_counterexample :
  field sample_post_unreadable "companyId" = JUndefined
  ∧ field sample_post_unreadable "userId" = JNum (Int 2147483648)
  ∧ (∀ u, u ∈ rows (User sample_db) → get u "id" ≠ SInt 2147483648)
  ∧ effective_company sample_number sample_pg_int sample_db
                      (field sample_post_unreadable "companyId")
                      (field sample_post_unreadable "userId") = None
  ∧ status (create_post sample_number sample_pg_int 100 sample_db sample_post_unreadable).1
    = 500%nat
  ∧ status (create_post sample_number sample_pg_int 100 sample_db sample_post_unreadable).1
    ≠ 400%nat.
Proof.
  split_and!; try computed.
  intros u Hu. cbn [sample_db User sample_users rows] in Hu.
  repeat (apply elem_of_cons in Hu as [-> | Hu]; [vm_compute; discriminate|]).
  by apply elem_of_nil in Hu.
Qed.


(** The claim on C3 as it is worded fails on this installation, whose
    comments have the generic author column: the request carries no
    companyId and a userId that does not fit an INTEGER, so no author value is
    resolved, but the lookup of the user raises and the answer is 500 and
    not 400. *)
Lemma post_comment_claim_counterexample :
  (comment_author_of sample_number sample_pg_int sample_db
                     (field sample_comment_unreadable "companyId")
                     (field sample_comment_unreadable "userId")).1 = Some "authorId"
  ∧ truthy (comment_author_of sample_number sample_pg_int sample_db
                              (field sample_comment_unreadable "companyId")
                              (field sample_comment_unreadable "userId")).2 = false
  ∧ status (post_comment sample_number sample_pg_int 100 sample_db (Int 1)
                         sample_comment_unreadable).1 = 500%nat
  ∧ status (post_comment sample_number sample_pg_int 100 sample_db (Int 1)
                         sample_comment_unreadable).1 ≠ 400%nat.
Proof. split_and!; computed. Qed.

(** On the sample installation, whose comments name companies, a well-formed
    comment gets as far as line 1189 and is answered 500. *)
Example post_comment_sample :
  (post_comment sample_number sample_pg_int 100 sample_db (Int 1)
                (mkbody [("content", JStr "Hi"); ("companyId", JNum (Int 2))])).1
  = {| status := 500;
       payload := JO [("message", JV (JStr "updatedAtColumn is not defined"))] |}.
Proof. vm_compute. reflexivity. Qed.

Lemma message_listed_once_witness :
  ∃ m rs cs cr,
    (send_message sample_pg_int 100 sample_db sample_message).1
    = {| status := 200; payload := json_of_fields (returned_message m) |}
    ∧ list_messages sample_pg_int (send_message sample_pg_int 100 sample_db sample_message).2
                    (Int 1)
      = {| status := 200; payload := JA (map json_of_fields rs) |}
    ∧ occurrences (get m "id") rs = [message_fields m cs cr]
    ∧ get cs "id" = SInt 2 ∧ get cr "id" = SInt 1
    ∧ Sorted (asc createdAt_of) rs.
Proof.
  apply (message_listed_once sample_pg_int 100 sample_db sample_message 2 1 1).
  - computed.
  - apply sample_ids_distinct.
  - computed.
  - computed.
  - computed.
  - by right.
Defined.

Lemma sample_authors_data_model (rule : fk_rule) : data_model (sample_db_authors rule).
Proof. repeat constructor. Qed.


(** Where the foreign key of the author column has no rule, the database
    refuses to delete user 5, the delete is answered 500, and the comment
    and the user are still there. *)
Example delete_company_restricted :
  let out := delete_company sample_pg_int no_fault (sample_db_authors NoAction) (Int 2) in
  status out.1 = 500%nat
  ∧ rows (Comment (store out.2)) = rows (Comment (sample_db_authors NoAction))
  ∧ rows (User (store out.2)) = rows (User (sample_db_authors NoAction))
  ∧ last (log out.2) = Some SRollback.
Proof. vm_compute. split_and!; reflexivity. Qed.

Lemma company_fields_contract_witness :
  update_company sample_pg_int 100 sample_db (Int 2) sample_logo_only
  = ({| status := 400; payload := JO [("message", JV (JStr "No fields to update."))] |},
     sample_db).
Proof.
  refine (proj1 (proj2 (company_fields_contract sample_hash sample_pg_int no_fault 100
                          sample_db sample_logo_only (Int 2))) _ _).
  - computed.
  - intros k [v Hv]. unfold sample_logo_only, mkbody in Hv. cbn [list_to_map foldr] in Hv.
    apply lookup_insert_Some in Hv as [[<- _] | [_ Hv]].
    + apply (bool_decide_unpack _). computed.
    + by rewrite lookup_empty in Hv.
Defined.

(** The claim on C10 as it is worded fails for an id that is not a number
    other than zero: the body names no column, and the message is another. *)
Lemma update_claim_counterexample :
  (∀ k, is_Some ((∅ : body) !! k) → k ∉ colnames (Company sample_db))
  ∧ update_company sample_pg_int 100 sample_db (Int 0) ∅
    = ({| status := 400; payload := JO [("message", JV (JStr "Invalid company id."))] |},
       sample_db).
Proof.
  split.
  - intros k [v Hv]. by rewrite lookup_empty in Hv.
  - reflexivity.
Qed.

(** Atomicity at work: a create whose email is taken has inserted the company
    and then rolled it back; the id that the company had drawn is not given
    back. *)
Example create_company_taken_email :
  let out := create_company sample_hash no_fault 100 sample_db
               (mkbody [("name", JStr "Beta"); ("email", JStr "CONTACT@acme.tn");
                        ("password", JStr "pw")]) in
  out.1 = {| status := 400; payload := JO [("message", JV (JStr "Email already exists."))] |}
  ∧ rows (Company (store out.2)) = rows (Company sample_db)
  ∧ serial (Company (store out.2)) = serial (Company sample_db) + 1
  ∧ log out.2 = [SBegin; SCatalog TCompany; SInsert TCompany; SCatalog TUser; SEnum;
                 SSelect TUser; SRollback].
Proof. vm_compute. split_and!; reflexivity. Qed.

(** ** The further properties on the sample installation *)

Lemma sample_user_ids_distinct : NoDup (ids (User sample_db)).
Proof. apply (bool_decide_unpack _). computed. Qed.


Lemma delete_post_rejected_witness :
  status (delete_post sample_pg_int sample_db_snake (Int 1)).1 = 500%nat
  ∧ (delete_post sample_pg_int sample_db_snake (Int 1)).2 = sample_db_snake.
Proof.
  refine (proj2 (delete_post_rejected sample_pg_int sample_db_snake (Int 1)) _ _).
  - computed.
  - apply (bool_decide_unpack _). computed.
Defined.

Lemma list_comments_each_once_witness :
  ∃ rs,
    list_comments sample_pg_int sample_db (Int 1)
    = {| status := 200; payload := JA (map json_of_fields rs) |}
    ∧ map id_of rs ≡ₚ [SInt 1; SInt 2].
Proof.
  destruct (list_comments_each_once sample_pg_int sample_db 1 "postId")
    as (rs & Hrs & _ & Hids & _).
  - done.
  - reflexivity.
  - computed.
  - computed.
  - computed.
  - computed.
  - apply sample_ids_distinct.
  - apply sample_user_ids_distinct.
  - exists rs. split; [exact Hrs | exact Hids].
Defined.

Lemma admin_summary_newest_witness :
  status (admin_summary sample_toLocaleString sample_db) = 200%nat.
Proof.
  destruct (admin_summary_newest sample_toLocaleString sample_db)
    as (posts & activity & Heq & _).
  - computed.
  - computed.
  - computed.
  - rewrite Heq. reflexivity.
Defined.

Lemma admin_messages_newest_witness : status (admin_messages sample_db) = 200%nat.
Proof.
  destruct (admin_messages_newest sample_db) as (shown & Heq & _).
  - computed.
  - computed.
  - computed.
  - rewrite Heq. reflexivity.
Defined.

Lemma admin_companies_staff_witness :
  ∃ rs,
    admin_companies sample_db = {| status := 200; payload := JA (map json_of_fields rs) |}
    ∧ map (field_of "id") rs ≡ₚ ids (Company sample_db).
Proof.
  destruct (admin_companies_staff sample_db) as (rs & Heq & Hids & _).
  - computed.
  - computed.
  - apply sample_ids_distinct.
  - exists rs. split; [exact Heq | exact Hids].
Defined.

Lemma admin_users_each_once_witness :
  ∃ rs,
    admin_users sample_db = {| status := 200; payload := JA (map json_of_fields rs) |}
    ∧ rs ≡ₚ map (admin_listed_user sample_db) (rows (User sample_db)).
Proof.
  destruct (admin_users_each_once sample_db) as (rs & Heq & Hperm & _).
  - computed.
  - computed.
  - apply sample_user_ids_distinct.
  - apply sample_ids_distinct.
  - exists rs. split; [exact Heq | exact Hperm].
Defined.

Lemma admin_posts_newest_witness :
  ∃ rs,
    admin_posts sample_db = {| status := 200; payload := JA (map json_of_fields rs) |}
    ∧ (length rs ≤ 12)%nat.
Proof.
  destruct (admin_posts_newest sample_db) as (rs & Heq & Hlen & _).
  - computed.
  - computed.
  - computed.
  - apply sample_ids_distinct.
  - apply sample_ids_distinct.
  - exists rs. split; [exact Heq | exact Hlen].
Defined.

Lemma sample_second_user :
  List.find (λ r : row, sql_eq (get r "id") (SInt 2)) (rows (User sample_db))
  = Some (mkrow [("id", SInt 2); ("email", SText "contact@acme.tn");
                 ("password", SText "hashed:acme"); ("role", SText "company");
                 ("companyId", SInt 2)]).
Proof. vm_compute. reflexivity. Qed.


Lemma put_profile_user_stored_witness :
  ∃ f : row → row,
    rows (User (put_profile sample_pg_int 100 sample_db (JNum (Int 2)) JUndefined
                            sample_user_payload (PVal JUndefined)).2)
    = map f (rows (User sample_db)).
Proof.
  pose proof (put_profile_user_stored sample_pg_int 100 sample_db (JNum (Int 2)) JUndefined
                sample_user_payload (PVal JUndefined) 2) as H.
  cbn zeta in H. destruct H as (f & Hf & _).
  - reflexivity.
  - computed.
  - computed.
  - exists f. exact Hf.
Defined.

Lemma put_profile_keeps_user_on_failure_witness :
  status (put_profile sample_pg_int 100 sample_db (JNum (Int 2)) (JStr "abc")
                      sample_user_payload sample_company_payload).1 = 500%nat
  ∧ rows (User (put_profile sample_pg_int 100 sample_db (JNum (Int 2)) (JStr "abc")
                            sample_user_payload sample_company_payload).2)
    ≠ rows (User sample_db).
Proof.
  pose proof (put_profile_keeps_user_on_failure sample_pg_int 100 sample_db (JNum (Int 2))
                (JStr "abc") sample_user_payload sample_company_payload 2
                "invalid input syntax for type integer") as H.
  cbn zeta in H. destruct H as (H1 & H2 & _).
  - computed.
  - reflexivity.
  - computed.
  - computed.
  - intros E. vm_compute in E. discriminate.
  - computed.
  - reflexivity.
  - intros E. vm_compute in E. discriminate.
  - split.
    + exact H1.
    + rewrite H2. intros E. vm_compute in E. discriminate.
Defined.

Lemma notifications_round_trip_witness :
  get_notifications sample_pg_int
    (put_notifications sample_pg_int sample_jsonb 100 sample_installation (JNum (Int 1))
                       sample_notifications).2 (Int 1)
  = (put_notifications sample_pg_int sample_jsonb 100 sample_installation (JNum (Int 1))
                       sample_notifications).1.
Proof.
  pose proof (notifications_round_trip sample_pg_int sample_jsonb 100 sample_installation
                (JNum (Int 1)) sample_notifications 1) as H.
  cbn zeta in H. refine (proj1 (H _ _ _)).
  - reflexivity.
  - done.
  - computed.
Defined.

Lemma notifications_edges_witness :
  get_notifications sample_pg_int sample_installation (Int 1)
  = {| status := 200; payload := JO [("notifications", JO [])] |}.
Proof.
  refine (proj1 (notifications_edges sample_pg_int sample_jsonb 100 sample_installation
                   JUndefined 1) _ _ _).
  - done.
  - reflexivity.
  - reflexivity.
Defined.

Lemma ensureAdminCompany_idempotent_witness :
  ∃ d1, ensureAdminCompany 100 sample_db = (Ok (), d1) ∧ has_admin_company d1.
Proof.
  destruct (ensureAdminCompany_idempotent 100 sample_db) as (d1 & Hrun & Hadm & _).
  - computed.
  - exists d1. split; [exact Hrun | exact Hadm].
Defined.

Lemma resolveColumn_contract_witness :
  match resolveColumn ["id"; "Post_ID"] ["postId"; "post_id"] with
  | Some c =>
      c ∈ ["id"; "Post_ID"] ∧ c ≠ ""
      ∧ (∃ candidate, candidate ∈ ["postId"; "post_id"]
                      ∧ toLowerCase c = toLowerCase candidate)
      ∧ ∀ first rest, ["postId"; "post_id"] = first :: rest →
          (∃ column, column ∈ ["id"; "Post_ID"] ∧ toLowerCase column = toLowerCase first) →
          toLowerCase c = toLowerCase first
  | None =>
      ∀ c candidate, c ∈ ["id"; "Post_ID"] → candidate ∈ ["postId"; "post_id"] →
                     toLowerCase c ≠ toLowerCase candidate
  end.
Proof.
  apply (resolveColumn_contract ["id"; "Post_ID"] ["postId"; "post_id"]).
  repeat constructor; discriminate.
Defined.

Lemma quoteIdentifier_read_back_witness :
  read_identifier (String.append (quoteIdentifier_text sample_identifier) " = $1")
  = Some (sample_identifier, " = $1").
Proof.
  apply (quoteIdentifier_read_back sample_identifier " = $1").
  intros s. discriminate.
Defined.

Lemma getDisplayName_prefix_witness :
  ∃ rest, "contact@acme.tn" = String.append (getDisplayName "contact@acme.tn") rest.
Proof. exact (proj1 (getDisplayName_prefix "contact@acme.tn")). Defined.

Lemma client_login_demo_witness :
  isAuthenticated
    (client_login None 100 "x@y.tn" (Throw "Invalid credentials.")
                  {| authToken := None; auth_user := None |}).2 = true.
Proof.
  refine (proj1 (proj2 (proj1 (client_login_demo None 100 "x@y.tn"
                                 (Throw "Invalid credentials.")
                                 {| authToken := None; auth_user := None |}) _))).
  reflexivity.
Defined.

Lemma login_request_no_role_witness :
  payload (login sample_compare sample_db (login_request "contact@acme.tn" "acme"))
  ≠ JO [("message", JV (JStr "Invalid role for this account."))].
Proof. exact (login_request_no_role sample_compare sample_db "contact@acme.tn" "acme"). Defined.

Lemma conversations_partition_witness :
  map cv_id (conversations_effect (λ s, s) (λ s, s) (Some 1) sample_listed_companies
                                  sample_db_messages [])
  = [2; 3]
  ∧ conversations_effect (λ s, s) (λ s, s) None sample_listed_companies sample_db_messages []
    = [].
Proof.
  pose proof (conversations_partition (λ s, s) (λ s, s) (Some 1) sample_listed_companies
                sample_db_messages []) as H.
  pose proof (conversations_partition (λ s, s) (λ s, s) None sample_listed_companies
                sample_db_messages []) as H'.
  cbn zeta in H, H'. split.
  - refine (proj1 (proj2 (H _) 1 eq_refl _)).
    + apply (bool_decide_unpack _). vm_compute. exact I.
    + done.
  - refine (proj1 (H' _) _).
    + apply (bool_decide_unpack _). vm_compute. exact I.
    + by left.
Defined.

Lemma send_message_settles_witness :
  send_failed (-5) (send_shown (sample_db_message (-5) 1 2 "Essai") sample_db_messages)
  = sample_db_messages.
Proof.
  refine (proj1 (send_message_settles (sample_db_message (-5) 1 2 "Essai")
                   (sample_db_message 4 1 2 "Essai") None "Acme" sample_db_messages _)).
  apply (bool_decide_unpack _). vm_compute. exact I.
Defined.

Lemma handleLike_twice_witness :
  handleLike 7 (handleLike 7 sample_forum_posts) = sample_forum_posts.
Proof. exact (proj1 (handleLike_twice 7 sample_forum_posts)). Defined.

Lemma sample_messages_reference : messages_reference_companies sample_db.
Proof.
  intros m Hm. cbn [sample_db Message sample_messages rows] in Hm.
  apply list_elem_of_singleton in Hm as ->. split; computed.
Qed.

Lemma list_messages_complete_witness :
  ∃ rs,
    list_messages sample_pg_int sample_db (Int 1)
    = {| status := 200; payload := JA (map json_of_fields rs) |}
    ∧ map id_of rs ≡ₚ [SInt 1].
Proof.
  destruct (list_messages_complete sample_pg_int sample_db 1) as (rs & Heq & Hids & _).
  - done.
  - reflexivity.
  - computed.
  - computed.
  - apply sample_ids_distinct.
  - exact sample_messages_reference.
  - exists rs. split; [exact Heq | exact Hids].
Defined.

Lemma send_message_rejected_witness :
  status (send_message sample_pg_int 100 sample_db sample_message_to_nobody).1 ≠ 200%nat
  ∧ unchanged sample_db (send_message sample_pg_int 100 sample_db sample_message_to_nobody).2.
Proof.
  refine (proj2 (send_message_rejected sample_pg_int 100 sample_db sample_message_to_nobody)
            2 99 _ _ _).
  - reflexivity.
  - reflexivity.
  - right. computed.
Defined.

(** The refused message has used up an id. *)
Example send_message_refused_draws :
  serial (Message (send_message sample_pg_int 100 sample_db sample_message_to_nobody).2)
  = serial (Message sample_db) + 1.
Proof. vm_compute. reflexivity. Qed.

Lemma sample_full_int_column : int_column (Company sample_db_full) "id".
Proof.
  intros r Hr. cbn [sample_db_full Company sample_full_companies rows] in Hr.
  apply list_elem_of_singleton in Hr as ->.
  right. eexists. split; [vm_compute; reflexivity | reflexivity].
Qed.

Lemma admin_edit_unchanged_save_witness :
  status (update_company sample_pg_int 100 sample_db_full (Int 1)
            (update_request
               (openEditCompany
                  (fetched_company (admin_listed_company sample_db_full sample_full_company))))).1
  = 200%nat.
Proof.
  pose proof (admin_edit_unchanged_save sample_pg_int 100 sample_db_full sample_full_company
                1 "Acme") as H.
  cbn zeta in H. refine (proj1 (H _ sample_full_int_column _ _ _ _ _)).
  - done.
  - computed.
  - apply list_elem_of_here.
  - computed.
  - computed.
  - discriminate.
Defined.

(** The same on the sample: the industry that was null comes back as a dash,
    the website that was null stays null. *)
Example admin_edit_sample :
  map (λ r : row, (get r "industry", get r "location", get r "website", get r "phone"))
      (rows (Company
               (update_company sample_pg_int 100 sample_db_full (Int 1)
                  (update_request
                     (openEditCompany
                        (fetched_company
                           (admin_listed_company sample_db_full sample_full_company))))).2))
  = [(SText dash, SText "Tunis", SNull, SNull)].
Proof. vm_compute. reflexivity. Qed.

Lemma list_companies_employees_witness :
  ∃ rs,
    list_companies sample_db = {| status := 200; payload := JA (map json_of_fields rs) |}
    ∧ map (field_of "id") rs ≡ₚ ids (Company sample_db).
Proof.
  destruct (list_companies_employees sample_db) as (rs & Heq & _ & Hids & _).
  - computed.
  - computed.
  - apply sample_ids_distinct.
  - exists rs. split; [exact Heq | exact Hids].
Defined.


Lemma login_unknown_like_wrong_password_witness :
  login sample_compare sample_db (login_request "nobody@parc.tn" "secret")
  = {| status := 401; payload := JO [("message", JV (JStr "Invalid credentials."))] |}.
Proof.
  pose proof (login_unknown_like_wrong_password sample_compare sample_db "nobody@parc.tn"
                "secret") as H.
  assert (List.find (email_is (toLowerCase (trim "nobody@parc.tn"))) (rows (User sample_db))
          = None) as E by (vm_compute; reflexivity).
  rewrite E in H. apply H.
  - discriminate.
  - discriminate.
  - computed.
Defined.
